(* ===== verification/_CoqProject ===== *)
-Q . S2P
Prelude.v
RustStr.v
Cgroup.v
Redact.v
BuildId.v
RateLimit.v
RateCrash.v
Backend.v
Upload.v
Json.v
Events.v
Manifest.v
Snapshot.v
Config.v
Crictl.v
Handler.v
Captures.v
History.v
Storm.v
CorePattern.v
K8sEvents.v
ListenTime.v
Daemon.v
Main.v
NodeLife.v
TestsParsers.v
TestsState.v
TestsNode.v
TestsCapture.v
TestsCaps.v
