(* ===== verification/Prelude.v ===== *)
(** * coredrop: a verification development

    coredrop captures core dumps on a Kubernetes node. A daemon pod writes a config file
    for the handler, points the kernel's [core_pattern] at the binary and listens on a
    datagram socket; on every crash the kernel executes [coredrop capture %P %s %t %E] with
    the core on its standard input; that handler snapshots [/proc/<pid>], derives the pod
    from the cgroup file, asks the rate limiter, streams the core through zstd into an
    object store, uploads the snapshot and a manifest, and sends one event to the daemon,
    which logs it and turns it into a Kubernetes Event. This library translates that code
    (the Rust sources under src/src/) into executable definitions and proves what makes it
    correct.

    ** Files and sources

    - [Prelude]: bytes, machine-width integers, [result], tactics, hint databases and the
      list lemmas the components share. [RustStr]: what the sources use of Rust's text and
      path types (split, lines, trim, decimal printing and parsing, UTF-8 validation and the
      lossy conversion, [Path::join], [Path::parent]).
    - [Cgroup] (cgroup.rs): [parse_cgroup] on both kubelet layouts.
    - [Redact] (redact.rs): [redact_environ], [redact_cmdline], URLs, token shapes and the
      entropy heuristic, in binary64 arithmetic. [f64::log2] is a parameter: its last bit is
      platform dependent and no theorem relies on it; [soft_log2] instantiates it in
      the witnesses.
    - [BuildId] (buildid.rs): the ELF note parser; [outcome] distinguishes a value, the
      source's [None], and a panic, and a flag says whether the build has overflow checks.
    - [RateLimit] (ratelimit.rs): [check_state], [refund_state], the locked
      read-modify-write [with_locked_state] with a fault for each system call, and
      [Concurrent]: handlers as step machines that share the lock and the file, each system
      call of each handler fallible in the same way. [Spec] is the
      abstract sliding-window log they refine. [StateCodec] is the JSON text of the state; [TornLaws] says that a write that fails or
      is killed halfway leaves no JSON.
      [RateCrash] lets handlers be killed between any two system calls or inside their
      last write, after which the kernel releases their lock.
    - [Backend] (backend.rs): the kernel's pipe as timed events, reads under a deadline, the
      deadline itself ([deadline_at]: [Instant::now() + d] panics past the last [Instant]), the
      [CaptureBackend] class with its laws, the discarding backend.
    - [Upload] (upload.rs): object keys, the streaming pipeline from the pipe through the
      size cap, the zstd encoder and [HashingWriter] into the multipart sink, deadlines and
      aborts, single puts, the store options and the store builder. [ObjectStore],
      [BufWriter], [Zstd] and [ObjectPath] are interfaces with laws for the third-party
      crates; [Mem] implements them all in memory for the witnesses.
    - [Json], [Events] (events.rs), [Manifest] (manifest.rs): JSON values, the rules of
      serde's derived decoders (missing, null, duplicate and unknown fields, and the arrays
      that list the fields by position), the two wire
      formats, the datagram send. The text of a JSON value is the interface [JsonText];
      [token_text] instantiates it in the witnesses and tests.
    - [Snapshot] (snapshot.rs): the files of a crash snapshot, the capped reads, the fd
      listing, the tar; the proc file system is a record of functions.
    - [Config] (config.rs): defaults, (de)serialization, validation, the debug rendering,
      the replacement through a temporary file and the read, over a directory with the
      config, its temporary and links.
    - [Crictl] (crictl.rs): the command, its timeout and the field extraction.
    - [Handler] (handler.rs): [run] stage by stage, over the bucket, the limiter file, the
      socket and the summary log. [Captures] proves what whole runs do: nothing secret
      in them, manifests that read back, forensics of suppressed crashes. [History] is a sequence of runs,
      one per crash ([captures]), with the abstract node their reports follow ([verdict]).
      [Storm] is many runs at the same time: the stages of [run] one by one ([advance],
      which [stages_are_run] shows to be [run]), interleaved and killed by [step].
    - [CorePattern] (core_pattern.rs, health.rs): the guard over the two sysctls, sequences
      of daemon lives that end cleanly or by a kill, and the probe.
    - [K8sEvents] (k8s_events.rs): the socket, the aggregator, the API client from the
      service account and the environment, its requests, the listener loop over a list of
      inputs (datagrams, sweeps, receive errors). [ListenTime] is the loop's [select!] itself:
      a step relation over the socket's queue, the sweep timer and a clock.
    - [Daemon] (main.rs, lib.rs): dispatch, the config built from the flags and the environment (which
      panics when that is not UTF-8), [run_daemon]
      from its warnings and its startup, with a fault for each step, to the signal wait, with
      signals before, between and after the registration of their handlers, and
      the drop of the guard. [Main] (main.rs): [main] in its three modes, on the node state
      that the daemon, the probe and the handlers share (config files by path, sysctls,
      socket, bucket, limiter file). [NodeLife] is a node over time: daemons that
      start, fail, stop or are killed in between any two operations, and handlers, as a step
      relation on that state.
    - [TestsParsers], [TestsState], [TestsNode]: the unit tests of all modules as boolean
      definitions with the names of the test functions, on concrete instances of the
      interfaces, and one evaluation per module that they all pass.
      [TestsCapture] does the same for the integration tests (tests/handler.rs,
      tests/crictl.rs): whole captures over a fixture process tree and a store that can
      reject writes. [TestsCaps] states the four unit tests at the program's caps as
      propositions and proves them.

    ** What the theorems show

    - The capture ([Handler], [Upload], [Backend]): a manifest that was stored describes
      objects that are in the bucket and a core that decompresses to what was read; every
      run reports exactly once, but for the one panic of a deadline past the last [Instant];
      a failed drain stores nothing and gives its budget back while the limiter works; a
      crash with no target is drained, counted and has no other effect; a suppressed crash
      keeps its snapshot and manifest; what is stored reads back; the fd listing of a
      snapshot keeps what it should; an upload stores the stream up to
      the cap with its digest, fails cleanly, and completes on a store that accepts writes;
      keys of different captures differ.
    - Many captures ([History], [Storm]): no crash spoils the capture of another one; the
      reports of a node are those of an abstract node that remembers only the uploads it
      reported, so the budget of a pod holds end to end (while the limiter can use its file
      and the clock does not run backwards: it fails open otherwise); and however handlers interleave and
      wherever they are killed, a manifest in the bucket is of a complete capture.
    - The limiter ([RateLimit]): every interleaving of handlers, with any of their system
      calls failing, equals some order of whole operations, handlers never deadlock, a storm admits exactly its budget, the limiter
      refines the log and never exceeds the budget in a window, I/O errors fail open, a
      refund undoes a record, killed handlers block nobody and lose no more than the
      remembered events.
    - Confidentiality ([Redact], [Snapshot], [Config]): redacted output does not depend on
      the values the redactor takes for secrets ([publicly_equal] and [differ_in_flag_values]
      say which, and what it leaves), in the environment, on the command line, in the whole snapshot and in
      the whole run with all it stores, sends and logs;
      redaction keeps the framing and is idempotent; the debug rendering of a config hides
      store credentials.
    - Untrusted input ([Cgroup], [BuildId], [K8sEvents]): what a workload controls cannot
      change its identity, panic the parser or steer an API request; parsers invert the
      formats they read.
    - The node's state ([CorePattern], [Config], [Daemon], [Main]): a daemon that returns, for
      whatever reason, restores the sysctls, a capture runs with the config of the daemon
      that is up (with the defaults when it does not pass the handler's validation, and with
      none of it when the daemon keeps it elsewhere), kills never make a later restore point at the handler, the config is
      replaced atomically and reads back, the kernel is pointed at the handler last, and a
      started daemon passes its probe. Over any life of a node ([NodeLife]) every routed core
      finds the complete config of a launched daemon (at the default path), and nothing a daemon leaves blocks
      the next one.
    - The events ([Events], [Manifest], [K8sEvents], [Daemon]): what a handler reports,
      from the kernel's arguments on, is what the daemon logs; round trips, compatibility
      across releases, one Event per crash loop under a name of its own, patches only of Events that were
      posted, one log line per capture; every timed run of the loop ([ListenTime]) does what
      [run_listener] does on the arrivals in order, and a quiet daemon forgets its series; the
      token goes only to a server the cluster's CA vouches for.
    - Seven findings are stated too: [failed_create_is_not_retried],
      [cmdline_flag_after_flag_keeps_value], [url_password_after_at_kept],
      [build_id_overflow_checks_panic], [capture_follows_daemon] (with
      [custom_path_stores_nothing]), [run_reports_once] (with [endless_config_accepted]) and
      [run_daemon_restores] (with [non_utf8_environment_panics]).

    ** Bounds and fuel

    Loops over input recurse on the input. Fuel appears where they do not: UTF-8 decoding,
    trimming and [chunks] use the length of the text, which each iteration shortens;
    [scan_notes_loop] uses the length of the segment, since a note takes at least twelve
    bytes, and [build_id_release_total] shows that it is never exhausted for inputs Rust can
    allocate; [Upload.push] uses the length of the buffer, since a write that accepts no byte
    is an error. Integers keep their width where the code can reach it (offsets in
    [BuildId], the counters of [K8sEvents], the timestamps of [RateLimit]); byte counts of a
    stream are unbounded.

    ** Not modelled

    The flag parser (a parameter of [main]) and the logging setup; the third-party crates
    behind the interfaces: the HTTP exchange, PEM and URL parsing, zstd, SHA-256, tar, the
    stores; the wall clock and the monotonic clock, which the models take as arguments
    (the last [Instant] is 2^63-1 seconds, as on Linux); the unit tests' assertions that
    zstd made a core smaller and that a timed-out crictl is gone. In [Storm] a stage of a
    handler is one step, which its store operations allow: a put is atomic and a multipart
    upload appears when it completes; the limiter's critical section is split further in
    [RateLimit] and [RateCrash]. *)

From stdpp Require Export base tactics list list_numbers numbers option gmap fin_maps.
From Stdlib Require Export Strings.Byte.
From stdpp Require Export countable strings.

(** ** Bytes and byte strings

    Rust's [&[u8]], [Vec<u8>], [str], [String], [OsString] and [PathBuf] are all
    sequences of bytes; the text types carry the additional promise of being
    UTF-8, which the model states where the code checks it. *)

Abbreviation bytes := (list byte).

#[global] Instance byte_eq_dec : EqDecision byte := Byte.byte_eq_dec.
#[global] Instance byte_countable : Countable byte :=
  inj_countable Byte.to_N Byte.of_N Byte.of_to_N.
#[global] Instance byte_inhabited : Inhabited byte := populate x00.

Declare Scope bytes_scope.
Delimit Scope bytes_scope with bytes.

(** [b! "text"] is the byte string literal [b"text"] of the source. *)
Notation "'b!' s" := (String.list_byte_of_string s%string)
  (at level 9, s at level 0, only parsing) : bytes_scope.
#[global] Open Scope bytes_scope.

(** The numeric value of a byte. *)
Definition u8 (c : byte) : Z := Z.of_N (Byte.to_N c).

Definition byte_of_Z (z : Z) : byte :=
  default x00 (Byte.of_N (Z.to_N (z `mod` 256))).

Lemma u8_range c : (0 ≤ u8 c < 256)%Z.
Proof. unfold u8. pose proof (Byte.to_N_bounded c). lia. Qed.

Lemma u8_inj c d : u8 c = u8 d → c = d.
Proof.
  unfold u8. intros H. apply (inj Z.of_N) in H.
  pose proof (Byte.of_to_N c) as Hc. pose proof (Byte.of_to_N d) as Hd.
  rewrite H in Hc. congruence.
Qed.

(** ** Machine integers

    Release builds wrap on overflow, debug builds panic.  Values are kept as
    [Z]; the width is written out where the code's result depends on it. *)

Definition u32_max : Z := 4294967295.
Definition u64_max : Z := 18446744073709551615.
Definition usize_max : Z := u64_max.
Definition i32_min : Z := -2147483648.
Definition i32_max : Z := 2147483647.
Definition i64_min : Z := -9223372036854775808.
Definition i64_max : Z := 9223372036854775807.

Definition wrap_u32 (z : Z) : Z := z `mod` 4294967296.
Definition wrap_u64 (z : Z) : Z := z `mod` 18446744073709551616.
Definition wrap_i64 (z : Z) : Z :=
  (z + 9223372036854775808) `mod` 18446744073709551616 - 9223372036854775808.

(** [checked_add] and [checked_mul] of [u64]/[usize] (64-bit targets). *)
Definition checked_add (a b : Z) : option Z :=
  if decide (a + b ≤ u64_max)%Z then Some (a + b)%Z else None.
Definition checked_mul (a b : Z) : option Z :=
  if decide (a * b ≤ u64_max)%Z then Some (a * b)%Z else None.
Definition saturating_sub (a b : Z) : Z := Z.max 0 (a - b).

Lemma wrap_i64_small z : (i64_min ≤ z ≤ i64_max)%Z → wrap_i64 z = z.
Proof.
  unfold wrap_i64, i64_min, i64_max. intros.
  rewrite Z.mod_small; lia.
Qed.

Lemma wrap_u64_range z : (0 ≤ wrap_u64 z ≤ u64_max)%Z.
Proof. unfold wrap_u64, u64_max. pose proof (Z.mod_pos_bound z 18446744073709551616). lia. Qed.

Lemma wrap_u64_small z : (0 ≤ z ≤ u64_max)%Z → wrap_u64 z = z.
Proof. unfold wrap_u64, u64_max. intros. rewrite Z.mod_small; lia. Qed.

Lemma wrap_u32_small z : (0 ≤ z ≤ u32_max)%Z → wrap_u32 z = z.
Proof. unfold wrap_u32, u32_max. intros. rewrite Z.mod_small; lia. Qed.

(** ** Fallible code

    [Result<T, E>] of the source. *)

Inductive result (T E : Type) : Type :=
| Ok (v : T)
| Err (e : E).
Arguments Ok {T E} _.
Arguments Err {T E} _.

Definition is_ok {T E} (r : result T E) : bool :=
  match r with Ok _ => true | Err _ => false end.
Definition result_ok {T E} (r : result T E) : option T :=
  match r with Ok v => Some v | Err _ => None end.

Notation "'let?' p ':=' c 'in' k" :=
  (match c with Ok p => k | Err e => Err e end)
  (at level 10, p pattern, c at level 200, k at level 200) : stdpp_scope.

#[global] Instance result_eq_dec {T E} `{EqDecision T, EqDecision E} :
  EqDecision (result T E).
Proof. solve_decision. Defined.

(** ** Automation *)

Create HintDb coredrop.
Create Rewrite HintDb coredrop.

(** [destruct_cond] splits on the innermost condition of the goal or of a
    hypothesis; the workhorse for code with guards and early returns. *)
Ltac destruct_cond :=
  match goal with
  | |- context [if ?c then _ else _] => destruct c eqn:?
  | H : context [if ?c then _ else _] |- _ => destruct c eqn:?
  | |- context [match ?c with _ => _ end] => destruct c eqn:?
  | H : context [match ?c with _ => _ end] |- _ => destruct c eqn:?
  end.

Ltac split_conds := repeat (destruct_cond; simplify_eq/=; try done).

(** [bool_hyps] turns boolean guards into propositions. *)
Ltac bool_hyps :=
  repeat match goal with
  | H : (_ && _) = true |- _ => apply andb_prop in H as [? ?]
  | H : (_ || _) = false |- _ => apply orb_false_elim in H as [? ?]
  | H : negb _ = true |- _ => apply negb_true_iff in H
  | H : negb _ = false |- _ => apply negb_false_iff in H
  | H : bool_decide _ = true |- _ => apply bool_decide_eq_true in H
  | H : bool_decide _ = false |- _ => apply bool_decide_eq_false in H
  | H : (_ =? _)%Z = true |- _ => apply Z.eqb_eq in H
  | H : (_ =? _)%Z = false |- _ => apply Z.eqb_neq in H
  | H : (_ <=? _)%Z = true |- _ => apply Z.leb_le in H
  | H : (_ <=? _)%Z = false |- _ => apply Z.leb_gt in H
  | H : (_ <? _)%Z = true |- _ => apply Z.ltb_lt in H
  | H : (_ <? _)%Z = false |- _ => apply Z.ltb_ge in H
  end.

(** ** Generic list lemmas *)

(** The first [n] bytes; [Read::take] and [Vec::truncate]. *)
Definition takeZ {A} (n : Z) (s : list A) : list A :=
  take (Z.to_nat (Z.min n (Z.of_nat (length s)))) s.

Lemma takeZ_all {A} n (s : list A) : (Z.of_nat (length s) ≤ n)%Z → takeZ n s = s.
Proof. intros H. unfold takeZ. apply take_ge. lia. Qed.

Lemma takeZ_nil {A} n : takeZ n (@nil A) = [].
Proof. apply take_nil. Qed.

Lemma takeZ_0 {A} (s : list A) : takeZ 0 s = [].
Proof. unfold takeZ. by rewrite Z.min_l by lia. Qed.

Lemma length_takeZ {A} n (s : list A) :
  (0 ≤ n)%Z → Z.of_nat (length (takeZ n s)) = Z.min n (Z.of_nat (length s)).
Proof. intros. unfold takeZ. rewrite length_take. lia. Qed.

Lemma takeZ_takeZ {A} m n (s : list A) : (0 ≤ m ≤ n)%Z → takeZ m (takeZ n s) = takeZ m s.
Proof.
  intros. unfold takeZ at 1. rewrite length_takeZ by lia. unfold takeZ.
  rewrite take_take. f_equal. lia.
Qed.


Section lists.
Context {A : Type}.
Implicit Types (l k : list A) (P Q : A → bool).

Lemma forallb_Forall P l : forallb P l = true ↔ Forall (λ x, P x = true) l.
Proof.
  induction l as [|x l IH]; simpl.
  - split; [constructor | done].
  - rewrite andb_true_iff, IH, Forall_cons. done.
Qed.

Lemma forallb_app_iff P l k :
  forallb P (l ++ k) = true ↔ forallb P l = true ∧ forallb P k = true.
Proof. rewrite forallb_app. apply andb_true_iff. Qed.

Lemma forallb_weaken P Q l :
  (∀ x, P x = true → Q x = true) → forallb P l = true → forallb Q l = true.
Proof.
  intros HPQ. rewrite !forallb_Forall. intros H.
  eapply Forall_impl; [exact H | auto].
Qed.

Lemma forallb_not_elem P l x :
  forallb P l = true → P x = false → x ∉ l.
Proof.
  rewrite forallb_Forall, Forall_forall. intros H Hx Hin.
  specialize (H x Hin). congruence.
Qed.

(** Two words made of characters of a class, each followed by a separator
    outside it, are equal as soon as the whole texts are. *)
Lemma app_sep_inj P l1 l2 (c : A) k1 k2 :
  forallb P l1 = true → forallb P l2 = true → P c = false →
  l1 ++ c :: k1 = l2 ++ c :: k2 → l1 = l2 ∧ k1 = k2.
Proof.
  intros H1 H2 Hc. revert l2 H2.
  induction l1 as [|x l1 IH]; intros [|y l2] H2 Heq;
    simpl in *; simplify_eq; bool_hyps; try congruence; [done|].
  destruct (IH ltac:(done) l2 ltac:(done) ltac:(done)) as [-> ->]. done.
Qed.

Lemma filter_length_le (R : A → Prop) `{∀ x, Decision (R x)} l :
  length (filter R l) ≤ length l.
Proof.
  induction l as [|x l IH]; [done|].
  rewrite filter_cons. case_decide; simpl; lia.
Qed.

Lemma filter_all (R : A → Prop) `{∀ x, Decision (R x)} l :
  Forall R l → filter R l = l.
Proof.
  induction 1 as [|x l Hx _ IH]; [done|].
  rewrite filter_cons_True by done. by f_equal.
Qed.

Lemma filter_none (R : A → Prop) `{∀ x, Decision (R x)} l :
  Forall (λ x, ¬ R x) l → filter R l = [].
Proof.
  induction 1 as [|x l Hx _ IH]; [done|].
  by rewrite filter_cons_False.
Qed.
End lists.
