(* ===== verification/RustStr.v ===== *)
(** * The part of Rust's standard library the sources use on text

    Byte classes, prefix/suffix/substring search, splitting, joining, trimming,
    decimal printing and parsing, and UTF-8 validation with lossy decoding.
    All patterns the sources search for are ASCII, so working on bytes is
    working on [char]s. *)

From S2P Require Import Prelude.
From Stdlib Require DecimalZ.

(** ** Byte classes of [core::u8] *)

Definition in_range (lo hi : Z) (c : byte) : bool := (lo <=? u8 c)%Z && (u8 c <=? hi)%Z.
Definition is_ascii_digit : byte → bool := in_range 48 57.
Definition is_ascii_lowercase : byte → bool := in_range 97 122.
Definition is_ascii_uppercase : byte → bool := in_range 65 90.
Definition is_ascii_alphanumeric (c : byte) : bool :=
  is_ascii_digit c || is_ascii_lowercase c || is_ascii_uppercase c.
Definition is_ascii_hexdigit (c : byte) : bool :=
  is_ascii_digit c || in_range 97 102 c || in_range 65 70 c.

Definition byte_upper (c : byte) : byte :=
  if is_ascii_lowercase c then byte_of_Z (u8 c - 32) else c.
Definition byte_lower (c : byte) : byte :=
  if is_ascii_uppercase c then byte_of_Z (u8 c + 32) else c.
Definition to_ascii_uppercase (s : bytes) : bytes := map byte_upper s.
Definition to_ascii_lowercase (s : bytes) : bytes := map byte_lower s.

(** ** Prefixes, suffixes and substrings *)

Fixpoint strip_prefix (p s : bytes) : option bytes :=
  match p, s with
  | [], _ => Some s
  | _ :: _, [] => None
  | c :: p', d :: s' => if decide (c = d) then strip_prefix p' s' else None
  end.
Definition starts_with (p s : bytes) : bool := bool_decide (is_Some (strip_prefix p s)).
Definition strip_suffix (p s : bytes) : option bytes :=
  reverse <$> strip_prefix (reverse p) (reverse s).
Definition ends_with (p s : bytes) : bool := bool_decide (is_Some (strip_suffix p s)).

(** [find_sub pat s] is [s.find(pat)] together with the text after the match:
    the text before the first occurrence and the text after it. *)
Fixpoint find_sub (pat s : bytes) : option (bytes * bytes) :=
  match strip_prefix pat s with
  | Some rest => Some ([], rest)
  | None => match s with
            | [] => None
            | c :: s' => prod_map (cons c) id <$> find_sub pat s'
            end
  end.
Definition contains (pat s : bytes) : bool := bool_decide (is_Some (find_sub pat s)).

(** [break_at P s]: [s] split before the first byte satisfying [P]; the second
    part is empty when there is none. *)
Fixpoint break_at (P : byte → bool) (s : bytes) : bytes * bytes :=
  match s with
  | [] => ([], [])
  | c :: s' => if P c then ([], s)
               else let '(l, r) := break_at P s' in (c :: l, r)
  end.

Definition is_byte (c d : byte) : bool := bool_decide (c = d).

(** [str::split_once] with a [char] pattern. *)
Definition split_once (c : byte) (s : bytes) : option (bytes * bytes) :=
  match break_at (is_byte c) s with
  | (l, _ :: r) => Some (l, r)
  | (_, []) => None
  end.

(** [str::split]/[slice::split] with a single byte; never empty. *)
Fixpoint split (c : byte) (s : bytes) : list bytes :=
  match s with
  | [] => [[]]
  | d :: s' =>
      if decide (c = d) then [] :: split c s'
      else match split c s' with
           | [] => [[d]]
           | w :: ws => (d :: w) :: ws
           end
  end.

(** [str::rsplit(c).next()]: the last piece. *)
Definition rsplit_next (c : byte) (s : bytes) : bytes := List.last (split c s) [].

Fixpoint join (sep : bytes) (l : list bytes) : bytes :=
  match l with
  | [] => []
  | [w] => w
  | w :: l' => w ++ sep ++ join sep l'
  end.

(** [str::lines]: pieces between ["\n"]s; a piece ended by ["\n"] loses one
    trailing ["\r"], the last piece is dropped when empty and otherwise kept as
    it is. *)
Definition strip_cr (l : bytes) : bytes := default l (strip_suffix [x0d] l).
Definition lines (s : bytes) : list bytes :=
  let ps := split x0a s in
  map strip_cr (removelast ps) ++
  match List.last ps [] with [] => [] | w => [w] end.

(** ** [str::trim_end] / [str::trim]: Unicode [White_Space], in UTF-8 *)

Definition whitespace_chars : list bytes :=
  [[x09]; [x0a]; [x0b]; [x0c]; [x0d]; [x20]; [xc2; x85]; [xc2; xa0];
   [xe1; x9a; x80]; [xe2; x80; x80]; [xe2; x80; x81]; [xe2; x80; x82];
   [xe2; x80; x83]; [xe2; x80; x84]; [xe2; x80; x85]; [xe2; x80; x86];
   [xe2; x80; x87]; [xe2; x80; x88]; [xe2; x80; x89]; [xe2; x80; x8a];
   [xe2; x80; xa8]; [xe2; x80; xa9]; [xe2; x80; xaf]; [xe2; x81; x9f];
   [xe3; x80; x80]].

Fixpoint first_stripped (strip : bytes → bytes → option bytes)
    (pats : list bytes) (s : bytes) : option bytes :=
  match pats with
  | [] => None
  | p :: pats' => match strip p s with
                  | Some r => Some r
                  | None => first_stripped strip pats' s
                  end
  end.

Fixpoint trim_with (strip : bytes → bytes → option bytes) (fuel : nat) (s : bytes) : bytes :=
  match fuel with
  | O => s
  | S f => match first_stripped strip whitespace_chars s with
           | Some r => trim_with strip f r
           | None => s
           end
  end.

(** Each round removes at least one byte, so [length s] rounds are enough. *)
Definition trim_end (s : bytes) : bytes := trim_with strip_suffix (length s) s.
Definition trim_start (s : bytes) : bytes := trim_with strip_prefix (length s) s.
Definition trim (s : bytes) : bytes := trim_end (trim_start s).

(** ** Decimal integers *)

Fixpoint digits_of_uint (u : Decimal.uint) : bytes :=
  match u with
  | Decimal.Nil => []
  | Decimal.D0 u => "0"%byte :: digits_of_uint u
  | Decimal.D1 u => "1"%byte :: digits_of_uint u
  | Decimal.D2 u => "2"%byte :: digits_of_uint u
  | Decimal.D3 u => "3"%byte :: digits_of_uint u
  | Decimal.D4 u => "4"%byte :: digits_of_uint u
  | Decimal.D5 u => "5"%byte :: digits_of_uint u
  | Decimal.D6 u => "6"%byte :: digits_of_uint u
  | Decimal.D7 u => "7"%byte :: digits_of_uint u
  | Decimal.D8 u => "8"%byte :: digits_of_uint u
  | Decimal.D9 u => "9"%byte :: digits_of_uint u
  end.

(** [to_string()] of an integer. *)
Definition to_string (z : Z) : bytes :=
  match Z.to_int z with
  | Decimal.Pos u => digits_of_uint u
  | Decimal.Neg u => "-"%byte :: digits_of_uint u
  end.

Fixpoint uint_of_digits (s : bytes) : option Decimal.uint :=
  match s with
  | [] => Some Decimal.Nil
  | c :: s' =>
      u ← uint_of_digits s';
      match c with
      | "0"%byte => Some (Decimal.D0 u)
      | "1"%byte => Some (Decimal.D1 u)
      | "2"%byte => Some (Decimal.D2 u)
      | "3"%byte => Some (Decimal.D3 u)
      | "4"%byte => Some (Decimal.D4 u)
      | "5"%byte => Some (Decimal.D5 u)
      | "6"%byte => Some (Decimal.D6 u)
      | "7"%byte => Some (Decimal.D7 u)
      | "8"%byte => Some (Decimal.D8 u)
      | "9"%byte => Some (Decimal.D9 u)
      | _ => None
      end
  end.

Definition parse_digits (s : bytes) : option Z :=
  match s with
  | [] => None
  | _ => Z.of_uint <$> uint_of_digits s
  end.

Arguments parse_digits : simpl never.

(** [<iN>::from_str]: an optional sign, at least one digit, in range. *)
Definition parse_signed (lo hi : Z) (s : bytes) : option Z :=
  z ← match s with
      | "-"%byte :: r => Z.opp <$> parse_digits r
      | "+"%byte :: r => parse_digits r
      | _ => parse_digits s
      end;
  guard (lo ≤ z ≤ hi)%Z;; Some z.
Definition parse_i32 : bytes → option Z := parse_signed i32_min i32_max.
Definition parse_i64 : bytes → option Z := parse_signed i64_min i64_max.

(** [u64::from_str]: no minus sign. *)
Definition parse_u64 (s : bytes) : option Z :=
  z ← match s with "+"%byte :: r => parse_digits r | _ => parse_digits s end;
  guard (z ≤ u64_max)%Z;; Some z.

(** ** UTF-8

    One decoding step, following [core::str::from_utf8]: either a valid scalar
    value of a given width, or an invalid sequence whose maximal prefix has the
    given length ([Utf8Error::error_len], or the rest of an input cut short). *)

Inductive utf8_step := Utf8Valid (n : nat) | Utf8Invalid (n : nat).

Definition is_cont : byte → bool := in_range 128 191.

(** Ranges of the second byte by lead byte, excluding overlong forms,
    surrogates and code points above U+10FFFF. *)
Definition utf8_second (lead : Z) : option (nat * Z * Z) :=
  if decide (194 ≤ lead ≤ 223)%Z then Some (2, 128%Z, 191%Z)
  else if decide (lead = 224)%Z then Some (3, 160%Z, 191%Z)
  else if decide (225 ≤ lead ≤ 236)%Z then Some (3, 128%Z, 191%Z)
  else if decide (lead = 237)%Z then Some (3, 128%Z, 159%Z)
  else if decide (238 ≤ lead ≤ 239)%Z then Some (3, 128%Z, 191%Z)
  else if decide (lead = 240)%Z then Some (4, 144%Z, 191%Z)
  else if decide (241 ≤ lead ≤ 243)%Z then Some (4, 128%Z, 191%Z)
  else if decide (lead = 244)%Z then Some (4, 128%Z, 143%Z)
  else None.

Definition utf8_next (c : byte) (s : bytes) : utf8_step :=
  if decide (u8 c < 128)%Z then Utf8Valid 1 else
  match utf8_second (u8 c) with
  | None => Utf8Invalid 1
  | Some (w, lo, hi) =>
      match s with
      | [] => Utf8Invalid 1
      | d :: s1 =>
          if negb (in_range lo hi d) then Utf8Invalid 1
          else if decide (w = 2) then Utf8Valid 2 else
          match s1 with
          | [] => Utf8Invalid 2
          | e :: s2 =>
              if negb (is_cont e) then Utf8Invalid 2
              else if decide (w = 3) then Utf8Valid 3 else
              match s2 with
              | [] => Utf8Invalid 3
              | f :: _ => if is_cont f then Utf8Valid 4 else Utf8Invalid 3
              end
          end
      end
  end.

Fixpoint utf8_valid_fuel (fuel : nat) (s : bytes) : bool :=
  match fuel, s with
  | _, [] => true
  | O, _ :: _ => false
  | S f, c :: s' => match utf8_next c s' with
                    | Utf8Valid n => utf8_valid_fuel f (drop (n - 1) s')
                    | Utf8Invalid _ => false
                    end
  end.
Definition is_utf8 (s : bytes) : bool := utf8_valid_fuel (length s) s.

(** [std::str::from_utf8] / [OsStr::to_str]. *)
Definition from_utf8 (s : bytes) : option bytes := if is_utf8 s then Some s else None.

Definition replacement_char : bytes := [xef; xbf; xbd].

(** [String::from_utf8_lossy] / [to_string_lossy]. *)
Fixpoint lossy_fuel (fuel : nat) (s : bytes) : bytes :=
  match fuel, s with
  | _, [] => []
  | O, _ :: _ => []
  | S f, c :: s' => match utf8_next c s' with
                    | Utf8Valid n => c :: take (n - 1) s' ++ lossy_fuel f (drop (n - 1) s')
                    | Utf8Invalid n => replacement_char ++ lossy_fuel f (drop (n - 1) s')
                    end
  end.
Definition to_string_lossy (s : bytes) : bytes := lossy_fuel (length s) s.

(** ** Private directories *)

(** [ensure_private_dir] of [src/config.rs]: [create_dir_all], which leaves an existing
    directory alone and makes a new one with the mode the umask gives, then
    [set_permissions]. [chmod_fails] holds that mode when the second call fails. *)
Definition ensure_private_dir (create_fails : bool) (chmod_fails : option Z) (dir : option Z)
    : option Z * result unit unit :=
  if create_fails then (dir, Err tt)
  else match chmod_fails with
       | Some made => (Some (default made dir), Err tt)
       | None => (Some 448%Z, Ok tt)
       end.

(** ** Lemmas *)

Lemma strip_prefix_Some p s r : strip_prefix p s = Some r ↔ s = p ++ r.
Proof.
  revert s. induction p as [|c p IH]; intros [|d s]; simpl; try (split; congruence).
  case_decide; [subst; rewrite IH|]; split; congruence.
Qed.

Lemma strip_prefix_app p r : strip_prefix p (p ++ r) = Some r.
Proof. by apply strip_prefix_Some. Qed.

Lemma starts_with_true p s : starts_with p s = true ↔ ∃ r, s = p ++ r.
Proof.
  unfold starts_with. rewrite bool_decide_eq_true. unfold is_Some.
  by setoid_rewrite strip_prefix_Some.
Qed.

Lemma strip_suffix_Some p s r : strip_suffix p s = Some r ↔ s = r ++ p.
Proof.
  unfold strip_suffix. rewrite fmap_Some.
  setoid_rewrite strip_prefix_Some. split.
  - intros (x & Hx & ->). apply (f_equal reverse) in Hx.
    rewrite reverse_involutive in Hx. rewrite Hx, reverse_app.
    by rewrite reverse_involutive.
  - intros ->. exists (reverse r). by rewrite reverse_app, reverse_involutive.
Qed.

Lemma strip_suffix_app p r : strip_suffix p (r ++ p) = Some r.
Proof. by apply strip_suffix_Some. Qed.

Lemma find_sub_Some pat s l r : find_sub pat s = Some (l, r) → s = l ++ pat ++ r.
Proof.
  revert l r. induction s as [|c s IH]; intros l r; simpl.
  - destruct (strip_prefix pat []) eqn:E; [|done].
    intros [= <- <-]. by apply strip_prefix_Some in E.
  - destruct (strip_prefix pat (c :: s)) eqn:E.
    + intros [= <- <-]. by apply strip_prefix_Some in E.
    + intros ([l' r'] & ? & ?)%fmap_Some. simplify_eq/=.
      f_equal. by apply IH.
Qed.

Lemma find_sub_app pat l r : is_Some (find_sub pat (l ++ pat ++ r)).
Proof.
  induction l as [|c l IH]; simpl.
  - destruct pat as [|p pat]; [destruct r; simpl; eauto|].
    simpl. rewrite decide_True by done. rewrite strip_prefix_app. eauto.
  - destruct (strip_prefix pat _); [eauto|].
    destruct IH as [[l' r'] ->]. simpl. eauto.
Qed.

Lemma contains_true pat s : contains pat s = true ↔ ∃ l r, s = l ++ pat ++ r.
Proof.
  unfold contains. rewrite bool_decide_eq_true. split.
  - intros [[l r] H]. exists l, r. by apply find_sub_Some.
  - intros (l & r & ->). apply find_sub_app.
Qed.

Lemma break_at_spec P s l r :
  break_at P s = (l, r) →
  s = l ++ r ∧ forallb (negb ∘ P) l = true ∧
  match r with [] => True | c :: _ => P c = true end.
Proof.
  revert l r. induction s as [|c s IH]; intros l r; simpl.
  { intros [= <- <-]. done. }
  destruct (P c) eqn:E; [by intros [= <- <-]|].
  destruct (break_at P s) as [l' r'] eqn:B. intros [= <- <-].
  destruct (IH _ _ eq_refl) as (-> & ? & ?). simpl.
  unfold compose in *. by rewrite E.
Qed.

Lemma break_at_app P l c r :
  forallb (negb ∘ P) l = true → P c = true → break_at P (l ++ c :: r) = (l, c :: r).
Proof.
  induction l as [|d l IH]; simpl; intros Hl Hc; [by rewrite Hc|].
  apply andb_prop in Hl as [Hd Hl]. unfold compose in Hd.
  apply negb_true_iff in Hd. by rewrite Hd, IH.
Qed.

Lemma not_elem_forallb (c : byte) l :
  forallb (negb ∘ is_byte c) l = true ↔ c ∉ l.
Proof.
  induction l as [|d l IH]; simpl; [set_solver|].
  rewrite andb_true_iff, IH, not_elem_of_cons. unfold compose, is_byte.
  rewrite negb_true_iff, bool_decide_eq_false. done.
Qed.

Lemma split_once_Some c s l r :
  split_once c s = Some (l, r) ↔ s = l ++ c :: r ∧ c ∉ l.
Proof.
  unfold split_once. split.
  - destruct (break_at _ s) as [l' r'] eqn:B.
    apply break_at_spec in B as (-> & Hl & Hr).
    destruct r' as [|d r']; [done|]. intros [= <- <-].
    unfold is_byte in Hr. apply bool_decide_eq_true in Hr as <-.
    by apply not_elem_forallb in Hl.
  - intros [-> Hl%not_elem_forallb]. rewrite break_at_app; [done..|].
    by apply bool_decide_eq_true.
Qed.

Lemma split_once_None c s : split_once c s = None ↔ c ∉ s.
Proof.
  split.
  - unfold split_once. destruct (break_at _ s) as [l' r'] eqn:B.
    apply break_at_spec in B as (-> & Hl & Hr).
    destruct r' as [|d r']; [|done]. intros _.
    rewrite app_nil_r. by apply not_elem_forallb.
  - intros Hc. destruct (split_once c s) as [[l r]|] eqn:E; [|done].
    apply split_once_Some in E as [-> _]. set_solver.
Qed.

Lemma strip_prefix_sep p s c x :
  c ∉ p → is_Some (strip_prefix p (s ++ c :: x)) ↔ is_Some (strip_prefix p s).
Proof.
  revert s. induction p as [|d p IH]; intros s Hp; simpl; [done|].
  apply not_elem_of_cons in Hp as [Hd Hp]. destruct s as [|e s]; simpl.
  - rewrite decide_False by done. split; by intros [??].
  - case_decide; [by apply IH|]. done.
Qed.

Lemma starts_with_sep p s c x :
  c ∉ p → starts_with p (s ++ c :: x) = starts_with p s.
Proof. intros. apply bool_decide_ext. by apply strip_prefix_sep. Qed.

(** A pattern whose first byte does not occur before it is found there. *)
Lemma find_sub_first c p l r :
  c ∉ l → find_sub (c :: p) (l ++ (c :: p) ++ r) = Some (l, r).
Proof.
  induction l as [|d l IH]; intros Hl.
  - cbn [app]. simpl. rewrite decide_True by done. by rewrite strip_prefix_app.
  - apply not_elem_of_cons in Hl as [Hd Hl]. cbn [app]. simpl.
    rewrite decide_False by done. cbn [app] in IH. by rewrite IH.
Qed.

Lemma strip_prefix_long p s x :
  length p ≤ length s → is_Some (strip_prefix p (s ++ x)) ↔ is_Some (strip_prefix p s).
Proof.
  revert s. induction p as [|d p IH]; intros [|e s]; simpl; intros; try done; [lia|].
  case_decide; [apply IH; lia|done].
Qed.

(** Where a pattern is first found does not depend on the text after it. *)
Lemma find_sub_tail pat s l x y :
  find_sub pat s = Some (l, x) → find_sub pat (l ++ pat ++ y) = Some (l, y).
Proof.
  revert s. induction l as [|c l IH]; intros s H.
  - cbn [app]. destruct pat as [|p pat]; [by destruct y|].
    simpl. rewrite decide_True by done. by rewrite strip_prefix_app.
  - pose proof (find_sub_Some _ _ _ _ H) as ->. cbn [app find_sub] in *.
    destruct (strip_prefix pat (c :: l ++ pat ++ x)) eqn:E; [done|].
    assert (strip_prefix pat (c :: l ++ pat ++ y) = None) as ->.
    { apply eq_None_not_Some. apply eq_None_not_Some in E. revert E. apply not_iff_compat.
      rewrite !app_assoc, (app_comm_cons (l ++ pat) x), (app_comm_cons (l ++ pat) y).
      rewrite !(strip_prefix_long pat (c :: l ++ pat)); [done|..];
        cbn; rewrite ?length_app; lia. }
    apply fmap_Some in H as ([l' x'] & H & [= <- <-]). by rewrite (IH _ H).
Qed.

Lemma break_at_skip P l s :
  forallb (negb ∘ P) l = true →
  break_at P (l ++ s) = (l ++ fst (break_at P s), snd (break_at P s)).
Proof.
  induction l as [|c l IH]; simpl; [by destruct (break_at P s)|].
  intros [Hc Hl]%andb_prop. unfold compose in Hc. apply negb_true_iff in Hc.
  by rewrite Hc, IH.
Qed.

Lemma split_once_app c l r : c ∉ l → split_once c (l ++ c :: r) = Some (l, r).
Proof. intros. by apply split_once_Some. Qed.

(** *** Splitting and joining *)

Lemma split_not_nil c s : split c s ≠ [].
Proof. destruct s; simpl; [done|]. case_decide; [done|]. by destruct (split c s). Qed.

Lemma split_word c w : c ∉ w → split c w = [w].
Proof.
  induction w as [|d w IH]; [done|]. rewrite not_elem_of_cons.
  intros [Hd Hw]. simpl. rewrite decide_False by done. by rewrite IH.
Qed.

Lemma split_cons c w s : c ∉ w → split c (w ++ c :: s) = w :: split c s.
Proof.
  induction w as [|d w IH]; intros Hw; simpl.
  - by rewrite decide_True.
  - apply not_elem_of_cons in Hw as [Hd Hw].
    rewrite decide_False by done. by rewrite IH.
Qed.

Lemma split_pieces c s : Forall (λ w, c ∉ w) (split c s).
Proof.
  induction s as [|d s IH]; simpl.
  { constructor; [apply not_elem_of_nil|constructor]. }
  case_decide; [constructor; [apply not_elem_of_nil|done]|].
  destruct (split c s) as [|w ws].
  - constructor; [by apply not_elem_of_cons; split; [|apply not_elem_of_nil]|done].
  - apply Forall_cons in IH as [? ?].
    constructor; [by apply not_elem_of_cons|done].
Qed.

Lemma split_app c p q : split c (p ++ c :: q) = split c p ++ split c q.
Proof.
  induction p as [|d p IH]; simpl; [by rewrite decide_True|].
  rewrite IH. case_decide; [done|].
  destruct (split c p) eqn:E; [by destruct (split_not_nil c p)|done].
Qed.

Lemma rsplit_next_app c s w : c ∉ w → rsplit_next c (s ++ c :: w) = w.
Proof.
  intros Hw. unfold rsplit_next. rewrite split_app, (split_word c w) by done.
  apply List.last_last.
Qed.

Lemma strip_cr_id l : x0d ∉ l → strip_cr l = l.
Proof.
  intros Hl. unfold strip_cr. destruct (strip_suffix [x0d] l) eqn:E; [|done].
  apply strip_suffix_Some in E as ->. set_solver.
Qed.

Lemma lines_single l : x0a ∉ l → x0d ∉ l → lines (l ++ [x0a]) = [l].
Proof.
  intros Hl Hr. unfold lines. rewrite split_cons by done. simpl.
  by rewrite strip_cr_id.
Qed.

Lemma join_cons sep w w' l : join sep (w :: w' :: l) = w ++ sep ++ join sep (w' :: l).
Proof. done. Qed.

Lemma join_head sep d w l : join sep ((d :: w) :: l) = d :: join sep (w :: l).
Proof. by destruct l. Qed.

Lemma join_split c s : join [c] (split c s) = s.
Proof.
  induction s as [|d s IH]; [done|]. simpl split.
  destruct (split c s) as [|w ws] eqn:E.
  { by destruct (split_not_nil c s). }
  case_decide; [subst d; by rewrite join_cons, IH|by rewrite join_head, IH].
Qed.

Lemma elem_of_join d sep l :
  d ∈ join sep l → d ∈ sep ∨ ∃ w, w ∈ l ∧ d ∈ w.
Proof.
  induction l as [|w [|w' l] IH]; [by intros ?%elem_of_nil|simpl|].
  - intros ?. right. exists w. split; [by left|done].
  - rewrite join_cons, !elem_of_app. intros [?|[?|?]].
    + right. exists w. split; [by left|done].
    + by left.
    + destruct IH as [?|(v & ? & ?)]; [done|by left|].
      right. exists v. split; [by right|done].
Qed.

Lemma elem_of_join_2 d sep l w : w ∈ l → d ∈ w → d ∈ join sep l.
Proof.
  intros Hw Hd. induction l as [|v [|v' l] IH].
  - by apply elem_of_nil in Hw.
  - by apply list_elem_of_singleton in Hw as ->.
  - rewrite join_cons, !elem_of_app. apply elem_of_cons in Hw as [->|Hw]; auto.
Qed.

Lemma elem_of_split d c s w : w ∈ split c s → d ∈ w → d ∈ s.
Proof. intros. rewrite <- (join_split c s). by eapply elem_of_join_2. Qed.

Lemma split_join c l : l ≠ [] → Forall (λ w, c ∉ w) l → split c (join [c] l) = l.
Proof.
  intros Hl. induction 1 as [|w l Hw H IH]; [done|].
  destruct l as [|v l]; [by apply split_word|].
  rewrite join_cons. cbn [app]. rewrite split_cons by done. by rewrite IH.
Qed.

(** Joined lines read back. *)
Lemma lines_join l w : Forall (λ w, (x0a ∉ w) ∧ (x0d ∉ w)) l → x0a ∉ w → w ≠ [] → lines (join [x0a] (l ++ [w])) = l ++ [w].
Proof.
  intros Hl Hw Hne. unfold lines. rewrite split_join; cycle 1.
  - by destruct l.
  - apply Forall_app. split; [|by constructor]. eapply Forall_impl; [exact Hl|]. by intros ? [? _].
  - rewrite removelast_last, List.last_last. f_equal; [|by destruct w].
    rewrite <- (map_id l) at 2. apply map_ext_Forall. eapply Forall_impl; [exact Hl|].
    intros v [_ Hv]. by apply strip_cr_id.
Qed.

(** *** NUL-separated blobs *)

(** The non-empty pieces between NULs. *)
Definition entries (raw : bytes) : list bytes := filter (λ e, e ≠ []) (split x00 raw).

(** The blob that holds the given entries, each terminated by a NUL. *)
Definition blob (es : list bytes) : bytes := concat (map (λ e, e ++ [x00]) es).

Definition entry_ok (e : bytes) : Prop := e ≠ [] ∧ x00 ∉ e.

Lemma entries_ok raw : Forall entry_ok (entries raw).
Proof.
  unfold entries. apply Forall_forall. intros e [Hne He]%list_elem_of_filter.
  split; [done|]. pose proof (split_pieces x00 raw) as H.
  rewrite Forall_forall in H. by apply H.
Qed.

Lemma entries_blob es : Forall entry_ok es → entries (blob es) = es.
Proof.
  unfold entries, blob. induction 1 as [|e es [Hne H0] _ IH]; [done|].
  cbn [map concat]. rewrite <- app_assoc. cbn [app].
  rewrite split_cons by done. rewrite filter_cons_True by done. by rewrite IH.
Qed.

(** *** Decimal integers *)

Lemma uint_digits u : uint_of_digits (digits_of_uint u) = Some u.
Proof. induction u as [|u IH|u IH|u IH|u IH|u IH|u IH|u IH|u IH|u IH|u IH]; simpl; rewrite ?IH; done. Qed.

Lemma digits_of_uint_digits u : forallb is_ascii_digit (digits_of_uint u) = true.
Proof. induction u; simpl; done. Qed.

#[export] Hint Resolve digits_of_uint_digits : coredrop.

Lemma digits_not_nil u : u ≠ Decimal.Nil → digits_of_uint u ≠ [].
Proof. by destruct u. Qed.

Lemma to_int_uint_not_nil z :
  match Z.to_int z with Decimal.Pos u | Decimal.Neg u => u ≠ Decimal.Nil end.
Proof.
  pose proof (DecimalZ.of_to z) as Hof. destruct (Z.to_int z) as [u|u] eqn:E.
  - intros ->. simpl in Hof. subst z. by vm_compute in E.
  - intros ->. simpl in Hof. subst z. by vm_compute in E.
Qed.

Lemma parse_digits_of_uint u :
  u ≠ Decimal.Nil → parse_digits (digits_of_uint u) = Some (Z.of_uint u).
Proof.
  intros Hu. unfold parse_digits.
  destruct (digits_of_uint u) eqn:E; [by destruct u|].
  by rewrite <- E, uint_digits.
Qed.

Lemma to_string_cases z :
  ∃ u, u ≠ Decimal.Nil ∧
    ((to_string z = digits_of_uint u ∧ z = Z.of_uint u) ∨
     (to_string z = "-"%byte :: digits_of_uint u ∧ z = (- Z.of_uint u)%Z)).
Proof.
  unfold to_string. pose proof (DecimalZ.of_to z) as Hof.
  pose proof (to_int_uint_not_nil z) as Hn.
  destruct (Z.to_int z) as [u|u]; exists u; simpl in Hof; naive_solver.
Qed.

Lemma parse_signed_to_string lo hi z :
  (lo ≤ z ≤ hi)%Z → parse_signed lo hi (to_string z) = Some z.
Proof.
  intros Hz. unfold parse_signed.
  destruct (to_string_cases z) as (u & Hu & [[-> Hv]|[-> Hv]]).
  - pose proof (parse_digits_of_uint u Hu) as Hp.
    destruct u; simpl digits_of_uint in *; simpl;
      [done|rewrite Hp; simpl; rewrite <- Hv; by case_guard..].
  - rewrite (parse_digits_of_uint u Hu). simpl. rewrite <- Hv. by case_guard.
Qed.

#[global] Instance to_string_inj : Inj (=) (=) to_string.
Proof.
  intros x y H.
  pose proof (parse_signed_to_string (Z.min x y) (Z.max x y) x ltac:(lia)) as Hx.
  pose proof (parse_signed_to_string (Z.min x y) (Z.max x y) y ltac:(lia)) as Hy.
  rewrite H in Hx. congruence.
Qed.

(** The characters of a printed integer. *)
Definition is_int_byte (c : byte) : bool := is_ascii_digit c || is_byte "-"%byte c.

Lemma to_string_chars z : forallb is_int_byte (to_string z) = true.
Proof.
  destruct (to_string_cases z) as (u & _ & [[-> _]|[-> _]]); simpl;
    (eapply forallb_weaken; [|apply digits_of_uint_digits]);
    intros c Hc; unfold is_int_byte; by rewrite Hc.
Qed.

Lemma to_string_not_nil z : to_string z ≠ [].
Proof.
  destruct (to_string_cases z) as (u & Hu & [[-> _]|[-> _]]); [|done].
  by apply digits_not_nil.
Qed.

(** A printed integer followed by a separating dash can be read back: the
    number and the text after the dash are determined. *)
Lemma to_string_dash_inj x y k1 k2 :
  to_string x ++ "-"%byte :: k1 = to_string y ++ "-"%byte :: k2 → x = y ∧ k1 = k2.
Proof.
  intros H.
  assert (to_string x = to_string y ∧ k1 = k2) as [Hs ->].
  { revert H. destruct (to_string_cases x) as (u & Hu & [[-> _]|[-> _]]),
      (to_string_cases y) as (v & Hv & [[-> _]|[-> _]]); intros H.
    - exact (app_sep_inj is_ascii_digit _ _ "-"%byte _ _
        (digits_of_uint_digits u) (digits_of_uint_digits v) eq_refl H).
    - destruct u; simpl in H; simplify_eq.
    - destruct v; simpl in H; simplify_eq.
    - injection H as H.
      destruct (app_sep_inj is_ascii_digit _ _ "-"%byte _ _
        (digits_of_uint_digits u) (digits_of_uint_digits v) eq_refl H) as [-> ->].
      done. }
  split; [by apply (inj to_string)|done].
Qed.

Lemma parse_digits_pos p : parse_digits (to_string (Zpos p)) = Some (Zpos p).
Proof.
  destruct (to_string_cases (Zpos p)) as (u & Hu & [[-> Hz]|[_ Hz]]).
  - by rewrite parse_digits_of_uint, <- Hz.
  - assert (0 ≤ Z.of_uint u)%Z by (unfold Z.of_uint; lia). lia.
Qed.

(** ** Paths

    [Path::join] and [Path::parent] for the paths the program builds. *)
Definition path_join (base name : bytes) : bytes :=
  if starts_with (b! "/") name then name
  else if bool_decide (base = []) || ends_with (b! "/") base then base ++ name
  else base ++ b! "/" ++ name.

Fixpoint strip_slashes (s : bytes) : bytes :=
  match s with
  | [] => []
  | c :: s => match strip_slashes s with
              | [] => if decide (c = "/"%byte) then [] else [c]
              | s => c :: s
              end
  end.

(** Of paths without [.] components. *)
Definition path_parent (p : bytes) : option bytes :=
  match strip_slashes p with
  | [] => None
  | q => match reverse (split "/"%byte q) with
         | _ :: ((_ :: _) as dirs) =>
             let d := strip_slashes (join [ "/"%byte ] (reverse dirs)) in
             Some (if decide (d = []) then b! "/" else d)
         | _ => Some []
         end
  end.
Definition is_absolute (p : bytes) : bool := starts_with (b! "/") p.

Lemma path_join_inj base n1 n2 :
  starts_with (b! "/") n1 = false → starts_with (b! "/") n2 = false →
  path_join base n1 = path_join base n2 → n1 = n2.
Proof.
  unfold path_join. intros -> ->. destruct (_ || _).
  - apply (inj (base ++.)).
  - intros H%(inj (base ++.)). by injection H.
Qed.

(** *** Directories *)

Lemma ensure_private_ok c m d d' : ensure_private_dir c m d = (d', Ok tt) → d' = Some 448%Z.
Proof. unfold ensure_private_dir. destruct c, m; by intros [= <-]. Qed.

(** *** UTF-8 *)

Lemma utf8_ascii s : forallb (λ c, (u8 c <? 128)%Z) s = true → is_utf8 s = true.
Proof.
  unfold is_utf8. induction s as [|c s IH]; [done|]. simpl.
  intros [Hc Hs]%andb_prop. apply Z.ltb_lt in Hc.
  unfold utf8_next. rewrite decide_True by done. simpl.
  by rewrite drop_0, IH.
Qed.

Lemma lossy_ascii s : forallb (λ c, (u8 c <? 128)%Z) s = true → to_string_lossy s = s.
Proof.
  unfold to_string_lossy. induction s as [|c s IH]; [done|]. simpl.
  intros [Hc Hs]%andb_prop. apply Z.ltb_lt in Hc.
  unfold utf8_next. rewrite decide_True by done. simpl. by rewrite drop_0, IH.
Qed.

Lemma utf8_next_width c s n : utf8_next c s = Utf8Valid n → 1 ≤ n ≤ S (length s).
Proof. unfold utf8_next. intros H. repeat (case_match; simplify_eq/=; try lia). Qed.

Lemma utf8_next_app c s t n : utf8_next c s = Utf8Valid n → utf8_next c (s ++ t) = Utf8Valid n.
Proof.
  unfold utf8_next. destruct s as [|d [|e [|f s]]]; cbn [app]; intros H;
    repeat (case_match; simplify_eq/=; try done).
Qed.

(** The bytes of a decoded character decode to it alone. *)
Lemma utf8_next_take c s n :
  utf8_next c s = Utf8Valid n → utf8_next c (take (n - 1) s) = Utf8Valid n.
Proof.
  unfold utf8_next. destruct s as [|d [|e [|f s]]]; intros H;
    repeat (case_match; simplify_eq/=; try done).
Qed.

Lemma utf8_valid_more f1 f2 s :
  length s ≤ f1 → length s ≤ f2 → utf8_valid_fuel f1 s = utf8_valid_fuel f2 s.
Proof.
  revert f2 s. induction f1 as [|f1 IH]; intros [|f2] [|c s] H1 H2; cbn in *; try lia; [done..|].
  destruct (utf8_next c s) as [n|] eqn:E; [|done].
  apply IH; rewrite length_drop; lia.
Qed.

Lemma is_utf8_cons c s n :
  utf8_next c s = Utf8Valid n → is_utf8 (c :: s) = is_utf8 (drop (n - 1) s).
Proof.
  intros E. unfold is_utf8. cbn. rewrite E. apply utf8_valid_more; rewrite length_drop; lia.
Qed.

Lemma is_utf8_app s t : is_utf8 s = true → is_utf8 t = true → is_utf8 (s ++ t) = true.
Proof.
  induction s as [s IH] using (well_founded_induction (well_founded_ltof _ length)).
  intros Hs Ht. destruct s as [|c s]; [done|].
  destruct (utf8_next c s) as [n|n] eqn:E.
  - pose proof (utf8_next_width _ _ _ E). cbn [app].
    rewrite (is_utf8_cons _ _ _ (utf8_next_app _ _ t _ E)), drop_app_le by lia.
    apply IH; [unfold ltof; cbn; rewrite length_drop; lia| |done].
    by rewrite <- (is_utf8_cons _ _ _ E).
  - unfold is_utf8 in Hs. cbn in Hs. by rewrite E in Hs.
Qed.

Lemma is_utf8_join sep l :
  is_utf8 sep = true → Forall (λ s, is_utf8 s = true) l → is_utf8 (join sep l) = true.
Proof.
  intros Hsep. induction 1 as [|s l Hs Hl IH]; [done|]. destruct l as [|s' l]; [done|].
  rewrite join_cons. by repeat apply is_utf8_app.
Qed.

(** The lossy conversion always yields text. *)
Lemma is_utf8_lossy s : is_utf8 (to_string_lossy s) = true.
Proof.
  unfold to_string_lossy. generalize (length s). intros f. revert s.
  induction f as [|f IH]; intros [|c s]; try done. cbn [lossy_fuel].
  destruct (utf8_next c s) as [n|n] eqn:E.
  - pose proof (utf8_next_width _ _ _ E).
    rewrite app_comm_cons. apply is_utf8_app; [|apply IH].
    rewrite (is_utf8_cons _ _ _ (utf8_next_take _ _ _ E)).
    by rewrite drop_ge by (rewrite length_take; lia).
  - by apply is_utf8_app.
Qed.

Lemma is_utf8_to_string z : is_utf8 (to_string z) = true.
Proof.
  apply utf8_ascii. eapply forallb_weaken; [|apply to_string_chars]. intros c. by destruct c.
Qed.

(** Text that ends in the last byte of no whitespace character is not trimmed. *)
Lemma trim_end_last s c :
  last s = Some c →
  forallb (λ w, bool_decide (w ≠ [] ∧ last w ≠ Some c)) whitespace_chars = true →
  trim_end s = s.
Proof.
  intros Hs Hw. unfold trim_end. destruct s as [|x s]; [done|]. cbn [length trim_with].
  revert Hw. generalize whitespace_chars. intros pats Hw.
  assert (first_stripped strip_suffix pats (x :: s) = None) as ->; [|done].
  induction pats as [|p pats IH]; [done|]. cbn [first_stripped forallb] in *. bool_hyps.
  destruct (strip_suffix p (x :: s)) as [r|] eqn:E; [|by apply IH].
  apply strip_suffix_Some in E. rewrite E, last_app in Hs.
  destruct (last p) eqn:Hl; [naive_solver|]. apply last_None in Hl. naive_solver.
Qed.

Lemma parse_signed_range lo hi s n : parse_signed lo hi s = Some n → (lo ≤ n ≤ hi)%Z.
Proof.
  unfold parse_signed. destruct (match s with [] => _ | _ :: _ => _ end) as [z|]; [|done]. cbn.
  case_guard; [|done]. by intros [= <-].
Qed.

Lemma from_utf8_Some s t : from_utf8 s = Some t → t = s.
Proof. unfold from_utf8. by destruct (is_utf8 s); intros; simplify_eq. Qed.

(** *** UTF-8 at character boundaries *)

Lemma utf8_second_cont lead w lo hi d :
  utf8_second lead = Some (w, lo, hi) → in_range lo hi d = true → is_cont d = true.
Proof.
  unfold utf8_second, is_cont, in_range. intros H Hd. bool_hyps.
  apply andb_true_intro. repeat (case_decide; simplify_eq); split; apply Z.leb_le; lia.
Qed.

(** The text [b] does not start inside a character. *)
Definition at_boundary (b : bytes) : bool := match b with [] => true | d :: _ => negb (is_cont d) end.

(** A character that starts before a boundary ends before it. *)
Lemma utf8_next_boundary c a b n :
  at_boundary b = true → utf8_next c (a ++ b) = Utf8Valid n → utf8_next c a = Utf8Valid n.
Proof.
  unfold utf8_next. case_decide; [done|].
  destruct (utf8_second (u8 c)) as [[[w lo] hi]|] eqn:E2; [|done].
  destruct b as [|d' b]; [by rewrite app_nil_r|]. cbn [at_boundary]. intros Hb.
  destruct a as [|d [|e [|f a]]]; cbn [app]; intros Hn; try done.
  - destruct (in_range lo hi d') eqn:Hd; [|done].
    apply (utf8_second_cont _ _ _ _ _ E2) in Hd. by rewrite Hd in Hb.
  - destruct (negb (in_range lo hi d)); [done|]. case_decide; [done|].
    by destruct (is_cont d').
  - destruct (negb (in_range lo hi d)); [done|]. case_decide; [done|].
    destruct (negb (is_cont e)); [done|]. case_decide; [done|]. by destruct (is_cont d').
Qed.

Lemma is_utf8_next c s : is_utf8 (c :: s) = true → ∃ n, utf8_next c s = Utf8Valid n.
Proof. unfold is_utf8. cbn. destruct (utf8_next c s); [eauto|done]. Qed.

Lemma is_utf8_boundary a b :
  at_boundary b = true → is_utf8 (a ++ b) = true → is_utf8 a = true ∧ is_utf8 b = true.
Proof.
  intros Hb. induction a as [a IH] using (well_founded_induction (well_founded_ltof _ length)).
  destruct a as [|c a]; [done|]. cbn [app]. intros Hu.
  destruct (is_utf8_next _ _ Hu) as [n En]. pose proof (utf8_next_boundary _ _ _ _ Hb En) as Ea.
  pose proof (utf8_next_width _ _ _ Ea). rewrite (is_utf8_cons _ _ _ En) in Hu.
  rewrite drop_app_le in Hu by lia. rewrite (is_utf8_cons _ _ _ Ea).
  apply IH; [unfold ltof; cbn; rewrite length_drop; lia|done].
Qed.

Lemma is_utf8_rest a b : is_utf8 a = true → is_utf8 (a ++ b) = true → is_utf8 b = true.
Proof.
  induction a as [a IH] using (well_founded_induction (well_founded_ltof _ length)).
  destruct a as [|c a]; [done|]. cbn [app]. intros Ha Hu.
  destruct (is_utf8_next _ _ Ha) as [n Ea]. pose proof (utf8_next_width _ _ _ Ea).
  rewrite (is_utf8_cons _ _ _ Ea) in Ha.
  rewrite (is_utf8_cons _ _ _ (utf8_next_app _ _ b _ Ea)), drop_app_le in Hu by lia.
  apply (IH (drop (n - 1) a)); [unfold ltof; cbn; rewrite length_drop; lia|done..].
Qed.

Lemma first_stripped_Some strip pats s r :
  first_stripped strip pats s = Some r → ∃ p, p ∈ pats ∧ strip p s = Some r.
Proof.
  induction pats as [|p pats IH]; [done|]. cbn. destruct (strip p s) eqn:E.
  - intros [= <-]. exists p. split; [by left|done].
  - intros (q & Hq & ?)%IH. exists q. split; [by right|done].
Qed.

(** Every whitespace character is text and starts at a boundary. *)
Lemma whitespace_wf p : p ∈ whitespace_chars → is_utf8 p = true ∧ at_boundary p = true.
Proof.
  assert (forallb (λ p, is_utf8 p && at_boundary p) whitespace_chars = true) as H by reflexivity.
  rewrite forallb_Forall, Forall_forall in H. intros Hp%H. by apply andb_prop in Hp.
Qed.

Lemma trim_with_utf8 strip fuel s :
  (∀ p s r, p ∈ whitespace_chars → strip p s = Some r → is_utf8 s = true → is_utf8 r = true) →
  is_utf8 s = true → is_utf8 (trim_with strip fuel s) = true.
Proof.
  intros Hstrip. revert s. induction fuel as [|f IH]; intros s Hs; [done|]. cbn [trim_with].
  destruct (first_stripped strip whitespace_chars s) as [r|] eqn:E; [|done].
  apply first_stripped_Some in E as (p & Hp & Hr). eauto.
Qed.

Lemma is_utf8_trim s : is_utf8 s = true → is_utf8 (trim s) = true.
Proof.
  intros Hs. unfold trim, trim_end, trim_start. repeat apply trim_with_utf8; [| |done].
  - intros p t r [_ Hb]%whitespace_wf Hp%strip_suffix_Some Ht. subst t.
    by apply (is_utf8_boundary r p).
  - intros p t r [Hu _]%whitespace_wf Hp%strip_prefix_Some. subst t. by apply is_utf8_rest.
Qed.

(** Splitting at an ASCII character splits text into text. *)
Lemma split_once_utf8 c s l r :
  (u8 c < 128)%Z → split_once c s = Some (l, r) → is_utf8 s = true →
  is_utf8 l = true ∧ is_utf8 r = true.
Proof.
  intros Hc [-> _]%split_once_Some Hs.
  assert (at_boundary (c :: r) = true) as Hb.
  { cbn. unfold is_cont, in_range. rewrite negb_andb. apply orb_true_intro. left.
    by rewrite negb_true_iff, Z.leb_gt. }
  destruct (is_utf8_boundary _ _ Hb Hs) as [Hl Hr]. split; [done|].
  rewrite (is_utf8_cons _ _ 1) in Hr; [by rewrite drop_0 in Hr|].
  unfold utf8_next. by rewrite decide_True.
Qed.

#[export] Hint Resolve to_string_chars to_string_not_nil : coredrop.
#[export] Hint Rewrite strip_prefix_app strip_suffix_app : coredrop.
