(* ===== verification/Cgroup.v ===== *)
(** * [src/cgroup.rs]: the Kubernetes identity in a cgroup path

    [parse_cgroup] and its helpers, with the two directory layouts the kubelet
    produces as printing functions, so that parsing can be stated as their
    inverse. *)

From S2P Require Import Prelude RustStr.

Module Cgroup.

(** ** Data and operations *)

Record CgroupIdentity := mkIdentity { pod_uid : bytes; container_id : bytes }.

Definition MAX_POD_UID_LEN : nat := 253.

(** The character test of [is_pod_uid]. *)
Definition is_uid_byte (c : byte) : bool :=
  is_ascii_digit c || in_range 97 102 c || is_byte "-"%byte c.

Definition is_pod_uid (s : bytes) : bool :=
  negb (bool_decide (s = [])) && bool_decide (length s ≤ MAX_POD_UID_LEN)
  && forallb is_uid_byte s.

(** [str::replace('_', "-")] *)
Definition replace_underscore (s : bytes) : bytes :=
  map (λ c, if is_byte "_"%byte c then "-"%byte else c) s.

Definition extract_pod_uid (seg : bytes) : option bytes :=
  let s := default seg (strip_suffix (b! ".slice") seg) in
  uid ← match strip_prefix (b! "pod") s with
        | Some rest => Some rest
        | None => snd <$> find_sub (b! "-pod") s
        end;
  let uid := replace_underscore uid in
  if is_pod_uid uid then Some uid else None.

Definition strip_runtime_prefix (s : bytes) : bytes :=
  match strip_prefix (b! "cri-containerd-") s with
  | Some r => r
  | None => match strip_prefix (b! "docker-") s with
            | Some r => r
            | None => default s (strip_prefix (b! "crio-") s)
            end
  end.

Definition extract_container_id (seg : bytes) : option bytes :=
  let s := default seg (strip_suffix (b! ".scope") seg) in
  let s := strip_runtime_prefix s in
  if bool_decide (12 ≤ length s) && forallb is_ascii_hexdigit s then Some s else None.

(** [segments.by_ref().find_map(extract_pod_uid)]: the first pod UID and the
    segments the iterator has left. *)
Fixpoint find_pod_uid (segments : list bytes) : option (bytes * list bytes) :=
  match segments with
  | [] => None
  | seg :: rest => match extract_pod_uid seg with
                   | Some uid => Some (uid, rest)
                   | None => find_pod_uid rest
                   end
  end.

Definition path_segments (path : bytes) : list bytes :=
  filter (λ s, s ≠ []) (split "/"%byte path).

Definition parse_cgroup_path (path : bytes) : option CgroupIdentity :=
  '(uid, rest) ← find_pod_uid (path_segments path);
  seg ← head rest;
  cid ← extract_container_id seg;
  Some (mkIdentity uid cid).

Fixpoint find_map {A B} (f : A → option B) (l : list A) : option B :=
  match l with
  | [] => None
  | x :: l' => match f x with Some y => Some y | None => find_map f l' end
  end.

Definition parse_cgroup (content : bytes) : option CgroupIdentity :=
  find_map (λ line, parse_cgroup_path (rsplit_next ":"%byte line)) (lines content).

(** ** The layouts the kubelet produces *)

Inductive Qos := Guaranteed | Burstable | BestEffort.

Definition qos_name (q : Qos) : bytes :=
  match q with
  | Guaranteed => []
  | Burstable => b! "burstable"
  | BestEffort => b! "besteffort"
  end.

(** cgroupfs driver: [/kubepods/<qos>/pod<uid>/<cid>] *)
Definition cgroupfs_root (q : Qos) : bytes :=
  b! "/kubepods" ++ match q with Guaranteed => [] | _ => b! "/" ++ qos_name q end.
Definition cgroupfs_path (q : Qos) (uid cid : bytes) : bytes :=
  cgroupfs_root q ++ b! "/" ++ (b! "pod" ++ uid) ++ b! "/" ++ cid.

Definition replace_dash (s : bytes) : bytes :=
  map (λ c, if is_byte "-"%byte c then "_"%byte else c) s.

Inductive Runtime := Containerd | Docker | Crio.
Definition runtime_prefix (r : Runtime) : bytes :=
  match r with
  | Containerd => b! "cri-containerd-"
  | Docker => b! "docker-"
  | Crio => b! "crio-"
  end.

(** systemd driver: dashes of the UID become underscores, the container id has
    a runtime prefix and the [.scope] suffix. *)
Definition systemd_pod_slice (q : Qos) (uid : bytes) : bytes :=
  b! "kubepods" ++ match q with Guaranteed => [] | _ => b! "-" ++ qos_name q end
  ++ b! "-pod" ++ replace_dash uid ++ b! ".slice".

Definition systemd_root (q : Qos) : bytes :=
  b! "/kubepods.slice"
  ++ match q with Guaranteed => [] | _ => b! "/kubepods-" ++ qos_name q ++ b! ".slice" end.
Definition systemd_path (q : Qos) (r : Runtime) (uid cid : bytes) : bytes :=
  systemd_root q ++ b! "/" ++ systemd_pod_slice q uid ++ b! "/"
  ++ (runtime_prefix r ++ cid ++ b! ".scope").

(** ** Facts about the character classes *)

Definition is_container_id (s : bytes) : bool :=
  bool_decide (12 ≤ length s) && forallb is_ascii_hexdigit s.

Lemma replace_dash_underscore s :
  forallb is_uid_byte s = true → replace_underscore (replace_dash s) = s.
Proof.
  unfold replace_underscore, replace_dash. rewrite map_map.
  induction s as [|c s IH]; [done|]. simpl. intros [Hc Hs]%andb_prop.
  f_equal; [|by apply IH]. revert Hc. by destruct c.
Qed.

Lemma replace_underscore_id s :
  forallb is_uid_byte s = true → replace_underscore s = s.
Proof.
  unfold replace_underscore. induction s as [|c s IH]; [done|]. simpl.
  intros [Hc Hs]%andb_prop. f_equal; [|by apply IH]. revert Hc. by destruct c.
Qed.

Lemma replace_dash_chars s c :
  forallb is_uid_byte s = true → is_uid_byte c = false → c ≠ "_"%byte →
  c ∉ replace_dash s.
Proof.
  unfold replace_dash. intros Hs Hc Hc'.
  apply (forallb_not_elem (λ d, is_uid_byte d || is_byte "_"%byte d)).
  - induction s as [|d s IH]; [done|]. simpl in *. apply andb_prop in Hs as [Hd Hs].
    rewrite IH by done. rewrite andb_true_r. revert Hd. by destruct d.
  - rewrite Hc. unfold is_byte. by apply bool_decide_eq_false.
Qed.

Lemma pod_uid_chars u c :
  is_pod_uid u = true → is_uid_byte c = false → c ∉ u.
Proof. unfold is_pod_uid. intros. bool_hyps. by eapply forallb_not_elem. Qed.

Lemma container_id_chars s c :
  is_container_id s = true → is_ascii_hexdigit c = false → c ∉ s.
Proof. unfold is_container_id. intros. bool_hyps. by eapply forallb_not_elem. Qed.

Lemma pod_uid_is_uid_bytes u : is_pod_uid u = true → forallb is_uid_byte u = true.
Proof. unfold is_pod_uid. intros. by bool_hyps. Qed.

Lemma extract_pod_uid_valid seg u : extract_pod_uid seg = Some u → is_pod_uid u = true.
Proof.
  unfold extract_pod_uid. intros (x & _ & Hx)%bind_Some. by split_conds.
Qed.

Lemma extract_container_id_valid seg c :
  extract_container_id seg = Some c → is_container_id c = true.
Proof.
  unfold extract_container_id, is_container_id. destruct_cond; [|done].
  by intros [= <-].
Qed.

Lemma find_pod_uid_valid l u rest :
  find_pod_uid l = Some (u, rest) → is_pod_uid u = true.
Proof.
  induction l as [|s l IH]; simpl; [done|].
  destruct (extract_pod_uid s) eqn:E; [|done].
  intros [= <- <-]. by eapply extract_pod_uid_valid.
Qed.

Lemma parse_cgroup_path_valid p id :
  parse_cgroup_path p = Some id →
  is_pod_uid (pod_uid id) = true ∧ is_container_id (container_id id) = true.
Proof.
  unfold parse_cgroup_path.
  intros ([u rest] & Hu & (seg & _ & (c & Hc & [= <-])%bind_Some)%bind_Some)%bind_Some.
  split; [by eapply find_pod_uid_valid|by eapply extract_container_id_valid].
Qed.

Lemma find_map_Some {A B} (f : A → option B) l y :
  find_map f l = Some y → ∃ x, x ∈ l ∧ f x = Some y.
Proof.
  induction l as [|x l IH]; simpl; [done|].
  destruct (f x) eqn:E; intros H; simplify_eq.
  - exists x. split; [by left|done].
  - destruct (IH H) as (z & ? & ?). exists z. split; [by right|done].
Qed.

(** ** Appending below the container *)

Lemma path_segments_app p q :
  path_segments (p ++ "/"%byte :: q) = path_segments p ++ path_segments q.
Proof.
  unfold path_segments. by rewrite split_app, filter_app.
Qed.

Lemma find_pod_uid_app l k u rest :
  find_pod_uid l = Some (u, rest) → find_pod_uid (l ++ k) = Some (u, rest ++ k).
Proof.
  induction l as [|s l IH]; simpl; [done|].
  destruct (extract_pod_uid s); naive_solver.
Qed.

(** ** Segments of rendered paths *)

Lemma not_elem_concrete (c : byte) (s : bytes) : bool_decide (c ∈ s) = false → c ∉ s.
Proof. apply bool_decide_eq_false. Qed.

Lemma path_segments_word w : "/"%byte ∉ w → w ≠ [] → path_segments w = [w].
Proof.
  intros Hw Hn. unfold path_segments. rewrite split_word by done.
  by rewrite filter_cons_True.
Qed.

Lemma path_segments_cons w s :
  "/"%byte ∉ w → w ≠ [] → path_segments (w ++ "/"%byte :: s) = w :: path_segments s.
Proof. intros. by rewrite path_segments_app, path_segments_word. Qed.

Lemma no_suffix p s c : bool_decide (c ∈ p) = true → c ∉ s → strip_suffix p s = None.
Proof.
  intros Hp%bool_decide_eq_true Hs. destruct (strip_suffix p s) eqn:E; [|done].
  apply strip_suffix_Some in E as ->. set_solver.
Qed.

Lemma no_prefix p s c : bool_decide (c ∈ p) = true → c ∉ s → strip_prefix p s = None.
Proof.
  intros Hp%bool_decide_eq_true Hs. destruct (strip_prefix p s) eqn:E; [|done].
  apply strip_prefix_Some in E as ->. set_solver.
Qed.

Lemma strip_runtime_prefix_id s : is_container_id s = true → strip_runtime_prefix s = s.
Proof.
  intros Hs. unfold strip_runtime_prefix.
  assert ("-"%byte ∉ s) by by eapply container_id_chars.
  by rewrite !(no_prefix _ s "-"%byte).
Qed.

Lemma extract_container_id_bare c :
  is_container_id c = true → extract_container_id c = Some c.
Proof.
  intros Hc. unfold extract_container_id.
  rewrite (no_suffix _ c "."%byte) by (done || by eapply container_id_chars).
  cbn [from_option id]. rewrite strip_runtime_prefix_id by done.
  unfold is_container_id in Hc. by rewrite Hc.
Qed.

Lemma extract_container_id_scope r c :
  is_container_id c = true →
  extract_container_id (runtime_prefix r ++ c ++ b! ".scope") = Some c.
Proof.
  intros Hc. unfold extract_container_id.
  rewrite app_assoc, strip_suffix_app. cbn [from_option id].
  assert (strip_runtime_prefix (runtime_prefix r ++ c) = c) as ->.
  { unfold strip_runtime_prefix. destruct r; simpl runtime_prefix; by vm_compute. }
  unfold is_container_id in Hc. by rewrite Hc.
Qed.

Lemma extract_pod_uid_pod u :
  is_pod_uid u = true → extract_pod_uid (b! "pod" ++ u) = Some u.
Proof.
  intros Hu. unfold extract_pod_uid.
  assert ("."%byte ∉ u) by by eapply pod_uid_chars.
  rewrite (no_suffix _ _ "."%byte); [|done|].
  2: { apply not_elem_of_app. split; [by apply not_elem_concrete|done]. }
  cbn [from_option id].
  rewrite strip_prefix_app. simpl.
  rewrite replace_underscore_id by by apply pod_uid_is_uid_bytes.
  by rewrite Hu.
Qed.

Lemma extract_pod_uid_slice q u :
  is_pod_uid u = true → extract_pod_uid (systemd_pod_slice q u) = Some u.
Proof.
  intros Hu. unfold extract_pod_uid, systemd_pod_slice.
  rewrite !app_assoc, strip_suffix_app. cbn [from_option id].
  assert (strip_prefix (b! "pod") (((b! "kubepods"
    ++ match q with Guaranteed => [] | _ => b! "-" ++ qos_name q end) ++ b! "-pod")
    ++ replace_dash u) = None) as -> by by destruct q.
  assert (find_sub (b! "-pod") (((b! "kubepods"
    ++ match q with Guaranteed => [] | _ => b! "-" ++ qos_name q end) ++ b! "-pod")
    ++ replace_dash u) = Some (b! "kubepods"
    ++ match q with Guaranteed => [] | _ => b! "-" ++ qos_name q end, replace_dash u)) as ->
    by by destruct q.
  simpl. rewrite replace_dash_underscore by by apply pod_uid_is_uid_bytes.
  by rewrite Hu.
Qed.

(** A single-hierarchy ([0::<path>]) or controller line. *)
Lemma parse_cgroup_line hd path :
  x0a ∉ hd → x0d ∉ hd → x0a ∉ path → x0d ∉ path → ":"%byte ∉ path →
  parse_cgroup (hd ++ ":"%byte :: path ++ [x0a]) = parse_cgroup_path path.
Proof.
  intros. unfold parse_cgroup.
  replace (hd ++ ":"%byte :: path ++ [x0a]) with ((hd ++ ":"%byte :: path) ++ [x0a])
    by by rewrite <- app_assoc.
  rewrite lines_single by (apply not_elem_of_app; split; [done|]; by apply not_elem_of_cons).
  cbn [find_map]. rewrite rsplit_next_app by done. by destruct (parse_cgroup_path path).
Qed.

Definition layout_chars (c : byte) : bool :=
  is_uid_byte c || is_ascii_alphanumeric c || is_byte "_"%byte c
  || is_byte "."%byte c || is_byte "/"%byte c.

Lemma uid_layout u : is_pod_uid u = true → forallb layout_chars u = true.
Proof.
  intros H%pod_uid_is_uid_bytes. eapply forallb_weaken; [|exact H].
  intros c Hc. unfold layout_chars. by rewrite Hc.
Qed.

Lemma dashed_uid_layout u : is_pod_uid u = true → forallb layout_chars (replace_dash u) = true.
Proof.
  intros H%pod_uid_is_uid_bytes. induction u as [|c u IH]; [done|].
  simpl in *. apply andb_prop in H as [Hc Hu]. rewrite IH by done.
  rewrite andb_true_r. revert Hc. by destruct c.
Qed.

Lemma cid_layout c : is_container_id c = true → forallb layout_chars c = true.
Proof.
  unfold is_container_id. intros [_ H]%andb_prop. eapply forallb_weaken; [|exact H].
  intros d Hd. revert Hd. by destruct d.
Qed.

Lemma layout_utf8 s : forallb layout_chars s = true → is_utf8 s = true.
Proof.
  intros H. apply utf8_ascii. eapply forallb_weaken; [|exact H]. intros c. by destruct c.
Qed.

#[local] Hint Resolve uid_layout dashed_uid_layout cid_layout : coredrop.

Lemma layout_line hd path :
  x0a ∉ hd → x0d ∉ hd → forallb layout_chars path = true →
  parse_cgroup (hd ++ ":"%byte :: path ++ [x0a]) = parse_cgroup_path path.
Proof. intros. apply parse_cgroup_line; try done; by eapply forallb_not_elem. Qed.

Ltac layout :=
  repeat (rewrite forallb_app_iff; split); auto with coredrop; by vm_compute.

Lemma slash_free_uid u : is_pod_uid u = true → "/"%byte ∉ u.
Proof. intros. by eapply pod_uid_chars. Qed.

Lemma slash_free_cid c : is_container_id c = true → "/"%byte ∉ c.
Proof. intros. by eapply container_id_chars. Qed.

Lemma cid_not_nil c : is_container_id c = true → c ≠ [].
Proof. unfold is_container_id. intros [H%bool_decide_eq_true _]%andb_prop ->. simpl in H. lia. Qed.

Lemma find_pod_uid_skip pre seg rest u :
  Forall (λ s, extract_pod_uid s = None) pre → extract_pod_uid seg = Some u →
  find_pod_uid (pre ++ seg :: rest) = Some (u, rest).
Proof.
  intros Hpre Hseg. induction Hpre as [|s pre Hs _ IH]; simpl; [by rewrite Hseg|].
  by rewrite Hs.
Qed.

(** Reading back a path made of a root without pod segments, a pod segment and
    a container segment. *)
Lemma parse_layout root pod cseg u c :
  Forall (λ s, extract_pod_uid s = None) (path_segments root) →
  "/"%byte ∉ pod → pod ≠ [] → "/"%byte ∉ cseg → cseg ≠ [] →
  extract_pod_uid pod = Some u → extract_container_id cseg = Some c →
  parse_cgroup_path (root ++ b! "/" ++ pod ++ b! "/" ++ cseg) = Some (mkIdentity u c).
Proof.
  intros Hroot Hp Hp' Hc Hc' Hu Hcid. unfold parse_cgroup_path.
  change (b! "/") with ["/"%byte]. cbn [app].
  rewrite path_segments_app, path_segments_cons, (path_segments_word cseg) by done.
  rewrite (find_pod_uid_skip _ _ _ u) by done. cbn. by rewrite Hcid.
Qed.

Lemma no_pod_segment segs :
  forallb (λ s, bool_decide (extract_pod_uid s = None)) segs = true →
  Forall (λ s, extract_pod_uid s = None) segs.
Proof.
  rewrite forallb_Forall. intros H. eapply Forall_impl; [exact H|].
  intros s. apply bool_decide_eq_true.
Qed.

Lemma parse_cgroupfs_path q u c :
  is_pod_uid u = true → is_container_id c = true →
  parse_cgroup_path (cgroupfs_path q u c) = Some (mkIdentity u c).
Proof.
  intros Hu Hc. apply parse_layout.
  - apply no_pod_segment. by destruct q; vm_compute.
  - apply not_elem_of_app. split; [by apply not_elem_concrete|by apply slash_free_uid].
  - done.
  - by apply slash_free_cid.
  - by apply cid_not_nil.
  - by apply extract_pod_uid_pod.
  - by apply extract_container_id_bare.
Qed.

Lemma systemd_pod_slice_slash q u : is_pod_uid u = true → "/"%byte ∉ systemd_pod_slice q u.
Proof.
  intros Hu. unfold systemd_pod_slice. rewrite !not_elem_of_app. split_and!.
  - by apply not_elem_concrete.
  - by destruct q; apply not_elem_concrete.
  - by apply not_elem_concrete.
  - apply replace_dash_chars; [by apply pod_uid_is_uid_bytes|done..].
  - by apply not_elem_concrete.
Qed.

Lemma parse_systemd_path q r u c :
  is_pod_uid u = true → is_container_id c = true →
  parse_cgroup_path (systemd_path q r u c) = Some (mkIdentity u c).
Proof.
  intros Hu Hc. apply parse_layout.
  - apply no_pod_segment. by destruct q; vm_compute.
  - by apply systemd_pod_slice_slash.
  - done.
  - rewrite !not_elem_of_app. split_and!; [by destruct r; apply not_elem_concrete| |].
    + by apply slash_free_cid.
    + by apply not_elem_concrete.
  - by destruct r.
  - by apply extract_pod_uid_slice.
  - by apply extract_container_id_scope.
Qed.

Lemma parse_cgroup_valid content id :
  parse_cgroup content = Some id →
  is_pod_uid (pod_uid id) = true ∧ is_container_id (container_id id) = true.
Proof.
  unfold parse_cgroup. intros (line & _ & Hp)%find_map_Some. by apply parse_cgroup_path_valid in Hp.
Qed.

(** ** Properties *)

(** Every identity [parse_cgroup] returns is safe to put in object keys and
    request paths: the pod UID is 1 to 253 lowercase hex digits and dashes, the
    container id at least twelve hex digits, and neither contains a slash. *)
Theorem parse_cgroup_identity_safe content id :
  parse_cgroup content = Some id →
  is_pod_uid (pod_uid id) = true ∧ is_container_id (container_id id) = true ∧
  ("/"%byte ∉ pod_uid id) ∧ ("/"%byte ∉ container_id id).
Proof.
  intros [Hu Hc]%parse_cgroup_valid. split_and!; auto using slash_free_uid, slash_free_cid.
Qed.

Definition sample_uid : bytes := b! "ed1e9c81-9a92-4f7e-be2c-8b26b56d3b98".
Definition sample_cid : bytes :=
  b! "3b9c2d1e4f5a6b7c8d9e0f1a2b3c4d5e6f7a8b9c0d1e2f3a4b5c6d7e8f9a0b1c".
Definition sample_content : bytes :=
  b! "0:" ++ ":"%byte :: cgroupfs_path Burstable sample_uid sample_cid ++ [x0a].

Lemma parse_cgroup_identity_safe_witness :
  is_pod_uid (pod_uid (mkIdentity sample_uid sample_cid)) = true
  ∧ is_container_id (container_id (mkIdentity sample_uid sample_cid)) = true
  ∧ ("/"%byte ∉ pod_uid (mkIdentity sample_uid sample_cid))
  ∧ ("/"%byte ∉ container_id (mkIdentity sample_uid sample_cid)).
Proof. apply (parse_cgroup_identity_safe sample_content). vm_compute. reflexivity. Defined.

(** A container with a writable cgroup tree cannot change its identity: whatever
    is appended below a path that already identifies a container, the identity
    read is the same. *)
Theorem nested_cgroup_keeps_identity p q id :
  parse_cgroup_path p = Some id → parse_cgroup_path (p ++ "/"%byte :: q) = Some id.
Proof.
  unfold parse_cgroup_path. rewrite path_segments_app.
  intros ([u rest] & Hu & (seg & Hseg & Hc)%bind_Some)%bind_Some.
  rewrite (find_pod_uid_app _ _ _ _ Hu). simpl.
  destruct rest as [|s rest]; [done|]. simpl in *. by simplify_eq.
Qed.

Lemma nested_cgroup_keeps_identity_witness :
  parse_cgroup_path (cgroupfs_path Guaranteed sample_uid sample_cid
    ++ "/"%byte :: b! "x/ffffffffffffffffffffffffffffffffffffffffffffffffffffffffffffffff")
  = Some (mkIdentity sample_uid sample_cid).
Proof. apply nested_cgroup_keeps_identity. vm_compute. reflexivity. Defined.

(** C26: parsing inverts both kubelet layouts, for every QoS class, runtime, pod UID
    and container id: the dashes systemd rewrites come back, the runtime prefix
    and the unit suffixes are gone. *)
Theorem parse_cgroup_roundtrip q r u c :
  is_pod_uid u = true → is_container_id c = true →
  parse_cgroup (b! "0:" ++ ":"%byte :: cgroupfs_path q u c ++ [x0a]) = Some (mkIdentity u c)
  ∧ parse_cgroup (b! "0:" ++ ":"%byte :: systemd_path q r u c ++ [x0a]) = Some (mkIdentity u c).
Proof.
  intros Hu Hc. split; rewrite layout_line; try by apply not_elem_concrete.
  - by apply parse_cgroupfs_path.
  - unfold cgroupfs_path. destruct q; layout.
  - by apply parse_systemd_path.
  - unfold systemd_path, systemd_pod_slice. destruct q, r; layout.
Qed.

Lemma parse_cgroup_roundtrip_witness :
  parse_cgroup (b! "0:" ++ ":"%byte :: cgroupfs_path BestEffort sample_uid sample_cid ++ [x0a])
    = Some (mkIdentity sample_uid sample_cid)
  ∧ parse_cgroup (b! "0:" ++ ":"%byte :: systemd_path BestEffort Crio sample_uid sample_cid ++ [x0a])
    = Some (mkIdentity sample_uid sample_cid).
Proof. apply parse_cgroup_roundtrip; vm_compute; reflexivity. Defined.

End Cgroup.
