(* ===== verification/Redact.v ===== *)
(** * [src/redact.rs]: secrets in [environ] and [cmdline]

    The whole of the redactor.  The Shannon entropy of the value heuristic is
    computed in IEEE binary64 arithmetic ([SpecFloat]); [f64::log2], whose
    precision the standard library leaves unspecified, is a parameter. *)

From S2P Require Import Prelude RustStr.
From Corelib Require Import Floats.SpecFloat.

Module Redact.

(** ** Constants *)

Definition REDACTED : bytes := b! "<redacted>".

Definition DEFAULT_KEYWORDS : list bytes :=
  [b! "PASSWORD"; b! "PASSWD"; b! "PASS"; b! "PWD"; b! "SECRET"; b! "TOKEN";
   b! "KEY"; b! "CRED"; b! "AUTH"; b! "PRIVATE"; b! "SALT"; b! "PIN"; b! "CERT";
   b! "SSH"; b! "GPG"; b! "SESSION"; b! "COOKIE"; b! "BEARER"; b! "SIGNATURE";
   b! "DSN"].

Definition MIN_HEURISTIC_LEN : nat := 20.

(** ** IEEE binary64 *)

Definition f64 := spec_float.
Definition f64_of_Z (z : Z) : f64 := binary_normalize 53 1024 z 0 false.
Definition f64_add : f64 → f64 → f64 := SFadd 53 1024.
Definition f64_mul : f64 → f64 → f64 := SFmul 53 1024.
Definition f64_div : f64 → f64 → f64 := SFdiv 53 1024.
(** [3.5] *)
Definition ENTROPY_BITS : f64 := f64_div (f64_of_Z 7) (f64_of_Z 2).

(** ** The redactor *)

Record Redactor := mkRedactor { enabled : bool; keywords : list bytes }.

Definition Redactor_default : Redactor := mkRedactor true DEFAULT_KEYWORDS.
Definition Redactor_disabled : Redactor := mkRedactor false [].

Definition is_base64url_byte (c : byte) : bool :=
  is_ascii_alphanumeric c || is_byte "-"%byte c || is_byte "_"%byte c
  || is_byte "+"%byte c || is_byte "="%byte c.

Definition is_token_shaped (value : bytes) : bool := forallb is_base64url_byte value.

Definition is_jwt (value : bytes) : bool :=
  if decide (length value < MIN_HEURISTIC_LEN) then false else
  let parts := split "."%byte value in
  bool_decide (length parts = 3)
  && forallb (λ p, bool_decide (4 ≤ length p) && forallb is_base64url_byte p) parts.

Definition key_is_secret (r : Redactor) (key : bytes) : bool :=
  let upper := to_ascii_uppercase key in
  existsb (λ kw, contains kw upper) (keywords r).

(** [counts[b as usize] += 1] over the bytes of the text. *)
Definition byte_counts (s : bytes) : list Z :=
  fold_left (λ counts c, alter Z.succ (Z.to_nat (u8 c)) counts) s (replicate 256 0%Z).

Section redactor.
(** [f64::log2] *)
Context (log2 : f64 → f64).

Definition shannon_entropy (s : bytes) : f64 :=
  match s with
  | [] => f64_of_Z 0
  | _ =>
      let len := f64_of_Z (Z.of_nat (length s)) in
      fold_left f64_add
        (map (λ c, let p := f64_div (f64_of_Z c) len in f64_mul (SFopp p) (log2 p))
             (filter (λ c, (0 < c)%Z) (byte_counts s)))
        (f64_of_Z 0)
  end.

Definition looks_secret_value (value : bytes) : bool :=
  if starts_with (b! "-----BEGIN") value then true
  else if is_jwt value then true
  else bool_decide (MIN_HEURISTIC_LEN ≤ length value)
       && is_token_shaped value
       && SFleb ENTROPY_BITS (shannon_entropy value).

Context (r : Redactor).

(** One [key=value] pair of a query string, and whether it was rewritten. *)
Definition redact_pair (pair : bytes) : bytes * bool :=
  match split_once "="%byte pair with
  | Some (key, value) =>
      if negb (bool_decide (value = [])) && key_is_secret r key
      then (key ++ b! "=" ++ REDACTED, true)
      else (pair, false)
  | None => (pair, false)
  end.

Definition redact_query (tail : bytes) : option bytes :=
  '(path, after) ← split_once "?"%byte tail;
  let '(query, fragment) := break_at (is_byte "#"%byte) after in
  let pairs := map redact_pair (split "&"%byte query) in
  if existsb snd pairs
  then Some (path ++ b! "?" ++ join (b! "&") (map fst pairs) ++ fragment)
  else None.

(** The rewritten authority, [None] when it is left as it is. *)
Definition redact_authority (authority : bytes) : option bytes :=
  match split_once "@"%byte authority with
  | Some (userinfo, host) =>
      match split_once ":"%byte userinfo with
      | Some (user, password) =>
          if negb (bool_decide (password = []))
          then Some (user ++ b! ":" ++ REDACTED ++ b! "@" ++ host) else None
      | None =>
          if looks_secret_value userinfo
          then Some (REDACTED ++ b! "@" ++ host) else None
      end
  | None => None
  end.

Definition ends_authority (c : byte) : bool :=
  is_byte "/"%byte c || is_byte "?"%byte c || is_byte "#"%byte c.

Definition redact_url (value : bytes) : option bytes :=
  '(scheme, rest) ← find_sub (b! "://") value;
  let '(authority, tail) := break_at ends_authority rest in
  match redact_authority authority, redact_query tail with
  | None, None => None
  | a, t => Some (scheme ++ b! "://" ++ default authority a ++ default tail t)
  end.

Definition redact_entry (entry : bytes) : bytes :=
  match from_utf8 entry with
  | None => entry
  | Some text =>
      match split_once "="%byte text with
      | None => entry
      | Some (key, value) =>
          if key_is_secret r key || looks_secret_value value
          then key ++ b! "=" ++ REDACTED
          else match redact_url value with
               | Some rewritten => key ++ b! "=" ++ rewritten
               | None => entry
               end
      end
  end.

Definition is_secret_flag (arg : bytes) : bool :=
  match from_utf8 arg with
  | None => false
  | Some text => starts_with (b! "-") text && negb (contains (b! "=") text)
                 && key_is_secret r text
  end.

(** The loop bodies work on the NUL-separated pieces; [redact_environ_loop] and
    [redact_cmdline_loop] return what the loop appends to [out]. *)
Fixpoint redact_environ_loop (entries : list bytes) : bytes :=
  match entries with
  | [] => []
  | entry :: es =>
      if decide (entry = []) then redact_environ_loop es
      else redact_entry entry ++ [x00] ++ redact_environ_loop es
  end.

Definition redact_environ (raw : bytes) : bytes :=
  if enabled r then redact_environ_loop (split x00 raw) else raw.

Fixpoint redact_cmdline_loop (redact_next : bool) (args : list bytes) : bytes :=
  match args with
  | [] => []
  | arg :: rest =>
      if decide (arg = []) then redact_cmdline_loop redact_next rest
      else if redact_next
      then REDACTED ++ [x00] ++ redact_cmdline_loop false rest
      else redact_entry arg ++ [x00] ++ redact_cmdline_loop (is_secret_flag arg) rest
  end.

Definition redact_cmdline (raw : bytes) : bytes :=
  if enabled r then redact_cmdline_loop false (split x00 raw) else raw.

End redactor.

(** ** A software logarithm for running the model

    Truncated base-2 logarithm of a positive binary64: the exponent of the
    leading bit plus 52 fraction bits by repeated squaring. *)

Fixpoint log2_frac (fuel : nat) (x acc : Z) : Z :=
  match fuel with
  | O => acc
  | S f => let y := Z.shiftr (x * x) 64 in
           if (Z.shiftl 1 65 <=? y)%Z
           then log2_frac f (Z.shiftr y 1) (2 * acc + 1)%Z
           else log2_frac f y (2 * acc)%Z
  end.

Definition soft_log2 (x : f64) : f64 :=
  match x with
  | S754_finite false m e =>
      let k := Z.log2 (Zpos m) in
      let mant := Z.shiftl (Zpos m) (64 - k) in
      binary_normalize 53 1024 (Z.shiftl (k + e) 52 + log2_frac 52 mant 0) (-52) false
  | _ => S754_nan
  end.

(** ** Lemmas: where the bytes of the output come from *)

Definition literal_bytes : bytes := REDACTED ++ b! "=:@/?&#".

(** [from s out]: every byte of [out] is a byte of [s] or of a literal. *)
Definition from (s out : bytes) : Prop := ∀ c, c ∈ out → c ∈ s ∨ c ∈ literal_bytes.

Lemma from_app s o1 o2 : from s o1 → from s o2 → from s (o1 ++ o2).
Proof. intros H1 H2 c [?|?]%elem_of_app; auto. Qed.

Lemma from_literal s o : forallb (λ c, bool_decide (c ∈ literal_bytes)) o = true → from s o.
Proof.
  rewrite forallb_Forall, Forall_forall. intros H c Hc. right.
  by apply (bool_decide_eq_true_1 _), H.
Qed.

Lemma from_self s : from s s.
Proof. by left. Qed.

Lemma from_incl s o : (∀ c, c ∈ o → c ∈ s) → from s o.
Proof. intros H c Hc. auto. Qed.

Lemma from_sub s t o : (∀ c, c ∈ t → c ∈ s) → from t o → from s o.
Proof. intros Hs Ho c Hc. destruct (Ho c Hc); auto. Qed.

Lemma split_once_sub c s l x :
  split_once c s = Some (l, x) → (∀ d, d ∈ l → d ∈ s) ∧ (∀ d, d ∈ x → d ∈ s).
Proof.
  intros [-> _]%split_once_Some. split; intros d Hd; rewrite elem_of_app, elem_of_cons; auto.
Qed.

Lemma break_at_sub P s l x :
  break_at P s = (l, x) → (∀ d, d ∈ l → d ∈ s) ∧ (∀ d, d ∈ x → d ∈ s).
Proof.
  intros (-> & _)%break_at_spec. split; intros d Hd; rewrite elem_of_app; auto.
Qed.

Ltac from_parts := repeat (apply from_app); try (by apply from_literal);
  try (by apply from_incl; auto).

Section lemmas.
Context (log2 : f64 → f64) (r : Redactor).

Lemma redact_pair_from p : from p (fst (redact_pair r p)).
Proof.
  unfold redact_pair. destruct (split_once _ p) as [[k v]|] eqn:E; [|apply from_self].
  apply split_once_sub in E as [? ?]. destruct_cond; simpl; [from_parts|apply from_self].
Qed.

Lemma redact_query_from t o : redact_query r t = Some o → from t o.
Proof.
  unfold redact_query. intros ([path after] & E & H)%bind_Some.
  apply split_once_sub in E as [Hp Ha].
  destruct (break_at _ after) as [query fragment] eqn:B.
  apply break_at_sub in B as [Hq Hf]. destruct_cond; [|done]. apply (inj Some) in H as <-.
  from_parts.
  - intros c [Hc|(w & Hw & Hc)]%elem_of_join; [by apply (from_literal t (b! "&"))|].
    rewrite map_map in Hw. apply list_elem_of_fmap in Hw as (w' & -> & Hw').
    destruct (redact_pair_from w' c Hc) as [?|?]; [left|by right].
    apply Ha, Hq. by eapply elem_of_split.
Qed.

Lemma redact_authority_from a o : redact_authority log2 a = Some o → from a o.
Proof.
  unfold redact_authority. destruct (split_once _ a) as [[ui host]|] eqn:E; [|done].
  apply split_once_sub in E as [Hu Hh].
  destruct (split_once ":"%byte ui) as [[user pw]|] eqn:E2.
  - apply split_once_sub in E2 as [? ?]. destruct_cond; [|done]. intros <-%(inj Some).
    from_parts.
  - destruct_cond; [|done]. intros <-%(inj Some). from_parts.
Qed.

Lemma redact_url_from v o : redact_url log2 r v = Some o → from v o.
Proof.
  unfold redact_url. intros ([scheme rest] & E & H)%bind_Some.
  apply find_sub_Some in E as ->.
  destruct (break_at _ rest) as [authority tail] eqn:B.
  apply break_at_sub in B as [Ha Ht].
  assert (o = scheme ++ b! "://" ++ default authority (redact_authority log2 authority)
              ++ default tail (redact_query r tail)) as ->
    by (destruct (redact_authority _ _), (redact_query _ _); by simplify_eq).
  assert (∀ x : bytes, (∀ c, c ∈ x → c ∈ rest) → ∀ c, c ∈ x → c ∈ scheme ++ b! "://" ++ rest) as Hin.
  { intros x Hx c Hc. rewrite !elem_of_app. auto. }
  apply from_app; [|apply from_app; [by apply from_literal|apply from_app]].
  - intros c Hc. left. rewrite elem_of_app. auto.
  - destruct (redact_authority log2 authority) as [a|] eqn:E; simpl.
    + eapply from_sub; [|by eapply redact_authority_from]. by apply Hin.
    + apply from_incl. by apply Hin.
  - destruct (redact_query r tail) as [q|] eqn:E; simpl.
    + eapply from_sub; [|by eapply redact_query_from]. by apply Hin.
    + apply from_incl. by apply Hin.
Qed.

Lemma redact_entry_from e : from e (redact_entry log2 r e).
Proof.
  unfold redact_entry. destruct (from_utf8 e) as [t|] eqn:U; [|apply from_self].
  apply from_utf8_Some in U as ->.
  destruct (split_once _ e) as [[k v]|] eqn:E; [|apply from_self].
  apply split_once_sub in E as [Hk Hv]. destruct_cond; [from_parts|].
  destruct (redact_url log2 r v) as [o|] eqn:Ho; [|apply from_self].
  apply from_app; [by apply from_incl|].
  apply from_app; [by apply from_literal|].
  eapply from_sub; [done|by eapply redact_url_from].
Qed.

Lemma redact_entry_ok e : entry_ok e → entry_ok (redact_entry log2 r e).
Proof.
  intros [Hne H0]. split.
  - unfold redact_entry. repeat destruct_cond; try done; by intros [_ ?]%app_nil.
  - intros H. destruct (redact_entry_from e x00 H) as [?|Hl]; [done|].
    by apply (bool_decide_eq_true_2 _) in Hl; vm_compute in Hl.
Qed.

Lemma redact_environ_loop_blob l :
  redact_environ_loop log2 r l = blob (map (redact_entry log2 r) (filter (λ e, e ≠ []) l)).
Proof.
  induction l as [|e l IH]; [done|]. simpl. destruct (decide (e = [])) as [->|Hne].
  - by rewrite filter_cons_False by tauto.
  - rewrite filter_cons_True by done. rewrite IH. unfold blob. simpl.
    by rewrite <- app_assoc.
Qed.

(** A text with a byte no token has is secret-shaped only as a PEM block. *)
Lemma not_token_shaped v c :
  is_base64url_byte c = false → c ≠ "."%byte → c ∈ v →
  looks_secret_value log2 v = starts_with (b! "-----BEGIN") v.
Proof.
  intros Hc Hdot Hin. unfold looks_secret_value.
  destruct (starts_with _ v); [done|].
  assert (is_jwt v = false) as ->.
  { unfold is_jwt. case_decide; [done|]. apply andb_false_iff. right.
    apply not_true_iff_false. intros Hp. apply forallb_Forall in Hp.
    rewrite <- (join_split "."%byte v) in Hin.
    apply elem_of_join in Hin as [Hin%list_elem_of_singleton|(w & Hw & Hcw)]; [done|].
    rewrite Forall_forall in Hp. specialize (Hp w Hw). bool_hyps.
    by eapply (forallb_not_elem is_base64url_byte) in Hcw. }
  assert (is_token_shaped v = false) as ->.
  { apply not_true_iff_false. intros H. by eapply forallb_not_elem in Hin. }
  by rewrite andb_false_r.
Qed.

Lemma redact_entry_pair k v :
  "="%byte ∉ k → is_utf8 (k ++ "="%byte :: v) = true →
  redact_entry log2 r (k ++ "="%byte :: v) =
  if key_is_secret r k || looks_secret_value log2 v then k ++ b! "=" ++ REDACTED
  else match redact_url log2 r v with
       | Some o => k ++ b! "=" ++ o
       | None => k ++ "="%byte :: v
       end.
Proof.
  intros Hk Hu. unfold redact_entry, from_utf8. rewrite Hu.
  by rewrite split_once_app.
Qed.

(** A URL whose authority carries a password. *)
Definition url_with_password (scheme user pw rest : bytes) : bytes :=
  scheme ++ b! "://" ++ (user ++ ":"%byte :: pw ++ "@"%byte :: rest).

Definition authority_text (s : bytes) : bool :=
  forallb (λ c, negb (ends_authority c) && negb (is_byte "@"%byte c)) s.

Lemma authority_text_at s : authority_text s = true → "@"%byte ∉ s.
Proof. intros. by eapply forallb_not_elem. Qed.

Lemma authority_text_ends s :
  authority_text s = true → forallb (negb ∘ ends_authority) s = true.
Proof. apply forallb_weaken. intros c [? _]%andb_prop. done. Qed.

Lemma redact_url_password scheme user pw rest :
  ":"%byte ∉ scheme → ":"%byte ∉ user → authority_text user = true →
  authority_text pw = true → pw ≠ [] →
  redact_url log2 r (url_with_password scheme user pw rest) =
  Some (scheme ++ b! "://" ++ (user ++ b! ":" ++ REDACTED ++ b! "@"
          ++ fst (break_at ends_authority rest))
        ++ default (snd (break_at ends_authority rest))
             (redact_query r (snd (break_at ends_authority rest)))).
Proof.
  intros Hs Hu Hua Hpa Hp. unfold redact_url, url_with_password.
  change (b! "://") with (":"%byte :: b! "//"). rewrite find_sub_first by done.
  cbn [mbind option_bind].
  replace (user ++ ":"%byte :: pw ++ "@"%byte :: rest)
    with ((user ++ ":"%byte :: pw ++ ["@"%byte]) ++ rest)
    by (rewrite <- app_assoc; cbn; by rewrite <- app_assoc).
  rewrite break_at_skip.
  2: { rewrite forallb_app. cbn. rewrite forallb_app.
       by rewrite (authority_text_ends user), (authority_text_ends pw). }
  assert (redact_authority log2 ((user ++ ":"%byte :: pw ++ ["@"%byte])
            ++ fst (break_at ends_authority rest)) =
          Some (user ++ b! ":" ++ REDACTED ++ b! "@" ++ fst (break_at ends_authority rest))) as ->.
  { unfold redact_authority.
    replace ((user ++ ":"%byte :: pw ++ ["@"%byte]) ++ fst (break_at ends_authority rest))
      with ((user ++ ":"%byte :: pw) ++ "@"%byte :: fst (break_at ends_authority rest))
      by (rewrite <- !app_assoc; cbn; by rewrite <- app_assoc).
    rewrite split_once_app.
    2: { rewrite not_elem_of_app, not_elem_of_cons. split_and!; auto using authority_text_at. }
    rewrite split_once_app by done. by rewrite bool_decide_eq_false_2. }
  done.
Qed.

Lemma looks_secret_url scheme x :
  looks_secret_value log2 (scheme ++ b! "://" ++ x) = starts_with (b! "-----BEGIN") scheme.
Proof.
  rewrite (not_token_shaped _ ":"%byte); [|done..|].
  - change (b! "://" ++ x) with (":"%byte :: b! "//" ++ x).
    apply starts_with_sep. by apply (bool_decide_eq_false_1 _).
  - rewrite elem_of_app. right. cbn. by left.
Qed.

Lemma looks_secret_url_password scheme user pw rest :
  looks_secret_value log2 (url_with_password scheme user pw rest)
  = starts_with (b! "-----BEGIN") scheme.
Proof. apply looks_secret_url. Qed.

End lemmas.

(** ** Properties *)

(** What an observer of the redacted blob may not learn: two entries are publicly
    equal when they agree, or when both are UTF-8 text and they differ only in
    the value of a secret key, in a secret-shaped value, or in a non-empty URL
    password free of the URL delimiters ["@"], ["/"], ["?"] and ["#"].  The rest
    is not secret to this redactor: an entry that is not UTF-8 passes through
    as it is, and what follows the first ["@"] of a password stays
    ([url_password_after_at_kept]). *)
Inductive publicly_equal (log2 : f64 → f64) (r : Redactor) : bytes → bytes → Prop :=
| pe_same e : publicly_equal log2 r e e
| pe_key k v1 v2 :
    "="%byte ∉ k → key_is_secret r k = true →
    is_utf8 (k ++ "="%byte :: v1) = true → is_utf8 (k ++ "="%byte :: v2) = true →
    publicly_equal log2 r (k ++ "="%byte :: v1) (k ++ "="%byte :: v2)
| pe_value k v1 v2 :
    "="%byte ∉ k →
    looks_secret_value log2 v1 = true → looks_secret_value log2 v2 = true →
    is_utf8 (k ++ "="%byte :: v1) = true → is_utf8 (k ++ "="%byte :: v2) = true →
    publicly_equal log2 r (k ++ "="%byte :: v1) (k ++ "="%byte :: v2)
| pe_password k scheme user pw1 pw2 rest :
    "="%byte ∉ k → ":"%byte ∉ scheme → ":"%byte ∉ user → authority_text user = true →
    authority_text pw1 = true → authority_text pw2 = true → pw1 ≠ [] → pw2 ≠ [] →
    is_utf8 (k ++ "="%byte :: url_with_password scheme user pw1 rest) = true →
    is_utf8 (k ++ "="%byte :: url_with_password scheme user pw2 rest) = true →
    publicly_equal log2 r (k ++ "="%byte :: url_with_password scheme user pw1 rest)
                          (k ++ "="%byte :: url_with_password scheme user pw2 rest).

Lemma redact_entry_public log2 r e1 e2 :
  publicly_equal log2 r e1 e2 → redact_entry log2 r e1 = redact_entry log2 r e2.
Proof.
  intros []; [done| | |].
  - rewrite !redact_entry_pair by done. by destruct (key_is_secret r k).
  - rewrite !redact_entry_pair by done.
    repeat match goal with H : looks_secret_value _ _ = true |- _ => rewrite H; clear H end.
    by rewrite orb_true_r.
  - rewrite !redact_entry_pair by done.
    rewrite !looks_secret_url_password, !redact_url_password by done. done.
Qed.

Lemma environ_public log2 es1 es2 :
  Forall entry_ok es1 → Forall entry_ok es2 →
  Forall2 (publicly_equal log2 Redactor_default) es1 es2 →
  redact_environ log2 Redactor_default (blob es1) =
  redact_environ log2 Redactor_default (blob es2).
Proof.
  intros H1 H2 Hpe. unfold redact_environ. cbn [enabled Redactor_default].
  rewrite !redact_environ_loop_blob.
  change (filter _ (split x00 (blob ?es))) with (entries (blob es)).
  rewrite !entries_blob by done. f_equal.
  induction Hpe as [|e1 e2 l1 l2 He _ IH]; [done|]. simpl.
  apply Forall_cons in H1 as [_ H1], H2 as [_ H2].
  f_equal; [by apply redact_entry_public|auto].
Qed.

(** C18: redaction is confidential for text: two environments whose entries agree
    pairwise, except that entries which are UTF-8 text may differ in the value
    of a secret-keyword key, in a secret-shaped value, or in a non-empty URL
    password written without ["@"], ["/"], ["?"] and ["#"], redact to the same
    blob, byte for byte.  Entries that are not UTF-8 are outside the claim (the
    code passes them through), and so is the part of a password after its first
    ["@"] (the code keeps it: [url_password_after_at_kept]). *)
Theorem environ_noninterference log2 es1 es2 :
  Forall entry_ok es1 → Forall entry_ok es2 →
  Forall2 (publicly_equal log2 Redactor_default) es1 es2 →
  redact_environ log2 Redactor_default (blob es1) =
  redact_environ log2 Redactor_default (blob es2).
Proof. apply environ_public. Qed.

Lemma environ_noninterference_witness :
  redact_environ soft_log2 Redactor_default
    (blob [b! "DB_PASSWORD=hunter2"; b! "U=pg://u:pw@h/db"]) =
  redact_environ soft_log2 Redactor_default
    (blob [b! "DB_PASSWORD=correct-horse"; b! "U=pg://u:other@h/db"]).
Proof.
  apply environ_noninterference.
  - repeat constructor; try done; by apply (bool_decide_eq_false_1 _).
  - repeat constructor; try done; by apply (bool_decide_eq_false_1 _).
  - constructor; [|constructor; [|constructor]].
    + apply (pe_key _ _ (b! "DB_PASSWORD") (b! "hunter2") (b! "correct-horse"));
        [by apply (bool_decide_eq_false_1 _)|reflexivity..].
    + apply (pe_password _ _ (b! "U") (b! "pg") (b! "u") (b! "pw") (b! "other") (b! "h/db"));
        first [by apply (bool_decide_eq_false_1 _)|done].
Defined.

(** Redaction keeps the framing: the output has one entry per non-empty entry of
    the input, in order, each the redaction of its own; no entry is dropped,
    merged or split, whatever the bytes. *)
Theorem redact_environ_entries log2 r raw :
  enabled r = true →
  entries (redact_environ log2 r raw) = map (redact_entry log2 r) (entries raw).
Proof.
  intros He. unfold redact_environ. rewrite He, redact_environ_loop_blob.
  change (filter _ (split x00 raw)) with (entries raw).
  apply entries_blob. apply Forall_map. eapply Forall_impl; [apply entries_ok|].
  intros e. apply redact_entry_ok.
Qed.

Lemma redact_environ_entries_witness :
  entries (redact_environ soft_log2 Redactor_default (blob [b! "NOEQUALS"; b! "DB_TOKEN=abc"]))
  = [b! "NOEQUALS"; b! "DB_TOKEN=<redacted>"].
Proof.
  rewrite (redact_environ_entries soft_log2 Redactor_default) by reflexivity.
  vm_compute. reflexivity.
Defined.

(** *** Idempotence *)

Section idempotence.
Context (log2 : f64 → f64) (r : Redactor).

Lemma redact_pair_idem p : fst (redact_pair r (fst (redact_pair r p))) = fst (redact_pair r p).
Proof.
  unfold redact_pair at 2 3. destruct (split_once _ p) as [[k v]|] eqn:E.
  2: { cbn. unfold redact_pair. by rewrite E. }
  destruct (negb _ && _) eqn:S; cbn [fst].
  - apply andb_prop in S as [_ S]. unfold redact_pair.
    apply split_once_Some in E as [-> Hk].
    change (b! "=" ++ REDACTED) with ("="%byte :: REDACTED).
    rewrite split_once_app by done. by rewrite S.
  - unfold redact_pair. by rewrite E, S.
Qed.

Lemma redact_pair_sep c p :
  c ∉ p → c ∉ b! "=" ++ REDACTED → c ∉ fst (redact_pair r p).
Proof.
  unfold redact_pair. intros Hp Hc. destruct (split_once _ p) as [[k v]|] eqn:E; [|done].
  apply split_once_Some in E as [-> Hk]. destruct_cond; [|done]. cbn [fst].
  apply not_elem_of_app in Hp as [Hk' _]. by apply not_elem_of_app.
Qed.

Lemma break_at_stop P s : match s with [] => True | c :: _ => P c = true end →
  break_at P s = ([], s).
Proof. destruct s as [|c s]; simpl; [done|]. by intros ->. Qed.

Lemma redact_query_idem t o :
  redact_query r t = Some o → default o (redact_query r o) = o.
Proof.
  unfold redact_query at 1. intros ([path after] & E & H)%bind_Some.
  apply split_once_Some in E as [-> Hpath].
  destruct (break_at _ after) as [query fragment] eqn:B.
  apply break_at_spec in B as (-> & Hq & Hf). destruct_cond; [|done].
  set (pairs := map fst (map (redact_pair r) (split "&"%byte query))) in *.
  apply (inj Some) in H as <-.
  assert (∀ c, c ∉ query → c ∉ b! "=" ++ REDACTED → Forall (λ w, c ∉ w) pairs) as Hsep.
  { intros c Hcq Hcl. unfold pairs. rewrite map_map. apply Forall_map, Forall_forall.
    intros w Hw. apply redact_pair_sep; [|done]. intros Hc. by eapply Hcq, elem_of_split. }
  assert (break_at (is_byte "#"%byte) (join (b! "&") pairs ++ fragment)
          = (join (b! "&") pairs, fragment)) as HB.
  { rewrite break_at_skip; [by rewrite break_at_stop, app_nil_r|].
    apply not_elem_forallb. apply not_elem_forallb in Hq.
    pose proof (Hsep "#"%byte Hq ltac:(by apply (bool_decide_eq_false_1 _))) as Hs.
    rewrite Forall_forall in Hs. intros [Hin|(w & Hw & Hin)]%elem_of_join.
    - by apply (bool_decide_eq_true_2 _) in Hin.
    - by apply (Hs w). }
  unfold redact_query. change (b! "?" ++ ?x) with ("?"%byte :: x).
  rewrite split_once_app by done. cbn [mbind option_bind]. rewrite HB.
  change (b! "&") with ["&"%byte]. rewrite split_join.
  - assert (map fst (map (redact_pair r) pairs) = pairs) as ->; [|by destruct_cond].
    unfold pairs. rewrite !map_map. apply map_ext. intros. apply redact_pair_idem.
  - unfold pairs. destruct (split _ query) eqn:E'; [by apply split_not_nil in E'|done].
  - unfold pairs. rewrite map_map. apply Forall_map, Forall_forall. intros w Hw.
    apply redact_pair_sep; [|by apply (bool_decide_eq_false_1 _)].
    pose proof (split_pieces "&"%byte query) as Hs. rewrite Forall_forall in Hs. auto.
Qed.

Lemma redact_query_head t o :
  match t with [] => True | c :: _ => ends_authority c = true end →
  redact_query r t = Some o →
  match o with [] => True | c :: _ => ends_authority c = true end.
Proof.
  intros Ht. unfold redact_query. intros ([path after] & E & H)%bind_Some.
  apply split_once_Some in E as [-> _]. destruct (break_at _ after).
  destruct_cond; [|done]. apply (inj Some) in H as <-. by destruct path.
Qed.

Lemma redact_authority_idem a o :
  forallb (negb ∘ ends_authority) a = true → redact_authority log2 a = Some o →
  default o (redact_authority log2 o) = o ∧ forallb (negb ∘ ends_authority) o = true.
Proof.
  intros Ha. unfold redact_authority at 1.
  destruct (split_once _ a) as [[ui host]|] eqn:E; [|done].
  apply split_once_Some in E as [-> Hui].
  apply forallb_app_iff in Ha as [Hui' Hhost]. cbn in Hhost.
  destruct (split_once ":"%byte ui) as [[user pw]|] eqn:E2.
  - destruct_cond; [|done]. intros <-%(inj Some).
    apply split_once_Some in E2 as [-> Hu].
    apply forallb_app_iff in Hui' as [Huser _]. apply not_elem_of_app in Hui as [Hui _].
    split; [|rewrite forallb_app, Huser; exact Hhost].
    unfold redact_authority.
    replace (user ++ b! ":" ++ REDACTED ++ b! "@" ++ host)
      with ((user ++ ":"%byte :: REDACTED) ++ "@"%byte :: host) by by rewrite <- app_assoc.
    rewrite split_once_app by (apply not_elem_of_app; split;
      [done|by apply (bool_decide_eq_false_1 _)]).
    rewrite split_once_app by done. cbn. by rewrite <- app_assoc.
  - destruct_cond; [|done]. intros <-%(inj Some). split; [|exact Hhost].
    unfold redact_authority. change (b! "@" ++ host) with ("@"%byte :: host).
    rewrite split_once_app by by apply (bool_decide_eq_false_1 _). done.
Qed.

(** Parts of a URL that redaction leaves in place. *)
Definition stable_url (log2 : f64 → f64) (scheme authority tail : bytes) : Prop :=
  default authority (redact_authority log2 authority) = authority ∧
  default tail (redact_query r tail) = tail ∧
  forallb (negb ∘ ends_authority) authority = true ∧
  match tail with [] => True | c :: _ => ends_authority c = true end.

Lemma redact_url_parts v o :
  redact_url log2 r v = Some o →
  ∃ scheme rest authority tail, find_sub (b! "://") v = Some (scheme, rest) ∧
    o = scheme ++ b! "://" ++ authority ++ tail ∧ stable_url log2 scheme authority tail.
Proof.
  unfold redact_url. intros ([scheme rest] & E & H)%bind_Some.
  destruct (break_at _ rest) as [a t] eqn:B.
  apply break_at_spec in B as (-> & Ha & Ht).
  exists scheme, (a ++ t), (default a (redact_authority log2 a)), (default t (redact_query r t)).
  split_and!; [done|by destruct (redact_authority _ a), (redact_query _ t); simplify_eq/=|].
  destruct (redact_authority log2 a) as [a'|] eqn:EA, (redact_query r t) as [t'|] eqn:ET;
    unfold stable_url; cbn [from_option id];
    try (pose proof (redact_authority_idem a a' Ha EA) as [? ?]);
    try (pose proof (redact_query_idem t t' ET));
    try (pose proof (redact_query_head t t' Ht ET));
    split_and!; rewrite ?EA, ?ET; done.
Qed.

Lemma redact_url_stable scheme x authority tail :
  (∃ v, find_sub (b! "://") v = Some (scheme, x)) → stable_url log2 scheme authority tail →
  default (scheme ++ b! "://" ++ authority ++ tail)
    (redact_url log2 r (scheme ++ b! "://" ++ authority ++ tail))
  = scheme ++ b! "://" ++ authority ++ tail.
Proof.
  intros [v Hv] (Ha & Ht & Hae & Hte). unfold redact_url.
  rewrite (find_sub_tail _ _ _ _ (authority ++ tail) Hv). cbn [mbind option_bind].
  rewrite break_at_skip, break_at_stop by done. cbn [fst snd]. rewrite app_nil_r.
  destruct (redact_authority log2 authority), (redact_query r tail);
    cbn [from_option id] in *; congruence.
Qed.

Lemma redact_entry_idem e :
  redact_entry log2 r (redact_entry log2 r e) = redact_entry log2 r e.
Proof.
  destruct (is_utf8 (redact_entry log2 r e)) eqn:U.
  2: { unfold redact_entry at 1, from_utf8. by rewrite U. }
  revert U. unfold redact_entry at 1 3 4. destruct (from_utf8 e) as [t|] eqn:Ue.
  2: { intros. unfold redact_entry. by rewrite Ue. }
  apply from_utf8_Some in Ue as Ht. subst t.
  destruct (split_once _ e) as [[k v]|] eqn:E.
  2: { intros. unfold redact_entry. by rewrite Ue, E. }
  destruct (key_is_secret r k || looks_secret_value log2 v) eqn:S.
  - apply split_once_Some in E as [-> Hk]. intros U.
    change (b! "=" ++ REDACTED) with ("="%byte :: REDACTED) in *.
    rewrite redact_entry_pair by done. by destruct (key_is_secret r k).
  - apply orb_false_elim in S as [Sk Sv].
    destruct (redact_url log2 r v) as [o|] eqn:Ho; intros U.
    + apply redact_url_parts in Ho as (scheme & rest & a & t & Hf & -> & Hst).
      change (b! "=" ++ ?x) with ("="%byte :: x) in *.
      apply split_once_Some in E as [-> Hk].
      rewrite redact_entry_pair by done.
      rewrite Sk, looks_secret_url. apply find_sub_Some in Hf as Hv. subst v.
      rewrite looks_secret_url in Sv. rewrite Sv. cbn [orb].
      pose proof (redact_url_stable scheme rest a t ltac:(eauto) Hst) as Hstab.
      destruct (redact_url log2 r _); cbn [from_option id] in Hstab; by rewrite ?Hstab.
    + unfold redact_entry. by rewrite Ue, E, Sk, Sv, Ho.
Qed.

End idempotence.

(** Redacting twice is redacting once: the second pass finds nothing left to hide
    and does not disturb what the first one wrote. *)
Theorem redact_environ_idempotent log2 r raw :
  redact_environ log2 r (redact_environ log2 r raw) = redact_environ log2 r raw.
Proof.
  unfold redact_environ. destruct (enabled r); [|done].
  rewrite !redact_environ_loop_blob.
  change (filter _ (split x00 ?x)) with (entries x).
  rewrite entries_blob.
  - rewrite map_map. f_equal. apply map_ext. intros. apply redact_entry_idem.
  - apply Forall_map. eapply Forall_impl; [apply entries_ok|]. intros e. apply redact_entry_ok.
Qed.

(** *** Command lines *)

Section cmdline.
Context (log2 : f64 → f64) (r : Redactor).

(** The arguments [redact_cmdline] emits, before they are joined. *)
Fixpoint cmdline_scan (redact_next : bool) (args : list bytes) : list bytes :=
  match args with
  | [] => []
  | arg :: rest =>
      if redact_next then REDACTED :: cmdline_scan false rest
      else redact_entry log2 r arg :: cmdline_scan (is_secret_flag r arg) rest
  end.

Lemma redact_cmdline_loop_blob n l :
  redact_cmdline_loop log2 r n l = blob (cmdline_scan n (filter (λ e, e ≠ []) l)).
Proof.
  revert n. induction l as [|e l IH]; intros n; [done|]. simpl.
  destruct (decide (e = [])) as [->|Hne].
  - by rewrite filter_cons_False by tauto.
  - rewrite filter_cons_True by done. destruct n; rewrite IH; unfold blob;
      cbn [cmdline_scan map concat]; by rewrite <- app_assoc.
Qed.

Lemma redact_cmdline_blob as' :
  enabled r = true → Forall entry_ok as' →
  redact_cmdline log2 r (blob as') = blob (cmdline_scan false as').
Proof.
  intros He Has. unfold redact_cmdline. rewrite He, redact_cmdline_loop_blob.
  change (filter _ (split x00 ?x)) with (entries x). by rewrite entries_blob.
Qed.

(** Argument vectors the scan does not tell apart: the boolean is the scan's
    own [redact_next], so this is what the scan hides and no more. *)
Inductive args_equal : bool → list bytes → list bytes → Prop :=
| ae_nil n : args_equal n [] []
| ae_value v1 v2 l1 l2 : args_equal false l1 l2 → args_equal true (v1 :: l1) (v2 :: l2)
| ae_arg a1 a2 l1 l2 :
    publicly_equal log2 r a1 a2 → args_equal (is_secret_flag r a1) l1 l2 →
    args_equal false (a1 :: l1) (a2 :: l2).

Lemma assignment_not_flag k v : is_secret_flag r (k ++ "="%byte :: v) = false.
Proof.
  unfold is_secret_flag. destruct (from_utf8 _) as [t|] eqn:U; [|done].
  apply from_utf8_Some in U as ->.
  assert (contains (b! "=") (k ++ "="%byte :: v) = true) as ->.
  { apply contains_true. by exists k, v. }
  by rewrite andb_false_r.
Qed.

Lemma public_flag a1 a2 :
  publicly_equal log2 r a1 a2 → is_secret_flag r a1 = is_secret_flag r a2.
Proof. intros []; by rewrite ?assignment_not_flag. Qed.

Lemma cmdline_scan_public n l1 l2 :
  args_equal n l1 l2 → cmdline_scan n l1 = cmdline_scan n l2.
Proof.
  induction 1 as [|v1 v2 l1 l2 _ IH|a1 a2 l1 l2 He _ IH]; simpl; [done|by rewrite IH|].
  by rewrite (redact_entry_public _ _ _ _ He), IH, (public_flag _ _ He).
Qed.

(** The argument at [i] is the value of a secret flag: it comes right after a
    secret flag that does not itself come right after a secret flag.  Said of
    the arguments alone, without the scan. *)
Definition flag_value (args : list bytes) (i : nat) : Prop :=
  ∃ j flag, i = S j ∧ args !! j = Some flag ∧ is_secret_flag r flag = true ∧
    ∀ k prev, j = S k → args !! k = Some prev → is_secret_flag r prev = false.

(** Two argument vectors that may differ, position by position, only in what is
    publicly equal or in the value of a secret flag. *)
Definition differ_in_flag_values (args1 args2 : list bytes) : Prop :=
  length args1 = length args2 ∧
  ∀ i a1 a2, args1 !! i = Some a1 → args2 !! i = Some a2 →
    publicly_equal log2 r a1 a2 ∨ flag_value args1 i.

(** The scan redacts every flag value, so it equates such vectors.  [seen] are the
    arguments already scanned and [n] what [redact_next] is after them. *)
Lemma flag_values_args_equal_from seen l1 l2 n :
  length l1 = length l2 →
  (∀ i a1 a2, l1 !! i = Some a1 → l2 !! i = Some a2 →
     publicly_equal log2 r a1 a2 ∨ flag_value (seen ++ l1) (length seen + i)) →
  (n = true → ∃ flag, last seen = Some flag ∧ is_secret_flag r flag = true) →
  (flag_value (seen ++ l1) (length seen) → n = true) →
  args_equal n l1 l2.
Proof.
  revert seen l2 n. induction l1 as [|a1 l1 IH]; intros seen [|a2 l2] n Hlen Hat Hn Hv;
    [constructor|discriminate..|].
  assert (∀ n', (n' = true → n = false ∧ is_secret_flag r a1 = true) →
                (n = false → n' = is_secret_flag r a1) → args_equal n' l1 l2) as Htail.
  { intros n' Hn' Hnext. apply (IH (seen ++ [a1])).
    - by injection Hlen.
    - intros i b1 b2 H1 H2. destruct (Hat (S i) b1 b2 H1 H2) as [?|Hf]; [by left|right].
      rewrite <- app_assoc, length_app. cbn.
      by replace (length seen + 1 + i)%nat with (length seen + S i)%nat by lia.
    - intros Ht. exists a1. rewrite last_snoc. split; [done|]. by apply Hn'.
    - rewrite <- app_assoc, length_app, Nat.add_1_r. cbn.
      intros (j & flag & [= <-] & Hj & Hflag & Hprev).
      rewrite list_lookup_middle in Hj by done. injection Hj as <-.
      rewrite Hnext; [done|]. destruct n; [|done]. exfalso.
      destruct (Hn eq_refl) as (g & Hg & Hgf). apply last_Some in Hg as [l ->].
      rewrite length_app, Nat.add_1_r in Hprev.
      rewrite (Hprev (length l) g) in Hgf; [done|done|].
      rewrite <- app_assoc. cbn. by rewrite list_lookup_middle. }
  destruct n.
  - apply ae_value, Htail; [by intros ?|done].
  - apply ae_arg; [|by apply Htail].
    destruct (Hat 0%nat a1 a2 eq_refl eq_refl) as [?|Hf]; [done|].
    rewrite Nat.add_0_r in Hf. by apply Hv in Hf.
Qed.

Lemma flag_values_args_equal args1 args2 :
  differ_in_flag_values args1 args2 → args_equal false args1 args2.
Proof.
  intros [Hlen Hat]. apply (flag_values_args_equal_from []); [done|exact Hat|done|].
  by intros (j & flag & [=] & _).
Qed.

End cmdline.

Lemma cmdline_public log2 as1 as2 :
  Forall entry_ok as1 → Forall entry_ok as2 →
  args_equal log2 Redactor_default false as1 as2 →
  redact_cmdline log2 Redactor_default (blob as1) =
  redact_cmdline log2 Redactor_default (blob as2).
Proof.
  intros. rewrite !redact_cmdline_blob by done. f_equal. by apply cmdline_scan_public.
Qed.



(** The value of a secret flag that itself follows a secret flag is not redacted:
    the first flag consumes the second as its value.  Every value without ["="]
    after [--no-auth --token] survives. *)
Theorem cmdline_flag_after_flag_keeps_value log2 v :
  entry_ok v → "="%byte ∉ v →
  redact_cmdline log2 Redactor_default (blob [b! "app"; b! "--no-auth"; b! "--token"; v])
  = blob [b! "app"; b! "--no-auth"; REDACTED; v].
Proof.
  intros Hv Heq. rewrite redact_cmdline_blob; [|done|].
  - cbn [cmdline_scan].
    assert (redact_entry log2 Redactor_default v = v) as ->.
    { unfold redact_entry. destruct (from_utf8 v) as [t|] eqn:U; [|done].
      apply from_utf8_Some in U as ->. apply split_once_None in Heq as ->. done. }
    done.
  - repeat (constructor; [split; [done|by apply (bool_decide_eq_false_1 _)]|]). by constructor.
Qed.

Lemma cmdline_flag_after_flag_keeps_value_witness :
  redact_cmdline soft_log2 Redactor_default
    (blob [b! "app"; b! "--no-auth"; b! "--token"; b! "ghp_AbC123"])
  = blob [b! "app"; b! "--no-auth"; REDACTED; b! "ghp_AbC123"].
Proof.
  apply cmdline_flag_after_flag_keeps_value; [split; [done|]|];
    by apply (bool_decide_eq_false_1 _).
Defined.

(** A password holding the userinfo delimiter is cut at its first ["@"]: the
    part after it stays in the output. *)
Example url_password_after_at_kept :
  redact_entry soft_log2 Redactor_default (b! "DB=postgres://u:p@ss@host/db")
  = b! "DB=postgres://u:<redacted>@ss@host/db".
Proof. vm_compute. reflexivity. Qed.

End Redact.
