(* ===== verification/BuildId.v ===== *)
(** * [src/buildid.rs]: the GNU build-id of an ELF image

    The parser with its machine arithmetic: [usize] is 64 bits wide, unchecked
    additions wrap in a release build and panic in a build with overflow checks
    (the boolean parameter [checks]), slice indexing panics out of range. *)

From S2P Require Import Prelude RustStr.

Module BuildId.

(** ** Outcomes

    [Ret None] is the [None] the function returns, [Panic] a panic, [OutOfFuel] a
    loop the model did not follow to its end. *)

Inductive outcome (A : Type) : Type := Panic | OutOfFuel | Ret (v : option A).
Arguments Panic {A}. Arguments OutOfFuel {A}. Arguments Ret {A} _.

Definition obind {A B} (m : outcome A) (k : A → outcome B) : outcome B :=
  match m with
  | Panic => Panic | OutOfFuel => OutOfFuel
  | Ret None => Ret None
  | Ret (Some x) => k x
  end.
(** [let x = m?; k] of the source. *)
Notation "'try' x ':=' m 'in' k" := (obind m (λ x, k))
  (at level 10, x name, m at level 200, k at level 200).

Definition NT_GNU_BUILD_ID : Z := 3.
Definition PT_NOTE : Z := 4.
Definition MAX_ELF_PREFIX : Z := 2 * 1024 * 1024.

Definition len (b : bytes) : Z := Z.of_nat (length b).

(** [slice.get(s..e)] *)
Definition slice_get (b : bytes) (s e : Z) : option bytes :=
  if decide (0 ≤ s ≤ e ∧ e ≤ len b)%Z
  then Some (take (Z.to_nat (e - s)) (drop (Z.to_nat s) b)) else None.

(** [&slice[s..e]] *)
Definition slice_index (b : bytes) (s e : Z) : outcome bytes :=
  match slice_get b s e with Some x => Ret (Some x) | None => Panic end.

(** [slice[i]] *)
Definition index (b : bytes) (i : nat) : outcome byte :=
  match b !! i with Some x => Ret (Some x) | None => Panic end.

Fixpoint from_le_bytes (b : bytes) : Z :=
  match b with [] => 0 | c :: b' => u8 c + 256 * from_le_bytes b' end.
Definition from_bytes (le : bool) (b : bytes) : Z :=
  from_le_bytes (if le then b else reverse b).

Definition hex_digit (n : Z) : byte :=
  nth (Z.to_nat n) (b! "0123456789abcdef") x00.
Definition hex_byte (c : byte) : bytes :=
  [hex_digit (Z.shiftr (u8 c) 4); hex_digit (Z.land (u8 c) 15)].
Definition hex (bs : bytes) : bytes := concat (map hex_byte bs).

Section parser.
(** Whether the build has overflow checks. *)
Context (checks : bool).

(** Unchecked [+] on [usize]. *)
Definition usize_add (a b : Z) : outcome Z :=
  if decide (a + b ≤ usize_max)%Z then Ret (Some (a + b)%Z)
  else if checks then Panic else Ret (Some (wrap_u64 (a + b))).

Definition read_uint (width : Z) (b : bytes) (o : Z) (le : bool) : outcome Z :=
  try e := usize_add o width in
  Ret (from_bytes le <$> slice_get b o e).
Definition read_u16 := read_uint 2.
Definition read_u32 := read_uint 4.
Definition read_u64 := read_uint 8.

(** [(n + 3) & !3] *)
Definition align4 (n : Z) : outcome Z :=
  try m := usize_add n 3 in Ret (Some (Z.ldiff m 3)).

Fixpoint scan_notes_loop (fuel : nat) (notes : bytes) (le : bool) (pos : Z) : outcome bytes :=
  match fuel with
  | O => OutOfFuel
  | S fuel =>
      try hdr_end := usize_add pos 12 in
      if decide (hdr_end ≤ len notes)%Z then
        try namesz := read_u32 notes pos le in
        try pos4 := usize_add pos 4 in
        try descsz := read_u32 notes pos4 le in
        try pos8 := usize_add pos 8 in
        try ntype := read_u32 notes pos8 le in
        try name_start := usize_add pos 12 in
        try name_end := Ret (checked_add name_start namesz) in
        try name_pad := align4 namesz in
        try desc_start := usize_add name_start name_pad in
        try desc_end := Ret (checked_add desc_start descsz) in
        if decide (len notes < desc_end)%Z then Ret None else
        try is_id := (if decide (ntype = NT_GNU_BUILD_ID)
                      then Ret (starts_with (b! "GNU") <$> slice_get notes name_start name_end)
                      else Ret (Some false)) in
        if (is_id : bool) then
          try desc := slice_index notes desc_start desc_end in Ret (Some (hex desc))
        else
          try desc_pad := align4 descsz in
          try pos' := usize_add desc_start desc_pad in
          scan_notes_loop fuel notes le pos'
      else Ret None
  end.

(** [pos] grows by at least 12 in each round, so [length notes + 1] rounds are
    more than enough. *)
Definition scan_notes (notes : bytes) (le : bool) : outcome bytes :=
  scan_notes_loop (S (length notes)) notes le 0.

(** The body of [for i in 0..phnum]: [Ret (Some (Some id))] returns from the
    function, [Ret (Some None)] goes on with the next header. *)
Definition program_header (elf : bytes) (is64 le : bool) (phoff phentsize i : Z)
    : outcome (option bytes) :=
  try m := Ret (checked_mul i phentsize) in
  try off := Ret (checked_add phoff m) in
  try p_type := read_u32 elf off le in
  if decide (p_type ≠ PT_NOTE) then Ret (Some None) else
  try span :=
    (if is64 then
       try off8 := usize_add off 8 in
       try o := read_u64 elf off8 le in
       try off32 := usize_add off 32 in
       try s := read_u64 elf off32 le in
       Ret (Some (o, s))
     else
       try off4 := usize_add off 4 in
       try o := read_u32 elf off4 le in
       try off16 := usize_add off 16 in
       try s := read_u32 elf off16 le in
       Ret (Some (o, s))) in
  let '(p_offset, p_filesz) := span in
  try p_end := Ret (checked_add p_offset p_filesz) in
  try notes := Ret (slice_get elf p_offset p_end) in
  match scan_notes notes le with
  | Ret (Some id) => Ret (Some (Some id))
  | Ret None => Ret (Some None)
  | Panic => Panic
  | OutOfFuel => OutOfFuel
  end.

Fixpoint program_headers (n : nat) (elf : bytes) (is64 le : bool) (phoff phentsize i : Z)
    : outcome bytes :=
  match n with
  | O => Ret None
  | S n =>
      try found := program_header elf is64 le phoff phentsize i in
      match found with
      | Some id => Ret (Some id)
      | None => program_headers n elf is64 le phoff phentsize (i + 1)
      end
  end.

Definition build_id_from_bytes (elf : bytes) : outcome bytes :=
  if decide (len elf < 64)%Z then Ret None else
  try magic := slice_index elf 0 4 in
  if decide (magic ≠ [x7f; "E"%byte; "L"%byte; "F"%byte]) then Ret None else
  try class := index elf 4 in
  try is64 := Ret (match class with x01 => Some false | x02 => Some true | _ => None end) in
  try data := index elf 5 in
  try le := Ret (match data with x01 => Some true | x02 => Some false | _ => None end) in
  try table :=
    (if is64 : bool then
       try a := read_u64 elf 32 le in
       try b := read_u16 elf 54 le in
       try c := read_u16 elf 56 le in Ret (Some (a, b, c))
     else
       try a := read_u32 elf 28 le in
       try b := read_u16 elf 42 le in
       try c := read_u16 elf 44 le in Ret (Some (a, b, c))) in
  let '(phoff, phentsize, phnum) := table in
  program_headers (Z.to_nat phnum) elf is64 le phoff phentsize 0.

End parser.

(** [build_id_from_path]: the file's bytes up to [MAX_ELF_PREFIX], or an error of
    opening or reading it. *)
Definition build_id_from_path (checks : bool) (file : result bytes unit) : outcome bytes :=
  match file with
  | Err _ => Ret None
  | Ok content => build_id_from_bytes checks (takeZ MAX_ELF_PREFIX content)
  end.

(** ** Lemmas *)

(** A Rust slice is never longer than [isize::MAX] bytes. *)
Definition isize_max : Z := 9223372036854775807.
Definition total {A} (m : outcome A) : Prop := ∃ v, m = Ret v.

Lemma total_ret {A} (v : option A) : total (Ret v).
Proof. by exists v. Qed.

Lemma total_bind {A B} (m : outcome A) (k : A → outcome B) :
  total m → (∀ x, m = Ret (Some x) → total (k x)) → total (obind m k).
Proof. intros [[x|] ->] Hk; simpl; [by apply Hk|apply total_ret]. Qed.

#[local] Hint Resolve total_ret : coredrop.

Lemma usize_add_small checks a b :
  (a + b ≤ usize_max)%Z → usize_add checks a b = Ret (Some (a + b)%Z).
Proof. intros. unfold usize_add. by rewrite decide_True. Qed.

Lemma usize_add_release_total a b : total (usize_add false a b).
Proof. unfold usize_add. case_decide; auto with coredrop. Qed.

Lemma from_le_bytes_bound b : (0 ≤ from_le_bytes b < 256 ^ Z.of_nat (length b))%Z.
Proof.
  induction b as [|c b IH]; [simpl; lia|].
  cbn [from_le_bytes length]. pose proof (u8_range c).
  rewrite Nat2Z.inj_succ, Z.pow_succ_r by lia. lia.
Qed.

Lemma from_bytes_bound le b : (0 ≤ from_bytes le b < 256 ^ Z.of_nat (length b))%Z.
Proof.
  unfold from_bytes. destruct le; [apply from_le_bytes_bound|].
  pose proof (from_le_bytes_bound (reverse b)). by rewrite length_reverse in *.
Qed.

Lemma slice_get_length b s e x : slice_get b s e = Some x → len x = (e - s)%Z.
Proof.
  unfold slice_get, len. case_decide; [|done]. intros <-%(inj Some).
  rewrite length_take, length_drop. unfold len in *. lia.
Qed.

Lemma slice_get_at (pre x rest b : bytes) s e :
  b = pre ++ x ++ rest → s = len pre → e = (len pre + len x)%Z → slice_get b s e = Some x.
Proof.
  intros -> -> ->. unfold slice_get, len. rewrite !length_app, decide_True by lia.
  replace (Z.to_nat (Z.of_nat (length pre))) with (length pre) by lia.
  rewrite drop_app_length. f_equal.
  replace (Z.to_nat _) with (length x) by lia. apply take_app_length.
Qed.

Lemma slice_get_in_range b s e :
  (0 ≤ s ≤ e)%Z → (e ≤ len b)%Z → ∃ x, slice_get b s e = Some x.
Proof. intros. unfold slice_get. rewrite decide_True by lia. eauto. Qed.

(** A read inside the slice succeeds, with a value of the field's width. *)
Lemma read_uint_in_range checks w b o le :
  (0 ≤ w)%Z → (0 ≤ o)%Z → (o + w ≤ len b)%Z → (len b ≤ isize_max)%Z →
  ∃ v, read_uint checks w b o le = Ret (Some v) ∧ (0 ≤ v < 256 ^ w)%Z.
Proof.
  intros Hw Ho Hb Hm. unfold read_uint.
  rewrite usize_add_small by (unfold usize_max, u64_max, isize_max in *; lia).
  destruct (slice_get_in_range b o (o + w)) as [x Hx]; [lia..|].
  cbn. rewrite Hx. eexists. split; [done|].
  pose proof (from_bytes_bound le x) as Hx'. apply slice_get_length in Hx.
  unfold len in Hx. by replace (Z.of_nat (length x)) with w in Hx' by lia.
Qed.

(** A successful read was inside the slice. *)
Lemma read_uint_Some checks w b o le v :
  (0 ≤ o)%Z → (0 ≤ w < 16)%Z → (o ≤ usize_max)%Z →
  read_uint checks w b o le = Ret (Some v) → (o + w ≤ len b)%Z.
Proof.
  intros Ho Hw Hmax. unfold read_uint, usize_add.
  case_decide as Hs; [|destruct checks; [done|]]; cbn; unfold slice_get; case_decide; try done; [lia|].
  unfold wrap_u64, usize_max, u64_max in *.
  assert ((o + w) `mod` 18446744073709551616 = o + w - 18446744073709551616)%Z by
    (symmetry; apply Z.mod_unique with 1%Z; lia).
  lia.
Qed.

Lemma read_uint_release_total w b o le : total (read_uint false w b o le).
Proof. unfold read_uint. apply total_bind; [apply usize_add_release_total|auto with coredrop]. Qed.

Lemma ldiff3 n : Z.ldiff n 3 = (n - n `mod` 4)%Z.
Proof.
  change 3%Z with (Z.ones 2). rewrite Z.ldiff_ones_r by lia.
  rewrite Z.shiftl_mul_pow2, Z.shiftr_div_pow2 by lia.
  change (2 ^ 2)%Z with 4%Z. pose proof (Z.div_mod n 4). lia.
Qed.

Lemma align4_small checks n :
  (0 ≤ n ≤ 4294967295)%Z →
  ∃ m, align4 checks n = Ret (Some m) ∧ m = Z.ldiff (n + 3) 3 ∧ (n ≤ m ≤ n + 3)%Z.
Proof.
  intros Hn. unfold align4.
  rewrite usize_add_small by (unfold usize_max, u64_max; lia). cbn.
  eexists. split; [done|]. rewrite ldiff3.
  pose proof (Z.mod_pos_bound (n + 3) 4). split; [done|]. lia.
Qed.

(** [in_range] discharges the side conditions of machine arithmetic. *)
Ltac in_range := unfold usize_max, u64_max, isize_max in *; lia.

Ltac read_field checks le b o v :=
  let Hv := fresh "H" v in
  let E := fresh "E" in
  destruct (read_uint_in_range checks 4 b o le) as (v & E & Hv); [in_range..|];
  unfold read_u32; rewrite E; cbn [obind].

Lemma scan_notes_loop_total checks notes le fuel pos :
  (len notes ≤ isize_max)%Z → (0 ≤ pos ≤ len notes + 3)%Z →
  (len notes - pos < Z.of_nat fuel)%Z → (0 < fuel)%nat →
  total (scan_notes_loop checks fuel notes le pos).
Proof.
  intros Hlen. revert pos. induction fuel as [|fuel IH]; intros pos Hpos Hfuel Hf; [lia|].
  cbn [scan_notes_loop]. rewrite usize_add_small by in_range. cbn [obind].
  case_decide; [|auto with coredrop].
  read_field checks le notes pos namesz. rewrite usize_add_small by in_range. cbn [obind].
  read_field checks le notes (pos + 4)%Z descsz. rewrite usize_add_small by in_range. cbn [obind].
  read_field checks le notes (pos + 8)%Z ntype.
  change (256 ^ 4)%Z with 4294967296%Z in *.
  unfold checked_add. rewrite decide_True by in_range. cbn [obind].
  destruct (align4_small checks namesz) as (np & -> & _ & Hnp); [lia|]. cbn [obind].
  rewrite usize_add_small by in_range. cbn [obind].
  rewrite decide_True by in_range. cbn [obind].
  case_decide; [auto with coredrop|].
  apply total_bind; [case_decide; auto with coredrop|]. intros [|] _.
  - destruct (slice_get_in_range notes (pos + 12 + np) (pos + 12 + np + descsz)) as [x Hx]; [lia..|].
    unfold slice_index. rewrite Hx. apply total_ret.
  - destruct (align4_small checks descsz) as (dp & -> & _ & Hdp); [lia|]. cbn [obind].
    rewrite usize_add_small by in_range. cbn [obind].
    destruct fuel as [|fuel]; [lia|]. apply IH; lia.
Qed.

Lemma scan_notes_total checks notes le :
  (len notes ≤ isize_max)%Z → total (scan_notes checks notes le).
Proof. intros. apply scan_notes_loop_total; unfold len in *; lia. Qed.

Lemma slice_get_len_le b s e x : slice_get b s e = Some x → (len x ≤ len b)%Z.
Proof.
  intros H. pose proof (slice_get_length _ _ _ _ H). unfold slice_get in H.
  case_decide; [lia|done].
Qed.

(** Only the very first read of a program header can overflow. *)
Lemma program_header_total checks elf is64 le phoff phentsize i :
  (len elf ≤ isize_max)%Z → (0 ≤ phoff)%Z → (0 ≤ phentsize)%Z → (0 ≤ i)%Z →
  (checks = false ∨ phoff + i * phentsize ≤ usize_max - 4)%Z →
  total (program_header checks elf is64 le phoff phentsize i).
Proof.
  intros Hlen Hp He Hi Hc. unfold program_header, checked_mul, checked_add.
  case_decide; cbn [obind]; [|auto with coredrop].
  case_decide; cbn [obind]; [|auto with coredrop].
  apply total_bind.
  { destruct Hc as [->|Hc]; [apply read_uint_release_total|].
    unfold read_u32, read_uint. rewrite usize_add_small by in_range. apply total_ret. }
  intros p_type Hpt. apply read_uint_Some in Hpt; [|in_range..].
  case_decide; [auto with coredrop|].
  apply total_bind.
  { destruct is64.
    - rewrite usize_add_small by in_range. cbn [obind].
      apply total_bind; [|intros o Ho; apply read_uint_Some in Ho; [|in_range..]].
      { unfold read_u64, read_uint. rewrite usize_add_small by in_range. apply total_ret. }
      rewrite usize_add_small by in_range. cbn [obind].
      apply total_bind; [|auto with coredrop].
      unfold read_u64, read_uint. rewrite usize_add_small by in_range. apply total_ret.
    - rewrite usize_add_small by in_range. cbn [obind].
      apply total_bind; [|intros o Ho; apply read_uint_Some in Ho; [|in_range..]].
      { unfold read_u32, read_uint. rewrite usize_add_small by in_range. apply total_ret. }
      rewrite usize_add_small by in_range. cbn [obind].
      apply total_bind; [|auto with coredrop].
      unfold read_u32, read_uint. rewrite usize_add_small by in_range. apply total_ret. }
  intros [o s'] _. cbn [obind]. case_decide; [|apply total_ret]. cbn [obind].
  destruct (slice_get elf o (o + s')) as [notes|] eqn:Hn; [|apply total_ret]. cbn [obind].
  destruct (scan_notes_total checks notes le) as [v ->].
  { apply slice_get_len_le in Hn. lia. }
  destruct v; auto with coredrop.
Qed.

Lemma program_headers_total checks n elf is64 le phoff phentsize i :
  (len elf ≤ isize_max)%Z → (0 ≤ phoff)%Z → (0 ≤ phentsize)%Z → (0 ≤ i)%Z →
  (checks = false ∨ phoff + (i + Z.of_nat n) * phentsize ≤ usize_max - 4)%Z →
  total (program_headers checks n elf is64 le phoff phentsize i).
Proof.
  intros Hlen Hp He. revert i. induction n as [|n IH]; intros i Hi Hc; [apply total_ret|].
  cbn [program_headers]. apply total_bind.
  - apply program_header_total; try done. destruct Hc; [by left|right; nia].
  - intros [id|] _; [apply total_ret|]. apply IH; [lia|]. destruct Hc; [by left|right; nia].
Qed.

Lemma index_in_range b (i : nat) : (i < length b)%nat → total (index b i).
Proof. intros [x Hx]%lookup_lt_is_Some_2. unfold index. rewrite Hx. apply total_ret. Qed.

Lemma build_id_total elf :
  (len elf ≤ isize_max)%Z → ∃ v, build_id_from_bytes false elf = Ret v.
Proof.
  intros Hlen. change (total (build_id_from_bytes false elf)). unfold build_id_from_bytes.
  case_decide; [apply total_ret|].
  assert (64 ≤ length elf)%nat by (unfold len in *; lia).
  apply total_bind.
  { unfold slice_index. destruct (slice_get_in_range elf 0 4) as [x ->]; [unfold len; lia..|].
    apply total_ret. }
  intros magic _. case_decide; [apply total_ret|].
  apply total_bind; [apply index_in_range; lia|]. intros class _.
  apply total_bind; [apply total_ret|]. intros is64 _.
  apply total_bind; [apply index_in_range; lia|]. intros data _.
  apply total_bind; [apply total_ret|]. intros le _.
  assert (∀ w o, (0 ≤ w)%Z → (0 ≤ o)%Z → (o + w ≤ 64)%Z →
    ∃ v, read_uint false w elf o le = Ret (Some v) ∧ (0 ≤ v < 256 ^ w)%Z) as Hread.
  { intros. apply read_uint_in_range; unfold len in *; lia. }
  assert (∀ a b c, (0 ≤ a)%Z → (0 ≤ b)%Z →
    total (program_headers false (Z.to_nat c) elf is64 le a b 0)) as Hph.
  { intros. apply program_headers_total; try lia; by left. }
  destruct is64.
  - destruct (Hread 8 32)%Z as (a & Ha & ?); [lia..|]. destruct (Hread 2 54)%Z as (b & Hb & ?); [lia..|].
    destruct (Hread 2 56)%Z as (c & Hc & ?); [lia..|].
    unfold read_u64, read_u16. rewrite Ha, Hb, Hc. cbn. apply Hph; lia.
  - destruct (Hread 4 28)%Z as (a & Ha & ?); [lia..|]. destruct (Hread 2 42)%Z as (b & Hb & ?); [lia..|].
    destruct (Hread 2 44)%Z as (c & Hc & ?); [lia..|].
    unfold read_u32, read_u16. rewrite Ha, Hb, Hc. cbn. apply Hph; lia.
Qed.

(** ** Properties *)

(** C30: the parser never panics and always terminates in a release build, whatever
    bytes the crashed executable holds. *)
Theorem build_id_release_total elf :
  (len elf ≤ isize_max)%Z → ∃ v, build_id_from_bytes false elf = Ret v.
Proof. apply build_id_total. Qed.

(** An ELF header whose program-header table lies at the very end of the
    address space. *)
Definition hostile_elf : bytes :=
  [x7f; "E"%byte; "L"%byte; "F"%byte; x02; x01; x01] ++ replicate 25 x00
  ++ [xfe; xff; xff; xff; xff; xff; xff; xff]
  ++ replicate 14 x00 ++ [x38; x00; x01; x00] ++ replicate 6 x00.

Lemma build_id_release_total_witness :
  ∃ v, build_id_from_bytes false hostile_elf = Ret v.
Proof. apply build_id_release_total. by vm_compute. Defined.

(** The same header panics a build with overflow checks: [o + 4] is an unchecked
    addition. *)
Example build_id_overflow_checks_panic : build_id_from_bytes true hostile_elf = Panic.
Proof. vm_compute. reflexivity. Qed.

(** ** The note segment as an encoding *)

Record note := mkNote { n_name : bytes; n_desc : bytes; n_type : Z }.

Fixpoint to_le_bytes (w : nat) (z : Z) : bytes :=
  match w with O => [] | S w => byte_of_Z z :: to_le_bytes w (z `div` 256) end.
Definition to_bytes (le : bool) (w : nat) (z : Z) : bytes :=
  if le then to_le_bytes w z else reverse (to_le_bytes w z).

(** Padding to a multiple of four bytes. *)
Definition padding (s : bytes) : bytes :=
  replicate (Z.to_nat (Z.ldiff (len s + 3) 3 - len s)) x00.

Definition encode_note (le : bool) (n : note) : bytes :=
  to_bytes le 4 (len (n_name n)) ++ to_bytes le 4 (len (n_desc n)) ++ to_bytes le 4 (n_type n)
  ++ n_name n ++ padding (n_name n) ++ n_desc n ++ padding (n_desc n).

Definition is_build_id (n : note) : bool :=
  bool_decide (n_type n = NT_GNU_BUILD_ID) && starts_with (b! "GNU") (n_name n).

Definition note_ok (n : note) : Prop :=
  (len (n_name n) ≤ u32_max)%Z ∧ (len (n_desc n) ≤ u32_max)%Z ∧ (0 ≤ n_type n ≤ u32_max)%Z.

Lemma byte_of_Z_u8 z : u8 (byte_of_Z z) = (z `mod` 256)%Z.
Proof.
  unfold u8, byte_of_Z. pose proof (Z.mod_pos_bound z 256).
  destruct (Byte.of_N (Z.to_N (z `mod` 256))) as [c|] eqn:E; cbn.
  - apply Byte.to_of_N in E. lia.
  - apply Byte.of_N_None_iff in E. lia.
Qed.

Lemma length_to_le w z : length (to_le_bytes w z) = w.
Proof. revert z. induction w; intros; cbn; auto. Qed.

Lemma len_to_bytes le w z : len (to_bytes le w z) = Z.of_nat w.
Proof. unfold len, to_bytes. destruct le; by rewrite ?length_reverse, length_to_le. Qed.

Lemma from_to_le w z :
  (0 ≤ z < 256 ^ Z.of_nat w)%Z → from_le_bytes (to_le_bytes w z) = z.
Proof.
  revert z. induction w as [|w IH]; intros z Hz; [simpl in *; lia|].
  rewrite Nat2Z.inj_succ, Z.pow_succ_r in Hz by lia.
  cbn [to_le_bytes from_le_bytes]. rewrite byte_of_Z_u8, IH.
  - pose proof (Z.div_mod z 256). lia.
  - split; [apply Z.div_pos; lia|apply Z.div_lt_upper_bound; lia].
Qed.

Lemma from_to_bytes le z :
  (0 ≤ z ≤ u32_max)%Z → from_bytes le (to_bytes le 4 z) = z.
Proof.
  intros Hz. unfold from_bytes, to_bytes, u32_max in *.
  destruct le; rewrite ?reverse_involutive; apply from_to_le; lia.
Qed.

Lemma len_app a b : len (a ++ b) = (len a + len b)%Z.
Proof. unfold len. rewrite length_app. lia. Qed.

Lemma len_padding s : len (padding s) = (Z.ldiff (len s + 3) 3 - len s)%Z.
Proof.
  unfold padding. unfold len at 1. rewrite length_replicate.
  rewrite ldiff3. pose proof (Z.mod_pos_bound (len s + 3) 4). unfold len in *. lia.
Qed.

Lemma read_u32_at checks le (pre : bytes) z (rest b : bytes) o :
  b = pre ++ to_bytes le 4 z ++ rest → o = len pre → (0 ≤ z ≤ u32_max)%Z →
  (len b ≤ isize_max)%Z → read_u32 checks b o le = Ret (Some z).
Proof.
  intros Hb Ho Hz Hlen. unfold read_u32, read_uint.
  assert (len b = len pre + 4 + len rest)%Z as Hlb.
  { rewrite Hb, !len_app, len_to_bytes. lia. }
  assert (0 ≤ len rest)%Z by (unfold len; lia).
  rewrite usize_add_small by in_range. cbn [obind].
  rewrite (slice_get_at pre (to_bytes le 4 z) rest) by (try done; rewrite ?len_to_bytes; lia).
  cbn. by rewrite from_to_bytes.
Qed.

(** Where the parts of an encoded note lie. *)
Lemma note_layout le (pre rest : bytes) n :
  pre ++ encode_note le n ++ rest
  = pre ++ to_bytes le 4 (len (n_name n)) ++ to_bytes le 4 (len (n_desc n)) ++ to_bytes le 4 (n_type n)
    ++ n_name n ++ padding (n_name n) ++ n_desc n ++ padding (n_desc n) ++ rest
  ∧ len (encode_note le n) = (12 + len (n_name n) + len (padding (n_name n)) + len (n_desc n)
                              + len (padding (n_desc n)))%Z
  ∧ (0 ≤ len pre ∧ 0 ≤ len (n_name n) ∧ 0 ≤ len (n_desc n) ∧ 0 ≤ len rest
     ∧ 0 ≤ len (padding (n_name n)) ∧ 0 ≤ len (padding (n_desc n)))%Z.
Proof.
  split; [unfold encode_note; by rewrite <- !app_assoc|]. split.
  - unfold encode_note. rewrite !len_app, !len_to_bytes. lia.
  - unfold len. lia.
Qed.

(** Steps of the proof below: the addition that gives the next offset, and a word or
    a slice found at that offset. *)
Ltac next_offset := rewrite usize_add_small by in_range; cbn [obind].
Ltac at_offset lem := rewrite lem by (rewrite ?len_app, <- ?app_assoc; try done; unfold u32_max; lia).

(** One round of the loop on an encoded note. *)
Lemma scan_notes_step checks le fuel pre n rest :
  note_ok n → (len (pre ++ encode_note le n ++ rest) ≤ isize_max)%Z →
  scan_notes_loop checks (S fuel) (pre ++ encode_note le n ++ rest) le (len pre) =
  if is_build_id n then Ret (Some (hex (n_desc n)))
  else scan_notes_loop checks fuel (pre ++ encode_note le n ++ rest) le
         (len (pre ++ encode_note le n)).
Proof.
  intros (Hn & Hd & Ht) Hlen.
  destruct (note_layout le pre rest n) as (Hb & Hle & Hpre & Hpn0 & Hpd0 & Hrest & Hp1 & Hp2).
  pose proof (len_padding (n_name n)) as Hpn. pose proof (len_padding (n_desc n)) as Hpd.
  assert (len (pre ++ encode_note le n ++ rest) = len pre + len (encode_note le n) + len rest)%Z as Hlb
    by (rewrite !len_app; lia).
  rewrite (len_app pre). destruct n as [name desc ty]; cbn [n_name n_desc n_type] in *.
  set (b := pre ++ encode_note le _ ++ rest) in *. set (N := to_bytes le 4 (len name)) in *.
  set (D := to_bytes le 4 (len desc)) in *. set (T := to_bytes le 4 ty) in *.
  assert (len N = 4 ∧ len D = 4 ∧ len T = 4)%Z as (HN & HD & HT) by (unfold N, D, T; by rewrite !len_to_bytes).
  set (R := padding name ++ desc ++ padding desc ++ rest) in *. unfold u32_max in *.
  cbn [scan_notes_loop]. next_offset. rewrite decide_True by lia.
  at_offset (read_u32_at checks le pre (len name) (D ++ T ++ name ++ R)). cbn [obind]. next_offset.
  at_offset (read_u32_at checks le (pre ++ N) (len desc) (T ++ name ++ R)). cbn [obind]. next_offset.
  at_offset (read_u32_at checks le (pre ++ N ++ D) ty (name ++ R)). cbn [obind].
  unfold checked_add. rewrite decide_True by in_range. cbn [obind].
  destruct (align4_small checks (len name)) as (np & -> & Hnp & Hnp'); [lia|]. cbn [obind]. next_offset.
  rewrite decide_True by in_range. cbn [obind]. rewrite decide_False by lia.
  unfold is_build_id, slice_index. cbn [n_name n_type n_desc].
  at_offset (slice_get_at (pre ++ N ++ D ++ T) name R).
  at_offset (slice_get_at (pre ++ N ++ D ++ T ++ name ++ padding name) desc (padding desc ++ rest)).
  destruct (align4_small checks (len desc)) as (dp & -> & Hdp & Hdp'); [lia|]. cbn [obind]. next_offset.
  replace (len pre + 12 + np + dp)%Z with (len pre + len (encode_note le (mkNote name desc ty)))%Z by lia.
  case_decide as Hty.
  - rewrite bool_decide_eq_true_2 by done. cbn. by destruct (starts_with _ name).
  - by rewrite bool_decide_eq_false_2.
Qed.

(** The reference: the description of the first GNU build-id note, in hex. *)
Fixpoint first_build_id (ns : list note) : option bytes :=
  match ns with
  | [] => None
  | n :: ns => if is_build_id n then Some (hex (n_desc n)) else first_build_id ns
  end.

Lemma len_encode_note le n : (12 ≤ len (encode_note le n))%Z.
Proof. unfold encode_note. rewrite !len_app, !len_to_bytes. unfold len. lia. Qed.

Lemma scan_notes_loop_notes checks le ns fuel pre :
  Forall note_ok ns → (len (pre ++ concat (map (encode_note le) ns)) ≤ isize_max)%Z →
  (length ns < fuel)%nat →
  scan_notes_loop checks fuel (pre ++ concat (map (encode_note le) ns)) le (len pre)
  = Ret (first_build_id ns).
Proof.
  intros Hns. revert fuel pre. induction Hns as [|n ns Hn _ IH]; intros fuel pre Hlen Hf.
  - cbn [map concat] in *. rewrite app_nil_r in *. destruct fuel as [|fuel]; [simpl in Hf; lia|].
    cbn [scan_notes_loop]. rewrite usize_add_small by in_range. cbn [obind].
    by rewrite decide_False by lia.
  - cbn [map concat] in *. destruct fuel as [|fuel]; [lia|].
    rewrite scan_notes_step by done. cbn [first_build_id].
    destruct (is_build_id n); [done|]. rewrite app_assoc. rewrite app_assoc in Hlen.
    apply IH; [done|simpl in Hf; lia].
Qed.

Lemma length_notes le ns : (length ns ≤ length (concat (map (encode_note le) ns)))%nat.
Proof.
  induction ns as [|n ns IH]; [done|]. cbn. rewrite length_app.
  pose proof (len_encode_note le n). unfold len in *. lia.
Qed.

(** C29: scanning decodes the note format: on any sequence of encoded notes, in either
    byte order, the loop terminates without panic and returns the hex of the
    first GNU build-id note's description, or [None] when there is none. *)
Theorem scan_notes_correct checks le ns :
  Forall note_ok ns → (len (concat (map (encode_note le) ns)) ≤ isize_max)%Z →
  scan_notes checks (concat (map (encode_note le) ns)) le = Ret (first_build_id ns).
Proof.
  intros Hns Hlen. apply (scan_notes_loop_notes checks le ns _ []); [done..|].
  pose proof (length_notes le ns). cbn [app]. lia.
Qed.

Lemma scan_notes_correct_witness :
  scan_notes true (concat (map (encode_note false)
    [mkNote (b! "stapsdt") (b! "probe") 3; mkNote (b! "GNU" ++ [x00]) [xde; xad; xbe] 3])) false
  = Ret (Some (b! "deadbe")).
Proof.
  rewrite (scan_notes_correct true false).
  - vm_compute. reflexivity.
  - repeat constructor; by vm_compute.
  - by vm_compute.
Defined.

(** *** Hexadecimal *)

Definition unhex_digit (c : byte) : option Z :=
  if is_ascii_digit c then Some (u8 c - 48)%Z
  else if in_range 97 102 c then Some (u8 c - 87)%Z else None.

Fixpoint unhex (s : bytes) : option bytes :=
  match s with
  | [] => Some []
  | [_] => None
  | a :: b :: s' =>
      h ← unhex_digit a; l ← unhex_digit b; r ← unhex s';
      Some (byte_of_Z (16 * h + l) :: r)
  end.

Lemma unhex_hex_byte c s : unhex (hex_byte c ++ s) = cons c <$> unhex s.
Proof. by destruct c. Qed.

Lemma unhex_hex bs : unhex (hex bs) = Some bs.
Proof.
  induction bs as [|c bs IH]; [done|]. unfold hex. cbn [map concat].
  rewrite unhex_hex_byte. unfold hex in IH. by rewrite IH.
Qed.

Lemma hex_byte_chars c : forallb is_ascii_hexdigit (hex_byte c) = true.
Proof. by destruct c. Qed.

Lemma hex_utf8 bs : is_utf8 (hex bs) = true.
Proof.
  apply utf8_ascii. unfold hex. induction bs as [|c bs IH]; [done|]. cbn [map concat].
  rewrite forallb_app, IH, andb_true_r. by destruct c.
Qed.

Lemma obind_Some {A B} (m : outcome A) (k : A → outcome B) v :
  obind m k = Ret (Some v) → ∃ x, m = Ret (Some x) ∧ k x = Ret (Some v).
Proof. destruct m as [| |[x|]]; try done. eauto. Qed.

Ltac obind_step H :=
  let x := fresh "x" in let E := fresh "E" in apply obind_Some in H as (x & E & H).

(** The id that is found is always hexadecimal text. *)
Lemma scan_notes_utf8 checks fuel notes le pos id :
  scan_notes_loop checks fuel notes le pos = Ret (Some id) → is_utf8 id = true.
Proof.
  revert pos. induction fuel as [|fuel IH]; intros pos H; [done|]. cbn [scan_notes_loop] in H.
  obind_step H. case_decide; [|done]. do 10 obind_step H. case_decide; [done|].
  obind_step H. destruct x10; obind_step H.
  - injection H as <-. apply hex_utf8.
  - obind_step H. by eapply IH.
Qed.

Lemma program_headers_utf8 checks n elf is64 le phoff sz i id :
  program_headers checks n elf is64 le phoff sz i = Ret (Some id) → is_utf8 id = true.
Proof.
  revert i. induction n as [|n IH]; intros i H; [done|]. cbn [program_headers] in H.
  apply obind_Some in H as (found & Hh & H). destruct found as [id'|]; [|by eapply IH].
  injection H as ->. unfold program_header in Hh. do 3 obind_step Hh.
  case_decide; [done|]. obind_step Hh. destruct x2 as [o s]. do 2 obind_step Hh.
  unfold scan_notes in Hh. destruct (scan_notes_loop _ _ _ _ _) as [| |[v|]] eqn:E'; simplify_eq.
  by eapply scan_notes_utf8.
Qed.

Lemma build_id_utf8 checks file id :
  build_id_from_path checks file = Ret (Some id) → is_utf8 id = true.
Proof.
  unfold build_id_from_path, build_id_from_bytes. destruct file as [content|]; [|done].
  case_decide; [done|]. intros Hs. obind_step Hs. case_decide; [done|]. do 5 obind_step Hs.
  destruct x4 as [[? ?] ?]. by eapply program_headers_utf8.
Qed.

End BuildId.
