(* ===== verification/RateLimit.v ===== *)
(** * [src/ratelimit.rs]: the per-pod upload budget

    The limiter with its state file, every step of [with_locked_state] that can
    fail, an abstract sliding-window log with a refinement proof, and the
    interleaving of concurrent handlers under the [flock]. *)

From S2P Require Import Prelude RustStr.

Module RateLimit.

Definition RATE_WINDOW_SECS : Z := 3600.

Inductive RateDecision := Allowed | Suppressed (recent : Z).
#[global] Instance RateDecision_eq_dec : EqDecision RateDecision.
Proof. solve_decision. Defined.

(** [RateState.events]: pod UID to the epoch seconds of its allowed uploads. *)
Abbreviation RateState :=
  (@gmap bytes list_eq_dec (@list_countable byte _ byte_countable) (list Z)).

(** ** The state updates *)

(** [Iterator::rposition] and [Vec::remove] *)
Section remove_last.
Context {A : Type} `{EqDecision A}.

Fixpoint rposition (t : A) (l : list A) : option nat :=
  match l with
  | [] => None
  | x :: l => match rposition t l with
              | Some p => Some (S p)
              | None => if decide (x = t) then Some 0 else None
              end
  end.
Definition remove_at (p : nat) (l : list A) : list A := take p l ++ drop (S p) l.

Definition remove_last (t : A) (l : list A) : list A :=
  match rposition t l with Some p => remove_at p l | None => l end.
End remove_last.

(** The closure of [locked_refund]. *)
Definition refund_state (scope : bytes) (recorded_at : Z) (st : RateState) : RateState :=
  match st !! scope with
  | None => st
  | Some times =>
      let times := remove_last recorded_at times in
      if decide (times = []) then delete scope st else <[scope := times]> st
  end.

(** [events.retain]: keep the timestamps after the cutoff, drop emptied pods. *)
Definition retain_recent (cutoff : Z) (st : RateState) : RateState :=
  omap (λ times, let times := filter (λ t, (cutoff < t)%Z) times in
                 if decide (times = []) then None else Some times) st.

Definition cutoff (now : Z) : Z := wrap_i64 (now - RATE_WINDOW_SECS).

Definition events_of (st : RateState) (scope : bytes) : list Z := default [] (st !! scope).

(** The closure of [locked_check_and_record]. *)
Definition check_state (max_per_hour : Z) (scope : bytes) (now : Z) (st : RateState)
    : RateState * RateDecision :=
  let st := retain_recent (cutoff now) st in
  let recent := Z.min (Z.of_nat (length (events_of st scope))) u32_max in
  if decide (max_per_hour ≤ recent)%Z then (st, Suppressed recent)
  else (<[scope := events_of st scope ++ [now]]> st, Allowed).

(** ** The state file *)

(** Steps of [with_locked_state] that return an [io::Error] when they fail. *)
Inductive io_step :=
  EnsureDir | DirMode | Open | SetPermissions | Flock | ReadToEnd | ToVec | Seek | SetLen | WriteAll.

(** What happens to each step of one call: [Some k] is a failure, for [WriteAll]
    after [k] bytes went out and for [DirMode] with a new directory's mode [k]. *)
Definition faults := io_step → option nat.
Definition no_faults : faults := λ _, None.

Record StateFile := mkFile { f_data : bytes; f_mode : Z }.
(** The run directory's mode ([None]: it does not exist) and the state file. *)
Record StateFs := mkFs { dir_mode : option Z; state_file : option StateFile }.

(** [serde_json] on [RateState]. *)
Class StateCodec := {
  from_slice : bytes → option RateState;
  to_vec : RateState → option bytes;
}.

(** What the limiter relies on: the state it wrote reads back, and an empty file
    is not JSON. *)
Class StateCodecLaws (C : StateCodec) : Prop := {
  from_slice_nil : from_slice [] = None;
  to_vec_total st : is_Some (to_vec st);
  from_slice_to_vec st bs : to_vec st = Some bs → from_slice bs = Some st;
}.

(** A state file cut short is not JSON. *)
Class TornLaws (C : StateCodec) : Prop :=
  torn_unreadable st json k :
    to_vec st = Some json → k < length json → from_slice (take k json) = None.

Section limiter.
Context {C : StateCodec}.

Definition step_io {A} (fl : faults) (s : io_step) (fs : StateFs)
    (k : StateFs * result A io_step) : StateFs * result A io_step :=
  match fl s with Some _ => (fs, Err s) | None => k end.

Definition with_locked_state {A} (fl : faults) (create : bool)
    (update : RateState → RateState * A) (fs : StateFs) : StateFs * result A io_step :=
  let '(dir, made) := if create
                      then ensure_private_dir (bool_decide (is_Some (fl EnsureDir)))
                             (Z.of_nat <$> fl DirMode) (dir_mode fs)
                      else (dir_mode fs, Ok tt) in
  let fs := mkFs dir (state_file fs) in
  match made with Err _ => (fs, Err EnsureDir) | Ok _ =>
  step_io fl Open fs
  match (match state_file fs with
         | Some f => Some f
         | None => if create then Some (mkFile [] 384%Z) else None
         end) with
  | None => (fs, Err Open)
  | Some f =>
      let fs := mkFs (dir_mode fs) (Some f) in
      step_io fl SetPermissions fs
      (let f := mkFile (f_data f) 384%Z in
       let fs := mkFs (dir_mode fs) (Some f) in
       step_io fl Flock fs (step_io fl ReadToEnd fs
       (let state := default ∅ (from_slice (f_data f)) in
        let '(state, res) := update state in
        step_io fl ToVec fs
        match to_vec state with
        | None => (fs, Err ToVec)
        | Some json =>
            step_io fl Seek fs (step_io fl SetLen fs
            match fl WriteAll with
            | Some k => (mkFs (dir_mode fs) (Some (mkFile (take k json) 384%Z)), Err WriteAll)
            | None => (mkFs (dir_mode fs) (Some (mkFile json 384%Z)), Ok res)
            end)
        end)))
  end
  end.

(** [RateLimiter::check_and_record]: fails open. *)
Definition check_and_record (fl : faults) (max_per_hour : Z) (scope : bytes) (now : Z)
    (fs : StateFs) : StateFs * RateDecision :=
  if decide (max_per_hour = 0%Z) then (fs, Allowed) else
  match with_locked_state fl true (check_state max_per_hour scope now) fs with
  | (fs, Ok decision) => (fs, decision)
  | (fs, Err _) => (fs, Allowed)
  end.

(** [RateLimiter::refund]: errors are swallowed. *)
Definition refund (fl : faults) (max_per_hour : Z) (scope : bytes) (recorded_at : Z)
    (fs : StateFs) : StateFs :=
  if decide (max_per_hour = 0%Z) then fs else
  fst (with_locked_state fl false (λ st, (refund_state scope recorded_at st, tt)) fs).

End limiter.

(** ** Lemmas on the state updates *)

Lemma lookup_retain (c : Z) (st : RateState) (s : bytes) :
  events_of (retain_recent c st) s = filter (λ t, (c < t)%Z) (events_of st s).
Proof.
  unfold events_of, retain_recent. rewrite lookup_omap.
  destruct (st !! s) as [l|]; [|done]. cbn. case_decide as H; cbn; by rewrite ?H.
Qed.

Lemma retain_no_empty (c : Z) (st : RateState) (s : bytes) : retain_recent c st !! s ≠ Some [].
Proof.
  unfold retain_recent. rewrite lookup_omap. destruct (st !! s); [|done]. cbn.
  case_decide; congruence.
Qed.

Lemma events_of_insert (st : RateState) (s s' : bytes) (l : list Z) :
  events_of (<[s := l]> st) s' = if decide (s = s') then l else events_of st s'.
Proof. unfold events_of. rewrite lookup_insert. by case_decide. Qed.

Section remove_last_lemmas.
Context {A : Type} `{EqDecision A}.
Implicit Types (t : A) (l : list A).

Lemma rposition_app t l1 l2 :
  rposition t (l1 ++ l2) =
  match rposition t l2 with Some p => Some (length l1 + p) | None => rposition t l1 end.
Proof.
  induction l1 as [|x l1 IH]; cbn; [by destruct (rposition t l2)|].
  rewrite IH. by destruct (rposition t l2).
Qed.

Lemma rposition_None t l : rposition t l = None ↔ t ∉ l.
Proof.
  induction l as [|x l IH]; cbn.
  - split; [intros _; apply not_elem_of_nil|done].
  - rewrite not_elem_of_cons. destruct (rposition t l) eqn:E.
    + split; [done|]. intros [_ H]. by apply IH in H.
    + case_decide as H; split; try done; [by intros [? _]|].
      intros _. split; [congruence|by apply IH].
Qed.

Lemma remove_last_cons t x l :
  remove_last t (x :: l) =
  if decide (t ∈ l) then x :: remove_last t l else if decide (x = t) then l else x :: l.
Proof.
  unfold remove_last. cbn. destruct (rposition t l) as [p|] eqn:E.
  - rewrite decide_True; [done|]. destruct (decide (t ∈ l)) as [|H]; [done|].
    by apply rposition_None in H; rewrite E in H.
  - apply rposition_None in E. rewrite (decide_False (P := t ∈ l)) by done. by case_decide.
Qed.

Lemma remove_last_snoc t l : remove_last t (l ++ [t]) = l.
Proof.
  unfold remove_last. rewrite rposition_app. cbn. rewrite decide_True by done.
  unfold remove_at. rewrite Nat.add_0_r, take_app_length.
  rewrite drop_ge, app_nil_r; [done|]. rewrite length_app. cbn. lia.
Qed.

Lemma remove_last_notin t l : t ∉ l → remove_last t l = l.
Proof. intros H%rposition_None. unfold remove_last. by rewrite H. Qed.

Lemma filter_remove_last (P : A → Prop) `{∀ x, Decision (P x)} t l :
  filter P (remove_last t l) =
  if decide (P t) then remove_last t (filter P l) else filter P l.
Proof.
  induction l as [|x l IH]; [by case_decide|]. rewrite remove_last_cons.
  destruct (decide (t ∈ l)) as [Hin|Hin].
  - rewrite !filter_cons, IH. destruct (decide (P t)) as [Ht|Ht]; [|done].
    destruct (decide (P x)); [|done]. rewrite remove_last_cons, decide_True; [done|].
    by apply list_elem_of_filter.
  - assert (t ∉ filter P l) by (rewrite list_elem_of_filter; tauto).
    destruct (decide (x = t)) as [->|Hne].
    + rewrite filter_cons. destruct (decide (P t)); [|done].
      rewrite remove_last_cons, decide_False by done. by rewrite decide_True.
    + rewrite filter_cons. case_decide; case_decide; try done;
        rewrite remove_last_notin; try done. by apply not_elem_of_cons.
Qed.

End remove_last_lemmas.

Lemma events_of_refund (st : RateState) (s : bytes) (t : Z) (s' : bytes) :
  events_of (refund_state s t st) s' =
  if decide (s = s') then remove_last t (events_of st s') else events_of st s'.
Proof.
  unfold refund_state. destruct (st !! s) as [l|] eqn:E.
  - case_decide as Hl.
    + case_decide as Hs; [subst s'|].
      * unfold events_of. rewrite lookup_delete_eq, E. cbn. by rewrite Hl.
      * unfold events_of. by rewrite lookup_delete_ne.
    + rewrite events_of_insert. case_decide; [|done]. subst s'.
      unfold events_of. by rewrite E.
  - case_decide; [|done]. subst s'. unfold events_of. by rewrite E.
Qed.

(** ** The abstract limiter: a log of admitted uploads *)

Module Spec.

Abbreviation log := (list (bytes * Z)).

Definition pod_times (h : log) (s : bytes) : list Z :=
  omap (λ '(s', t), if decide (s' = s) then Some t else None) h.

(** Uploads of a pod in the window ending at [now]. *)
Definition recent (h : log) (s : bytes) (now : Z) : list Z :=
  filter (λ t, (now - RATE_WINDOW_SECS < t)%Z) (pod_times h s).

Definition check (max : Z) (s : bytes) (now : Z) (h : log) : log * RateDecision :=
  let n := Z.min (Z.of_nat (length (recent h s now))) u32_max in
  if decide (max ≤ n)%Z then (h, Suppressed n) else (h ++ [(s, now)], Allowed).

Definition give_back (s : bytes) (t : Z) (h : log) : log := remove_last (s, t) h.

(** Admitted uploads of a pod in the closed window of an hour ending at [t]. *)
Definition window_count (h : log) (s : bytes) (t : Z) : Z :=
  Z.of_nat (length (filter (λ x, (t - RATE_WINDOW_SECS < x ≤ t)%Z) (pod_times h s))).

Lemma pod_times_app h1 h2 s : pod_times (h1 ++ h2) s = pod_times h1 s ++ pod_times h2 s.
Proof. apply omap_app. Qed.

Lemma pod_times_cons h s0 t0 s :
  pod_times ((s0, t0) :: h) s = (if decide (s0 = s) then [t0] else []) ++ pod_times h s.
Proof. unfold pod_times. cbn. by case_decide. Qed.

Lemma pod_times_snoc h s0 t0 s :
  pod_times (h ++ [(s0, t0)]) s = pod_times h s ++ (if decide (s0 = s) then [t0] else []).
Proof. rewrite pod_times_app, pod_times_cons. by rewrite app_nil_r. Qed.

Lemma pod_times_elem h s t : t ∈ pod_times h s ↔ (s, t) ∈ h.
Proof.
  unfold pod_times. rewrite list_elem_of_omap. split.
  - intros ([s' t'] & Hin & H). case_decide; by simplify_eq.
  - intros Hin. exists (s, t). by rewrite decide_True.
Qed.

Lemma pod_times_refund h s t s' :
  pod_times (give_back s t h) s' =
  if decide (s = s') then remove_last t (pod_times h s') else pod_times h s'.
Proof.
  unfold give_back. induction h as [|[s0 t0] h IH]; [by case_decide|].
  rewrite remove_last_cons, pod_times_cons.
  destruct (decide ((s, t) ∈ h)) as [Hin|Hin].
  - rewrite pod_times_cons, IH.
    destruct (decide (s = s')) as [<-|]; [|done].
    destruct (decide (s0 = s)); cbn; [|done].
    rewrite remove_last_cons, decide_True by by apply pod_times_elem. done.
  - assert (t ∉ pod_times h s) by by rewrite pod_times_elem.
    destruct (decide (s = s')) as [<-|].
    + destruct (decide (s0 = s)) as [->|Hs]; cbn [app].
      * rewrite remove_last_cons, (decide_False (P := t ∈ pod_times h s)) by done.
        destruct (decide (t0 = t)) as [->|]; [by rewrite decide_True|].
        rewrite decide_False by congruence. by rewrite pod_times_cons, decide_True.
      * rewrite remove_last_notin by done. rewrite decide_False by congruence.
        by rewrite pod_times_cons, decide_False.
    + destruct (decide ((s0, t0) = (s, t))) as [[= -> ->]|]; [by rewrite decide_False|].
      by rewrite pod_times_cons.
Qed.

End Spec.

(** ** Sequences of operations on the state file *)

Inductive op := Check (scope : bytes) (now : Z) | Refund (scope : bytes) (recorded_at : Z).

Section traces.
Context {C : StateCodec} (max : Z).

(** The decisions of the checks of a sequence, none of whose steps fails. *)
Fixpoint run (ops : list op) (fs : StateFs) : StateFs * list RateDecision :=
  match ops with
  | [] => (fs, [])
  | Check s now :: ops =>
      let '(fs, d) := check_and_record no_faults max s now fs in
      let '(fs, ds) := run ops fs in (fs, d :: ds)
  | Refund s t :: ops => run ops (refund no_faults max s t fs)
  end.

Fixpoint run_spec (ops : list op) (h : Spec.log) : Spec.log * list RateDecision :=
  match ops with
  | [] => (h, [])
  | Check s now :: ops =>
      let '(h, d) := Spec.check max s now h in
      let '(h, ds) := run_spec ops h in (h, d :: ds)
  | Refund s t :: ops => run_spec ops (Spec.give_back s t h)
  end.

(** The uploads admitted and not refunded, read off the decisions. *)
Fixpoint admitted (ops : list op) (ds : list RateDecision) (h : Spec.log) : Spec.log :=
  match ops, ds with
  | Check s now :: ops, d :: ds =>
      admitted ops ds (if decide (d = Allowed) then h ++ [(s, now)] else h)
  | Refund s t :: ops, _ => admitted ops ds (Spec.give_back s t h)
  | _, _ => h
  end.

(** Crash timestamps of one node's clock: they do not run backwards, and the
    window before them is representable. *)
Fixpoint clocked (last : Z) (ops : list op) : Prop :=
  match ops with
  | [] => True
  | Check _ now :: ops =>
      (last ≤ now)%Z ∧ (i64_min + RATE_WINDOW_SECS ≤ now ≤ i64_max)%Z ∧ clocked now ops
  | Refund _ _ :: ops => clocked last ops
  end.

(** The state a file stands for: missing and corrupt files are empty. *)
Definition state_of (fs : StateFs) : RateState :=
  default ∅ (f ← state_file fs; from_slice (f_data f)).

Context {L : StateCodecLaws C}.

Lemma with_locked_state_ok {A} create (update : RateState → RateState * A) fs :
  (create = true ∨ is_Some (state_file fs)) →
  ∃ json, to_vec (fst (update (state_of fs))) = Some json ∧
  with_locked_state no_faults create update fs =
    (mkFs (if create then Some 448%Z else dir_mode fs) (Some (mkFile json 384%Z)),
     Ok (snd (update (state_of fs)))).
Proof.
  intros Hex.
  destruct (to_vec_total (fst (update (state_of fs)))) as [json Hj].
  exists json. split; [done|].
  unfold with_locked_state, step_io, no_faults, state_of in *.
  destruct fs as [dm [[data mode]|]]; cbn in *.
  - destruct create; cbn; destruct (update _) as [st res]; cbn in *; by rewrite Hj.
  - destruct create; cbn; [|by destruct Hex as [?|[??]]].
    rewrite from_slice_nil. cbn. destruct (update _) as [st res]; cbn in *. by rewrite Hj.
Qed.

Lemma with_locked_state_inv {A} fl (update : RateState → RateState * A) fs fs' r :
  with_locked_state fl true update fs = (fs', Ok r) →
  dir_mode fs' = Some 448%Z ∧ (f_mode <$> state_file fs') = Some 384%Z ∧
  r = snd (update (state_of fs)).
Proof.
  unfold with_locked_state, step_io, state_of.
  destruct (ensure_private_dir _ _ _) as [dir [[]|]] eqn:Edir; [|done]. apply ensure_private_ok in Edir as ->.
  destruct fs as [dm [[data mode]|]]; cbn.
  - destruct (update _) as [st res].
    repeat (destruct_cond; try done); intros; by simplify_eq/=.
  - rewrite from_slice_nil. cbn. destruct (update _) as [st res].
    repeat (destruct_cond; try done); intros; by simplify_eq/=.
Qed.

Lemma check_and_record_ok s now fs :
  max ≠ 0%Z →
  state_of (fst (check_and_record no_faults max s now fs))
    = fst (check_state max s now (state_of fs)) ∧
  snd (check_and_record no_faults max s now fs) = snd (check_state max s now (state_of fs)).
Proof.
  intros Hm. unfold check_and_record. rewrite decide_False by done.
  destruct (with_locked_state_ok true (check_state max s now) fs (or_introl eq_refl))
    as (json & Hj & ->). cbn. split; [|done].
  unfold state_of at 1. cbn. by rewrite (from_slice_to_vec _ _ Hj).
Qed.

Lemma refund_ok s t fs :
  max ≠ 0%Z → state_of (refund no_faults max s t fs) = refund_state s t (state_of fs).
Proof.
  intros Hm. unfold refund. rewrite decide_False by done.
  destruct (state_file fs) as [f|] eqn:Ef.
  - destruct (with_locked_state_ok false (λ st, (refund_state s t st, tt)) fs) as (json & Hj & ->);
      [right; eauto|].
    cbn in *. unfold state_of at 1. cbn. by rewrite (from_slice_to_vec _ _ Hj).
  - unfold with_locked_state, step_io, no_faults. rewrite Ef. cbn.
    unfold state_of. rewrite Ef. done.
Qed.

(** *** Refinement *)

(** The file and the log agree on everything after the last cutoff. *)
Definition refines (last : Z) (st : RateState) (h : Spec.log) : Prop :=
  ∀ s c, (last - RATE_WINDOW_SECS ≤ c)%Z →
    filter (λ t, (c < t)%Z) (events_of st s) = filter (λ t, (c < t)%Z) (Spec.pod_times h s).

Lemma filter_after_after (c c' : Z) (l : list Z) :
  (c' ≤ c)%Z → filter (λ t, (c < t)%Z) (filter (λ t, (c' < t)%Z) l) = filter (λ t, (c < t)%Z) l.
Proof.
  intros. rewrite list_filter_filter. apply list_filter_iff. intros t. lia.
Qed.

Lemma check_refines last now s st h :
  (last ≤ now)%Z → (i64_min + RATE_WINDOW_SECS ≤ now ≤ i64_max)%Z → refines last st h →
  snd (check_state max s now st) = snd (Spec.check max s now h) ∧
  refines now (fst (check_state max s now st)) (fst (Spec.check max s now h)).
Proof.
  intros Hl Hr Href. unfold check_state, Spec.check, cutoff.
  rewrite wrap_i64_small by (unfold i64_min, i64_max, RATE_WINDOW_SECS in *; lia).
  set (c := (now - RATE_WINDOW_SECS)%Z).
  assert (∀ s, events_of (retain_recent c st) s = Spec.recent h s now) as Hrec.
  { intros s'. rewrite lookup_retain. apply Href. unfold c. lia. }
  assert (refines now (retain_recent c st) h) as Href'.
  { intros s' c' Hc'. rewrite lookup_retain, filter_after_after by (unfold c; lia).
    apply Href. lia. }
  rewrite Hrec. case_decide; cbn; [done|]. split; [done|].
  intros s' c' Hc'. rewrite events_of_insert, Spec.pod_times_snoc, filter_app. specialize (Href' s' c' Hc').
  destruct (decide (s = s')) as [->|]; cbn [app].
  - rewrite <- Href', Hrec. by rewrite filter_app.
  - change (filter ?P []) with (@nil Z). by rewrite app_nil_r.
Qed.

Lemma refund_refines last s t st h :
  refines last st h → refines last (refund_state s t st) (Spec.give_back s t h).
Proof.
  intros Href s' c Hc. rewrite events_of_refund, Spec.pod_times_refund.
  case_decide; [|by apply Href]. rewrite !filter_remove_last. by rewrite (Href s' c Hc).
Qed.

Lemma run_refines ops last fs h :
  max ≠ 0%Z → clocked last ops → refines last (state_of fs) h →
  snd (run ops fs) = snd (run_spec ops h).
Proof.
  intros Hm. revert last fs h. induction ops as [|[s now|s t] ops IH]; intros last fs h Hc Href;
    cbn [run run_spec]; [done| |].
  - destruct Hc as (Hl & Hr & Hc).
    destruct (check_and_record_ok s now fs Hm) as [Hst Hd].
    destruct (check_refines last now s (state_of fs) h Hl Hr Href) as [Hdec Href'].
    destruct (check_and_record no_faults max s now fs) as [fs' d]; cbn in *.
    destruct (Spec.check max s now h) as [h' d']; cbn in *.
    rewrite <- Hst in Href'. specialize (IH now fs' h' Hc Href').
    destruct (run ops fs'), (run_spec ops h'); cbn in *. congruence.
  - apply (IH last); [done|]. rewrite refund_ok by done. by apply refund_refines.
Qed.

Lemma run_spec_admitted ops h :
  fst (run_spec ops h) = admitted ops (snd (run_spec ops h)) h.
Proof.
  revert h. induction ops as [|[s now|s t] ops IH]; intros h; cbn [run_spec]; [done| |].
  - unfold Spec.check. case_decide; [specialize (IH h)|specialize (IH (h ++ [(s, now)]))];
      destruct (run_spec ops _); cbn in *; done.
  - apply IH.
Qed.

(** *** The budget *)

Definition within_budget (h : Spec.log) : Prop := ∀ s t, (Spec.window_count h s t ≤ max)%Z.

Lemma filter_length_mono (P Q : Z → Prop) `{∀ x, Decision (P x), ∀ x, Decision (Q x)} l :
  (∀ x, P x → Q x) → length (filter P l) ≤ length (filter Q l).
Proof.
  intros HPQ. induction l as [|x l IH]; [done|].
  rewrite !filter_cons. destruct (decide (P x)), (decide (Q x)); cbn; try lia. naive_solver.
Qed.

Lemma check_within_budget s now h :
  (max ≤ u32_max)%Z → within_budget h → within_budget (fst (Spec.check max s now h)).
Proof.
  intros Hmax Hb. unfold Spec.check. case_decide as Hn; cbn; [done|].
  intros s' t. unfold Spec.window_count. rewrite Spec.pod_times_snoc.
  specialize (Hb s' t). unfold Spec.window_count in Hb.
  rewrite filter_app, length_app.
  destruct (decide (s = s')) as [->|]; cbn [app]; [|change (length (filter ?P [])) with 0; lia].
  rewrite filter_cons. case_decide as Ht; cbn [length];
    change (length (filter ?P [])) with 0; [|lia].
  pose proof (filter_length_mono (λ x, (t - RATE_WINDOW_SECS < x ≤ t)%Z)
    (λ x, (now - RATE_WINDOW_SECS < x)%Z) (Spec.pod_times h s') ltac:(cbv beta in *; lia)).
  unfold Spec.recent in Hn. lia.
Qed.

Lemma remove_last_length_filter (P : Z → Prop) `{∀ x, Decision (P x)} t l :
  length (filter P (remove_last t l)) ≤ length (filter P l).
Proof.
  rewrite filter_remove_last. case_decide; [|done]. unfold remove_last.
  destruct (rposition _ _); [|done]. unfold remove_at.
  rewrite length_app, length_take, length_drop. lia.
Qed.

Lemma refund_within_budget s t h : within_budget h → within_budget (Spec.give_back s t h).
Proof.
  intros Hb s' t'. specialize (Hb s' t'). unfold Spec.window_count in *.
  rewrite Spec.pod_times_refund. case_decide; [|done].
  pose proof (remove_last_length_filter (λ x, (t' - RATE_WINDOW_SECS < x ≤ t')%Z) t
    (Spec.pod_times h s')). lia.
Qed.

Lemma run_spec_within_budget ops h :
  (max ≤ u32_max)%Z → within_budget h → within_budget (fst (run_spec ops h)).
Proof.
  intros Hmax. revert h. induction ops as [|[s now|s t] ops IH]; intros h Hb; cbn [run_spec]; [done| |].
  - pose proof (check_within_budget s now h Hmax Hb) as Hb'.
    destruct (Spec.check max s now h) as [h' d]; cbn in *.
    specialize (IH h' Hb'). by destruct (run_spec ops h').
  - apply IH. by apply refund_within_budget.
Qed.

End traces.

(** ** A concrete codec

    The number of the state in an enumeration of all states, in decimal. *)

#[global] Instance decimal_codec : StateCodec := {
  from_slice bs := z ← parse_digits bs;
                   match z with Zpos p => decode p | _ => None end;
  to_vec st := Some (to_string (Zpos (encode st)));
}.

#[global] Instance decimal_codec_laws : StateCodecLaws decimal_codec.
Proof.
  split; [done|by eexists|]. intros st bs [= <-]. cbn [from_slice decimal_codec].
  rewrite parse_digits_pos. cbn. apply decode_encode.
Qed.

Definition empty_fs : StateFs := mkFs None None.

(** ** Concurrent handlers

    A crash storm runs one handler process per crash, all on the same state
    file. A handler is a state machine whose steps are the system calls of
    [with_locked_state], any of which may fail; a schedule interleaves the steps of
    the handlers. *)

Module Concurrent.

Inductive phase :=
  | Start
  | DirReady
  | Opened
  | Private                                          (** mode set on the open fd *)
  | Locked                                           (** [flock] held *)
  | Updated (json : bytes) (d : option RateDecision)   (** state read and updated *)
  | Truncated (json : bytes) (d : option RateDecision) (** after [set_len(0)] *)
  | Done (d : option RateDecision).                  (** written, fd closed *)

Section handlers.
(** [fls i]: which system calls of handler [i] fail. *)
Context {C : StateCodec} (max : Z) (ops : list op) (fls : nat → faults).

Definition creates (o : op) : bool := match o with Check _ _ => true | Refund _ _ => false end.

Definition update_of (o : op) (st : RateState) : RateState * option RateDecision :=
  match o with
  | Check s now => let '(st, d) := check_state max s now st in (st, Some d)
  | Refund s t => (refund_state s t st, None)
  end.

(** What a handler reports when [with_locked_state] fails. *)
Definition on_error (o : op) : option RateDecision :=
  match o with Check _ _ => Some Allowed | Refund _ _ => None end.

(** [flock] holder and the files, shared by the handlers. *)
Record shared := mkShared { sh_fs : StateFs; sh_lock : option nat }.

Definition with_file (g : StateFile → StateFile) (fs : StateFs) : StateFs :=
  mkFs (dir_mode fs) (g <$> state_file fs).

Definition ok (fl : faults) (s : io_step) : bool := match fl s with None => true | Some _ => false end.

(** One system call of handler [i] (two where nobody else can tell them apart); [None]
    when it is blocked or finished. An error ends the call and closes the file, which
    releases the lock. *)
Definition hstep (fl : faults) (i : nat) (o : op) (p : phase) (sh : shared) : option (phase * shared) :=
  let fs := sh_fs sh in
  let fails fs lk := Some (Done (on_error o), mkShared fs lk) in
  match p with
  | Start =>
      if creates o then
        match ensure_private_dir (negb (ok fl EnsureDir)) (Z.of_nat <$> fl DirMode) (dir_mode fs) with
        | (dir, Ok _) => Some (DirReady, mkShared (mkFs dir (state_file fs)) (sh_lock sh))
        | (dir, Err _) => fails (mkFs dir (state_file fs)) (sh_lock sh)
        end
      else Some (DirReady, sh)
  | DirReady =>
      if ok fl Open then
        match state_file fs with
        | Some _ => Some (Opened, sh)
        | None =>
            if creates o
            then Some (Opened, mkShared (mkFs (dir_mode fs) (Some (mkFile [] 384%Z))) (sh_lock sh))
            else fails fs (sh_lock sh)
        end
      else fails fs (sh_lock sh)
  | Opened =>
      if ok fl SetPermissions
      then Some (Private, mkShared (with_file (λ f, mkFile (f_data f) 384%Z) fs) (sh_lock sh))
      else fails fs (sh_lock sh)
  | Private =>
      if ok fl Flock then
        match sh_lock sh with None => Some (Locked, mkShared fs (Some i)) | Some _ => None end
      else fails fs (sh_lock sh)
  | Locked =>
      let state := default ∅ (f ← state_file fs; from_slice (f_data f)) in
      let '(state, d) := update_of o state in
      if ok fl ReadToEnd && ok fl ToVec then
        match to_vec state with
        | Some json => Some (Updated json d, sh)
        | None => fails fs None
        end
      else fails fs None
  | Updated json d =>
      if ok fl Seek && ok fl SetLen
      then Some (Truncated json d, mkShared (with_file (λ f, mkFile [] (f_mode f)) fs) (sh_lock sh))
      else fails fs None
  | Truncated json d =>
      match fl WriteAll with
      | None => Some (Done d, mkShared (with_file (λ f, mkFile json (f_mode f)) fs) None)
      | Some k => fails (with_file (λ f, mkFile (take k json) (f_mode f)) fs) None
      end
  | Done _ => None
  end.

(** All handlers, and the order in which they finished. *)
Record sys := mkSys { sys_shared : shared; phases : list phase;
                      finished : list (nat * option RateDecision) }.

Definition commit (i : nat) (p : phase) (l : list (nat * option RateDecision)) :=
  match p with Done d => l ++ [(i, d)] | _ => l end.

Definition step (i : nat) (c : sys) : option sys :=
  o ← ops !! i; p ← phases c !! i; r ← hstep (fls i) i o p (sys_shared c);
  Some (mkSys (snd r) (<[i := fst r]> (phases c)) (commit i (fst r) (finished c))).

(** A schedule names the handler that moves next; a blocked one waits. *)
Fixpoint exec (sched : list nat) (c : sys) : sys :=
  match sched with [] => c | i :: sched => exec sched (default c (step i c)) end.

Definition init (fs : StateFs) : sys :=
  mkSys (mkShared fs None) (replicate (length ops) Start) [].

(** ** The same handlers one after another *)

(** A handler that runs alone is the limiter's operation. *)
Definition solo (fl : faults) (o : op) (fs : StateFs) : StateFs * option RateDecision :=
  match o with
  | Check s now => let '(fs, d) := check_and_record fl max s now fs in (fs, Some d)
  | Refund s t => (refund fl max s t fs, None)
  end.

Fixpoint sequential (order : list nat) (fs : StateFs) : StateFs * list (option RateDecision) :=
  match order with
  | [] => (fs, [])
  | i :: order =>
      match ops !! i with
      | None => sequential order fs
      | Some o => let '(fs, d) := solo (fls i) o fs in
                  let '(fs, ds) := sequential order fs in (fs, d :: ds)
      end
  end.

(** The calls a handler has made when it is in a phase. *)
Definition calls (o : op) (p : phase) : list io_step :=
  let dir := if creates o then [EnsureDir; DirMode] else [] in
  match p with
  | Start | Done _ => []
  | DirReady => dir
  | Opened => dir ++ [Open]
  | Private => dir ++ [Open; SetPermissions]
  | Locked => dir ++ [Open; SetPermissions; Flock]
  | Updated _ _ => dir ++ [Open; SetPermissions; Flock; ReadToEnd; ToVec]
  | Truncated _ _ => dir ++ [Open; SetPermissions; Flock; ReadToEnd; ToVec; Seek; SetLen]
  end.
Definition passed (fl : faults) (o : op) (p : phase) : bool := forallb (ok fl) (calls o p).

(** What a handler does to the state: an error before the write leaves it alone, one in
    the write leaves what was written of the new state. *)
Definition written (st : RateState) (k : nat) : RateState :=
  match to_vec st with Some json => default ∅ (from_slice (take k json)) | None => st end.

Definition effect (fl : faults) (o : op) (st : RateState) : RateState * option RateDecision :=
  if passed fl o (Truncated [] None) then
    let '(st', d) := update_of o st in
    match fl WriteAll with None => (st', d) | Some k => (written st' k, on_error o) end
  else (st, on_error o).

Fixpoint replay (order : list nat) (st : RateState) : RateState * list (option RateDecision) :=
  match order with
  | [] => (st, [])
  | i :: order =>
      match ops !! i with
      | None => replay order st
      | Some o => let '(st, d) := effect (fls i) o st in
                  let '(st, ds) := replay order st in (st, d :: ds)
      end
  end.

Lemma replay_app o1 o2 st :
  replay (o1 ++ o2) st =
  let '(st1, d1) := replay o1 st in let '(st2, d2) := replay o2 st1 in (st2, d1 ++ d2).
Proof.
  revert st. induction o1 as [|i o1 IH]; intros st; cbn; [by destruct (replay o2 st)|].
  destruct (ops !! i) as [o|]; [|apply IH]. destruct (effect (fls i) o st) as [st1 d].
  rewrite IH. destruct (replay o1 st1) as [st2 d1]. by destruct (replay o2 st2).
Qed.

(** *** The invariant *)

Definition critical (p : phase) : bool :=
  match p with Locked | Updated _ _ | Truncated _ _ => true | _ => false end.
Definition opened (p : phase) : bool :=
  match p with Start | DirReady | Done _ => false | _ => true end.

(** What the lock holder knows: [st] is the state all finished handlers left. *)
Definition holder_ok (o : op) (fs : StateFs) (st : RateState) (p : phase) : Prop :=
  match p with
  | Locked => state_of fs = st
  | Updated json d =>
      state_of fs = st ∧ to_vec (fst (update_of o st)) = Some json ∧ d = snd (update_of o st)
  | Truncated json d =>
      to_vec (fst (update_of o st)) = Some json ∧ d = snd (update_of o st)
  | _ => False
  end.

(** The handlers hold the file and the lock as their phases say, and [st] is the
    state the finished ones left. *)
Record core_inv (st : RateState) (sh : shared) (ps : list phase) : Prop := {
  ci_len : length ps = length ops;
  ci_file i p : ps !! i = Some p → opened p = true → is_Some (state_file (sh_fs sh));
  ci_mutex i p : ps !! i = Some p → critical p = true → sh_lock sh = Some i;
  ci_state :
    match sh_lock sh with
    | None => state_of (sh_fs sh) = st
    | Some j => ∃ o p, ops !! j = Some o ∧ ps !! j = Some p ∧ holder_ok o (sh_fs sh) st p
    end;
}.

(** Nobody goes on after an error. *)
Definition all_passed (ps : list phase) : Prop :=
  ∀ i o p, ops !! i = Some o → ps !! i = Some p → passed (fls i) o p = true.

Record inv (st0 : RateState) (c : sys) : Prop := {
  inv_passed : all_passed (phases c);
  inv_core : core_inv (fst (replay (finished c).*1 st0)) (sys_shared c) (phases c);
  inv_done i d : (i, d) ∈ finished c ↔ phases c !! i = Some (Done d);
  inv_nodup : NoDup (finished c).*1;
  inv_decisions : snd (replay (finished c).*1 st0) = (finished c).*2;
}.

Lemma inv_len st0 c : inv st0 c → length (phases c) = length ops.
Proof. intros I. apply (ci_len _ _ _ (inv_core _ _ I)). Qed.

Context {L : StateCodecLaws C}.
(** A write that is cut short leaves no JSON behind. *)
Context (TL : ∀ i k, fls i WriteAll = Some k → TornLaws C).

Lemma written_torn i k st :
  fls i WriteAll = Some k → written st k = st ∨ written st k = ∅.
Proof.
  intros Hk. pose proof (TL i k Hk). unfold written.
  destruct (to_vec st) as [json|] eqn:Ej; [|by left].
  destruct (decide (k < length json)) as [Hl|Hl].
  - right. by rewrite (torn_unreadable _ _ _ Ej Hl).
  - left. rewrite take_ge by lia. by rewrite (from_slice_to_vec _ _ Ej).
Qed.

(** A refund of nothing does nothing. *)
Lemma effect_refund_empty i s t : effect (fls i) (Refund s t) ∅ = (∅, None).
Proof.
  unfold effect. destruct (passed _ _ _); [|done].
  change (update_of (Refund s t) ∅) with (∅ : RateState, @None RateDecision).
  destruct (fls i WriteAll) as [k|] eqn:Ek; [|done]. by destruct (written_torn i k ∅ Ek) as [-> | ->].
Qed.

Lemma passed_insert ps i o p q :
  all_passed ps → ops !! i = Some o → ps !! i = Some p → passed (fls i) o q = true →
  all_passed (<[i := q]> ps).
Proof.
  intros H Ho Hi Hq j o' r Ho' Hr. destruct (decide (j = i)) as [->|Hne].
  - rewrite list_lookup_insert_eq in Hr by by eapply lookup_lt_Some. congruence.
  - rewrite list_lookup_insert_ne in Hr by done. by eapply H.
Qed.

Lemma lookup_phase_insert (l : list phase) i j p q :
  <[i := p]> l !! j = Some q →
  (j = i ∧ q = p) ∨ (j ≠ i ∧ l !! j = Some q).
Proof.
  destruct (decide (j = i)) as [->|Hne].
  - intros H. left. split; [done|].
    apply list_lookup_insert_Some in H as [(_ & Hq & _)|[Hne _]]; [congruence|done].
  - rewrite list_lookup_insert_ne by congruence. by right.
Qed.

Lemma lookup_phase_insert_eq (l : list phase) i p q :
  l !! i = Some p → <[i := q]> l !! i = Some q.
Proof. intros H. apply list_lookup_insert_eq. by eapply lookup_lt_Some. Qed.

Lemma holder_ok_ext o fs fs' st p :
  state_of fs = state_of fs' → holder_ok o fs st p → holder_ok o fs' st p.
Proof. intros E. by destruct p; cbn; rewrite ?E. Qed.

Lemma done_insert (c : sys) i p q :
  phases c !! i = Some p → (∀ d, p ≠ Done d) → (∀ d, q ≠ Done d) →
  (∀ j d, (j, d) ∈ finished c ↔ phases c !! j = Some (Done d)) →
  ∀ j d, (j, d) ∈ finished c ↔ <[i := q]> (phases c) !! j = Some (Done d).
Proof.
  intros Hi Hp Hq H j d. rewrite H. split.
  - intros Hj. rewrite list_lookup_insert_ne; [done|]. intros <-. rewrite Hi in Hj.
    injection Hj. apply Hp.
  - intros [[_ Hd]|[_ Hj]]%lookup_phase_insert; [by symmetry in Hd; apply Hq in Hd|done].
Qed.

(** Steps outside the critical section that neither lock nor finish. *)
Lemma core_outside st sh ps i p p' fs' :
  core_inv st sh ps → ps !! i = Some p → critical p = false → critical p' = false →
  state_of fs' = state_of (sh_fs sh) →
  (is_Some (state_file (sh_fs sh)) ∨ opened p' = true → is_Some (state_file fs')) →
  core_inv st (mkShared fs' (sh_lock sh)) (<[i := p']> ps).
Proof.
  intros [Il If Im Is] Hi Hc Hc' Hst Hf. split; cbn; [by rewrite length_insert|..].
  - intros j q [[-> ->]|[_ Hj]]%lookup_phase_insert Ho; apply Hf; eauto.
  - intros j q [[-> ->]|[_ Hj]]%lookup_phase_insert Ho; [congruence|eauto].
  - destruct (sh_lock sh) as [j|]; [|by rewrite Hst].
    destruct Is as (o & q & Ho & Hq & Hh). exists o, q. split; [done|]. split.
    + rewrite list_lookup_insert_ne; [done|]. intros <-. rewrite Hi in Hq.
      injection Hq as <-. by destruct p.
    + by eapply holder_ok_ext.
Qed.

(** Steps of the lock holder that do not finish. *)
Lemma core_inside st sh ps i o p p' fs' :
  core_inv st sh ps → ops !! i = Some o → ps !! i = Some p →
  (sh_lock sh = Some i ∨ sh_lock sh = None) → is_Some (state_file fs') → holder_ok o fs' st p' →
  core_inv st (mkShared fs' (Some i)) (<[i := p']> ps).
Proof.
  intros [Il If Im Is] Ho Hi Hlk Hf Hh. split; cbn; [by rewrite length_insert|by intros|..].
  - intros j q [[-> ->]|[Hne Hj]]%lookup_phase_insert Hq; [done|].
    apply (Im j q) in Hj; [|done]. destruct Hlk; congruence.
  - exists o, p'. split_and!; [done|by eapply lookup_phase_insert_eq|done].
Qed.

(** Steps that leave the lock free, with the state [st'] in the file. *)
Lemma core_release st st' sh ps i p' fs' :
  core_inv st sh ps → (sh_lock sh = Some i ∨ sh_lock sh = None) →
  critical p' = false → (opened p' = true → is_Some (state_file fs')) →
  (is_Some (state_file (sh_fs sh)) → is_Some (state_file fs')) → state_of fs' = st' →
  core_inv st' (mkShared fs' None) (<[i := p']> ps).
Proof.
  intros [Il If Im Is] Hlk Hc Ho Hf Hst. split; cbn; [by rewrite length_insert|..|done].
  - intros j q [[-> ->]|[_ Hj]]%lookup_phase_insert Hq; eauto.
  - intros j q [[-> ->]|[Hne Hj]]%lookup_phase_insert Hq; [congruence|].
    apply (Im j q) in Hj; [|done]. destruct Hlk; congruence.
Qed.

(** Finishing a handler makes it the last of the replay. *)
Lemma inv_finish st0 c i o p sh' :
  inv st0 c → ops !! i = Some o → phases c !! i = Some p → (∀ d, p ≠ Done d) →
  let u := effect (fls i) o (fst (replay (finished c).*1 st0)) in
  core_inv (fst u) sh' (<[i := Done (snd u)]> (phases c)) →
  inv st0 (mkSys sh' (<[i := Done (snd u)]> (phases c)) (finished c ++ [(i, snd u)])).
Proof.
  intros [Ip Ic Id In Ide] Ho Hi Hd u Hcore.
  assert (replay ((finished c).*1 ++ [i]) st0 = (fst u, (finished c).*2 ++ [snd u])) as Hrep.
  { rewrite replay_app. unfold u in *. destruct (replay (finished c).*1 st0) as [st1 ds]; cbn in *.
    rewrite Ho. destruct (effect (fls i) o st1); cbn. by rewrite Ide. }
  split; cbn.
  - by eapply passed_insert.
  - rewrite fmap_app. cbn. by rewrite Hrep.
  - intros j d. rewrite elem_of_app, list_elem_of_singleton. split.
    + intros [Hj|[= -> ->]]; [|by eapply lookup_phase_insert_eq]. apply Id in Hj.
      rewrite list_lookup_insert_ne; [done|]. intros <-. rewrite Hi in Hj.
      injection Hj. apply Hd.
    + intros [[-> Hq]|[_ Hj]]%lookup_phase_insert; [right; congruence|].
      left. by apply Id.
  - rewrite fmap_app. cbn. apply NoDup_app. split_and!; [done| |apply NoDup_singleton].
    intros j Hj ->%list_elem_of_singleton. apply list_elem_of_fmap in Hj as ([j' d] & Hj' & Hj).
    cbn in Hj'. subst j'. apply Id in Hj. rewrite Hi in Hj. injection Hj. apply Hd.
  - rewrite !fmap_app. cbn. by rewrite Hrep.
Qed.

Lemma init_core fs : core_inv (state_of fs) (mkShared fs None) (replicate (length ops) Start).
Proof.
  split; cbn; [by rewrite length_replicate| | |done].
  - by intros i p [-> _]%lookup_replicate.
  - by intros i p [-> _]%lookup_replicate.
Qed.

Lemma init_inv fs : inv (state_of fs) (init fs).
Proof.
  split; cbn; [|apply init_core| |constructor|done].
  { by intros i o p _ [-> _]%lookup_replicate. }
  intros i d. split; [by intros ?%not_elem_of_nil|by intros [? _]%lookup_replicate].
Qed.

Lemma state_of_with_file_data fs f :
  (∀ x, f_data (f x) = f_data x) → state_of (with_file f fs) = state_of fs.
Proof. intros H. destruct fs as [? [x|]]; [|done]. unfold state_of. cbn. by rewrite H. Qed.

Lemma with_file_is_Some g fs :
  is_Some (state_file fs) → is_Some (state_file (with_file g fs)).
Proof. apply fmap_is_Some. Qed.

Lemma missing_file_unlocked st sh ps :
  core_inv st sh ps → state_file (sh_fs sh) = None →
  sh_lock sh = None ∧ state_of (sh_fs sh) = ∅ ∧ st = ∅.
Proof.
  intros [Il If Im Is] Hn. assert (state_of (sh_fs sh) = ∅) as Hst by (unfold state_of; by rewrite Hn).
  destruct (sh_lock sh) as [j|]; [|by rewrite <- Is].
  destruct Is as (o & p & _ & Hp & Hh). destruct (If j p Hp) as [? ?].
  - by destruct p.
  - by rewrite Hn in *.
Qed.

Lemma shared_eta x fs lk : x = mkShared fs lk → fs = sh_fs x ∧ lk = sh_lock x.
Proof. by intros ->. Qed.

(** An error before the write. *)
Lemma effect_failed fl o st : passed fl o (Truncated [] None) = false → effect fl o st = (st, on_error o).
Proof. unfold effect. by intros ->. Qed.

Lemma passed_first fl o s l r :
  calls o (Truncated [] None) = l ++ s :: r → ok fl s = false →
  passed fl o (Truncated [] None) = false.
Proof.
  intros E Hs. unfold passed. rewrite E, forallb_app. cbn. rewrite Hs. cbn. apply andb_false_r.
Qed.

Lemma passed_app fl o p q l :
  calls o q = calls o p ++ l → passed fl o p = true → forallb (ok fl) l = true → passed fl o q = true.
Proof. intros E Hp Hl. unfold passed in *. by rewrite E, forallb_app, Hp, Hl. Qed.

(** A failing call that leaves the state alone finishes its handler. *)
Lemma core_fails st i o p sh ps fs' lk' :
  core_inv st sh ps → ops !! i = Some o → ps !! i = Some p →
  state_of fs' = state_of (sh_fs sh) →
  (is_Some (state_file (sh_fs sh)) → is_Some (state_file fs')) →
  (critical p = false ∧ lk' = sh_lock sh)
  ∨ (sh_lock sh = Some i ∧ lk' = None ∧ state_of (sh_fs sh) = st) →
  core_inv st (mkShared fs' lk') (<[i := Done (on_error o)]> ps).
Proof.
  intros I Ho Hi Hst Hf [[Hc ->]|(Hlk & -> & Hh)].
  - eapply core_outside; [done..|]. intros [?|?]; [by apply Hf|done].
  - eapply core_release; try done; [by left|by rewrite Hst].
Qed.

(** What a step does: it goes on, leaving the state as it is, or it finishes its handler,
    which then had its effect. *)
Definition step_result (st : RateState) (i : nat) (o : op) (ps : list phase) (p' : phase) (sh' : shared)
    : Prop :=
  (p' = Done (snd (effect (fls i) o st)) ∧ core_inv (fst (effect (fls i) o st)) sh' (<[i := p']> ps))
  ∨ ((∀ d, p' ≠ Done d) ∧ passed (fls i) o p' = true ∧ core_inv st sh' (<[i := p']> ps)).

Lemma fails_result st i o ps sh' :
  passed (fls i) o (Truncated [] None) = false →
  core_inv st sh' (<[i := Done (on_error o)]> ps) →
  step_result st i o ps (Done (on_error o)) sh'.
Proof. intros Hp Hc. left. by rewrite effect_failed. Qed.

(** The steps before the critical section. *)
Lemma step_before st i o p p' sh sh' ps :
  core_inv st sh ps → ops !! i = Some o → ps !! i = Some p → passed (fls i) o p = true →
  critical p = false → hstep (fls i) i o p sh = Some (p', sh') → step_result st i o ps p' sh'.
Proof.
  intros I Ho Hi Hp Hcr E. destruct sh' as [fs' lk'].
  pose proof (ci_file _ _ _ I i p Hi) as Hf.
  assert (∀ fs s l r, calls o (Truncated [] None) = l ++ s :: r → ok (fls i) s = false →
    state_of fs = state_of (sh_fs sh) → (is_Some (state_file (sh_fs sh)) → is_Some (state_file fs)) →
    step_result st i o ps (Done (on_error o)) (mkShared fs (sh_lock sh))) as Hfail.
  { intros fs s l r Hl Hs Hst Hsf. apply fails_result; [by eapply passed_first|].
    eapply core_fails; try done. by left. }
  destruct p; cbn [hstep] in E; try done; cbn in Hf.
  - destruct (creates o) eqn:Ecr.
    + destruct (ok (fls i) EnsureDir) eqn:E1; cbn [ensure_private_dir negb] in E.
      2:{ injection E as <- <- <-. apply (Hfail _ EnsureDir [] (DirMode :: [Open; SetPermissions; Flock;
            ReadToEnd; ToVec; Seek; SetLen])); try done. cbn. by rewrite Ecr. }
      unfold ensure_private_dir in E. destruct (fls i DirMode) as [m|] eqn:E2; cbn in E.
      * injection E as <- <- <-. apply (Hfail _ DirMode [EnsureDir] [Open; SetPermissions; Flock;
            ReadToEnd; ToVec; Seek; SetLen]); try done; [cbn; by rewrite Ecr|].
        unfold ok. by rewrite E2.
      * injection E as <- <- <-. right. split; [done|]. split.
        { unfold passed. cbn. rewrite Ecr. cbn. rewrite E1. unfold ok. by rewrite E2. }
        apply core_outside with Start; try done. by intros [?|?].
    + injection E as <- [-> ->]%shared_eta. right. split; [done|]. split.
      { unfold passed. cbn. by rewrite Ecr. }
      apply core_outside with Start; try done. by intros [?|?].
  - destruct (ok (fls i) Open) eqn:E1.
    2:{ injection E as <- <- <-. by apply (Hfail _ Open (calls o DirReady) [SetPermissions; Flock; ReadToEnd;
          ToVec; Seek; SetLen]). }
    assert (passed (fls i) o Opened = true) as Hp'.
    { eapply (passed_app _ _ DirReady _ [Open]); [done..|]. cbn. by rewrite E1. }
    destruct (state_file (sh_fs sh)) as [f|] eqn:Ef.
    + injection E as <- [-> ->]%shared_eta. right. split; [done|]. split; [done|].
      by apply core_outside with DirReady.
    + destruct (missing_file_unlocked _ _ _ I Ef) as (Hlk & Hst & ->).
      destruct (creates o) eqn:Eo.
      * injection E as <- <- <-. right. split; [done|]. split; [done|]. apply core_outside with DirReady; try done.
        unfold state_of. cbn. by rewrite from_slice_nil, Ef.
      * destruct o as [|s t]; [done|]. injection E as <- <- <-. left. rewrite effect_refund_empty.
        split; [done|]. apply (core_fails ∅ i (Refund s t) DirReady sh ps); try done. by left.
  - destruct (ok (fls i) SetPermissions) eqn:E1.
    2:{ injection E as <- <- <-. apply (Hfail _ SetPermissions (calls o Opened) [Flock; ReadToEnd; ToVec;
          Seek; SetLen]); try done. by cbn; destruct (creates o). }
    injection E as <- <- <-. right. split; [done|]. split.
    { eapply (passed_app _ _ Opened _ [SetPermissions]); [by cbn; destruct (creates o)|done|].
      cbn. by rewrite E1. }
    apply core_outside with Opened; try done.
    + by apply state_of_with_file_data.
    + intros _. by apply with_file_is_Some, Hf.
  - destruct (ok (fls i) Flock) eqn:E1.
    2:{ injection E as <- <- <-. apply (Hfail _ Flock (calls o Private) [ReadToEnd; ToVec; Seek; SetLen]);
          try done. by cbn; destruct (creates o). }
    destruct (sh_lock sh) eqn:Hlk; [done|]. injection E as <- <- <-. right. split; [done|]. split.
    { eapply (passed_app _ _ Private _ [Flock]); [by cbn; destruct (creates o)|done|]. cbn. by rewrite E1. }
    apply (core_inside st sh ps i o Private); try done; [by right|by apply Hf|].
    pose proof (ci_state _ _ _ I) as Is. by rewrite Hlk in Is.
Qed.

(** The steps of the lock holder. *)
Lemma step_holder st i o p p' sh sh' ps :
  core_inv st sh ps → ops !! i = Some o → ps !! i = Some p → passed (fls i) o p = true →
  critical p = true → hstep (fls i) i o p sh = Some (p', sh') → step_result st i o ps p' sh'.
Proof.
  intros I Ho Hi Hp Hcr E. destruct sh' as [fs' lk'].
  pose proof (ci_mutex _ _ _ I i p Hi Hcr) as Hm. pose proof (ci_state _ _ _ I) as Is.
  rewrite Hm in Is. destruct Is as (o' & q & Ho' & Hq & Hh). rewrite Ho in Ho'. rewrite Hi in Hq.
  injection Ho' as <-. injection Hq as <-.
  assert (opened p = true) as Hop by by destruct p. pose proof (ci_file _ _ _ I i p Hi Hop) as Hf.
  assert (∀ s l r, calls o (Truncated [] None) = l ++ s :: r → ok (fls i) s = false →
    state_of (sh_fs sh) = st →
    step_result st i o ps (Done (on_error o)) (mkShared (sh_fs sh) None)) as Hfail.
  { intros s l r Hl Hs Hst. apply fails_result; [by eapply passed_first|].
    eapply core_fails; try done. by right. }
  destruct p; cbn [hstep holder_ok] in E, Hh; try done.
  - destruct (update_of o _) as [st' d] eqn:Eu. fold (state_of (sh_fs sh)) in Eu. rewrite Hh in Eu.
    destruct (ok (fls i) ReadToEnd) eqn:E1; cbn [andb] in E.
    2:{ injection E as <- <- <-. apply (Hfail ReadToEnd (calls o Locked) [ToVec; Seek; SetLen]); try done.
        by cbn; destruct (creates o). }
    destruct (ok (fls i) ToVec) eqn:E2.
    2:{ injection E as <- <- <-. apply (Hfail ToVec (calls o Locked ++ [ReadToEnd]) [Seek; SetLen]); try done.
        by cbn; destruct (creates o). }
    destruct (to_vec_total st') as [json Hj]. rewrite Hj in E. injection E as <- [-> ->]%shared_eta.
    right. split; [done|]. split.
    { eapply (passed_app _ _ Locked _ [ReadToEnd; ToVec]); [by cbn; destruct (creates o)|done|].
      cbn. by rewrite E1, E2. }
    rewrite Hm. apply (core_inside _ sh ps i o Locked); try done; [by left|]. cbn. by rewrite Eu.
  - destruct Hh as (Hst & Hj & ->). destruct (ok (fls i) Seek) eqn:E1; cbn [andb] in E.
    2:{ injection E as <- <- <-. apply (Hfail Seek (calls o (Updated [] None)) [SetLen]); try done.
        by cbn; destruct (creates o). }
    destruct (ok (fls i) SetLen) eqn:E2.
    2:{ injection E as <- <- <-. apply (Hfail SetLen (calls o (Updated [] None) ++ [Seek]) []); try done.
        by cbn; destruct (creates o). }
    injection E as <- <- <-. right. split; [done|]. split.
    { eapply (passed_app _ _ (Updated json (snd (update_of o st))) _ [Seek; SetLen]);
        [by cbn; destruct (creates o)|done|]. cbn. by rewrite E1, E2. }
    rewrite Hm. apply (core_inside st sh ps i o (Updated json (snd (update_of o st)))); try done;
      [by left|by apply with_file_is_Some].
  - destruct Hh as (Hj & ->). assert (passed (fls i) o (Truncated [] None) = true) as Hp' by exact Hp.
    assert (∀ bs, core_inv (default ∅ (from_slice bs))
      (mkShared (with_file (λ f, mkFile bs (f_mode f)) (sh_fs sh)) None) (<[i := p']> ps)
      ∨ critical p' = true ∨ opened p' = true) as Hrel.
    { intros bs. destruct (critical p') eqn:Ec; [right; by left|].
      destruct (opened p') eqn:Eo; [right; by right|]. left.
      apply (core_release st _ sh ps i); try done; [by left|by rewrite Eo|apply with_file_is_Some|].
      destruct Hf as [f Hf]. unfold state_of, with_file. by rewrite Hf. }
    left. unfold effect. rewrite Hp'. destruct (update_of o st) as [st' d] eqn:Eu. cbn [fst snd] in *.
    destruct (fls i WriteAll) as [k|]; injection E as <- <- <-; (split; [done|]); cbn [fst snd].
    + unfold written. rewrite Hj. by destruct (Hrel (take k json)) as [?|[?|?]].
    + destruct (Hrel json) as [Hc|[?|?]]; [|done..]. by rewrite (from_slice_to_vec _ _ Hj) in Hc.
Qed.

Lemma step_core st i o p p' sh sh' ps :
  core_inv st sh ps → ops !! i = Some o → ps !! i = Some p → passed (fls i) o p = true →
  hstep (fls i) i o p sh = Some (p', sh') →
  (∀ d, p ≠ Done d) ∧ step_result st i o ps p' sh'.
Proof.
  intros I Ho Hi Hp E. split; [by intros d ->|].
  destruct (critical p) eqn:Hc; [by eapply step_holder|by eapply step_before].
Qed.

Lemma step_inv st0 i c c' : inv st0 c → step i c = Some c' → inv st0 c'.
Proof.
  intros I. unfold step. destruct (ops !! i) as [o|] eqn:Ho; [|done].
  destruct (phases c !! i) as [p|] eqn:Hi; [|done]. cbn.
  destruct (hstep (fls i) i o p (sys_shared c)) as [[p' sh']|] eqn:E; [|done]. cbn.
  intros <-%(inj Some).
  destruct (step_core _ i o p p' _ _ _ (inv_core _ _ I) Ho Hi (inv_passed _ _ I i o p Ho Hi) E)
    as [Hp [[-> Hc]|(Hp' & Hps & Hc)]].
  - cbn [commit]. by eapply inv_finish.
  - replace (commit i p' (finished c)) with (finished c) by (destruct p'; try done; by destruct (Hp' d)).
    destruct I as [Ip Ic Id In Ide]. split; [by eapply passed_insert|done| |done|done].
    cbn. by apply (done_insert c i p p').
Qed.

Lemma exec_inv st0 sched c : inv st0 c → inv st0 (exec sched c).
Proof.
  revert c. induction sched as [|i sched IH]; intros c I; cbn; [done|].
  apply IH. destruct (step i c) as [c'|] eqn:E; [|done]. by eapply step_inv.
Qed.

(** What [with_locked_state] does once the directory is there and the file is open. *)
Lemma locked_effect {A} i o (update : RateState → RateState * A) (dec : A → option RateDecision) dm f :
  passed (fls i) o DirReady = true →
  (∀ st, update_of o st = (fst (update st), dec (snd (update st)))) →
  let fs := mkFs dm (Some f) in
  let r := with_locked_state (fls i) false update fs in
  state_of (fst r) = fst (effect (fls i) o (state_of fs))
  ∧ match snd r with Ok a => dec a | Err _ => on_error o end = snd (effect (fls i) o (state_of fs)).
Proof.
  intros Hp Hu. cbv zeta.
  change (state_of (mkFs dm (Some f))) with (default ∅ (from_slice (f_data f))).
  set (st := default ∅ (from_slice (f_data f))).
  assert (∀ m, state_of (mkFs dm (Some (mkFile (f_data f) m))) = st) as Hst by done.
  assert (state_of (mkFs dm (Some f)) = st) as Hst' by done.
  unfold effect, passed in *. cbn [calls] in *. rewrite forallb_app, Hp, Hu.
  unfold with_locked_state, step_io, ok. cbn -[state_of]. fold st.
  destruct (fls i Open); [done|]. destruct (fls i SetPermissions); [done|]. destruct (fls i Flock); [done|].
  destruct (fls i ReadToEnd); [done|]. destruct (update st) as [st' a]. cbn -[state_of].
  destruct (fls i ToVec); [done|]. destruct (to_vec_total st') as [json Hj]. rewrite Hj.
  destruct (fls i Seek); [done|]. destruct (fls i SetLen); [done|]. cbn -[state_of]. unfold written. rewrite Hj.
  destruct (fls i WriteAll) as [k|]; cbn; [done|]. split; [|done].
  unfold state_of. cbn. by rewrite (from_slice_to_vec _ _ Hj).
Qed.

Lemma passed_dir fl o : fl EnsureDir = None → fl DirMode = None → passed fl o DirReady = true.
Proof. intros E1 E2. unfold passed, calls, ok. destruct (creates o); cbn; by rewrite ?E1, ?E2. Qed.

(** A handler alone is the limiter's operation, on the state of the files. *)
Lemma solo_effect i o fs :
  max ≠ 0%Z →
  state_of (fst (solo (fls i) o fs)) = fst (effect (fls i) o (state_of fs))
  ∧ snd (solo (fls i) o fs) = snd (effect (fls i) o (state_of fs)).
Proof.
  intros Hm. destruct fs as [dm sf].
  destruct o as [s now|s t]; unfold solo, check_and_record, refund; rewrite decide_False by done.
  - destruct (fls i EnsureDir) eqn:E1.
    { rewrite effect_failed by (unfold passed, ok; cbn; by rewrite E1).
      unfold with_locked_state. rewrite E1. done. }
    destruct (fls i DirMode) eqn:E2.
    { rewrite effect_failed by (unfold passed, ok; cbn; by rewrite E1, E2).
      unfold with_locked_state. rewrite E1, E2. done. }
    destruct (fls i Open) eqn:E3.
    { rewrite effect_failed by (unfold passed, ok; cbn; by rewrite E1, E2, E3).
      unfold with_locked_state, step_io. rewrite E1, E2, E3. done. }
    set (f := default (mkFile [] 384%Z) sf).
    assert (with_locked_state (fls i) true (check_state max s now) (mkFs dm sf)
      = with_locked_state (fls i) false (check_state max s now) (mkFs (Some 448%Z) (Some f))) as ->.
    { unfold with_locked_state, step_io. rewrite E1, E2, E3. by destruct sf. }
    assert (state_of (mkFs dm sf) = state_of (mkFs (Some 448%Z) (Some f))) as ->.
    { unfold f, state_of. destruct sf; [done|]. cbn. by rewrite from_slice_nil. }
    destruct (locked_effect i (Check s now) (check_state max s now) Some (Some 448%Z) f) as [Hst Hd];
      [by apply passed_dir|intros st; cbn; by destruct (check_state _ _ _ _)|].
    destruct (with_locked_state _ _ _ _) as [fs' [d|e]]; cbn [fst snd on_error] in *; by split.
  - destruct sf as [f|].
    + destruct (locked_effect i (Refund s t) (λ st, (refund_state s t st, tt)) (λ _, None) dm f)
        as [Hst Hd]; [done..|]. cbn [fst snd] in *. split; [done|]. rewrite <- Hd. by case_match.
    + assert (state_of (mkFs dm None) = ∅) as -> by done. rewrite effect_refund_empty.
      unfold with_locked_state, step_io. cbn. by destruct (fls i Open).
Qed.

(** The files and the decisions of the handlers one after another are those of a replay. *)
Lemma replay_sequential order fs :
  max ≠ 0%Z →
  state_of (fst (sequential order fs)) = fst (replay order (state_of fs)) ∧
  snd (sequential order fs) = snd (replay order (state_of fs)).
Proof.
  intros Hm. revert fs. induction order as [|i order IH]; intros fs; cbn [replay sequential]; [done|].
  destruct (ops !! i) as [o|]; [|apply IH].
  destruct (solo_effect i o fs Hm) as [Hst Hd].
  destruct (solo (fls i) o fs) as [fs' d], (effect (fls i) o (state_of fs)) as [st d'].
  cbn in Hst, Hd. subst. specialize (IH fs'). destruct (sequential order fs'), (replay order _).
  cbn in *. by destruct IH as [-> ->].
Qed.

(** All handlers finished. *)
Definition all_done (c : sys) : bool :=
  forallb (λ p, match p with Done _ => true | _ => false end) (phases c).

Lemma all_done_order st0 c :
  inv st0 c → all_done c = true → (finished c).*1 ≡ₚ seq 0 (length ops).
Proof.
  intros I Hd. apply NoDup_Permutation; [by apply (inv_nodup _ _ I)|apply NoDup_seq|].
  intros i. rewrite elem_of_seq, <- (inv_len _ _ I). split.
  - intros ([j d] & -> & H)%list_elem_of_fmap. apply (inv_done _ _ I), lookup_lt_Some in H.
    cbn. lia.
  - intros [_ Hi]. destruct (lookup_lt_is_Some_2 (phases c) i) as [p Hp]; [lia|].
    unfold all_done in Hd. rewrite forallb_Forall in Hd.
    pose proof (proj1 (Forall_lookup _ _) Hd i p Hp) as Hpd. destruct p; try done.
    apply list_elem_of_fmap. exists (i, d). split; [done|]. by apply (inv_done _ _ I).
Qed.

(** A handler that is not finished moves unless it waits for the lock. *)
Lemma hstep_moves fl i o p sh :
  (∀ d, p ≠ Done d) → (p = Private → sh_lock sh = None) → is_Some (hstep fl i o p sh).
Proof.
  intros Hd Hpr. unfold hstep. destruct p; try (by destruct (Hd d)); try rewrite Hpr by done;
    repeat case_match; by eexists.
Qed.

(** Some handler can always move: the lock is held by a handler that can. *)
Lemma no_deadlock st0 c :
  inv st0 c → all_done c = false → ∃ i, is_Some (step i c).
Proof.
  intros I Hd.
  assert (∃ i p, phases c !! i = Some p ∧ ∀ d, p ≠ Done d) as (i & p & Hi & Hp).
  { revert Hd. unfold all_done. generalize (phases c). intros l.
    induction l as [|p l IH]; cbn; [done|]. intros [Hp|Hl]%andb_false_iff.
    - exists 0, p. split; [done|]. by intros d ->.
    - destruct (IH Hl) as (i & q & Hi & Hq). by exists (S i), q. }
  assert (∀ j q, phases c !! j = Some q → (∀ d, q ≠ Done d) →
            (q = Private → sh_lock (sys_shared c) = None) → is_Some (step j c)) as Hstep.
  { intros j q Hj Hq Hpr. unfold step. destruct (lookup_lt_is_Some_2 ops j) as [o Ho].
    { rewrite <- (inv_len _ _ I). by eapply lookup_lt_Some. }
    rewrite Ho, Hj. cbn. destruct (hstep_moves (fls j) j o q (sys_shared c) Hq Hpr) as [r ->]. by eexists. }
  pose proof (ci_state _ _ _ (inv_core _ _ I)) as Is. destruct (sh_lock _) as [j|] eqn:Elk.
  - destruct Is as (o & q & _ & Hj & Hh). exists j. apply (Hstep j q Hj); by destruct q.
  - exists i. by apply (Hstep i p).
Qed.

(** *** A storm on one pod *)

Definition allowed (d : option RateDecision) : bool :=
  match d with Some Allowed => true | _ => false end.
Definition count_allowed (ds : list (option RateDecision)) : Z :=
  Z.of_nat (length (List.filter allowed ds)).

(** All crashes of one pod within less than a window. *)
Definition storm (scope : bytes) (lo : Z) (o : op) : Prop :=
  match o with
  | Check s now => s = scope ∧ (lo ≤ now < lo + RATE_WINDOW_SECS)%Z
                   ∧ (i64_min + RATE_WINDOW_SECS ≤ now ≤ i64_max)%Z
  | Refund _ _ => False
  end.

Lemma effect_no_faults o st : effect no_faults o st = update_of o st.
Proof. unfold effect. destruct o; cbn; [by destruct (check_state _ _ _ _)|done]. Qed.

Lemma replay_storm scope lo order st :
  (∀ i, fls i = no_faults) → (0 < max ≤ u32_max)%Z → Forall (storm scope lo) ops → Forall (λ i, i < length ops) order →
  Forall (λ t, (lo ≤ t)%Z) (events_of st scope) →
  (Z.of_nat (length (events_of st scope)) ≤ max)%Z →
  count_allowed (snd (replay order st))
    = Z.min (Z.of_nat (length order)) (max - Z.of_nat (length (events_of st scope))).
Proof.
  intros Hnf Hm Hops. revert st. induction order as [|i order IH]; intros st Hord Hev Hlen.
  { unfold count_allowed. cbn. lia. }
  inversion_clear Hord as [|?? Hi Hord']. destruct (lookup_lt_is_Some_2 ops i Hi) as [o Ho].
  cbn [replay]. rewrite Ho. pose proof (proj1 (Forall_lookup _ _) Hops i o Ho) as Hs.
  destruct o as [s now|]; [|done]. destruct Hs as (-> & Hlo & Hr).
  rewrite Hnf, effect_no_faults. cbn [update_of].
  assert (events_of (retain_recent (cutoff now) st) scope = events_of st scope) as Hret.
  { rewrite lookup_retain. apply filter_all. eapply Forall_impl; [exact Hev|]. cbn. intros t Ht.
    unfold cutoff, RATE_WINDOW_SECS, i64_min, i64_max in *.
    rewrite wrap_i64_small; unfold i64_min, i64_max; lia. }
  unfold check_state. rewrite Hret. case_decide as Hfull.
  - specialize (IH (retain_recent (cutoff now) st)). rewrite Hret in IH.
    destruct (replay order _) as [st' ds]. cbn in IH. specialize (IH Hord' Hev Hlen).
    unfold count_allowed in *. cbn. rewrite IH. lia.
  - specialize (IH (<[scope := events_of st scope ++ [now]]> (retain_recent (cutoff now) st))).
    destruct (replay order _) as [st' ds]. cbn in IH.
    rewrite events_of_insert, decide_True in IH by done. rewrite length_app in IH. cbn in IH.
    unfold count_allowed in *. cbn. rewrite Nat2Z.inj_succ, IH; [lia|done| |lia].
    apply Forall_app. split; [done|]. constructor; [lia|constructor].
Qed.

(** What a finished handler decided. *)
Definition outcome (p : phase) : option RateDecision := match p with Done d => d | _ => None end.
Definition outcomes (c : sys) : list (option RateDecision) := outcome <$> phases c.

Lemma outcomes_finished st0 c :
  inv st0 c → all_done c = true → outcomes c ≡ₚ (finished c).*2.
Proof.
  intros I Hd. set (dec i := from_option outcome None (phases c !! i)).
  assert ((finished c).*2 = dec <$> (finished c).*1) as ->.
  { rewrite <- list_fmap_compose. apply list_fmap_ext. intros k [i d] Hk. cbn. unfold dec.
    assert (phases c !! i = Some (Done d)) as ->; [|done].
    apply (inv_done _ _ I). by eapply list_elem_of_lookup_2. }
  assert (outcomes c = dec <$> seq 0 (length (phases c))) as ->.
  { unfold outcomes, dec. apply list_eq. intros i. rewrite !list_lookup_fmap.
    destruct (decide (i < length (phases c))) as [Hi|Hi].
    - rewrite lookup_seq_lt by done. cbn. by destruct (lookup_lt_is_Some_2 _ _ Hi) as [p ->].
    - rewrite lookup_seq_ge, lookup_ge_None_2 by lia. done. }
  rewrite (inv_len _ _ I). by rewrite (all_done_order _ _ I Hd).
Qed.

Lemma count_allowed_perm ds ds' : ds ≡ₚ ds' → count_allowed ds = count_allowed ds'.
Proof.
  unfold count_allowed. induction 1; cbn; repeat destruct_cond; cbn in *; lia.
Qed.


End handlers.

End Concurrent.

(** ** Properties *)

(** C24: the limiter refines the abstract sliding-window log: for every sequence of
    checks and refunds with a clock that does not run backwards, started from a
    missing, empty or corrupt state file, the decisions read from the pruned
    JSON file are those of the log that forgets nothing. *)
Theorem limiter_refines_log {C : StateCodec} {L : StateCodecLaws C} max ops fs :
  max ≠ 0%Z → clocked i64_min ops → state_of fs = ∅ →
  snd (run max ops fs) = snd (run_spec max ops []).
Proof.
  intros Hm Hc He. apply (run_refines max ops i64_min); [done|done|]. rewrite He. intros s c _. done.
Qed.

Definition sample_ops : list op :=
  [Check (b! "pod-a") 1000; Check (b! "pod-b") 1000; Check (b! "pod-a") 1001;
   Refund (b! "pod-a") 1000; Check (b! "pod-a") 1002; Check (b! "pod-a") 4603].

Lemma limiter_refines_log_witness :
  snd (run 1 sample_ops empty_fs) = snd (run_spec 1 sample_ops [])
  ∧ snd (run_spec 1 sample_ops []) = [Allowed; Allowed; Suppressed 1; Allowed; Allowed].
Proof.
  split; [|vm_compute; reflexivity].
  apply (limiter_refines_log (L := decimal_codec_laws)); [done|vm_compute; intuition congruence|reflexivity].
Defined.

(** The budget: whatever the interleaving of pods, crashes and refunds, the uploads
    a pod was granted and kept in any hour are at most [max_per_hour]. *)
Theorem limiter_budget {C : StateCodec} {L : StateCodecLaws C} max ops fs s t :
  (0 < max ≤ u32_max)%Z → clocked i64_min ops → state_of fs = ∅ →
  (Spec.window_count (admitted ops (snd (run max ops fs)) []) s t ≤ max)%Z.
Proof.
  intros Hm Hc He. assert (snd (run max ops fs) = snd (run_spec max ops [])) as ->.
  { apply (run_refines max ops i64_min); [lia|done|]. rewrite He. intros s' c _. done. }
  rewrite <- run_spec_admitted. apply run_spec_within_budget; [lia|].
  intros s' t'. unfold Spec.window_count. cbn. lia.
Qed.

Lemma limiter_budget_witness :
  (Spec.window_count (admitted sample_ops (snd (run 1 sample_ops empty_fs)) []) (b! "pod-a") 4000
   ≤ 1)%Z.
Proof.
  apply (limiter_budget (L := decimal_codec_laws)); [by vm_compute|vm_compute; intuition congruence|reflexivity].
Defined.

(** C20: the limiter fails open: whatever steps of a check fail, a suppressed verdict is
    only given when the file was read and holds at least [max_per_hour] uploads
    of the pod after the cutoff, and it reports their number. *)
Theorem limiter_fails_open {C : StateCodec} {L : StateCodecLaws C} fl max s now fs fs' n :
  check_and_record fl max s now fs = (fs', Suppressed n) →
  n = Z.min (Z.of_nat (length (filter (λ t, (cutoff now < t)%Z) (events_of (state_of fs) s)))) u32_max
  ∧ (max ≤ n)%Z ∧ max ≠ 0%Z.
Proof.
  unfold check_and_record. case_decide; [done|].
  destruct (with_locked_state _ _ _ _) as [fs1 [d|e]] eqn:E; [|done]. intros [= <- ->].
  apply with_locked_state_inv in E as (_ & _ & Hd).
  unfold check_state in Hd. rewrite lookup_retain in Hd.
  case_decide; [|done]. cbn in Hd. by injection Hd as ->.
Qed.

(** A state file that says the pod used its only slot. *)
Definition used_fs : StateFs :=
  fst (check_and_record no_faults 1 (b! "pod-a") 1000 empty_fs).

Lemma limiter_fails_open_witness :
  1%Z = Z.min (Z.of_nat (length (filter (λ t, (cutoff 1001 < t)%Z)
          (events_of (state_of used_fs) (b! "pod-a"))))) u32_max ∧ (1 ≤ 1)%Z ∧ 1%Z ≠ 0%Z.
Proof.
  apply (limiter_fails_open (L := decimal_codec_laws) no_faults 1 (b! "pod-a") 1001 used_fs
    (fst (check_and_record no_faults 1 (b! "pod-a") 1001 used_fs)) 1).
  rewrite (surjective_pairing (check_and_record no_faults 1 (b! "pod-a") 1001 used_fs)) at 1.
  apply (f_equal (pair _)). vm_compute. reflexivity.
Defined.

Lemma refund_undoes max s now st st' :
  check_state max s now st = (st', Allowed) →
  refund_state s now st' = retain_recent (cutoff now) st.
Proof.
  unfold check_state. case_decide; [done|]. intros [= <-]. unfold refund_state.
  rewrite lookup_insert_eq, remove_last_snoc.
  pose proof (retain_no_empty (cutoff now) st s) as Hne.
  unfold events_of. destruct (retain_recent (cutoff now) st !! s) as [l|] eqn:E; cbn.
  - rewrite decide_False by congruence. by rewrite insert_insert_eq, insert_id.
  - rewrite delete_insert_eq. by apply delete_id.
Qed.

(** A refund undoes exactly the upload it gives back: the state after recording an
    upload and refunding it is the pruned state before. *)
Theorem refund_undoes_record max s now st st' :
  check_state max s now st = (st', Allowed) →
  refund_state s now st' = retain_recent (cutoff now) st.
Proof. apply refund_undoes. Qed.

Definition two_uploads : RateState := {[ b! "pod-a" := [1000; 4000]%Z ]}.

Lemma refund_undoes_record_witness :
  refund_state (b! "pod-a") 5000 (fst (check_state 2 (b! "pod-a") 5000 two_uploads))
  = retain_recent (cutoff 5000) two_uploads.
Proof.
  apply (refund_undoes_record 2).
  rewrite (surjective_pairing (check_state 2 (b! "pod-a") 5000 two_uploads)) at 1.
  apply (f_equal (pair _)). vm_compute. reflexivity.
Defined.

(** A check that completes leaves the directory private to root (0700) and the state
    file 0600 with the new state in it, whatever their modes and contents were. *)
Theorem check_leaves_private_state {C : StateCodec} {L : StateCodecLaws C} max s now fs :
  max ≠ 0%Z →
  ∃ json, fst (check_and_record no_faults max s now fs)
          = mkFs (Some 448%Z) (Some (mkFile json 384%Z))
          ∧ from_slice json = Some (fst (check_state max s now (state_of fs))).
Proof.
  intros Hm. unfold check_and_record. rewrite decide_False by done.
  destruct (with_locked_state_ok true (check_state max s now) fs (or_introl eq_refl))
    as (json & Hj & ->). exists json. split; [done|]. by apply from_slice_to_vec.
Qed.

Lemma check_leaves_private_state_witness :
  ∃ json, fst (check_and_record no_faults 3 (b! "pod-perm") 1000
                 (mkFs (Some 493%Z) (Some (mkFile (b! "{}") 420%Z))))
          = mkFs (Some 448%Z) (Some (mkFile json 384%Z))
          ∧ from_slice json = Some (fst (check_state 3 (b! "pod-perm") 1000
              (state_of (mkFs (Some 493%Z) (Some (mkFile (b! "{}") 420%Z)))))).
Proof. apply (check_leaves_private_state (L := decimal_codec_laws)). done. Defined.

(** C9: concurrent handlers serialize: however the steps of a crash storm's handlers
    interleave on the state file, and whichever of their system calls fail, once all have
    finished there is an order of them in which running them one after another, with the
    same failing calls, gives the same decisions and leaves the same state. (A write
    that fails halfway is assumed to leave no JSON.) *)
Theorem handlers_serialize {C : StateCodec} {L : StateCodecLaws C} max ops fls sched fs :
  max ≠ 0%Z → (∀ i k, fls i WriteAll = Some k → TornLaws C) →
  let c := Concurrent.exec max ops fls sched (Concurrent.init ops fs) in
  Concurrent.all_done c = true →
  ∃ order : list (nat * option RateDecision),
    order.*1 ≡ₚ seq 0 (length ops)
    ∧ (∀ i d, (i, d) ∈ order ↔ Concurrent.phases c !! i = Some (Concurrent.Done d))
    ∧ snd (Concurrent.sequential max ops fls order.*1 fs) = order.*2
    ∧ state_of (Concurrent.sh_fs (Concurrent.sys_shared c))
      = state_of (fst (Concurrent.sequential max ops fls order.*1 fs)).
Proof.
  intros Hm TL c Hd.
  pose proof (Concurrent.exec_inv max ops fls TL _ sched _ (Concurrent.init_inv max ops fls fs)) as I.
  fold c in I. exists (Concurrent.finished c).
  destruct (Concurrent.replay_sequential max ops fls TL (Concurrent.finished c).*1 fs Hm) as [Hst Hds].
  split_and!; [by eapply Concurrent.all_done_order|apply (Concurrent.inv_done _ _ _ _ _ I)| |].
  - by rewrite Hds, (Concurrent.inv_decisions _ _ _ _ _ I).
  - rewrite Hst. pose proof (Concurrent.ci_state _ _ _ _ _ (Concurrent.inv_core _ _ _ _ _ I)) as Is.
    destruct (Concurrent.sh_lock _) as [j|]; [|done]. destruct Is as (o & p & _ & Hp & Hh).
    unfold Concurrent.all_done in Hd. rewrite forallb_Forall in Hd.
    pose proof (proj1 (Forall_lookup _ _) Hd j p Hp). by destruct p.
Qed.

(** Three crashes of one pod with a budget of two, fully interleaved. *)
Definition storm_ops : list op :=
  [Check (b! "pod-a") 1000; Check (b! "pod-a") 1001; Check (b! "pod-a") 1000].
Definition storm_sched : list nat :=
  concat (replicate 12 [2; 0; 1]) ++ concat (replicate 12 [0; 1]).

(** The disk of the middle one is full before it writes. *)
Definition storm_faults (i : nat) : faults :=
  λ s, match i, s with 1, SetLen => Some 0 | _, _ => None end.

Lemma handlers_serialize_witness :
  ∃ order : list (nat * option RateDecision),
    order.*1 ≡ₚ seq 0 3
    ∧ (∀ i d, (i, d) ∈ order ↔
         Concurrent.phases (Concurrent.exec 2 storm_ops storm_faults storm_sched
           (Concurrent.init storm_ops empty_fs)) !! i = Some (Concurrent.Done d))
    ∧ snd (Concurrent.sequential 2 storm_ops storm_faults order.*1 empty_fs) = order.*2
    ∧ state_of (Concurrent.sh_fs (Concurrent.sys_shared
         (Concurrent.exec 2 storm_ops storm_faults storm_sched (Concurrent.init storm_ops empty_fs))))
      = state_of (fst (Concurrent.sequential 2 storm_ops storm_faults order.*1 empty_fs)).
Proof.
  apply (handlers_serialize (L := decimal_codec_laws) 2 storm_ops storm_faults storm_sched empty_fs).
  - done.
  - intros [|[|i]] k; discriminate.
  - vm_compute. reflexivity.
Defined.

(** Handlers none of whose system calls fail. *)
Definition reliable : nat → faults := λ _, no_faults.

(** C10: a crash storm of [n] handlers of one pod within an hour on a pod with no recorded
    uploads admits exactly the smaller of [n] and the budget, however they interleave,
    when none of their system calls fails. *)
Theorem storm_admits_exactly {C : StateCodec} {L : StateCodecLaws C} max ops sched fs scope lo :
  (0 < max ≤ u32_max)%Z → Forall (Concurrent.storm scope lo) ops →
  events_of (state_of fs) scope = [] →
  let c := Concurrent.exec max ops reliable sched (Concurrent.init ops fs) in
  Concurrent.all_done c = true →
  Concurrent.count_allowed (Concurrent.outcomes c) = Z.min (Z.of_nat (length ops)) max.
Proof.
  intros Hm Hops Hev c Hd.
  assert (∀ i k, reliable i WriteAll = Some k → TornLaws C) as TL by done.
  pose proof (Concurrent.exec_inv max ops _ TL _ sched _ (Concurrent.init_inv max ops _ fs)) as I.
  fold c in I.
  rewrite (Concurrent.count_allowed_perm _ _ (Concurrent.outcomes_finished _ _ _ _ _ I Hd)).
  rewrite <- (Concurrent.inv_decisions _ _ _ _ _ I).
  pose proof (Concurrent.all_done_order _ _ _ _ _ I Hd) as Hp.
  rewrite (Concurrent.replay_storm max ops _ scope lo); rewrite ?Hev; try done.
  - rewrite Hp, length_seq. cbn. lia.
  - rewrite Hp. apply Forall_seq. lia.
  - cbn. lia.
Qed.

Lemma storm_admits_exactly_witness :
  Concurrent.count_allowed (Concurrent.outcomes
    (Concurrent.exec 2 storm_ops reliable storm_sched (Concurrent.init storm_ops empty_fs))) = 2%Z.
Proof.
  apply (storm_admits_exactly (L := decimal_codec_laws) 2 storm_ops storm_sched empty_fs (b! "pod-a") 1000).
  - by vm_compute.
  - repeat constructor; by vm_compute.
  - reflexivity.
  - vm_compute. reflexivity.
Defined.

(** Handlers never deadlock on the [flock], whichever of their calls fail: in every
    reachable configuration with an unfinished handler, some handler has a step, and at
    most one is between its lock and its unlock. *)
Theorem handlers_progress {C : StateCodec} {L : StateCodecLaws C} max ops fls sched fs :
  (∀ i k, fls i WriteAll = Some k → TornLaws C) →
  let c := Concurrent.exec max ops fls sched (Concurrent.init ops fs) in
  (Concurrent.all_done c = true ∨ ∃ i, is_Some (Concurrent.step max ops fls i c)) ∧
  ∀ i j p q, Concurrent.phases c !! i = Some p → Concurrent.phases c !! j = Some q →
             Concurrent.critical p = true → Concurrent.critical q = true → i = j.
Proof.
  intros TL c.
  pose proof (Concurrent.exec_inv max ops _ TL _ sched _ (Concurrent.init_inv max ops fls fs)) as I.
  fold c in I. split.
  - destruct (Concurrent.all_done c) eqn:Hd; [by left|right].
    by eapply Concurrent.no_deadlock.
  - intros i j p q Hi Hj Hp Hq.
    apply (Concurrent.ci_mutex _ _ _ _ _ (Concurrent.inv_core _ _ _ _ _ I)) in Hi, Hj; try done.
    congruence.
Qed.

End RateLimit.
