(* ===== verification/RateCrash.v ===== *)
(** * [src/ratelimit.rs]: handlers that are killed

    A handler may be killed between any two system calls of
    [with_locked_state], or in the middle of its last write, and any of its calls may
    fail. The kernel then
    closes its files, which releases the [flock]; nothing is cleaned up. *)

From S2P Require Import Prelude RustStr RateLimit.

Module RateCrash.
Import RateLimit RateLimit.Concurrent.

Section crashes.
Context {C : StateCodec} (max : Z) (ops : list op) (fls : nat → faults).

(** A handler makes its next system call, or is killed; if it was about to write the
    state, after some bytes went out. *)
Inductive action := Move (i : nat) | KillAt (i : nat) (written : nat).

(** What changed the state: a handler that finished, or a last write that a kill cut
    short. *)
Inductive event := Applied (i : nat) (d : option RateDecision) | Torn (i : nat) (written : nat).

Record csys := mkC {
  c_shared : shared;
  c_phases : list phase;
  dead : list nat;
  history : list event;
}.

Definition cinit (fs : StateFs) : csys :=
  mkC (mkShared fs None) (replicate (length ops) Start) [] [].

Definition move (i : nat) (c : csys) : option csys :=
  if decide (i ∈ dead c) then None else
  o ← ops !! i; p ← c_phases c !! i; r ← hstep max (fls i) i o p (c_shared c);
  Some (mkC (snd r) (<[i := fst r]> (c_phases c)) (dead c)
          (history c ++ match fst r with Done d => [Applied i d] | _ => [] end)).

(** A dead handler's phase no longer matters: it is put back to [Start]. *)
Definition kill (i written : nat) (c : csys) : csys :=
  if decide (i ∈ dead c) then c else
  let fs := sh_fs (c_shared c) in
  let gone sh h := mkC sh (<[i := Start]> (c_phases c)) (i :: dead c) h in
  match c_phases c !! i with
  | None | Some (Done _) => c
  | Some (Locked | Updated _ _) => gone (mkShared fs None) (history c)
  | Some (Truncated json _) =>
      gone (mkShared (with_file (λ f, mkFile (take written json) (f_mode f)) fs) None)
        (history c ++ [Torn i written])
  | Some _ => gone (c_shared c) (history c)
  end.

Definition act (a : action) (c : csys) : csys :=
  match a with Move i => default c (move i c) | KillAt i written => kill i written c end.
Definition exec_actions (acts : list action) (c : csys) : csys := foldl (λ c a, act a c) c acts.

(** ** What a history means

    A handler that finished had its effect: its whole update, or none when one of its
    calls failed (a failing write empties the budget, like a kill in it). A write that was
    cut short leaves the pods with a fresh budget; one that had all its bytes out is a
    whole update. *)
Definition apply_event (st : RateState) (e : event) : RateState :=
  match e with
  | Applied i _ => from_option (λ o, fst (effect max (fls i) o st)) st (ops !! i)
  | Torn i k =>
      from_option (λ o, let st := fst (update_of max o st) in
                        match to_vec st with
                        | Some json => if decide (k < length json) then ∅ else st
                        | None => st
                        end) st (ops !! i)
  end.
Definition state_after (st : RateState) (h : list event) : RateState := foldl apply_event st h.

(** Every decision is the one for the state before it. *)
Fixpoint faithful (st : RateState) (h : list event) : Prop :=
  match h with
  | [] => True
  | e :: h => match e with
              | Applied i d => ∃ o, ops !! i = Some o ∧ d = snd (effect max (fls i) o st)
              | Torn _ _ => True
              end ∧ faithful (apply_event st e) h
  end.

Lemma state_after_snoc st h e : state_after st (h ++ [e]) = apply_event (state_after st h) e.
Proof. unfold state_after. by rewrite foldl_app. Qed.

Lemma faithful_snoc st h e :
  faithful st (h ++ [e]) ↔ faithful st h ∧ faithful (state_after st h) [e].
Proof.
  revert st. induction h as [|x h IH]; intros st; cbn [app faithful]; [tauto|].
  rewrite IH. cbn [faithful]. tauto.
Qed.

(** ** The invariant *)

Context {L : StateCodecLaws C} {TL : TornLaws C}.

Record crash_inv (st0 : RateState) (c : csys) : Prop := {
  cr_core : core_inv max ops (state_after st0 (history c)) (c_shared c) (c_phases c);
  cr_passed : all_passed ops fls (c_phases c);
  cr_dead i : i ∈ dead c → c_phases c !! i = Some Start;
  cr_faithful : faithful st0 (history c);
}.

Lemma dead_insert (c : csys) i p :
  (∀ j, j ∈ dead c → c_phases c !! j = Some Start) → i ∉ dead c →
  ∀ j, j ∈ dead c → <[i := p]> (c_phases c) !! j = Some Start.
Proof. intros H Hi j Hj. rewrite list_lookup_insert_ne; [by apply H|]. by intros ->. Qed.

#[local] Lemma torn_writes i k : fls i WriteAll = Some k → TornLaws C.
Proof. intros _. exact TL. Qed.

Lemma passed_start (ps : list phase) i : all_passed ops fls ps → all_passed ops fls (<[i := Start]> ps).
Proof.
  intros Hp j o q Ho Hj. destruct (decide (j = i)) as [->|Hne].
  - apply list_lookup_insert_Some in Hj as [(_ & <- & _)|[? _]]; done.
  - rewrite list_lookup_insert_ne in Hj by done. by eapply Hp.
Qed.

Lemma move_inv st0 i c c' : crash_inv st0 c → move i c = Some c' → crash_inv st0 c'.
Proof.
  intros [Ic Ip Id If]. unfold move. case_decide as Hd; [done|].
  destruct (ops !! i) as [o|] eqn:Ho; [|done]. destruct (c_phases c !! i) as [p|] eqn:Hi; [|done]. cbn.
  destruct (hstep max (fls i) i o p (c_shared c)) as [[p' sh']|] eqn:E; [|done]. cbn. intros [= <-].
  destruct (step_core max ops fls torn_writes _ i o p p' _ _ _ Ic Ho Hi (Ip i o p Ho Hi) E)
    as [_ [[-> Hc]|(Hp' & Hps & Hc)]].
  - split; cbn [history c_shared c_phases dead].
    + rewrite state_after_snoc. cbn. by rewrite Ho.
    + by eapply passed_insert.
    + by apply dead_insert.
    + apply faithful_snoc. cbn. eauto.
  - replace (match p' with Done d => [Applied i d] | _ => [] end) with (@nil event)
      by (destruct p'; try done; by destruct (Hp' d)).
    rewrite app_nil_r. split; [done|by eapply passed_insert| |done]. cbn. by apply dead_insert.
Qed.

(** A holder that dies without having touched the file leaves the state alone. *)
Lemma kill_idle st0 c i p :
  crash_inv st0 c → i ∉ dead c → c_phases c !! i = Some p → sh_lock (c_shared c) = Some i →
  state_of (sh_fs (c_shared c)) = state_after st0 (history c) →
  crash_inv st0 (mkC (mkShared (sh_fs (c_shared c)) None) (<[i := Start]> (c_phases c)) (i :: dead c)
                   (history c)).
Proof.
  intros [Ic Ip Id If] Hd Hi Hlk Hst.
  split; cbn [history c_shared c_phases dead]; [|by apply passed_start| |done].
  - eapply core_release; try done. by left.
  - intros j [->|Hj]%elem_of_cons; [by eapply lookup_phase_insert_eq|by apply dead_insert].
Qed.

Lemma kill_inv st0 i k c : crash_inv st0 c → crash_inv st0 (kill i k c).
Proof.
  intros I. pose proof I as [Ic Ip Id If]. unfold kill. case_decide as Hd; [done|].
  destruct (c_phases c !! i) as [p|] eqn:Hi; [|done].
  pose proof (ci_mutex _ _ _ _ _ Ic i p Hi) as Hm. pose proof (ci_state _ _ _ _ _ Ic) as Is.
  assert (critical p = false → (∀ d, p ≠ Done d) →
    crash_inv st0 (mkC (c_shared c) (<[i := Start]> (c_phases c)) (i :: dead c) (history c))) as Hout.
  { intros Hc Hnd. destruct (c_shared c) as [fs lk] eqn:Es. split; cbn [history c_shared c_phases dead]; [|by apply passed_start| |done].
    - apply (core_outside max ops _ (mkShared fs lk) _ i p Start fs); try done. by intros [?|?].
    - intros j [->|Hj]%elem_of_cons; [by eapply lookup_phase_insert_eq|by apply dead_insert]. }
  destruct p; try (by apply Hout); try exact I; cbn in Hm; specialize (Hm eq_refl); rewrite Hm in Is;
    destruct Is as (o & q & Ho & Hq & Hh); rewrite Hi in Hq; simplify_eq/=.
  - by eapply kill_idle.
  - destruct Hh as [Hh _]. by eapply kill_idle.
  - destruct Hh as [Hj ->]. split; cbn [history c_shared c_phases dead].
    + destruct (ci_file _ _ _ _ _ Ic i _ Hi eq_refl) as [f Hf].
      eapply core_release; try done; [by left|by apply with_file_is_Some|].
      rewrite state_after_snoc. cbn [apply_event]. rewrite Ho. cbn [from_option]. rewrite Hj.
      unfold state_of, with_file. rewrite Hf. cbn [state_file fmap option_fmap option_map f_data mbind option_bind].
      case_decide as Hk; [by rewrite (torn_unreadable _ _ _ Hj Hk)|].
      rewrite take_ge by lia. by rewrite (from_slice_to_vec _ _ Hj).
    + by apply passed_start.
    + intros j [->|Hj']%elem_of_cons; [by eapply lookup_phase_insert_eq|by apply dead_insert].
    + apply faithful_snoc. by split.
Qed.

Lemma exec_crash_inv st0 acts c : crash_inv st0 c → crash_inv st0 (exec_actions acts c).
Proof.
  revert c. induction acts as [|[i|i k] acts IH]; intros c I; cbn [exec_actions foldl act]; [done|..];
    apply IH.
  - destruct (move i c) as [c'|] eqn:E; [|done]. by eapply move_inv.
  - by apply kill_inv.
Qed.

Lemma cinit_inv fs : crash_inv (state_of fs) (cinit fs).
Proof.
  split; cbn; [apply init_core| |by intros i ?%not_elem_of_nil|done].
  by intros i o p _ [-> _]%lookup_replicate.
Qed.

(** A handler that is neither finished nor dead. *)
Definition live (c : csys) (i : nat) : Prop :=
  (i ∉ dead c) ∧ ∃ p, c_phases c !! i = Some p ∧ ∀ d, p ≠ Done d.

Lemma live_moves st0 c i : crash_inv st0 c → live c i → ∃ j, is_Some (move j c).
Proof.
  intros [Ic Ip Id If] (Hd & p & Hi & Hp).
  assert (∀ j q, j ∉ dead c → c_phases c !! j = Some q → (∀ d, q ≠ Done d) →
            (q = Private → sh_lock (c_shared c) = None) → is_Some (move j c)) as Hmove.
  { intros j q Hj Hq Hnd Hpr. unfold move. rewrite decide_False by done.
    destruct (lookup_lt_is_Some_2 ops j) as [o Ho].
    { rewrite <- (ci_len _ _ _ _ _ Ic). by eapply lookup_lt_Some. }
    rewrite Ho, Hq. cbn. destruct (hstep_moves max (fls j) j o q (c_shared c) Hnd Hpr) as [r ->]. by eexists. }
  pose proof (ci_state _ _ _ _ _ Ic) as Is. destruct (sh_lock (c_shared c)) as [j|] eqn:Hlk.
  - destruct Is as (o & q & _ & Hj & Hh). exists j. apply (Hmove j q); try done; [|by destruct q..].
    intros Hin%Id. rewrite Hj in Hin. by injection Hin as ->.
  - exists i. by apply (Hmove i p).
Qed.
End crashes.

(** ** A codec whose files cannot be cut short unnoticed

    As JSON's closing brace: the decimal codec's number, with an end mark. *)
Definition framed_codec : StateCodec := {|
  from_slice bs := strip_suffix (b! ";") bs ≫= from_slice (StateCodec := decimal_codec);
  to_vec st := (.++ b! ";") <$> to_vec (StateCodec := decimal_codec) st;
|}.

#[global] Instance framed_codec_laws : StateCodecLaws framed_codec.
Proof.
  split; [done|by eexists|]. intros st bs [= <-]. cbn [from_slice framed_codec].
  rewrite strip_suffix_app. cbn [mbind option_bind]. by apply from_slice_to_vec.
Qed.

#[global] Instance framed_codec_torn : TornLaws framed_codec.
Proof.
  intros st json k [= <-] Hk. cbn [from_slice framed_codec].
  destruct (strip_suffix _ _) as [r|] eqn:E; [|done]. exfalso.
  apply strip_suffix_Some in E. set (n := to_string _) in *.
  rewrite length_app in Hk. change (length (b! ";")) with 1 in Hk. rewrite take_app_le in E by lia.
  assert (";"%byte ∈ n) as Hin.
  { rewrite <- (take_drop k n), E. apply elem_of_app. left. apply elem_of_app. right. by left. }
  by apply (forallb_not_elem is_int_byte) in Hin; [|apply to_string_chars|].
Qed.

(** ** Properties *)

(** C16: killed handlers cost at most the budget's memory: wherever handlers are killed,
    even halfway through their last write, and whichever of their system calls fail,
    whenever the lock is free the file holds the state of a history in which every
    finished handler had its effect on the state before it, with the decision it
    reported (its whole update; none if a call before its write failed), and a handler
    killed in its last write, or whose write failed, either did the same or emptied
    the budget; and the lock never stays with a dead handler: while any handler
    is live, some handler moves. *)
Theorem killed_handlers_are_harmless {C : StateCodec} {L : StateCodecLaws C} {TL : TornLaws C}
    max ops fls acts fs :
  let c := exec_actions max ops fls acts (cinit ops fs) in
  (sh_lock (c_shared c) = None →
   state_of (sh_fs (c_shared c)) = state_after max ops fls (state_of fs) (history c))
  ∧ faithful max ops fls (state_of fs) (history c)
  ∧ ∀ i, live c i → ∃ j, (j ∉ dead c) ∧ is_Some (move max ops fls j c).
Proof.
  intros c. pose proof (exec_crash_inv max ops fls _ acts _ (cinit_inv max ops fls fs)) as I. fold c in I.
  split_and!.
  - intros Hl. pose proof (ci_state _ _ _ _ _ (cr_core _ _ _ _ _ I)) as Is. by rewrite Hl in Is.
  - apply (cr_faithful _ _ _ _ _ I).
  - intros i Hi. destruct (live_moves _ _ _ _ _ _ I Hi) as [j Hj]. exists j. split; [|done].
    unfold move in Hj. case_decide; [by destruct Hj|done].
Qed.

(** The first of three handlers is killed while it writes, the chmod of the last one
    fails; the other one has a fresh budget of two. *)
Definition killed_faults (i : nat) : faults :=
  λ s, match i, s with 2, SetPermissions => Some 0 | _, _ => None end.
Definition killed_acts : list action :=
  replicate 6 (Move 0) ++ [KillAt 0 3] ++ replicate 7 (Move 1) ++ replicate 7 (Move 2).
Definition killed_storm : csys :=
  exec_actions (C := framed_codec) 2 storm_ops killed_faults killed_acts (cinit storm_ops empty_fs).

Lemma killed_handlers_are_harmless_witness :
  (sh_lock (c_shared killed_storm) = None →
   state_of (C := framed_codec) (sh_fs (c_shared killed_storm))
   = state_after (C := framed_codec) 2 storm_ops killed_faults ∅ (history killed_storm))
  ∧ faithful (C := framed_codec) 2 storm_ops killed_faults ∅ (history killed_storm)
  ∧ ∀ i, live killed_storm i →
      ∃ j, (j ∉ dead killed_storm)
           ∧ is_Some (move (C := framed_codec) 2 storm_ops killed_faults j killed_storm).
Proof.
  apply (killed_handlers_are_harmless (L := framed_codec_laws) (TL := framed_codec_torn) 2 storm_ops
           killed_faults killed_acts empty_fs).
Defined.

Example killed_storm_history :
  history killed_storm = [Torn 0 3; Applied 1 (Some Allowed); Applied 2 (Some Allowed)].
Proof. vm_compute. reflexivity. Qed.

(** The one whose chmod failed is allowed without being recorded. *)
Example killed_storm_state :
  events_of (state_of (C := framed_codec) (sh_fs (c_shared killed_storm))) (b! "pod-a") = [1001%Z].
Proof. vm_compute. reflexivity. Qed.

(** The same after a kill in the critical section that has not touched the file yet. *)
Example killed_holder_releases :
  history (exec_actions (C := framed_codec) 2 storm_ops reliable
             (replicate 5 (Move 0) ++ [KillAt 0 0] ++ replicate 7 (Move 1)) (cinit storm_ops empty_fs))
  = [Applied 1 (Some Allowed)].
Proof. vm_compute. reflexivity. Qed.

End RateCrash.
