(* ===== verification/Backend.v ===== *)
(** * [src/backend.rs]: the capture backend seam

    The core stream as the handler sees it, the object store interface, the
    [CaptureBackend] interface with its contract, and [DiscardBackend]. *)

From S2P Require Import Prelude RustStr.

Module Backend.

(** ** Futures and deadlines

    [Late] is a future that becomes ready only after the deadline. *)

Inductive future (T : Type) := InTime (v : T) | Late (v : T).
Arguments InTime {T} _.
Arguments Late {T} _.

Inductive elapsed := Elapsed.

(** [timeout_at] when there is a deadline, a plain await otherwise. *)
Definition race {T} (fut : future T) (deadline : option Z) : result T elapsed :=
  match deadline, fut with
  | Some _, Late _ => Err Elapsed
  | _, InTime v => Ok v
  | None, Late v => Ok v
  end.

(** [anyhow::Error]: the messages, outermost context first. *)
Abbreviation error := (list bytes).

Definition DEADLINE_ERROR : error := [b! "core drain exceeded the upload deadline"].

(** ** The core stream *)

(** What the kernel's pipe delivers: bytes becoming available, or a read error.
    After the last event the pipe is at end of file. *)
Inductive pipe_event :=
  | Avail (data : future bytes)
  | Broken (e : future bytes)
  | Closed (u : future unit).
Abbreviation pipe := (list pipe_event).

(** The results of successive [read] calls with a buffer of [n] bytes: a
    larger piece of data takes several reads. An empty read is end of file. *)
Fixpoint chunks (fuel : nat) (n : Z) (s : bytes) : list bytes :=
  match fuel, s with
  | _, [] => []
  | 0, _ => []
  | S fuel, _ => let c := takeZ n s in c :: chunks fuel n (drop (length c) s)
  end.

Inductive read_result := Read (chunk : bytes) | ReadError (e : bytes).

Definition fut_map {A B} (f : A → B) (x : future A) : future B :=
  match x with InTime v => InTime (f v) | Late v => Late (f v) end.
Definition fut_value {A} (x : future A) : A := match x with InTime v | Late v => v end.

(** Only the first piece of a late delivery is waited for. *)
Definition event_reads (n : Z) (ev : pipe_event) : list (future read_result) :=
  match ev with
  | Avail d =>
      match chunks (length (fut_value d)) n (fut_value d) with
      | [] => []
      | c :: cs => fut_map (λ _, Read c) d :: map (λ c, InTime (Read c)) cs
      end
  | Broken e => [fut_map ReadError e]
  | Closed u => [fut_map (λ _, Read []) u]
  end.
Definition reads (n : Z) (p : pipe) : list (future read_result) :=
  concat (map (event_reads n) p).

(** How a reader that reads until it cannot any more ends, and what it read. *)
Inductive ending := AtEof | AtError (e : bytes) | AtDeadline.
#[global] Instance ending_eq_dec : EqDecision ending.
Proof. solve_decision. Defined.

Fixpoint consume (deadline : option Z) (rs : list (future read_result)) : bytes * ending :=
  match rs with
  | [] => ([], AtEof)
  | r :: rs =>
      match race r deadline with
      | Err _ => ([], AtDeadline)
      | Ok (ReadError e) => ([], AtError e)
      | Ok (Read []) => ([], AtEof)
      | Ok (Read c) => let '(data, e) := consume deadline rs in (c ++ data, e)
      end
  end.

(** The same on the pipe: what was delivered before the end, the first error or
    the deadline, independent of any buffer. *)
Fixpoint delivered (deadline : option Z) (p : pipe) : bytes * ending :=
  match p with
  | [] => ([], AtEof)
  | ev :: p =>
      match ev with
      | Avail d =>
          match fut_value d with
          | [] => delivered deadline p
          | _ => match race d deadline with
                 | Err _ => ([], AtDeadline)
                 | Ok d => let '(data, e) := delivered deadline p in (d ++ data, e)
                 end
          end
      | Broken e => match race e deadline with Err _ => ([], AtDeadline) | Ok e => ([], AtError e) end
      | Closed u => match race u deadline with Err _ => ([], AtDeadline) | Ok _ => ([], AtEof) end
      end
  end.

(** ** The object store

    [object_store::ObjectStore]: the objects a reader of the bucket sees. A
    [put] that fails may or may not have stored its object. *)
Class ObjectStore (World : Type) := {
  objects : World → gmap bytes bytes;
  put : World → bytes → bytes → World * result unit bytes;
}.
Class ObjectStoreLaws (World : Type) `{ObjectStore World} : Prop := {
  put_ok w k v w' : put w k v = (w', Ok tt) → objects w' = <[k := v]> (objects w);
  put_frame w k v w' r k' : put w k v = (w', r) → k' ≠ k → objects w' !! k' = objects w !! k';
}.

(** ** [CoreStats] and [CaptureBackend] *)

Record CoreStats := mkCoreStats {
  bytes_ : Z;               (** [bytes] *)
  stored_bytes : Z;
  sha256 : option bytes;
  truncated : bool;
  truncated_reason : option bytes;
}.
#[global] Instance CoreStats_eq_dec : EqDecision CoreStats.
Proof. solve_decision. Defined.

(** A call returns or panics. *)
Inductive outcome (T : Type) := Panic | Ret (v : T).
Arguments Panic {T}.
Arguments Ret {T} _.

(** [deadline.map(|d| Instant::now() + d)]: [now] are the seconds of the monotonic
    clock; adding a duration panics when the sum is past the last [Instant], whose
    seconds are an [i64]. *)
Definition deadline_at (now : Z) (deadline : option Z) : outcome (option Z) :=
  match deadline with
  | None => Ret None
  | Some d => if decide (now + d ≤ i64_max)%Z then Ret (Some (now + d)%Z) else Panic
  end.

(** [drain_core self now reader deadline world]; [now] is what [Instant::now()]
    returns at its start. *)
Class CaptureBackend (World B : Type) :=
  drain_core : B → Z → pipe → option Z → World → World * outcome (result CoreStats error).

Definition STREAM_ERROR : bytes := b! "stream_error".
Definition SIZE_CAP : bytes := b! "size_cap".

(** What every backend promises its caller: it panics only on a deadline that is no
    [Instant], and then has touched nothing; when it returns
    [Ok] it has consumed the stream to its end (the kernel is released), it
    counts the bytes of the stream, a read error marks the core truncated and a
    complete core is not marked. *)
Class CaptureBackendLaws (World : Type) {B : Type} `{CaptureBackend World B} (b : B) : Prop := {
  drain_panics now p dl w :
    snd (drain_core b now p dl w) = Panic ↔ deadline_at now dl = Panic;
  drain_panics_early now p dl w w' : drain_core b now p dl w = (w', Panic) → w' = w;
  drain_consumes now p dl w w' st :
    drain_core b now p dl w = (w', Ret (Ok st)) →
    (Z.of_nat (length (fst (delivered dl p))) ≤ u64_max)%Z →
    bytes_ st = Z.of_nat (length (fst (delivered dl p)))
    ∧ truncated st = bool_decide (is_Some (truncated_reason st))
    ∧ match snd (delivered dl p) with
      | AtEof => truncated_reason st ≠ Some STREAM_ERROR
      | AtError _ => truncated_reason st = Some STREAM_ERROR
      | AtDeadline => False
      end;
}.

(** ** [DiscardBackend] *)

Inductive DiscardBackend := mkDiscard.

Definition DISCARD_BUF : Z := 64 * 1024.
Lemma DISCARD_BUF_pos : (0 < DISCARD_BUF)%Z.
Proof. done. Qed.

Fixpoint discard_loop (deadline : option Z) (count : Z) (rs : list (future read_result))
    : result CoreStats error :=
  let eof := Ok (mkCoreStats count 0 None false None) in
  match rs with
  | [] => eof
  | r :: rs =>
      match race r deadline with
      | Err Elapsed => Err DEADLINE_ERROR
      | Ok (Read []) => eof
      | Ok (Read c) => discard_loop deadline (wrap_u64 (count + Z.of_nat (length c))) rs
      | Ok (ReadError _) => Ok (mkCoreStats count 0 None true (Some STREAM_ERROR))
      end
  end.

#[global] Instance discard_drain_core {World} : CaptureBackend World DiscardBackend :=
  λ _ now p deadline w,
    match deadline_at now deadline with
    | Panic => (w, Panic)
    | Ret deadline_at => (w, Ret (discard_loop deadline_at 0 (reads DISCARD_BUF p)))
    end.

(** ** Lemmas *)

(** A deadline that is an [Instant]. *)
Definition fits (now : Z) (deadline : option Z) : Prop :=
  ∀ d, deadline = Some d → (now + d ≤ i64_max)%Z.
#[global] Instance fits_dec now deadline : Decision (fits now deadline).
Proof.
  destruct deadline as [d|]; [|by left].
  destruct (decide (now + d ≤ i64_max)%Z) as [H|H]; [left; by intros ? [= <-]|].
  right. intros Hf. by apply H, Hf.
Defined.

Lemma fits_none now : fits now None.
Proof. by intros ?. Qed.

Lemma deadline_at_fits now dl at_ :
  deadline_at now dl = Ret at_ → fits now dl ∧ (at_ = (Z.add now) <$> dl).
Proof.
  unfold deadline_at, fits. destruct dl as [d|]; [case_decide|]; try done; intros [= <-];
    (split; [|done]); [by intros ? [= <-]|done].
Qed.

Lemma deadline_at_panics now dl : deadline_at now dl = Panic ↔ ¬ fits now dl.
Proof.
  unfold deadline_at, fits. destruct dl as [d|]; [case_decide|].
  - split; [done|]. intros H'. destruct H'. by intros ? [= <-].
  - split; [|done]. intros _ H'. by apply H, H'.
  - split; [done|]. intros H'. by destruct H'.
Qed.

Lemma fits_deadline_at now dl : fits now dl → deadline_at now dl = Ret ((Z.add now) <$> dl).
Proof.
  intros Hf. unfold deadline_at. destruct dl as [d|]; [|done]. by rewrite decide_True by by apply Hf.
Qed.

(** When a wait ends depends on the deadline only in that there is one. *)
Lemma race_shift {T} (x : future T) now dl : race x ((Z.add now) <$> dl) = race x dl.
Proof. by destruct dl. Qed.

Lemma delivered_shift now dl p : delivered ((Z.add now) <$> dl) p = delivered dl p.
Proof.
  induction p as [|[d|e|u] p IH]; cbn; try done.
  - rewrite IH. destruct (fut_value d); [done|]. by rewrite race_shift.
  - by rewrite race_shift.
  - by rewrite race_shift.
Qed.

Lemma discard_stores_nothing dl n rs st : discard_loop dl n rs = Ok st → sha256 st = None.
Proof.
  revert n. induction rs as [|r rs IH]; intros n; cbn; [by intros [= <-]|].
  destruct (race r dl) as [[[|c cs]|e]|[]]; try done; try (by intros [= <-]). apply IH.
Qed.

Lemma discard_counts dl n rs st :
  (0 ≤ n ≤ u64_max)%Z → discard_loop dl n rs = Ok st → (0 ≤ bytes_ st ≤ u64_max)%Z.
Proof.
  revert n. induction rs as [|r rs IH]; intros n Hn; cbn; [by intros [= <-]|].
  destruct (race r dl) as [[[|c cs]|e]|[]]; try done; try (by intros [= <-]).
  apply IH. apply wrap_u64_range.
Qed.

Lemma chunks_concat fuel n s : (0 < n)%Z → length s ≤ fuel → concat (chunks fuel n s) = s.
Proof.
  intros Hn. revert s. induction fuel as [|fuel IH]; intros s Hl.
  - destruct s; cbn in *; [done|lia].
  - destruct s as [|x s]; [done|]. cbn [chunks concat].
    pose proof (length_takeZ n (x :: s) ltac:(lia)) as Hlen. cbn [length] in *.
    rewrite IH by (rewrite length_drop; cbn [length]; lia).
    replace (takeZ n (x :: s)) with (take (length (takeZ n (x :: s))) (x :: s)) at 1
      by (unfold takeZ; rewrite length_take, <- take_take; by rewrite firstn_all).
    apply take_drop.
Qed.

Lemma chunks_sizes fuel n s :
  (0 < n)%Z → Forall (λ c, c ≠ [] ∧ (Z.of_nat (length c) ≤ n)%Z) (chunks fuel n s).
Proof.
  intros Hn. revert s. induction fuel as [|fuel IH]; intros [|x s]; cbn [chunks]; try by constructor.
  pose proof (length_takeZ n (x :: s) ltac:(lia)) as Hlen. cbn [length] in Hlen.
  constructor; [|done]. split; [|lia]. intros Hnil. rewrite Hnil in Hlen. cbn in Hlen. lia.
Qed.

Lemma consume_chunks dl cs rs :
  Forall (λ c, c ≠ []) cs →
  consume dl (map (λ c, InTime (Read c)) cs ++ rs) =
  let '(data, e) := consume dl rs in (concat cs ++ data, e).
Proof.
  induction 1 as [|c cs Hc _ IH]; cbn; [by destruct (consume dl rs)|].
  destruct c as [|x c]; [done|]. rewrite IH.
  destruct dl; cbn; destruct (consume _ rs); cbn; by rewrite app_assoc.
Qed.

Lemma consume_event dl n ev rs :
  (0 < n)%Z →
  consume dl (event_reads n ev ++ rs) =
  match ev with
  | Avail d =>
      match fut_value d with
      | [] => consume dl rs
      | _ => match race d dl with
             | Err _ => ([], AtDeadline)
             | Ok d => let '(data, e) := consume dl rs in (d ++ data, e)
             end
      end
  | Broken e => match race e dl with Err _ => ([], AtDeadline) | Ok e => ([], AtError e) end
  | Closed u => match race u dl with Err _ => ([], AtDeadline) | Ok _ => ([], AtEof) end
  end.
Proof.
  intros Hn. destruct ev as [d|e|u]; [|by destruct e, dl|by destruct u, dl]. cbn [event_reads].
  destruct (fut_value d) as [|x s] eqn:Ed; [done|].
  pose proof (chunks_concat (length (x :: s)) n (x :: s) Hn (le_n _)) as Hc.
  pose proof (chunks_sizes (length (x :: s)) n (x :: s) Hn) as Hs.
  destruct (chunks _ n (x :: s)) as [|c cs]; [done|]. apply Forall_cons in Hs as [[Hc0 _] Hs].
  assert (Forall (λ c : bytes, c ≠ []) cs) as Hne by (eapply Forall_impl; [exact Hs|by intros ? []]).
  destruct c as [|y c]; [done|]. cbn [app concat consume] in *.
  rewrite (consume_chunks dl cs rs Hne).
  destruct d as [v|v], dl; cbn in Ed |- *; subst v; try done;
    destruct (consume _ rs); rewrite <- Hc; cbn; by rewrite <- ?app_assoc.
Qed.

(** Reading with any buffer sees what the pipe delivers. *)
Lemma consume_reads dl n p : (0 < n)%Z → consume dl (reads n p) = delivered dl p.
Proof.
  intros Hn. induction p as [|ev p IH]; [done|].
  unfold reads in *. cbn. rewrite consume_event by done.
  destruct ev as [d|e|u]; [|done|done]. rewrite IH. done.
Qed.

Lemma discard_loop_spec dl rs count :
  (0 ≤ count)%Z → (count + Z.of_nat (length (fst (consume dl rs))) ≤ u64_max)%Z →
  discard_loop dl count rs =
  let total := (count + Z.of_nat (length (fst (consume dl rs))))%Z in
  match snd (consume dl rs) with
  | AtEof => Ok (mkCoreStats total 0 None false None)
  | AtError _ => Ok (mkCoreStats total 0 None true (Some STREAM_ERROR))
  | AtDeadline => Err DEADLINE_ERROR
  end.
Proof.
  revert count. induction rs as [|r rs IH]; intros count H0; cbn [consume discard_loop].
  { cbn. intros _. by rewrite Z.add_0_r. }
  destruct (race r dl) as [[[|x c]|e]|[]]; cbn; intros Hmax; rewrite ?Z.add_0_r; try done.
  destruct (consume dl rs) as [data e] eqn:E. cbn in *. rewrite length_app in *.
  rewrite wrap_u64_small by lia. rewrite IH by lia. do 2 f_equal. destruct e; do 2 f_equal; lia.
Qed.

(** The fallback sink drains the kernel's pipe: for any stream it returns the number
    of bytes delivered and nothing stored, marks a read error as
    [stream_error], fails exactly when the deadline passes first and panics exactly
    when the deadline is not an [Instant]. *)
Lemma discard_drains {World} now p dl (w : World) :
  (Z.of_nat (length (fst (delivered dl p))) ≤ u64_max)%Z →
  drain_core mkDiscard now p dl w =
  let n := Z.of_nat (length (fst (delivered dl p))) in
  (w, if decide (fits now dl) then
        Ret match snd (delivered dl p) with
            | AtEof => Ok (mkCoreStats n 0 None false None)
            | AtError _ => Ok (mkCoreStats n 0 None true (Some STREAM_ERROR))
            | AtDeadline => Err DEADLINE_ERROR
            end
      else Panic).
Proof.
  intros Hmax. unfold drain_core, discard_drain_core. case_decide as Hf.
  - rewrite (fits_deadline_at now dl Hf).
    rewrite <- (delivered_shift now), <- (consume_reads _ DISCARD_BUF) in * by apply DISCARD_BUF_pos.
    by rewrite discard_loop_spec by lia.
  - by apply deadline_at_panics in Hf as ->.
Qed.

(** What any discarded core says of itself. *)
Lemma discard_stats {World} now p dl (w w' : World) st :
  drain_core mkDiscard now p dl w = (w', Ret (Ok st)) →
  sha256 st = None ∧ (0 ≤ bytes_ st ≤ u64_max)%Z.
Proof.
  unfold drain_core, discard_drain_core. destruct (deadline_at now dl) as [|at_]; [done|].
  intros [= _ Hd]. split; [by eapply discard_stores_nothing|by eapply discard_counts; [|exact Hd]].
Qed.

Lemma discard_frame {World} now p dl (w w' : World) r :
  drain_core mkDiscard now p dl w = (w', r) → w' = w ∧ (r = Panic ↔ ¬ fits now dl).
Proof.
  unfold drain_core, discard_drain_core. rewrite <- deadline_at_panics.
  by destruct (deadline_at now dl); intros [= <- <-].
Qed.

#[global] Instance discard_backend_laws {World} (b : DiscardBackend) :
  CaptureBackendLaws World b.
Proof.
  destruct b. split.
  - intros now p dl w. unfold drain_core, discard_drain_core. by destruct (deadline_at now dl).
  - intros now p dl w w' Hd. by apply discard_frame in Hd as [-> _].
  - intros now p dl w w' st Hd Hmax. rewrite discard_drains in Hd by done. cbv zeta in Hd.
    case_decide; [|done]. destruct (snd (delivered dl p)); [| |done]; by injection Hd as _ <-.
Qed.

Example discard_drains_sample :
  drain_core mkDiscard 1000
    [Avail (InTime (b! "abc")); Avail (Late (b! "defg")); Broken (InTime (b! "EPIPE"))] None tt
  = (tt, Ret (Ok (mkCoreStats 7 0 None true (Some STREAM_ERROR)))).
Proof. vm_compute. reflexivity. Qed.

(** The largest deadline a configuration can state. *)
Example discard_overflow_sample : drain_core mkDiscard 1000 [] (Some u64_max) tt = (tt, Panic).
Proof. vm_compute. reflexivity. Qed.

End Backend.
