(* ===== verification/Upload.v ===== *)
(** * [src/upload.rs]: object keys and the streaming core upload

    The object keys of a capture, the core pipeline (read, cap, zstd, hash,
    multipart upload) with its deadline and abort handling, and the store
    options. zstd, sha256, [object_store]'s [BufWriter] and its path type are
    parameters with their documented behaviour as laws. *)

From S2P Require Import Prelude RustStr BuildId Backend.
Import Backend.

Module Upload.

Definition CORE_READ_CHUNK : Z := 256 * 1024.
Lemma CORE_READ_CHUNK_pos : (0 < CORE_READ_CHUNK)%Z.
Proof. done. Qed.

(** ** Object keys *)

Record ObjectKeys := mkKeys { prefix : bytes }.

Module Keys.
Definition new (cluster pod_uid container_id : bytes) (timestamp host_pid : Z) : ObjectKeys :=
  mkKeys (cluster ++ b! "/" ++ pod_uid ++ b! "/" ++ container_id ++ b! "/"
          ++ to_string timestamp ++ b! "-" ++ to_string host_pid).
Definition core (k : ObjectKeys) : bytes := prefix k ++ b! "-core.zst".
Definition proc_snapshot (k : ObjectKeys) : bytes := prefix k ++ b! "-procsnapshot.tar".
Definition manifest (k : ObjectKeys) : bytes := prefix k ++ b! "-manifest.json".
End Keys.

(** ** Third-party interfaces *)

(** [object_store::path::Path::from]: a key as the store sees it. *)
Class ObjectPath := object_path : bytes → bytes.

Definition path_char (c : byte) : bool :=
  is_ascii_alphanumeric c || is_byte "-"%byte c || is_byte "_"%byte c || is_byte "."%byte c.
Definition path_segment (s : bytes) : bool :=
  forallb path_char s && bool_decide (s ∉ [b! ""; b! "."; b! ".."]).
(** A key made of plain segments needs no encoding. *)
Class ObjectPathLaws (P : ObjectPath) : Prop :=
  object_path_plain s : forallb path_segment (split "/"%byte s) = true → object_path s = s.

(** The zstd encoder: writing a chunk hands compressed pieces to the inner
    writer, finishing hands over the rest. *)
Class Zstd := {
  enc : Type;
  enc_new : enc;
  enc_write : enc → bytes → enc * list bytes;
  enc_finish : enc → list bytes;
  zstd_decode : bytes → option bytes;
}.

Fixpoint enc_run `{Zstd} (e : enc) (cs : list bytes) : enc * list bytes :=
  match cs with
  | [] => (e, [])
  | c :: cs => let '(e, o) := enc_write e c in
               let '(e, os) := enc_run e cs in (e, o ++ os)
  end.

Class ZstdLaws (Zs : Zstd) : Prop :=
  zstd_roundtrip cs : let '(e, os) := enc_run enc_new cs in
    zstd_decode (concat (os ++ enc_finish e)) = Some (concat cs).

(** An operation on a state that may take longer than the deadline; the state
    it is abandoned in then. *)
Inductive effect (S T : Type) :=
  | Fast (s : S) (v : T)
  | Slow (abandoned s : S) (v : T).
Arguments Fast {S T} _ _.
Arguments Slow {S T} _ _ _.

Definition final {S T} (x : effect S T) : S * T :=
  match x with Fast s v | Slow _ s v => (s, v) end.
Definition all_states {S T} (P : S → Prop) (x : effect S T) : Prop :=
  match x with Fast s _ => P s | Slow a s _ => P a ∧ P s end.

(** [race] on an operation with effects. *)
Definition race {S T} (fut : effect S T) (deadline_at : option Z) : S * result T elapsed :=
  match deadline_at, fut with
  | Some _, Slow a _ _ => (a, Err Elapsed)
  | Some _, Fast s v => (s, Ok v)
  | None, Fast s v | None, Slow _ s v => (s, Ok v)
  end.

(** [object_store::buffered::BufWriter]. *)
Class BufWriter (World : Type) := {
  bw : Type;
  bw_new : bytes → bw;
  bw_poll_write : World * bw → bytes → effect (World * bw) (result nat bytes);
  bw_poll_shutdown : World * bw → effect (World * bw) (result unit bytes);
  bw_abort : World * bw → outcome (World * result unit bytes);
  bw_key : bw → bytes;      (** the object it writes *)
  bw_written : bw → bytes;  (** the bytes it accepted *)
  bw_open : bw → bool;      (** not shut down yet *)
}.

(** Parts of a multipart upload are not objects; a completed [shutdown] makes
    the bytes accepted so far the object; [abort] is allowed before [shutdown]
    and discards the upload. *)
Class BufWriterLaws (World : Type) `{ObjectStore World, BufWriter World} : Prop := {
  bw_new_spec k : bw_key (bw_new k) = k ∧ bw_written (bw_new k) = [] ∧ bw_open (bw_new k) = true;
  bw_write_frame w b buf :
    bw_open b = true →
    all_states (λ '(w', b'), objects w' = objects w ∧ bw_key b' = bw_key b ∧ bw_open b' = true)
               (bw_poll_write (w, b) buf);
  bw_write_ok w b buf w' b' n :
    bw_open b = true → final (bw_poll_write (w, b) buf) = (w', b', Ok n) →
    n ≤ length buf ∧ bw_written b' = bw_written b ++ take n buf;
  bw_shutdown_frame w b :
    bw_open b = true →
    all_states (λ '(w', b'), ∀ k, k ≠ bw_key b → objects w' !! k = objects w !! k)
               (bw_poll_shutdown (w, b));
  bw_shutdown_ok w b w' b' :
    bw_open b = true → final (bw_poll_shutdown (w, b)) = (w', b', Ok tt) →
    objects w' !! bw_key b = Some (bw_written b);
  bw_abort_open w b : bw_open b = true → bw_abort (w, b) ≠ Panic;
  bw_abort_frame w b w' r : bw_abort (w, b) = Ret (w', r) → objects w' = objects w;
}.

(** ** The pipeline *)

Section pipeline.
Context {World : Type} `{ObjectStore World} {B : BufWriter World} {Zs : Zstd} {P : ObjectPath}.
(** The digest of the bytes fed to a hasher. *)
Context (sha256_digest : bytes → bytes).

(** [Sha256] is the bytes fed to it so far. *)
Record HashingWriter := mkHashing { inner : bw; hasher : bytes; hw_bytes : Z }.

Definition eff_map {S S' T T'} (f : S → S') (g : S → T → S' * T') (x : effect S T) : effect S' T' :=
  match x with
  | Fast s v => let '(s, v) := g s v in Fast s v
  | Slow a s v => let '(s, v) := g s v in Slow (f a) s v
  end.

(** [HashingWriter::poll_write]: hash and count what the inner writer took. *)
Definition poll_write (s : World * HashingWriter) (buf : bytes)
    : effect (World * HashingWriter) (result nat bytes) :=
  let '(w, this) := s in
  eff_map
    (λ '(w, i), (w, mkHashing i (hasher this) (hw_bytes this)))
    (λ '(w, i) r,
       match r with
       | Ok n => ((w, mkHashing i (hasher this ++ take n buf)
                        (wrap_u64 (hw_bytes this + Z.of_nat n))), Ok n)
       | Err e => ((w, mkHashing i (hasher this) (hw_bytes this)), Err e)
       end)
    (bw_poll_write (w, inner this) buf).

(** [HashingWriter::poll_shutdown] *)
Definition poll_shutdown (s : World * HashingWriter)
    : effect (World * HashingWriter) (result unit bytes) :=
  let '(w, this) := s in
  eff_map
    (λ '(w, i), (w, mkHashing i (hasher this) (hw_bytes this)))
    (λ '(w, i) r, ((w, mkHashing i (hasher this) (hw_bytes this)), r))
    (bw_poll_shutdown (w, inner this)).

(** The encoder hands a compressed piece to its inner writer until all of it is
    taken; [Err None] is the deadline. *)
Fixpoint push (fuel : nat) (dl : option Z) (s : World * HashingWriter) (out : bytes)
    : (World * HashingWriter) * result unit (option bytes) :=
  match out, fuel with
  | [], _ => (s, Ok tt)
  | _, 0 => (s, Err (Some (b! "out of fuel")))
  | _, S fuel =>
      match race (poll_write s out) dl with
      | (s, Err Elapsed) => (s, Err None)
      | (s, Ok (Err e)) => (s, Err (Some e))
      | (s, Ok (Ok 0)) => (s, Err (Some (b! "write zero")))
      | (s, Ok (Ok n)) => push fuel dl s (drop n out)
      end
  end.

Fixpoint push_all (dl : option Z) (s : World * HashingWriter) (outs : list bytes)
    : (World * HashingWriter) * result unit (option bytes) :=
  match outs with
  | [] => (s, Ok tt)
  | out :: outs =>
      match push (length out) dl s out with
      | (s, Ok tt) => push_all dl s outs
      | (s, Err e) => (s, Err e)
      end
  end.

(** [ZstdEncoder<HashingWriter<BufWriter>>] *)
Record encoder := mkEncoder { e_enc : enc; e_inner : HashingWriter }.

(** [race(encoder.write_all(chunk), deadline_at)] *)
Definition enc_write_all (dl : option Z) (w : World) (e : encoder) (chunk : bytes)
    : World * encoder * result unit (option bytes) :=
  let '(st, outs) := enc_write (e_enc e) chunk in
  let '((w, hw), r) := push_all dl (w, e_inner e) outs in
  (w, mkEncoder st hw, r).

(** [race(encoder.shutdown(), deadline_at)] *)
Definition enc_shutdown (dl : option Z) (w : World) (e : encoder)
    : World * encoder * result unit (option bytes) :=
  match push_all dl (w, e_inner e) (enc_finish (e_enc e)) with
  | ((w, hw), Err x) => (w, mkEncoder (e_enc e) hw, Err x)
  | (s, Ok tt) =>
      match race (poll_shutdown s) dl with
      | ((w, hw), Err Elapsed) => (w, mkEncoder (e_enc e) hw, Err None)
      | ((w, hw), Ok (Err x)) => (w, mkEncoder (e_enc e) hw, Err (Some x))
      | ((w, hw), Ok (Ok tt)) => (w, mkEncoder (e_enc e) hw, Ok tt)
      end
  end.

(** A failing abort is only logged. *)
Definition abort_multipart (w : World) (e : encoder) : World * outcome unit :=
  match bw_abort (w, inner (e_inner e)) with
  | Panic => (w, Panic)
  | Ret (w, _) => (w, Ret tt)
  end.

Inductive loop_end :=
  | Break (e : encoder) (drained : Z) (reason : option bytes)
  | Return (err : error).

Definition abort_return (w : World) (e : encoder) (err : error) : World * outcome loop_end :=
  match abort_multipart w e with
  | (w, Ret tt) => (w, Ret (Return err))
  | (w, Panic) => (w, Panic)
  end.

Definition take_len (cap written n : Z) : nat :=
  let m := Z.min n (saturating_sub cap written) in
  Z.to_nat (if decide (m ≤ usize_max)%Z then m else n).

Fixpoint stream_loop (dl : option Z) (cap : Z) (w : World) (e : encoder)
    (drained written : Z) (reason : option bytes) (rs : list (future read_result))
    : World * outcome loop_end :=
  match rs with
  | [] => (w, Ret (Break e drained reason))
  | r :: rs =>
      match Backend.race r dl with
      | Err Elapsed => abort_return w e DEADLINE_ERROR
      | Ok (Read []) => (w, Ret (Break e drained reason))
      | Ok (Read buf) =>
          let n := length buf in
          let drained := wrap_u64 (drained + Z.of_nat n) in
          let t := take_len cap written (Z.of_nat n) in
          let reason' := if bool_decide (t < n) && bool_decide (reason = None)
                         then Some SIZE_CAP else reason in
          if bool_decide (0 < t) then
            match enc_write_all dl w e (take t buf) with
            | (w, e, Err None) => abort_return w e DEADLINE_ERROR
            | (w, e, Err (Some x)) => abort_return w e [b! "writing core into zstd encoder"; x]
            | (w, e, Ok tt) =>
                stream_loop dl cap w e drained (wrap_u64 (written + Z.of_nat t)) reason' rs
            end
          else stream_loop dl cap w e drained written reason' rs
      | Ok (ReadError _) => (w, Ret (Break e drained (Some STREAM_ERROR)))
      end
  end.

Definition hex_lower (bs : bytes) : bytes := concat (map BuildId.hex_byte bs).

Definition cap_of (max_core_bytes : Z) : Z :=
  if decide (max_core_bytes = 0)%Z then u64_max else max_core_bytes.

(** The body of [stream_core_through_zstd] once [deadline_at] is known. *)
Definition stream_until (core : pipe) (sink : bw) (max_core_bytes : Z)
    (deadline : option Z) (w : World)
    : World * outcome (result (Z * Z * bytes * option bytes) error) :=
  let cap := cap_of max_core_bytes in
  let e := mkEncoder enc_new (mkHashing sink [] 0) in
  match stream_loop deadline cap w e 0 0 None (reads CORE_READ_CHUNK core) with
  | (w, Panic) => (w, Panic)
  | (w, Ret (Return err)) => (w, Ret (Err err))
  | (w, Ret (Break e drained reason)) =>
      match enc_shutdown deadline w e with
      | (w, _, Err None) => (w, Ret (Err DEADLINE_ERROR))
      | (w, _, Err (Some x)) =>
          (w, Ret (Err [b! "finalizing zstd stream + completing upload"; x]))
      | (w, e, Ok tt) =>
          (w, Ret (Ok (drained, hw_bytes (e_inner e),
                       hex_lower (sha256_digest (hasher (e_inner e))), reason)))
      end
  end.

Definition stream_core_through_zstd (now : Z) (core : pipe) (sink : bw) (max_core_bytes : Z)
    (deadline : option Z) (w : World)
    : World * outcome (result (Z * Z * bytes * option bytes) error) :=
  match deadline_at now deadline with
  | Panic => (w, Panic)
  | Ret deadline_at => stream_until core sink max_core_bytes deadline_at w
  end.

(** [StandaloneBackend]; the store is the world. *)
Record StandaloneBackend := mkStandalone { sb_key : bytes; sb_max_core_bytes : Z }.
Definition standalone_new (key : bytes) (max_core_bytes : Z) : StandaloneBackend :=
  mkStandalone (object_path key) max_core_bytes.

#[global] Instance standalone_drain_core : CaptureBackend World StandaloneBackend :=
  λ self now reader deadline w,
    match stream_core_through_zstd now reader (bw_new (sb_key self)) (sb_max_core_bytes self)
            deadline w with
    | (w, Panic) => (w, Panic)
    | (w, Ret (Err e)) => (w, Ret (Err e))
    | (w, Ret (Ok (n, stored, sha, reason))) =>
        (w, Ret (Ok (mkCoreStats n stored (Some sha) (bool_decide (is_Some reason)) reason)))
    end.

(** [put_object] *)
Definition put_object (w : World) (key v : bytes) : World * result unit error :=
  match put w (object_path key) v with
  | (w, Ok tt) => (w, Ok tt)
  | (w, Err e) => (w, Err [b! "putting object " ++ key; e])
  end.

(** ** Lemmas on the pipeline *)

Context {BL : BufWriterLaws World} {ZL : ZstdLaws Zs}.

Lemma race_ok {S T} (x : effect S T) dl s v : race x dl = (s, Ok v) → final x = (s, v).
Proof. destruct x, dl; cbn; congruence. Qed.

Lemma race_states {S T} (Q : S → Prop) (x : effect S T) dl :
  all_states Q x → Q (fst (race x dl)).
Proof. destruct x, dl; cbn; tauto. Qed.

Lemma wrap_u64_add a b : wrap_u64 (wrap_u64 a + b) = wrap_u64 (a + b).
Proof. apply Zplus_mod_idemp_l. Qed.

(** The sink is still open on its object and the bucket is untouched. *)
Definition alive (w0 : World) (key : bytes) (s : World * HashingWriter) : Prop :=
  objects s.1 = objects w0 ∧ bw_key (inner s.2) = key ∧ bw_open (inner s.2) = true.

(** The hasher has seen what the sink accepted, and counted it. *)
Definition hashed (h : HashingWriter) : Prop :=
  bw_written (inner h) = hasher h ∧ hw_bytes h = wrap_u64 (Z.of_nat (length (hasher h))).

Lemma poll_write_alive w0 key s buf :
  alive w0 key s → all_states (alive w0 key) (poll_write s buf).
Proof.
  destruct s as [w h]. intros (Hw & Hk & Ho). cbn in *.
  pose proof (bw_write_frame w (inner h) buf Ho) as Hf. unfold poll_write, eff_map.
  destruct (bw_poll_write _ _) as [[w1 b1] v|[wa ba] [w1 b1] v]; cbn in Hf.
  - destruct v as [n|e]; unfold alive; cbn; intuition congruence.
  - destruct v as [n|e]; unfold alive; cbn; intuition congruence.
Qed.

Lemma poll_write_hashed w h buf s' n :
  bw_open (inner h) = true → hashed h → final (poll_write (w, h) buf) = (s', Ok n) →
  hashed s'.2 ∧ n ≤ length buf ∧ hasher s'.2 = hasher h ++ take n buf.
Proof.
  intros Ho [Hw Hb] Hf. unfold poll_write, eff_map in Hf.
  assert (∃ w' b', final (bw_poll_write (w, inner h) buf) = (w', b', Ok n)
    ∧ s' = (w', mkHashing b' (hasher h ++ take n buf) (wrap_u64 (hw_bytes h + Z.of_nat n))))
    as (w' & b' & Hfin & ->).
  { destruct (bw_poll_write _ _) as [[w1 b1] v|[wa ba] [w1 b1] v]; cbn in Hf |- *;
      destruct v as [m|e]; cbn in Hf; simplify_eq; eauto. }
  apply bw_write_ok in Hfin as [Hn Hwr]; [|done]. unfold hashed. cbn. split_and!; try done.
  - by rewrite Hwr, Hw.
  - rewrite Hb, wrap_u64_add, length_app, length_take, Nat.min_l by done. by rewrite Nat2Z.inj_add.
Qed.

Lemma push_spec w0 key fuel dl s out s' r :
  alive w0 key s → push fuel dl s out = (s', r) →
  alive w0 key s' ∧
  (r = Ok tt → hashed s.2 → hashed s'.2 ∧ hasher s'.2 = hasher s.2 ++ out).
Proof.
  revert s out. induction fuel as [|fuel IH]; intros s out Ha; cbn [push].
  { destruct out; intros [= <- <-]; (split; [done|]); intros Hr ?; [|done].
    by rewrite app_nil_r. }
  destruct out as [|c out]; [intros [= <- <-]; split; [done|]; intros; by rewrite app_nil_r|].
  pose proof (race_states _ _ dl (poll_write_alive w0 key s (c :: out) Ha)) as Ha1.
  destruct (race _ dl) as [s1 [[[|n]|e]|[]]] eqn:E; cbn in Ha1; try by intros [= <- <-].
  intros Hp. destruct (IH s1 _ Ha1 Hp) as [Ha' Hh']. split; [done|]. intros Hr Hh.
  apply race_ok in E. destruct s as [w h]. destruct (poll_write_hashed w h (c :: out) s1 (S n)) as (H1 & Hn & H2);
    [by apply Ha|done|done|].
  destruct (Hh' Hr H1) as [Hh2 ->]. split; [done|]. by rewrite H2, <- app_assoc, take_drop.
Qed.

Lemma push_all_spec w0 key dl s outs s' r :
  alive w0 key s → push_all dl s outs = (s', r) →
  alive w0 key s' ∧
  (r = Ok tt → hashed s.2 → hashed s'.2 ∧ hasher s'.2 = hasher s.2 ++ concat outs).
Proof.
  revert s. induction outs as [|out outs IH]; intros s Ha; cbn.
  { intros [= <- <-]. split; [done|]. intros. by rewrite app_nil_r. }
  destruct (push _ dl s out) as [s1 [[]|x]] eqn:E;
    destruct (push_spec _ _ _ _ _ _ _ _ Ha E) as [Ha1 Hh1]; [|by intros [= <- <-]].
  intros Hp. destruct (IH s1 Ha1 Hp) as [Ha' Hh']. split; [done|]. intros Hr Hh.
  destruct (Hh1 eq_refl Hh) as [H1 H2]. destruct (Hh' Hr H1) as [H3 ->].
  by rewrite H2, <- app_assoc.
Qed.

Lemma enc_run_app e cs1 cs2 :
  enc_run e (cs1 ++ cs2) =
  let '(e1, o1) := enc_run e cs1 in let '(e2, o2) := enc_run e1 cs2 in (e2, o1 ++ o2).
Proof.
  revert e. induction cs1 as [|c cs1 IH]; intros e; cbn; [by destruct (enc_run e cs2)|].
  destruct (enc_write e c) as [e1 o1]. rewrite IH. destruct (enc_run e1 cs1) as [e2 o2].
  destruct (enc_run e2 cs2) as [e3 o3]. by rewrite app_assoc.
Qed.

(** The encoder has been given the chunks [cs]. *)
Definition fed (cs : list bytes) (e : encoder) : Prop :=
  ∃ os, enc_run enc_new cs = (e_enc e, os) ∧ hashed (e_inner e)
        ∧ hasher (e_inner e) = concat os.

Lemma enc_write_all_spec w0 key dl w e chunk w' e' r :
  alive w0 key (w, e_inner e) → enc_write_all dl w e chunk = (w', e', r) →
  alive w0 key (w', e_inner e') ∧
  (r = Ok tt → ∀ cs, fed cs e → fed (cs ++ [chunk]) e').
Proof.
  intros Ha. unfold enc_write_all. destruct (enc_write _ chunk) as [st outs] eqn:Ew.
  destruct (push_all dl _ outs) as [[w1 h1] r1] eqn:Ep. intros [= <- <- <-].
  destruct (push_all_spec _ _ _ _ _ _ _ Ha Ep) as [Ha1 Hh]. split; [done|].
  intros Hr cs (os & Hrun & Hhd & Hc). destruct (Hh Hr Hhd) as [H1 H2].
  exists (os ++ outs). split_and!; [|done|].
  - rewrite enc_run_app, Hrun. cbn. rewrite Ew. by rewrite app_nil_r.
  - cbn in *. by rewrite H2, Hc, concat_app.
Qed.

Lemma takeZ_app cap (s t : bytes) :
  (0 ≤ cap)%Z →
  takeZ cap (s ++ t) =
  takeZ cap s ++ take (Z.to_nat (Z.min (Z.of_nat (length t))
                                   (cap - Z.min cap (Z.of_nat (length s))))) t.
Proof.
  intros Hc. unfold takeZ. rewrite length_app, take_app. f_equal.
  - destruct (decide (cap ≤ Z.of_nat (length s))%Z).
    + f_equal. lia.
    + rewrite !take_ge by lia. done.
  - f_equal. lia.
Qed.

Lemma take_len_eq cap written n :
  (0 ≤ written ≤ cap)%Z → (0 ≤ n)%Z → (cap ≤ u64_max)%Z →
  take_len cap written n = Z.to_nat (Z.min n (cap - written)).
Proof.
  intros. unfold take_len, saturating_sub. rewrite decide_True by (unfold usize_max; lia).
  f_equal. lia.
Qed.

Lemma abort_return_spec w0 key w e err :
  alive w0 key (w, e_inner e) →
  ∃ w', abort_return w e err = (w', Ret (Return err)) ∧ objects w' = objects w0.
Proof.
  intros (Hw & Hk & Ho). cbn in *. unfold abort_return, abort_multipart.
  destruct (bw_abort _) as [|[w1 r]] eqn:E; [by apply bw_abort_open in E|].
  exists w1. split; [done|]. apply bw_abort_frame in E. congruence.
Qed.

(** Until the loop ends the bucket is untouched, and [abort] is only called on
    an open sink. *)
Lemma stream_loop_safe w0 key dl cap rs w e drained written reason :
  alive w0 key (w, e_inner e) →
  match stream_loop dl cap w e drained written reason rs with
  | (_, Panic) => False
  | (w', Ret (Return _)) => objects w' = objects w0
  | (w', Ret (Break e' _ _)) =>
      alive w0 key (w', e_inner e') ∧ snd (consume dl rs) ≠ AtDeadline
  end.
Proof.
  revert w e drained written reason. induction rs as [|r rs IH]; intros w e drained written reason Ha;
    cbn [stream_loop consume]; [done|].
  destruct (Backend.race r dl) as [[[|x buf]|]|[]]; [done| |done|].
  - assert (snd (let '(data, en) := consume dl rs in ((x :: buf) ++ data, en)) = snd (consume dl rs))
      as -> by by destruct (consume dl rs).
    case_bool_decide; [|by apply IH].
    destruct (enc_write_all _ _ _ _) as [[w1 e1] [[]|[m|]]] eqn:Ew;
      apply (enc_write_all_spec w0 key) in Ew as [Ha1 _]; try done; [by apply IH| |].
    + by destruct (abort_return_spec w0 key w1 e1 [b! "writing core into zstd encoder"; m] Ha1)
        as (w2 & -> & ?).
    + by destruct (abort_return_spec w0 key w1 e1 DEADLINE_ERROR Ha1) as (w2 & -> & ?).
  - by destruct (abort_return_spec w0 key w e DEADLINE_ERROR Ha) as (w2 & -> & ?).
Qed.

Definition cap_reason (cap : Z) (data : bytes) : option bytes :=
  if bool_decide (cap < Z.of_nat (length data))%Z then Some SIZE_CAP else None.
Definition end_reason (cap : Z) (data : bytes) (en : ending) : option bytes :=
  match en with AtError _ => Some STREAM_ERROR | _ => cap_reason cap data end.

(** One round of the loop: the encoder is fed the part under the cap. *)
Lemma cap_reason_app cap seen buf t :
  (0 ≤ cap)%Z → t = Z.to_nat (Z.min (Z.of_nat (length buf))
                                (cap - Z.min cap (Z.of_nat (length seen)))) →
  (if bool_decide (t < length buf) && bool_decide (cap_reason cap seen = None)
   then Some SIZE_CAP else cap_reason cap seen) = cap_reason cap (seen ++ buf).
Proof.
  intros Hc ->. unfold cap_reason. rewrite length_app.
  repeat case_bool_decide; cbn; try done; lia.
Qed.

Lemma stream_loop_feeds w0 key dl cap rs w e drained written reason cs seen w' e' d' reason' :
  alive w0 key (w, e_inner e) → (0 ≤ cap ≤ u64_max)%Z →
  fed cs e → concat cs = takeZ cap seen → written = Z.min cap (Z.of_nat (length seen)) →
  drained = wrap_u64 (Z.of_nat (length seen)) → reason = cap_reason cap seen →
  stream_loop dl cap w e drained written reason rs = (w', Ret (Break e' d' reason')) →
  let all := seen ++ fst (consume dl rs) in
  ∃ cs', fed cs' e' ∧ concat cs' = takeZ cap all
         ∧ d' = wrap_u64 (Z.of_nat (length all))
         ∧ reason' = end_reason cap all (snd (consume dl rs)).
Proof.
  intros Ha Hcap. revert w e drained written reason cs seen Ha.
  induction rs as [|r rs IH]; intros w e drained written reason cs seen Ha Hf Hcs -> -> ->;
    cbn [stream_loop consume].
  { intros [= <- <- <- <-]. cbn. rewrite app_nil_r. eauto. }
  destruct (Backend.race r dl) as [[[|x buf]|m]|[]].
  - intros [= <- <- <- <-]. cbn. rewrite app_nil_r. eauto.
  - rewrite take_len_eq by lia. set (t := Z.to_nat _).
    rewrite (cap_reason_app cap seen (x :: buf) t) by (done || lia).
    rewrite wrap_u64_add, <- Nat2Z.inj_add, <- length_app.
    pose proof (takeZ_app cap seen (x :: buf)) as Hca. fold t in Hca.
    destruct (consume dl rs) as [data en] eqn:Ec.
    assert (seen ++ (x :: buf) ++ data = (seen ++ x :: buf) ++ data) as Heq by by rewrite app_assoc.
    cbn [fst snd]. rewrite Heq. case_bool_decide as Ht.
    + destruct (enc_write_all _ _ _ _) as [[w1 e1] [[]|[m|]]] eqn:Ew.
      * apply (enc_write_all_spec w0 key) in Ew as [Ha1 Hf1]; [|done].
        intros Hl. refine (IH w1 e1 _ _ _ (cs ++ [take t (x :: buf)]) (seen ++ x :: buf)
          Ha1 (Hf1 eq_refl _ Hf) _ _ eq_refl eq_refl Hl).
        -- rewrite concat_app, Hcs, Hca by lia. cbn. by rewrite app_nil_r.
        -- rewrite wrap_u64_small; rewrite ?length_app; unfold t; cbn [length]; lia.
      * apply (enc_write_all_spec w0 key) in Ew as [Ha1 _]; [|done].
        by destruct (abort_return_spec w0 key w1 e1 [b! "writing core into zstd encoder"; m] Ha1)
          as (w2 & -> & ?).
      * apply (enc_write_all_spec w0 key) in Ew as [Ha1 _]; [|done].
        by destruct (abort_return_spec w0 key w1 e1 DEADLINE_ERROR Ha1) as (w2 & -> & ?).
    + intros Hl.
      refine (IH w e _ _ _ cs (seen ++ x :: buf) Ha Hf _ _ eq_refl eq_refl Hl).
      * rewrite Hcs, Hca by lia. assert (t = 0) as -> by lia. by rewrite app_nil_r.
      * rewrite length_app. unfold t in Ht. cbn [length] in *. lia.
  - intros [= <- <- <- <-]. cbn. rewrite app_nil_r. eauto.
  - by destruct (abort_return_spec w0 key w e DEADLINE_ERROR Ha) as (w2 & -> & ?).
Qed.

Lemma poll_shutdown_frame w0 key s :
  alive w0 key s →
  all_states (λ s', ∀ k, k ≠ key → objects s'.1 !! k = objects w0 !! k) (poll_shutdown s).
Proof.
  destruct s as [w h]. intros (Hw & Hk & Ho). cbn in *.
  pose proof (bw_shutdown_frame w (inner h) Ho) as Hf. unfold poll_shutdown, eff_map.
  destruct (bw_poll_shutdown _) as [[w1 b1] v|[wa ba] [w1 b1] v]; cbn in *; subst key.
  - intros k ?. rewrite Hf by done. by rewrite Hw.
  - destruct Hf as [Hf1 Hf2]. split; intros k ?; [rewrite Hf1 by done|rewrite Hf2 by done]; by rewrite Hw.
Qed.

Lemma poll_shutdown_commits key w h s' :
  bw_open (inner h) = true → bw_key (inner h) = key →
  final (poll_shutdown (w, h)) = (s', Ok tt) →
  objects s'.1 !! key = Some (bw_written (inner h))
  ∧ hasher s'.2 = hasher h ∧ hw_bytes s'.2 = hw_bytes h.
Proof.
  intros Ho <- Hf. unfold poll_shutdown, eff_map in Hf.
  destruct (bw_poll_shutdown _) as [[w1 b1] v|[wa ba] [w1 b1] v] eqn:E;
    cbn in Hf; simplify_eq; cbn; (split; [|done]);
    apply (bw_shutdown_ok w (inner h) w1 b1 Ho); by rewrite E.
Qed.

Lemma enc_shutdown_spec w0 key dl w e w' e' r :
  alive w0 key (w, e_inner e) → enc_shutdown dl w e = (w', e', r) →
  (∀ k, k ≠ key → objects w' !! k = objects w0 !! k) ∧
  (r = Ok tt → ∀ cs, fed cs e →
     ∃ obj, objects w' !! key = Some obj ∧ zstd_decode obj = Some (concat cs)
            ∧ hasher (e_inner e') = obj
            ∧ hw_bytes (e_inner e') = wrap_u64 (Z.of_nat (length obj))).
Proof.
  intros Ha. unfold enc_shutdown.
  destruct (push_all dl _ _) as [[w1 h1] [[]|x]] eqn:Ep;
    destruct (push_all_spec _ _ _ _ _ _ _ Ha Ep) as [Ha1 Hh].
  - pose proof (race_states _ _ dl (poll_shutdown_frame w0 key (w1, h1) Ha1)) as Hfr.
    destruct (race _ dl) as [[w2 h2] [[[]|x]|[]]] eqn:Er; intros [= <- <- <-];
      (split; [exact Hfr|]); try done.
    intros _ cs (os & Hrun & Hhd & Hc). destruct (Hh eq_refl Hhd) as [[Hw Hb] H2].
    apply race_ok in Er. destruct Ha1 as (_ & Hk & Ho).
    destruct (poll_shutdown_commits key w1 h1 _ Ho Hk Er) as (Hobj & Hh2 & Hb2). cbn in *.
    exists (hasher h1). split_and!; [by rewrite <- Hw| |done|congruence].
    pose proof (zstd_roundtrip cs) as Hz. rewrite Hrun in Hz.
    by rewrite H2, Hc, <- concat_app.
  - intros [= <- <- <-]. split; [|done]. intros k _. destruct Ha1 as [Ho _]. by rewrite <- Ho.
Qed.

Lemma new_alive w key : alive w key (w, mkHashing (bw_new key) [] 0).
Proof. unfold alive. cbn. destruct (bw_new_spec key) as (-> & _ & ->). done. Qed.

Lemma new_fed key : fed [] (mkEncoder enc_new (mkHashing (bw_new key) [] 0)).
Proof.
  exists []. unfold hashed. cbn. by destruct (bw_new_spec key) as (_ & -> & _).
Qed.

Lemma cap_of_range m : (0 ≤ m ≤ u64_max)%Z → (0 < cap_of m ≤ u64_max)%Z.
Proof. unfold cap_of, u64_max. case_decide; lia. Qed.

(** What the stored object and the reported stats are when the upload succeeds. *)
Lemma stream_until_ok key m dl p w w' drained stored sha reason :
  (0 ≤ m ≤ u64_max)%Z →
  stream_until p (bw_new key) m dl w = (w', Ret (Ok (drained, stored, sha, reason))) →
  let '(data, en) := delivered dl p in
  en ≠ AtDeadline ∧ drained = wrap_u64 (Z.of_nat (length data))
  ∧ reason = end_reason (cap_of m) data en
  ∧ ∃ obj, objects w' !! key = Some obj ∧ zstd_decode obj = Some (takeZ (cap_of m) data)
           ∧ stored = wrap_u64 (Z.of_nat (length obj)) ∧ sha = hex_lower (sha256_digest obj).
Proof.
  intros Hm. unfold stream_until.
  rewrite <- (consume_reads dl CORE_READ_CHUNK) by apply CORE_READ_CHUNK_pos.
  pose proof (stream_loop_safe w key dl (cap_of m) (reads CORE_READ_CHUNK p) w
    (mkEncoder enc_new (mkHashing (bw_new key) [] 0)) 0 0 None (new_alive w key)) as Hsafe.
  pose proof (cap_of_range m Hm) as Hcap.
  destruct (stream_loop _ _ _ _ _ _ _ _) as [w1 [|[e1 d1 r1|err]]] eqn:El; try done.
  destruct Hsafe as [Ha Hen].
  eapply (stream_loop_feeds w key _ _ _ _ _ _ _ _ [] []) in El as (cs & Hfed & Hcs & Hd & Hr);
    [|apply new_alive|lia|apply new_fed|by unfold takeZ; rewrite take_nil|cbn; lia|done|].
  2:{ unfold cap_reason. rewrite bool_decide_false; [done|]. cbn. lia. }
  destruct (enc_shutdown dl w1 e1) as [[w2 e2] [[]|[x|]]] eqn:Es; try done.
  intros [= -> <- <- <- <-].
  destruct (enc_shutdown_spec w key _ _ _ _ _ _ Ha Es) as [_ Hok].
  destruct (Hok eq_refl cs Hfed) as (obj & Hobj & Hdec & Hh & Hb).
  destruct (consume dl _) as [data en]; cbn in *.
  split_and!; try done. exists obj. split_and!; try done; congruence.
Qed.

(** Whatever happens, it does not panic, other objects are untouched, and
    a deadline while reading leaves the bucket as it was. *)
Lemma stream_until_safe key m dl p w w' r :
  stream_until p (bw_new key) m dl w = (w', r) →
  r ≠ Panic ∧ (∀ k, k ≠ key → objects w' !! k = objects w !! k)
  ∧ (snd (delivered dl p) = AtDeadline → objects w' = objects w ∧ ∃ e, r = Ret (Err e)).
Proof.
  unfold stream_until.
  rewrite <- (consume_reads dl CORE_READ_CHUNK) by apply CORE_READ_CHUNK_pos.
  pose proof (stream_loop_safe w key dl (cap_of m) (reads CORE_READ_CHUNK p) w
    (mkEncoder enc_new (mkHashing (bw_new key) [] 0)) 0 0 None (new_alive w key)) as Hsafe.
  destruct (stream_loop _ _ _ _ _ _ _ _) as [w1 [|[e1 d1 r1|err]]]; [done| |].
  - destruct Hsafe as [Ha Hen]. destruct (enc_shutdown dl w1 e1) as [[w2 e2] r2] eqn:Es.
    destruct (enc_shutdown_spec w key _ _ _ _ _ _ Ha Es) as [Hfr _].
    destruct r2 as [[]|[x|]]; intros [= <- <-]; done.
  - intros [= <- <-]. split_and!; [done|by intros; rewrite Hsafe|eauto].
Qed.

Lemma stream_core_ok now key m dl p w w' drained stored sha reason :
  (0 ≤ m ≤ u64_max)%Z →
  stream_core_through_zstd now p (bw_new key) m dl w = (w', Ret (Ok (drained, stored, sha, reason))) →
  let '(data, en) := delivered dl p in
  en ≠ AtDeadline ∧ drained = wrap_u64 (Z.of_nat (length data))
  ∧ reason = end_reason (cap_of m) data en
  ∧ ∃ obj, objects w' !! key = Some obj ∧ zstd_decode obj = Some (takeZ (cap_of m) data)
           ∧ stored = wrap_u64 (Z.of_nat (length obj)) ∧ sha = hex_lower (sha256_digest obj).
Proof.
  intros Hm. unfold stream_core_through_zstd.
  destruct (deadline_at now dl) as [|at_] eqn:Ed; [done|].
  apply deadline_at_fits in Ed as [_ ->]. intros Hs. apply stream_until_ok in Hs; [|done].
  by rewrite delivered_shift in Hs.
Qed.

(** A deadline that is no [Instant] panics before anything is read or stored; nothing
    else does. *)
Lemma stream_core_safe now key m dl p w w' r :
  stream_core_through_zstd now p (bw_new key) m dl w = (w', r) →
  (r = Panic ↔ ¬ fits now dl) ∧ (r = Panic → w' = w)
  ∧ (∀ k, k ≠ key → objects w' !! k = objects w !! k)
  ∧ (snd (delivered dl p) = AtDeadline → objects w' = objects w ∧ (fits now dl → ∃ e, r = Ret (Err e))).
Proof.
  unfold stream_core_through_zstd.
  destruct (deadline_at now dl) as [|at_] eqn:Ed.
  - apply deadline_at_panics in Ed. by intros [= <- <-].
  - apply deadline_at_fits in Ed as [Hf ->]. intros (Hp & Hk & Hd)%stream_until_safe.
    rewrite delivered_shift in Hd. split_and!; [|done|done|].
    + split; [done|]. by intros [].
    + intros Hdl. by destruct (Hd Hdl).
Qed.

Lemma standalone_backend_laws b :
  (0 ≤ sb_max_core_bytes b ≤ u64_max)%Z → CaptureBackendLaws World b.
Proof.
  intros Hm. split.
  - intros now p dl w. unfold drain_core, standalone_drain_core.
    destruct (stream_core_through_zstd _ _ _ _ _ _) as [w' r] eqn:E.
    apply stream_core_safe in E as (Hp & _). rewrite deadline_at_panics, <- Hp.
    by destruct r as [|[[[[??]?]?]|?]].
  - intros now p dl w w'. unfold drain_core, standalone_drain_core.
    destruct (stream_core_through_zstd _ _ _ _ _ _) as [w1 r] eqn:E.
    apply stream_core_safe in E as (_ & Hp & _). destruct r as [|[[[[??]?]?]|?]]; intros [= <-]; auto.
  - intros now p dl w w' st. unfold drain_core, standalone_drain_core.
    destruct (stream_core_through_zstd _ _ _ _ _ _) as [w1 [|[[[[n sz] sha] reason]|e]]] eqn:E; try done.
    intros [= -> <-]. apply stream_core_ok in E; [|done].
    destruct (delivered dl p) as [data en]. destruct E as (Hen & -> & -> & _). cbn.
    intros Hmax. rewrite wrap_u64_small by lia. split_and!; try done.
    destruct en; try done. cbn. unfold cap_reason. by case_bool_decide.
Qed.

(** *** Progress

    A sink that always makes progress and can be shut down. *)
Definition reliable : Prop :=
  (∀ w b buf, bw_open b = true → buf ≠ [] →
     ∃ s n, final (bw_poll_write (w, b) buf) = (s, Ok (S n)))
  ∧ (∀ w b, bw_open b = true → ∃ s, final (bw_poll_shutdown (w, b)) = (s, Ok tt)).

Lemma race_none {S T} (x : effect S T) s v : final x = (s, v) → race x None = (s, Ok v).
Proof. destruct x; cbn; congruence. Qed.

Lemma poll_write_progress w h buf :
  reliable → bw_open (inner h) = true → buf ≠ [] →
  ∃ s n, final (poll_write (w, h) buf) = (s, Ok (S n)).
Proof.
  intros [Hr _] Ho Hb. destruct (Hr w (inner h) buf Ho Hb) as ([w1 b1] & n & Hf).
  unfold poll_write, eff_map.
  destruct (bw_poll_write _ _) as [[w2 b2] v|[wa ba] [w2 b2] v]; cbn in *; simplify_eq; eauto.
Qed.

Lemma push_progress w0 key fuel s out :
  reliable → alive w0 key s → length out ≤ fuel → ∃ s', push fuel None s out = (s', Ok tt).
Proof.
  intros Hrel. revert s out. induction fuel as [|fuel IH]; intros s [|c out] Ha Hl;
    cbn [push length] in *; eauto; [lia|].
  destruct s as [w h]. destruct (poll_write_progress w h (c :: out) Hrel) as (s1 & n & Hf);
    [by apply Ha|done|].
  pose proof (race_states _ _ None (poll_write_alive w0 key (w, h) (c :: out) Ha)) as Ha1.
  rewrite (race_none _ _ _ Hf) in *. apply IH; [done|]. rewrite length_drop. cbn [length]. lia.
Qed.

Lemma push_all_progress w0 key s outs :
  reliable → alive w0 key s → ∃ s', push_all None s outs = (s', Ok tt).
Proof.
  intros Hrel. revert s. induction outs as [|out outs IH]; intros s Ha; cbn; eauto.
  destruct (push_progress w0 key (length out) s out Hrel Ha (le_n _)) as [s1 Hs1].
  pose proof (push_spec _ _ _ _ _ _ _ _ Ha Hs1) as [Ha1 _]. rewrite Hs1. by apply IH.
Qed.

Lemma stream_loop_progress w0 key cap rs w e drained written reason :
  reliable → alive w0 key (w, e_inner e) →
  ∃ w' e' d' r', stream_loop None cap w e drained written reason rs = (w', Ret (Break e' d' r')).
Proof.
  intros Hrel. revert w e drained written reason.
  induction rs as [|r rs IH]; intros w e drained written reason Ha; cbn [stream_loop]; eauto.
  assert (∃ v, Backend.race r None = Ok v) as [v ->] by (destruct r; cbn; eauto).
  destruct v as [[|x buf]|m]; eauto. case_bool_decide; [|by apply IH].
  destruct (enc_write_all _ _ _ _) as [[w1 e1] res] eqn:Ew.
  pose proof (enc_write_all_spec _ _ _ _ _ _ _ _ _ Ha Ew) as [Ha1 _].
  unfold enc_write_all in Ew. destruct (enc_write _ _) as [st outs].
  destruct (push_all_progress w0 key (w, e_inner e) outs Hrel Ha) as [[w2 h2] Hp].
  rewrite Hp in Ew. injection Ew as <- <- <-. by apply IH.
Qed.

Lemma stream_core_progress now key m p w :
  reliable →
  ∃ w' r, stream_core_through_zstd now p (bw_new key) m None w = (w', Ret (Ok r)).
Proof.
  intros Hrel. change (∃ w' r, stream_until p (bw_new key) m None w = (w', Ret (Ok r))).
  unfold stream_until.
  pose proof (stream_loop_safe w key None (cap_of m) (reads CORE_READ_CHUNK p) w
    (mkEncoder enc_new (mkHashing (bw_new key) [] 0)) 0 0 None (new_alive w key)) as Hsafe.
  destruct (stream_loop_progress w key (cap_of m) (reads CORE_READ_CHUNK p) w
    (mkEncoder enc_new (mkHashing (bw_new key) [] 0)) 0 0 None Hrel (new_alive w key))
    as (w1 & e1 & d1 & r1 & Hl). rewrite Hl in *. destruct Hsafe as [Ha _].
  unfold enc_shutdown.
  destruct (push_all_progress w key _ (enc_finish (e_enc e1)) Hrel Ha) as [[w2 h2] Hp].
  pose proof (push_all_spec _ _ _ _ _ _ _ Ha Hp) as [(_ & _ & Ho) _]. rewrite Hp. cbn in Ho.
  destruct Hrel as [_ Hsd]. destruct (Hsd w2 (inner h2) Ho) as [[w3 b3] Hf].
  assert (final (poll_shutdown (w2, h2)) = ((w3, mkHashing b3 (hasher h2) (hw_bytes h2)), Ok tt)) as Hf'.
  { unfold poll_shutdown, eff_map.
    destruct (bw_poll_shutdown _) as [[??]?|[??] [??]?]; cbn in *; by simplify_eq. }
  rewrite (race_none _ _ _ Hf'). eauto.
Qed.

End pipeline.

(** ** Store options *)

Definition ALLOWED_STORE_OPTS : list bytes :=
  [b! "AWS_ACCESS_KEY_ID";
   b! "AWS_SECRET_ACCESS_KEY";
   b! "AWS_SESSION_TOKEN";
   b! "AWS_REGION";
   b! "AWS_DEFAULT_REGION";
   b! "AWS_ENDPOINT";
   b! "AWS_ALLOW_HTTP";
   b! "AWS_VIRTUAL_HOSTED_STYLE_REQUEST";
   b! "AWS_ROLE_ARN";
   b! "AWS_WEB_IDENTITY_TOKEN_FILE";
   b! "GOOGLE_SERVICE_ACCOUNT";
   b! "GOOGLE_SERVICE_ACCOUNT_KEY";
   b! "AZURE_STORAGE_ACCOUNT_NAME";
   b! "AZURE_STORAGE_ACCESS_KEY";
   b! "AZURE_STORAGE_CLIENT_ID";
   b! "AZURE_STORAGE_CLIENT_SECRET";
   b! "AZURE_STORAGE_TENANT_ID";
   b! "AZURE_CLIENT_ID";
   b! "AZURE_TENANT_ID";
   b! "AZURE_FEDERATED_TOKEN_FILE";
   b! "AZURE_AUTHORITY_HOST"].

(** On the process environment; [std::env::vars] panics on a variable that is not
    UTF-8, whatever its name. *)
Definition store_options_from_env (env : list (bytes * bytes)) : outcome (list (bytes * bytes)) :=
  if forallb (λ kv, is_utf8 kv.1 && is_utf8 kv.2) env
  then Ret (filter (λ kv, kv.1 ∈ ALLOWED_STORE_OPTS) env) else Panic.

Definition opt_get (opts : list (bytes * bytes)) (key : bytes) : bytes :=
  match list_find (λ kv, kv.1 = key) opts with Some (_, (_, v)) => v | None => [] end.

(** No character outside ASCII lowercases to a letter of these words, so
    [to_lowercase] is the ASCII one here. *)
Definition is_plaintext_endpoint (opts : list (bytes * bytes)) : bool :=
  starts_with (b! "http://") (to_ascii_lowercase (opt_get opts (b! "AWS_ENDPOINT")))
  || bool_decide (to_ascii_lowercase (opt_get opts (b! "AWS_ALLOW_HTTP"))
                  ∈ [b! "1"; b! "true"; b! "yes"; b! "on"]).

(** ** Building the store *)

Record RetryConfig := mkRetry { max_retries : Z; retry_timeout_secs : Z }.
Definition retry_config : RetryConfig := mkRetry 3 60.

Inductive Scheme := AmazonS3 | GoogleCloudStorage | MicrosoftAzure | Memory | Local | OtherScheme.

Section build_store.
(** [url::Url], and the builders of [object_store]: each cloud has its own
    configuration keys. *)
Context {Url Store ConfigKey : Type}.
Context (url_parse : bytes → option Url) (url_string url_path : Url → bytes)
        (scheme_parse : Url → option Scheme)
        (config_key : Scheme → bytes → option ConfigKey)
        (cloud_build : Scheme → bytes → RetryConfig → list (ConfigKey * bytes) → option Store)
        (in_memory : Store) (local_fs : bytes → option Store).

(** The loop over the options: unknown keys are skipped. *)
Definition fold_config (s : Scheme) (opts : list (bytes * bytes)) : list (ConfigKey * bytes) :=
  omap (λ '(k, v), key ← config_key s (to_ascii_lowercase k); Some (key, v)) opts.

Definition object_store_from_url_opts (raw_url : bytes) (opts : list (bytes * bytes))
    : option Store :=
  url ← url_parse raw_url;
  scheme ← scheme_parse url;
  match scheme with
  | AmazonS3 | GoogleCloudStorage | MicrosoftAzure =>
      cloud_build scheme (url_string url) retry_config (fold_config scheme opts)
  | Memory => Some in_memory
  | Local => local_fs (url_path url)
  | OtherScheme => None
  end.

(** Options a cloud does not know never decide whether the store is built. *)
Lemma unknown_options_ignored raw_url o1 o2 k v :
  (∀ s, config_key s (to_ascii_lowercase k) = None) →
  object_store_from_url_opts raw_url (o1 ++ (k, v) :: o2)
  = object_store_from_url_opts raw_url (o1 ++ o2).
Proof.
  intros Hk. unfold object_store_from_url_opts.
  assert (∀ s, fold_config s (o1 ++ (k, v) :: o2) = fold_config s (o1 ++ o2)) as Hf.
  { intros s. unfold fold_config. rewrite !omap_app. cbn. by rewrite Hk. }
  destruct (url_parse raw_url) as [url|]; [|done]. cbn.
  destruct (scheme_parse url) as [[]|]; cbn; by rewrite ?Hf.
Qed.
End build_store.

(** ** An in-memory store

    [InMemory] with a sink that takes at most eight bytes per write, an encoder
    that stores its input behind the zstd magic number, and a digest; they
    instantiate the interfaces in the examples. *)
Module Mem.

Abbreviation store := (gmap bytes bytes).
#[global] Instance mem_store : ObjectStore store := {
  objects w := w;
  put w k v := (<[k := v]> w, Ok tt);
}.
#[global] Instance mem_store_laws : ObjectStoreLaws store.
Proof.
  split.
  - by intros w k v w' [= <-].
  - intros w k v w' r k' [= <- _] ?. by apply lookup_insert_ne.
Qed.

Record sink := mkSink { sk_key : bytes; sk_data : bytes; sk_open : bool }.
#[global] Instance mem_writer : BufWriter store := {
  bw := sink;
  bw_new k := mkSink k [] true;
  bw_poll_write '(w, b) buf :=
    let n := Nat.min 8 (length buf) in
    Fast (w, mkSink (sk_key b) (sk_data b ++ take n buf) (sk_open b)) (Ok n);
  bw_poll_shutdown '(w, b) :=
    Fast (<[sk_key b := sk_data b]> w, mkSink (sk_key b) (sk_data b) false) (Ok tt);
  bw_abort '(w, b) := if sk_open b then Ret (w, Ok tt) else Panic;
  bw_key := sk_key;
  bw_written := sk_data;
  bw_open := sk_open;
}.
#[global] Instance mem_writer_laws : BufWriterLaws store.
Proof.
  split; try done.
  - intros w b buf w' b' n _ [= <- <- <-]. split; [apply (Nat.le_min_r 8)|done].
  - intros w b _ k Hk. by apply lookup_insert_ne.
  - intros w b w' b' _ [= <- <-]. apply lookup_insert_eq.
  - intros w b Ho. cbn in *. by rewrite Ho.
  - intros w b w' r. cbn. destruct (sk_open b); [by intros [= <- _]|done].
Qed.

Definition magic : bytes := [x28; xb5; x2f; xfd].
#[global] Instance mem_zstd : Zstd := {
  enc := bool;
  enc_new := false;
  enc_write started c := (true, if started then [c] else [magic; c]);
  enc_finish started := if started then [] else [magic];
  zstd_decode s := strip_prefix magic s;
}.
#[global] Instance mem_zstd_laws : ZstdLaws mem_zstd.
Proof.
  assert (∀ cs, enc_run true cs = (true, cs)) as Hrun.
  { induction cs as [|c cs IH]; cbn in *; [done|by rewrite IH]. }
  intros [|c cs]; [done|]. cbn. rewrite Hrun. cbn. by rewrite app_nil_r.
Qed.
#[global] Instance plain_path : ObjectPath := λ k, k.
#[global] Instance plain_path_laws : ObjectPathLaws plain_path.
Proof. done. Qed.

(** A checksum in place of the digest. *)
Definition toy_digest (s : bytes) : bytes :=
  [byte_of_Z (foldr (λ c n, u8 c + n)%Z 0%Z s); byte_of_Z (Z.of_nat (length s))].

Lemma mem_reliable : reliable (World := store).
Proof.
  split; [|cbn; eauto]. intros w b [|c buf] Ho Hb; [done|]. cbn. eauto.
Qed.

End Mem.

(** The objects of a capture. *)
Inductive artifact := CoreObj | SnapshotObj | ManifestObj.
Definition key_of (a : artifact) (k : ObjectKeys) : bytes :=
  match a with
  | CoreObj => Keys.core k
  | SnapshotObj => Keys.proc_snapshot k
  | ManifestObj => Keys.manifest k
  end.

Definition suffix_of (a : artifact) : bytes :=
  match a with
  | CoreObj => b! "core.zst"
  | SnapshotObj => b! "procsnapshot.tar"
  | ManifestObj => b! "manifest.json"
  end.

Lemma key_of_split a cluster pod cid ts pid :
  "/"%byte ∉ pod → "/"%byte ∉ cid →
  split "/"%byte (key_of a (Keys.new cluster pod cid ts pid))
  = split "/"%byte cluster
    ++ [pod; cid; to_string ts ++ "-"%byte :: to_string pid ++ "-"%byte :: suffix_of a].
Proof.
  intros Hp Hc.
  assert (key_of a (Keys.new cluster pod cid ts pid)
    = cluster ++ "/"%byte :: pod ++ "/"%byte :: cid ++ "/"%byte
      :: (to_string ts ++ "-"%byte :: to_string pid ++ "-"%byte :: suffix_of a)) as ->.
  { by destruct a; cbn; rewrite <- !app_assoc; cbn; rewrite <- !app_assoc; cbn;
      rewrite <- !app_assoc; cbn; rewrite <- !app_assoc. }
  rewrite split_app, !split_cons by done. f_equal. do 2 f_equal. apply split_word.
  assert (∀ z, "/"%byte ∉ to_string z) as Hz.
  { intros z. apply (forallb_not_elem is_int_byte); [apply to_string_chars|done]. }
  rewrite not_elem_of_app, not_elem_of_cons, not_elem_of_app, not_elem_of_cons.
  split_and!; try apply Hz; try done. by destruct a; apply (bool_decide_eq_false_1 _).
Qed.

Lemma suffix_of_inj a a' : suffix_of a = suffix_of a' → a = a'.
Proof. by destruct a, a'. Qed.

Lemma key_of_inj a a' cl cl' pod pod' cid cid' ts ts' pid pid' :
  "/"%byte ∉ pod → "/"%byte ∉ cid → "/"%byte ∉ pod' → "/"%byte ∉ cid' →
  key_of a (Keys.new cl pod cid ts pid) = key_of a' (Keys.new cl' pod' cid' ts' pid') →
  a = a' ∧ cl = cl' ∧ pod = pod' ∧ cid = cid' ∧ ts = ts' ∧ pid = pid'.
Proof.
  intros ???? Heq. apply (f_equal (split "/"%byte)) in Heq.
  rewrite !key_of_split in Heq by done. apply app_inj_2 in Heq as [Hcl Heq]; [|done].
  injection Heq as <- <- Heq. apply to_string_dash_inj in Heq as [<- Heq].
  apply to_string_dash_inj in Heq as [<- Heq]. apply suffix_of_inj in Heq as <-.
  apply (f_equal (join [ "/"%byte ])) in Hcl. rewrite !join_split in Hcl. by subst.
Qed.

(** ** Properties *)

Lemma standalone_ok {World} `{ObjectStore World} {B : BufWriter World}
    {BL : BufWriterLaws World} {Zs : Zstd} {ZL : ZstdLaws Zs} (sha : bytes → bytes)
    self now p dl w w' st :
  (0 ≤ sb_max_core_bytes self ≤ u64_max)%Z →
  (Z.of_nat (length (fst (delivered dl p))) ≤ u64_max)%Z →
  standalone_drain_core sha self now p dl w = (w', Ret (Ok st)) →
  ∃ obj, objects w' !! sb_key self = Some obj
    ∧ zstd_decode obj
      = Some (takeZ (cap_of (sb_max_core_bytes self)) (fst (delivered dl p)))
    ∧ bytes_ st = Z.of_nat (length (fst (delivered dl p)))
    ∧ stored_bytes st = wrap_u64 (Z.of_nat (length obj))
    ∧ sha256 st = Some (hex_lower (sha obj))
    ∧ truncated_reason st
      = end_reason (cap_of (sb_max_core_bytes self)) (fst (delivered dl p)) (snd (delivered dl p))
    ∧ truncated st = bool_decide (is_Some (truncated_reason st)).
Proof.
  intros Hm Hmax. unfold standalone_drain_core.
  destruct (stream_core_through_zstd _ _ _ _ _ _ _) as [w1 [|[[[[n sz] h] reason]|e]]] eqn:E; try done.
  intros [= -> <-]. apply (stream_core_ok sha) in E; [|done].
  destruct (delivered dl p) as [data en]. destruct E as (_ & -> & -> & obj & Ho & Hd & -> & ->).
  exists obj. cbn in *. rewrite (wrap_u64_small (Z.of_nat (length data))) by lia. done.
Qed.

(** C5: what a successful upload stored: the object at the core's key decompresses to the
    delivered core up to the size cap, the reported sizes and sha256 are those of
    that object and of the whole stream, and the truncation reason tells a read
    error and an exceeded cap from a complete core. *)
Theorem upload_stores_stream {World} `{ObjectStore World} {B : BufWriter World}
    {BL : BufWriterLaws World} {Zs : Zstd} {ZL : ZstdLaws Zs} (sha : bytes → bytes)
    self now p dl w w' st :
  (0 ≤ sb_max_core_bytes self ≤ u64_max)%Z →
  (Z.of_nat (length (fst (delivered dl p))) ≤ u64_max)%Z →
  standalone_drain_core sha self now p dl w = (w', Ret (Ok st)) →
  ∃ obj, objects w' !! sb_key self = Some obj
    ∧ zstd_decode obj
      = Some (takeZ (cap_of (sb_max_core_bytes self)) (fst (delivered dl p)))
    ∧ bytes_ st = Z.of_nat (length (fst (delivered dl p)))
    ∧ stored_bytes st = wrap_u64 (Z.of_nat (length obj))
    ∧ sha256 st = Some (hex_lower (sha obj))
    ∧ truncated_reason st
      = end_reason (cap_of (sb_max_core_bytes self)) (fst (delivered dl p)) (snd (delivered dl p))
    ∧ truncated st = bool_decide (is_Some (truncated_reason st)).
Proof. apply standalone_ok. Qed.

(** A core of eleven bytes in two deliveries, stored up to a cap of eight. *)
Definition sample_pipe : pipe :=
  [Avail (InTime (b! "hello")); Avail (Late (b! " world"))].

Definition sample_upload : Mem.store * outcome (result CoreStats error) :=
  standalone_drain_core (World := Mem.store) Mem.toy_digest (mkStandalone (b! "k") 8)
    1000%Z sample_pipe None ∅.

Lemma upload_stores_stream_witness :
  ∃ obj, objects (fst sample_upload) !! b! "k" = Some obj
    ∧ zstd_decode obj = Some (takeZ 8 (b! "hello world"))
    ∧ 11%Z = Z.of_nat (length (b! "hello world"))
    ∧ 12%Z = wrap_u64 (Z.of_nat (length obj))
    ∧ Some (b! "230c") = Some (hex_lower (Mem.toy_digest obj))
    ∧ Some SIZE_CAP = end_reason 8 (b! "hello world") AtEof
    ∧ true = bool_decide (is_Some (Some SIZE_CAP)).
Proof.
  apply (upload_stores_stream (World := Mem.store) Mem.toy_digest (mkStandalone (b! "k") 8)
    1000%Z sample_pipe None ∅ (fst sample_upload)
    (mkCoreStats 11 12 (Some (b! "230c")) true (Some SIZE_CAP))).
  - done.
  - done.
  - change (sample_upload = (fst sample_upload,
      Ret (Ok (mkCoreStats 11 12 (Some (b! "230c")) true (Some SIZE_CAP))))).
    rewrite (surjective_pairing sample_upload) at 1. apply (f_equal (pair _)).
    vm_compute. reflexivity.
Defined.

Lemma standalone_safe {World} `{ObjectStore World} {B : BufWriter World}
    {BL : BufWriterLaws World} {Zs : Zstd} {ZL : ZstdLaws Zs} (sha : bytes → bytes)
    self now p dl w w' r :
  standalone_drain_core sha self now p dl w = (w', r) →
  (r = Panic ↔ ¬ fits now dl) ∧ (r = Panic → w' = w)
  ∧ (∀ k, k ≠ sb_key self → objects w' !! k = objects w !! k)
  ∧ (snd (delivered dl p) = AtDeadline →
     objects w' = objects w ∧ (fits now dl → ∃ e, r = Ret (Err e))).
Proof.
  unfold standalone_drain_core.
  destruct (stream_core_through_zstd _ _ _ _ _ _ _) as [w1 r1] eqn:E.
  apply (stream_core_safe sha) in E as (Hp & Hw & Hk & Hd).
  destruct r1 as [|[[[[n sz] h] reason]|e]]; intros [= <- <-]; split_and!; try done; try tauto.
  - rewrite <- Hp. done.
  - intros Hdl. destruct (Hd Hdl) as [Ho He]. split; [done|]. by intros [e [=]]%He.
  - rewrite <- Hp. done.
  - intros Hdl. destruct (Hd Hdl) as [Ho _]. eauto.
Qed.

(** C6: however an upload ends, it leaves every other object of the bucket as it was,
    and when the deadline passes while the core is being read it fails and
    leaves the whole bucket as it was. It panics in one case only, a deadline
    that added to the clock is past the last [Instant] ([upload_deadline_secs] is not
    bounded), and then before anything is read or stored; in particular the multipart
    upload is only aborted before its shutdown. *)
Theorem upload_failure_is_clean {World} `{ObjectStore World} {B : BufWriter World}
    {BL : BufWriterLaws World} {Zs : Zstd} {ZL : ZstdLaws Zs} (sha : bytes → bytes)
    self now p dl w w' r :
  standalone_drain_core sha self now p dl w = (w', r) →
  (r = Panic ↔ ¬ fits now dl) ∧ (r = Panic → w' = w)
  ∧ (∀ k, k ≠ sb_key self → objects w' !! k = objects w !! k)
  ∧ (snd (delivered dl p) = AtDeadline →
     objects w' = objects w ∧ (fits now dl → ∃ e, r = Ret (Err e))).
Proof. apply standalone_safe. Qed.

Lemma upload_failure_is_clean_witness :
  fst (standalone_drain_core (World := Mem.store) Mem.toy_digest (mkStandalone (b! "k") 0)
         1000%Z sample_pipe (Some 30%Z) {[ b! "other" := b! "x" ]}) = {[ b! "other" := b! "x" ]}
  ∧ ∃ e, snd (standalone_drain_core (World := Mem.store) Mem.toy_digest (mkStandalone (b! "k") 0)
         1000%Z sample_pipe (Some 30%Z) {[ b! "other" := b! "x" ]}) = Ret (Err e).
Proof.
  destruct (upload_failure_is_clean (World := Mem.store) Mem.toy_digest
    (mkStandalone (b! "k") 0) 1000%Z sample_pipe (Some 30%Z) {[ b! "other" := b! "x" ]} _ _
    (surjective_pairing _)) as (_ & _ & _ & Hd).
  destruct (Hd ltac:(vm_compute; reflexivity)) as [Hw He]. split; [exact Hw|].
  apply He. by intros d [= <-].
Defined.

(** C7: without a deadline, and on a store that accepts writes, every core stream is
    uploaded, however it is cut into reads and partial writes. *)
Theorem upload_completes {World} `{ObjectStore World} {B : BufWriter World}
    {BL : BufWriterLaws World} {Zs : Zstd} {ZL : ZstdLaws Zs} (sha : bytes → bytes) self now p w :
  reliable → ∃ w' st, standalone_drain_core sha self now p None w = (w', Ret (Ok st)).
Proof.
  intros Hrel. unfold standalone_drain_core.
  destruct (stream_core_progress sha now (sb_key self) (sb_max_core_bytes self) p w Hrel)
    as (w' & [[[n sz] h] reason] & ->). eauto.
Qed.

Lemma upload_completes_witness :
  ∃ w' st, standalone_drain_core (World := Mem.store) Mem.toy_digest (mkStandalone (b! "k") 8)
             1000%Z sample_pipe None ∅ = (w', Ret (Ok st)).
Proof. apply (upload_completes Mem.toy_digest _ 1000%Z _ _ Mem.mem_reliable). Defined.

(** C8: captures do not overwrite each other: two objects have the same key only when
    they are the same artifact of the same pod, container, second and host
    pid of the same cluster. *)
Theorem object_keys_injective a a' cl cl' pod pod' cid cid' ts ts' pid pid' :
  "/"%byte ∉ pod → "/"%byte ∉ cid → "/"%byte ∉ pod' → "/"%byte ∉ cid' →
  key_of a (Keys.new cl pod cid ts pid) = key_of a' (Keys.new cl' pod' cid' ts' pid') →
  a = a' ∧ cl = cl' ∧ pod = pod' ∧ cid = cid' ∧ ts = ts' ∧ pid = pid'.
Proof. apply key_of_inj. Qed.

Lemma object_keys_injective_witness :
  CoreObj = CoreObj ∧ b! "prod/eu" = b! "prod/eu" ∧ b! "ab-12" = b! "ab-12" ∧ b! "ff" = b! "ff"
  ∧ (-5)%Z = (-5)%Z ∧ 7%Z = 7%Z.
Proof.
  apply (object_keys_injective CoreObj CoreObj (b! "prod/eu") (b! "prod/eu") (b! "ab-12") (b! "ab-12")
    (b! "ff") (b! "ff") (-5) (-5) 7 7);
    first [by apply (bool_decide_eq_false_1 _) | reflexivity].
Defined.

(** Any case of [http://] and the truthy spellings count. *)
Example plaintext_endpoint_examples :
  is_plaintext_endpoint [(b! "AWS_ENDPOINT", b! "HTTP://minio:9000")] = true
  ∧ is_plaintext_endpoint [(b! "AWS_ALLOW_HTTP", b! "True")] = true
  ∧ is_plaintext_endpoint [(b! "AWS_ENDPOINT", b! "https://s3"); (b! "AWS_ALLOW_HTTP", b! "0")] = false.
Proof. by vm_compute. Qed.

End Upload.
