(* ===== verification/Json.v ===== *)
(** * JSON values and the serde data model

    [serde_json::Value], its accessors, and the field rules of serde's derived
    [Deserialize]: unknown fields are skipped, a repeated field is an error, a
    missing field is an error unless it is an [Option] or has a default. *)

From S2P Require Import Prelude RustStr.

Module Json.

#[warnings="-register-all"]
Inductive Value :=
  | Null
  | Bool (b : bool)
  | Num (n : Z)
  | Float (repr : bytes)
  | Str (s : bytes)
  | Arr (l : list Value)
  | Obj (fields : list (bytes * Value)).

Abbreviation fields := (list (bytes * Value)).

(** ** Accessors of [Value] *)

(** [&v[key]]: [Null] when the value is not an object or has no such key; the
    last of several equal keys is the one the map keeps. *)
Definition index (v : Value) (key : bytes) : Value :=
  match v with
  | Obj kvs => match list_find (λ kv, kv.1 = key) (reverse kvs) with
               | Some (_, (_, x)) => x | None => Null end
  | _ => Null
  end.
Definition as_str (v : Value) : option bytes := match v with Str s => Some s | _ => None end.
Definition as_u64 (v : Value) : option Z :=
  match v with Num n => if decide (0 ≤ n ≤ u64_max)%Z then Some n else None | _ => None end.

(** ** Deserializers *)

Abbreviation de T := (Value → option T).

Definition de_string : de bytes := as_str.
Definition de_bool : de bool := λ v, match v with Bool b => Some b | _ => None end.
Definition de_int (lo hi : Z) : de Z := λ v,
  match v with Num n => if decide (lo ≤ n ≤ hi)%Z then Some n else None | _ => None end.
Definition de_i32 : de Z := de_int i32_min i32_max.
Definition de_i64 : de Z := de_int i64_min i64_max.
Definition de_u32 : de Z := de_int 0 u32_max.
Definition de_u64 : de Z := de_int 0 u64_max.
Definition de_option {T} (d : de T) : de (option T) := λ v,
  match v with Null => Some None | _ => Some <$> d v end.
Definition de_pair {A B} (d1 : de A) (d2 : de B) : de (A * B) := λ v,
  match v with Arr [x; y] => a ← d1 x; b ← d2 y; Some (a, b) | _ => None end.
Definition de_vec {T} (d : de T) : de (list T) := λ v,
  match v with Arr l => mapM d l | _ => None end.

(** The values of a field, in order. *)
Definition occurrences (key : bytes) (kvs : fields) : list Value :=
  (filter (λ kv, kv.1 = key) kvs).*2.

Definition field_or {T} (missing : option T) (d : de T) (key : bytes) (kvs : fields) : option T :=
  match occurrences key kvs with [] => missing | [v] => d v | _ => None end.

Definition required {T} (d : de T) : bytes → fields → option T := field_or None d.
(** An [Option] field may be missing. *)
Definition optional {T} (d : de T) : bytes → fields → option (option T) :=
  field_or (Some None) (de_option d).
(** [#[serde(default)]] *)
Definition defaulted {T} (dflt : T) (d : de T) : bytes → fields → option T := field_or (Some dflt) d.

(** A derived [Deserialize] of a struct: an object, its fields by name, or an array, its
    fields in the order they are declared. Of an array only fields with a serde default
    may be missing (an [Option] without one may not), and nothing may be left over. *)
Definition de_struct {T} (keys with_default : list bytes) (read : fields → option T) : de T := λ v,
  match v with
  | Obj kvs => read kvs
  | Arr l =>
      if bool_decide (length l ≤ length keys)
         && forallb (λ k, bool_decide (k ∈ with_default)) (drop (length l) keys)
      then read (zip keys l) else None
  | _ => None
  end.

(** ** Serializers *)

Definition ser_option {T} (f : T → Value) (x : option T) : Value :=
  match x with None => Null | Some v => f v end.
(** [#[serde(skip_serializing_if = "Option::is_none")]] *)
Definition ser_skip {T} (f : T → Value) (key : bytes) (x : option T) : fields :=
  match x with None => [] | Some v => [(key, f v)] end.

(** ** [serde_json] as text

    Reading and writing JSON text is the library's. A value whose strings are
    UTF-8, whose numbers are 64-bit integers and whose keys are distinct reads
    back as it was written. *)
Fixpoint wf_value (v : Value) : bool :=
  match v with
  | Null | Bool _ => true
  | Num n => (i64_min <=? n)%Z && (n <=? u64_max)%Z
  | Float _ => false
  | Str s => is_utf8 s
  | Arr l => forallb wf_value l
  | Obj kvs => forallb (λ '(k, v), is_utf8 k && wf_value v) kvs && bool_decide (NoDup kvs.*1)
  end.

(** All text in a value is UTF-8, as Rust's [String] is. *)
Fixpoint utf8_strings (v : Value) : bool :=
  match v with
  | Str s => is_utf8 s
  | Arr l => forallb utf8_strings l
  | Obj kvs => forallb (λ '(k, v), is_utf8 k && utf8_strings v) kvs
  | _ => true
  end.

Class JsonText := {
  text_to_vec : Value → bytes;
  text_to_vec_pretty : Value → bytes;
  text_from_slice : bytes → option Value;
}.
Class JsonTextLaws (J : JsonText) : Prop := {
  text_roundtrip v : wf_value v = true → text_from_slice (text_to_vec v) = Some v;
  text_roundtrip_pretty v : wf_value v = true → text_from_slice (text_to_vec_pretty v) = Some v;
  text_strings bs v : text_from_slice bs = Some v → utf8_strings v = true;
}.

(** ** Lemmas *)

(** A serializer that its deserializer inverts, on the values of the type. *)
Class Serde {T} (ok : T → Prop) (ser : T → Value) (d : de T) : Prop :=
  serde_roundtrip x : ok x → d (ser x) = Some x.

#[global] Instance serde_string : Serde (λ _, True) Str de_string.
Proof. done. Qed.
#[global] Instance serde_bool : Serde (λ _, True) Bool de_bool.
Proof. done. Qed.
#[global] Instance serde_int lo hi : Serde (λ n, lo ≤ n ≤ hi)%Z Num (de_int lo hi).
Proof. intros n Hn. unfold de_int. by rewrite decide_True. Qed.

(** Scalars never serialize to [null], so [Option] of them is unambiguous. *)
Class NotNull {T} (ser : T → Value) : Prop := not_null x : ser x ≠ Null.
#[global] Instance not_null_str : NotNull Str.
Proof. done. Qed.
#[global] Instance not_null_num : NotNull Num.
Proof. done. Qed.

Lemma de_option_ser {T} (ok : T → Prop) (ser : T → Value) (d : de T) `{!Serde ok ser d, !NotNull ser} x :
  (∀ y, x = Some y → ok y) → de_option d (ser_option ser x) = Some x.
Proof.
  destruct x as [y|]; [|done]. intros Hok. unfold de_option, ser_option.
  pose proof (serde_roundtrip (d := d) y (Hok y eq_refl)) as Hr. pose proof (not_null y) as Hn.
  destruct (ser y); try done; by rewrite Hr.
Qed.

Lemma de_vec_ser {T} (ok : T → Prop) (ser : T → Value) (d : de T) `{!Serde ok ser d} l :
  Forall ok l → de_vec d (Arr (map ser l)) = Some l.
Proof.
  cbn. induction 1 as [|x l Hx _ IH]; [done|]. cbn. rewrite serde_roundtrip by done. cbn.
  by rewrite IH.
Qed.

Lemma occurrences_app k f g : occurrences k (f ++ g) = occurrences k f ++ occurrences k g.
Proof. unfold occurrences. by rewrite filter_app, fmap_app. Qed.

Lemma occurrences_other k kvs : k ∉ kvs.*1 → occurrences k kvs = [].
Proof.
  intros Hk. unfold occurrences. rewrite filter_none; [done|]. apply Forall_forall.
  intros [k' v] Hin. cbn. intros ->. apply Hk. apply list_elem_of_fmap. by exists (k, v).
Qed.

Lemma occurrences_skip {T} (ser : T → Value) k k' x :
  occurrences k (ser_skip ser k' x)
  = match x with Some v => if decide (k' = k) then [ser v] else [] | None => [] end.
Proof.
  destruct x as [v|]; [|done]. unfold occurrences. cbn. by case_decide.
Qed.

Lemma field_or_eq {T} missing (d : de T) k kvs v x :
  occurrences k kvs = [v] → d v = Some x → field_or missing d k kvs = Some x.
Proof. unfold field_or. by intros -> ->. Qed.

(** The array of all fields in order reads as the object. *)
Lemma de_struct_positional {T} (keys dflt : list bytes) (read : fields → option T) kvs :
  kvs.*1 = keys → de_struct keys dflt read (Arr kvs.*2) = read kvs.
Proof.
  intros <-. unfold de_struct. rewrite !length_fmap, bool_decide_true by lia.
  rewrite drop_ge by by rewrite length_fmap. cbn. by rewrite zip_fst_snd.
Qed.

Lemma field_bind {T U} (m : option T) (k : T → option U) x r :
  m = Some x → k x = r → m ≫= k = r.
Proof. by intros ->. Qed.

(** Reads one field of a derived [Deserialize] back from its serialization. *)
Ltac de_field :=
  eapply field_bind;
  [eapply field_or_eq;
   [reflexivity
   |first [eassumption | reflexivity | match goal with H : ∀ x, _ = Some x |- _ => apply H end]]
  |].

(** Well-formedness of what the serializers produce. *)
Definition utf8_opt (x : option bytes) : Prop := ∀ s, x = Some s → is_utf8 s = true.

Lemma wf_opt_str x : utf8_opt x → wf_value (ser_option Str x) = true.
Proof. destruct x; [|done]. intros H. by apply H. Qed.

Lemma wf_num lo hi n :
  (lo ≤ n ≤ hi)%Z → (i64_min ≤ lo)%Z → (hi ≤ u64_max)%Z → wf_value (Num n) = true.
Proof. intros. cbn. apply andb_true_intro. split; apply Z.leb_le; lia. Qed.

Lemma wf_opt_num lo hi x :
  (∀ n, x = Some n → lo ≤ n ≤ hi)%Z → (i64_min ≤ lo)%Z → (hi ≤ u64_max)%Z →
  wf_value (ser_option Num x) = true.
Proof. destruct x; [|done]. intros H **. eapply wf_num; [by apply H|done..]. Qed.

Lemma wf_obj (kvs : fields) :
  NoDup kvs.*1 → Forall (λ kv, is_utf8 kv.1 = true ∧ wf_value kv.2 = true) kvs →
  wf_value (Obj kvs) = true.
Proof.
  intros Hn Hf. cbn. apply andb_true_intro. split; [|by apply bool_decide_eq_true_2].
  rewrite forallb_Forall. eapply Forall_impl; [exact Hf|]. intros [k v] [Hk Hv].
  by apply andb_true_intro.
Qed.

(** A field that was not in the first release of a message may be missing from
    it; fields the reader does not know never matter. *)
Lemma field_or_ext {T} missing (d : de T) k kvs extra :
  k ∉ extra.*1 → field_or missing d k (kvs ++ extra) = field_or missing d k kvs.
Proof.
  intros Hk. unfold field_or. by rewrite occurrences_app, (occurrences_other k extra), app_nil_r.
Qed.

(** ** A concrete text format

    To instantiate [JsonText] in the examples. *)
Section value_ind.
Context (P : Value → Prop) (HNull : P Null) (HBool : ∀ b, P (Bool b)) (HNum : ∀ n, P (Num n))
  (HFloat : ∀ r, P (Float r)) (HStr : ∀ s, P (Str s)) (HArr : ∀ l, Forall P l → P (Arr l))
  (HObj : ∀ kvs, Forall (λ kv, P kv.2) kvs → P (Obj kvs)).
Fixpoint Value_nested_ind (v : Value) : P v :=
  match v with
  | Null => HNull
  | Bool b => HBool b
  | Num n => HNum n
  | Float r => HFloat r
  | Str s => HStr s
  | Arr l => HArr l ((fix go l : Forall P l :=
      match l with [] => Forall_nil_2 P | x :: l => Forall_cons_2 P x l (Value_nested_ind x) (go l) end) l)
  | Obj kvs => HObj kvs ((fix go l : Forall (λ kv, P kv.2) l :=
      match l with
      | [] => Forall_nil_2 _
      | (k, x) :: l => Forall_cons_2 (λ kv, P kv.2) (k, x) l (Value_nested_ind x) (go l)
      end) kvs)
  end.
End value_ind.

Fixpoint value_tree (v : Value) : gen_tree (bytes + (Z + bool)) :=
  match v with
  | Null => GenNode 0 []
  | Bool b => GenNode 1 [GenLeaf (inr (inr b))]
  | Num n => GenNode 2 [GenLeaf (inr (inl n))]
  | Float r => GenNode 3 [GenLeaf (inl r)]
  | Str s => GenNode 4 [GenLeaf (inl s)]
  | Arr l => GenNode 5 (map value_tree l)
  | Obj kvs => GenNode 6 (map (λ '(k, v), GenNode 7 [GenLeaf (inl k); value_tree v]) kvs)
  end.

Fixpoint tree_value (t : gen_tree (bytes + (Z + bool))) : Value :=
  match t with
  | GenNode 1 [GenLeaf (inr (inr b))] => Bool b
  | GenNode 2 [GenLeaf (inr (inl n))] => Num n
  | GenNode 3 [GenLeaf (inl r)] => Float r
  | GenNode 4 [GenLeaf (inl s)] => Str s
  | GenNode 5 l => Arr (map tree_value l)
  | GenNode 6 l => Obj (map (λ t, match t with
                                  | GenNode 7 [GenLeaf (inl k); v] => (k, tree_value v)
                                  | _ => ([], Null)
                                  end) l)
  | _ => Null
  end.

Lemma wf_utf8_strings v : wf_value v = true → utf8_strings v = true.
Proof.
  induction v as [| | | | |l IH|kvs IH] using Value_nested_ind; try done; cbn.
  - induction IH as [|x l Hx _ IH]; cbn; [done|]. intros [? ?]%andb_prop. by rewrite Hx, IH.
  - intros [Hf _]%andb_prop. revert Hf.
    induction IH as [|[k x] l Hx _ IH]; cbn in *; [done|]. intros H. bool_hyps.
    repeat (apply andb_true_intro; split); auto.
Qed.

Lemma index_utf8 v key : utf8_strings v = true → utf8_strings (index v key) = true.
Proof.
  destruct v as [| | | | | |kvs]; try done. cbn. rewrite forallb_Forall. intros Hf.
  destruct (list_find _ _) as [[i [k x]]|] eqn:E; [|done].
  apply list_find_Some in E as (Hi & _). apply list_elem_of_lookup_2 in Hi. rewrite elem_of_reverse in Hi.
  rewrite Forall_forall in Hf. specialize (Hf _ Hi). cbn in Hf. by apply andb_prop in Hf as [_ ?].
Qed.

Lemma as_str_utf8 v : utf8_strings v = true → utf8_opt (as_str v).
Proof. destruct v; try done. intros H s' [= <-]. done. Qed.

Lemma tree_value_tree v : tree_value (value_tree v) = v.
Proof.
  induction v as [| | | | |l IH|kvs IH] using Value_nested_ind; try done; cbn; f_equal.
  - induction IH as [|x l Hx _ IH]; cbn; [done|]. by rewrite Hx, IH.
  - induction IH as [|[k x] l Hx _ IH]; cbn in *; [done|]. by rewrite Hx, IH.
Qed.

(** The values' trees as tokens: nodes with their sizes in unary, numbers in decimal,
    strings with every byte marked. *)
Abbreviation token := (nat * nat + (bytes + (Z + bool)))%type.

Definition print_Z (z : Z) : bytes :=
  match z with
  | Z0 => b! "0;"
  | Zpos p => b! "p" ++ to_string (Zpos p) ++ b! ";"
  | Zneg p => b! "m" ++ to_string (Zpos p) ++ b! ";"
  end.
Definition print_bytes (s : bytes) : bytes := concat (map (λ c, ["+"%byte; c]) s) ++ b! ";".
Definition print_nat (n : nat) : bytes := replicate n "|"%byte ++ b! ";".
Definition print_token (t : token) : bytes :=
  match t with
  | inl (len, n) => b! "N" ++ print_nat len ++ print_nat n
  | inr (inl s) => b! "S" ++ print_bytes s
  | inr (inr (inl z)) => b! "I" ++ print_Z z
  | inr (inr (inr b)) => if b : bool then b! "T" else b! "F"
  end.

Fixpoint read_bytes (s : bytes) : option (bytes * bytes) :=
  match s with
  | ";"%byte :: s => Some ([], s)
  | "+"%byte :: c :: s => '(t, s) ← read_bytes s; Some (c :: t, s)
  | _ => None
  end.
Fixpoint read_nat (s : bytes) : option (nat * bytes) :=
  match s with
  | ";"%byte :: s => Some (0, s)
  | "|"%byte :: s => '(n, s) ← read_nat s; Some (S n, s)
  | _ => None
  end.
Definition read_Z (s : bytes) : option (Z * bytes) :=
  match s with
  | "0"%byte :: ";"%byte :: s => Some (0%Z, s)
  | "p"%byte :: s => '(d, s) ← split_once ";"%byte s; n ← parse_digits d; Some (n, s)
  | "m"%byte :: s => '(d, s) ← split_once ";"%byte s; n ← parse_digits d; Some ((- n)%Z, s)
  | _ => None
  end.
Definition read_token (s : bytes) : option (token * bytes) :=
  match s with
  | "N"%byte :: s => '(len, s) ← read_nat s; '(n, s) ← read_nat s; Some (inl (len, n), s)
  | "S"%byte :: s => '(t, s) ← read_bytes s; Some (inr (inl t), s)
  | "I"%byte :: s => '(z, s) ← read_Z s; Some (inr (inr (inl z)), s)
  | "T"%byte :: s => Some (inr (inr (inr true)), s)
  | "F"%byte :: s => Some (inr (inr (inr false)), s)
  | _ => None
  end.
Fixpoint read_tokens (fuel : nat) (s : bytes) : option (list token) :=
  match s, fuel with
  | [], _ => Some []
  | _, O => None
  | s, S fuel => '(t, s) ← read_token s; ts ← read_tokens fuel s; Some (t :: ts)
  end.

Lemma read_print_bytes s r : read_bytes (print_bytes s ++ r) = Some (s, r).
Proof. unfold print_bytes. induction s as [|c s IH]; [done|]. cbn in *. by rewrite IH. Qed.
Lemma read_print_nat n r : read_nat (print_nat n ++ r) = Some (n, r).
Proof. unfold print_nat. induction n as [|n IH]; [done|]. cbn in *. by rewrite IH. Qed.
Lemma read_print_Z z r : read_Z (print_Z z ++ r) = Some (z, r).
Proof.
  assert (∀ p, ";"%byte ∉ to_string (Zpos p)) as Hp.
  { intros p. apply (forallb_not_elem is_int_byte); [apply to_string_chars|done]. }
  destruct z as [|p|p]; [done|..]; unfold print_Z; pose proof (parse_digits_pos p) as Hd;
    specialize (Hp p); revert Hp Hd; generalize (to_string (Zpos p)); intros d Hp Hd;
    rewrite <- !app_assoc; cbn -[split_once parse_digits];
    rewrite (split_once_app _ _ _ Hp); cbn [mbind option_bind]; by rewrite Hd.
Qed.

Lemma read_print_token t r : read_token (print_token t ++ r) = Some (t, r).
Proof.
  destruct t as [[len n]|[s|[z|[]]]]; cbn [print_token]; rewrite <- ?app_assoc; try done.
  - cbn -[print_nat read_nat]. rewrite read_print_nat. cbn [mbind option_bind].
    by rewrite read_print_nat.
  - cbn -[print_bytes read_bytes]. by rewrite read_print_bytes.
  - cbn -[print_Z read_Z]. by rewrite read_print_Z.
Qed.

Lemma print_token_not_nil t : 1 ≤ length (print_token t).
Proof. destruct t as [[len n]|[s|[z|[]]]]; cbn; lia. Qed.

Lemma read_print_tokens ts fuel :
  length (concat (map print_token ts)) ≤ fuel → read_tokens fuel (concat (map print_token ts)) = Some ts.
Proof.
  revert fuel. induction ts as [|t ts IH]; intros fuel Hf; [by destruct fuel|].
  cbn [map concat] in *. rewrite length_app in Hf. pose proof (print_token_not_nil t) as Hn.
  destruct (print_token t ++ concat (map print_token ts)) as [|c s] eqn:E.
  { apply (f_equal length) in E. rewrite length_app in E. cbn in E. lia. }
  destruct fuel as [|fuel]; [lia|]. cbn [read_tokens]. rewrite <- E, read_print_token.
  cbn [mbind option_bind]. by rewrite IH by lia.
Qed.

Definition token_text : JsonText := {|
  text_to_vec v := concat (map print_token (gen_tree_to_list (value_tree v)));
  text_to_vec_pretty v := concat (map print_token (gen_tree_to_list (value_tree v)));
  text_from_slice s :=
    ts ← read_tokens (length s) s; v ← tree_value <$> gen_tree_of_list [] ts;
    if utf8_strings v then Some v else None;
|}.

#[global] Instance token_text_laws : JsonTextLaws token_text.
Proof.
  split; [intros v Hv|intros v Hv|intros bs v];
    cbn [text_from_slice text_to_vec text_to_vec_pretty token_text].
  1,2: rewrite read_print_tokens by done; cbn [mbind option_bind];
    rewrite <- (app_nil_r (gen_tree_to_list _)), gen_tree_of_to_list; cbn;
    by rewrite tree_value_tree, wf_utf8_strings.
  destruct (read_tokens _ _) as [ts|]; [|done]. cbn [mbind option_bind].
  destruct (tree_value <$> gen_tree_of_list [] ts) as [v'|]; [|done]. cbn [mbind option_bind].
  destruct (utf8_strings v') eqn:E; [|done]. by intros [= <-].
Qed.

End Json.
