(* ===== verification/Events.v ===== *)
(** * [src/events.rs] and [src/manifest.rs]: the records that leave the handler

    The capture-event payload the handler sends to the daemon and the manifest
    it stores, with their serialization. *)

From S2P Require Import Prelude RustStr Json.
Import Json.

Module Events.

(** ** [Outcome] *)

Inductive Outcome := Uploaded | SuppressedRateLimit | SkippedNonK8s | NoStoreDiscard | Failed.
#[global] Instance Outcome_eq_dec : EqDecision Outcome.
Proof. solve_decision. Defined.

Definition as_str (o : Outcome) : bytes :=
  match o with
  | Uploaded => b! "uploaded"
  | SuppressedRateLimit => b! "suppressed-rate-limit"
  | SkippedNonK8s => b! "skipped-non-k8s"
  | NoStoreDiscard => b! "no-store-discard"
  | Failed => b! "failed"
  end.

(** [#[serde(rename_all = "kebab-case")]]: the variant names in kebab case. *)
Definition kebab (o : Outcome) : bytes :=
  match o with
  | Uploaded => b! "uploaded"
  | SuppressedRateLimit => b! "suppressed-rate-limit"
  | SkippedNonK8s => b! "skipped-non-k8s"
  | NoStoreDiscard => b! "no-store-discard"
  | Failed => b! "failed"
  end.
Definition ser_outcome (o : Outcome) : Value := Str (kebab o).
(** A unit variant is its name, or an object from its name to [null]. *)
Definition de_outcome : de Outcome := λ v,
  s ← match v with Str s => Some s | Obj [(s, Null)] => Some s | _ => None end;
  snd <$> list_find (λ o, kebab o = s)
    [Uploaded; SuppressedRateLimit; SkippedNonK8s; NoStoreDiscard; Failed].

(** ** [CaptureEventPayload] *)

Record CaptureEventPayload := mkPayload {
  namespace : option bytes;
  pod_name : option bytes;
  pod_uid : option bytes;
  container_id : option bytes;
  container_name : option bytes;
  host_pid : Z;
  exe : bytes;
  signal : Z;
  signal_name : option bytes;
  outcome : Outcome;
  manifest_key : option bytes;
  core_bytes : Z;
  stored_bytes : option Z;
  truncated : bool;
  error : option bytes;
  timestamp : Z;
}.

(** The derived [Serialize]. *)
Definition ser_payload (p : CaptureEventPayload) : fields :=
  [(b! "namespace", ser_option Str (namespace p));
   (b! "pod_name", ser_option Str (pod_name p));
   (b! "pod_uid", ser_option Str (pod_uid p));
   (b! "container_id", ser_option Str (container_id p));
   (b! "container_name", ser_option Str (container_name p));
   (b! "host_pid", Num (host_pid p));
   (b! "exe", Str (exe p));
   (b! "signal", Num (signal p));
   (b! "signal_name", ser_option Str (signal_name p));
   (b! "outcome", ser_outcome (outcome p));
   (b! "manifest_key", ser_option Str (manifest_key p));
   (b! "core_bytes", Num (core_bytes p));
   (b! "stored_bytes", ser_option Num (stored_bytes p));
   (b! "truncated", Bool (truncated p));
   (b! "error", ser_option Str (error p));
   (b! "timestamp", Num (timestamp p))].

(** The derived [Deserialize]. *)
Definition de_payload_fields (kvs : fields) : option CaptureEventPayload :=
  namespace ← optional de_string (b! "namespace") kvs;
  pod_name ← optional de_string (b! "pod_name") kvs;
  pod_uid ← optional de_string (b! "pod_uid") kvs;
  container_id ← defaulted None (de_option de_string) (b! "container_id") kvs;
  container_name ← optional de_string (b! "container_name") kvs;
  host_pid ← defaulted 0%Z de_i32 (b! "host_pid") kvs;
  exe ← defaulted [] de_string (b! "exe") kvs;
  signal ← required de_i32 (b! "signal") kvs;
  signal_name ← optional de_string (b! "signal_name") kvs;
  outcome ← required de_outcome (b! "outcome") kvs;
  manifest_key ← optional de_string (b! "manifest_key") kvs;
  core_bytes ← defaulted 0%Z de_u64 (b! "core_bytes") kvs;
  stored_bytes ← optional de_u64 (b! "stored_bytes") kvs;
  truncated ← defaulted false de_bool (b! "truncated") kvs;
  error ← defaulted None (de_option de_string) (b! "error") kvs;
  timestamp ← required de_i64 (b! "timestamp") kvs;
  Some (mkPayload namespace pod_name pod_uid container_id container_name host_pid exe signal
          signal_name outcome manifest_key core_bytes stored_bytes truncated error timestamp).
Definition payload_keys : list bytes :=
  [b! "namespace"; b! "pod_name"; b! "pod_uid"; b! "container_id"; b! "container_name";
   b! "host_pid"; b! "exe"; b! "signal"; b! "signal_name"; b! "outcome"; b! "manifest_key";
   b! "core_bytes"; b! "stored_bytes"; b! "truncated"; b! "error"; b! "timestamp"].
(** The fields marked [#[serde(default)]]. *)
Definition payload_defaults : list bytes :=
  [b! "container_id"; b! "host_pid"; b! "exe"; b! "core_bytes"; b! "truncated"; b! "error"].
Definition de_payload : de CaptureEventPayload :=
  de_struct payload_keys payload_defaults de_payload_fields.

(** The fields the first release had. *)
Definition first_release_keys : list bytes :=
  [b! "namespace"; b! "pod_name"; b! "pod_uid"; b! "container_name"; b! "signal";
   b! "signal_name"; b! "outcome"; b! "manifest_key"; b! "stored_bytes"; b! "timestamp"].

(** The machine types of the fields. *)
Record payload_ok (p : CaptureEventPayload) : Prop := {
  ok_host_pid : (i32_min ≤ host_pid p ≤ i32_max)%Z;
  ok_signal : (i32_min ≤ signal p ≤ i32_max)%Z;
  ok_core_bytes : (0 ≤ core_bytes p ≤ u64_max)%Z;
  ok_stored_bytes n : stored_bytes p = Some n → (0 ≤ n ≤ u64_max)%Z;
  ok_timestamp : (i64_min ≤ timestamp p ≤ i64_max)%Z;
  ok_exe : is_utf8 (exe p) = true;
  ok_strings : Forall utf8_opt [namespace p; pod_name p; pod_uid p; container_id p;
                                container_name p; signal_name p; manifest_key p; error p];
}.

(** ** [send_capture_event]

    The steps that can fail, and the datagrams at the socket. *)
Section send.
Context {J : JsonText}.
Inductive send_fault := NoSocket | NonBlockingFails | SendFails.

Definition send_capture_event (socket_path : option bytes) (fault : option send_fault)
    (payload : CaptureEventPayload) (queue : list (bytes * bytes)) : list (bytes * bytes) :=
  match socket_path with
  | None => queue
  | Some path =>
      let bs := text_to_vec (Obj (ser_payload payload)) in
      match fault with
      | Some NoSocket => queue
      | Some NonBlockingFails => queue
      | Some SendFails => queue
      | None => queue ++ [(path, bs)]
      end
  end.
End send.

(** ** Lemmas *)

#[global] Instance serde_outcome : Serde (λ _, True) ser_outcome de_outcome.
Proof. by intros []. Qed.

Lemma de_payload_ser p : payload_ok p → de_payload_fields (ser_payload p) = Some p.
Proof.
  intros [Hh Hs Hc Hst Ht _ _]. unfold de_payload_fields.
  assert (∀ (x : option bytes), de_option de_string (ser_option Str x) = Some x) as Hopt.
  { intros x. by apply (de_option_ser (λ _, True)). }
  assert (de_option de_u64 (ser_option Num (stored_bytes p)) = Some (stored_bytes p)) as Hopt'.
  { apply (de_option_ser (λ n, 0 ≤ n ≤ u64_max)%Z); [apply _|apply _|done]. }
  assert (de_i32 (Num (host_pid p)) = Some (host_pid p)) as Hpid by by apply serde_int.
  assert (de_i32 (Num (signal p)) = Some (signal p)) as Hsig by by apply serde_int.
  assert (de_u64 (Num (core_bytes p)) = Some (core_bytes p)) as Hcb by by apply serde_int.
  assert (de_i64 (Num (timestamp p)) = Some (timestamp p)) as Hts by by apply serde_int.
  assert (de_outcome (ser_outcome (outcome p)) = Some (outcome p)) as Hout
    by by apply serde_outcome.
  repeat de_field. by destruct p.
Qed.

(** A payload written as the array of its fields reads as well, but not without the
    last one, which has no default. *)
Lemma de_payload_positional p : payload_ok p → de_payload (Arr (ser_payload p).*2) = Some p.
Proof. intros Hp. unfold de_payload. rewrite de_struct_positional by done. by apply de_payload_ser. Qed.

Lemma wf_ser_payload p : payload_ok p → wf_value (Obj (ser_payload p)) = true.
Proof.
  intros [Hh Hs Hc Hst Ht He Hstr]. repeat (apply Forall_cons in Hstr as [? Hstr]).
  apply wf_obj; [by apply (bool_decide_eq_true_1 _)|].
  unfold ser_payload. repeat (apply Forall_cons_2 || apply Forall_nil_2);
    (split; [reflexivity|]); cbn [snd]; try done; try (by apply wf_opt_str);
    try (by destruct (outcome p)); try (by eapply wf_num). by eapply wf_opt_num.
Qed.

Lemma de_payload_ext kvs extra :
  Forall (λ k, k ∉ extra.*1) payload_keys →
  de_payload_fields (kvs ++ extra) = de_payload_fields kvs.
Proof.
  intros Hk. unfold payload_keys in Hk. repeat (apply Forall_cons in Hk as [? Hk]).
  unfold de_payload_fields, optional, defaulted, required. by rewrite !field_or_ext.
Qed.

(** What the daemon reads from a handler of the first release. *)
Definition first_release (p : CaptureEventPayload) : CaptureEventPayload :=
  mkPayload (namespace p) (pod_name p) (pod_uid p) None (container_name p) 0 [] (signal p)
    (signal_name p) (outcome p) (manifest_key p) 0 (stored_bytes p) false None (timestamp p).

(** What the handler sends is what the daemon reads: serializing a payload,
    writing it as JSON text, parsing the text and deserializing it gives the
    payload back, for every outcome. *)
Theorem payload_roundtrip {J : JsonText} {JL : JsonTextLaws J} p :
  payload_ok p →
  text_from_slice (text_to_vec (Obj (ser_payload p))) ≫= de_payload = Some p.
Proof.
  intros Hp. rewrite text_roundtrip by by apply wf_ser_payload. by apply de_payload_ser.
Qed.

Definition sample_payload : CaptureEventPayload :=
  mkPayload (Some (b! "default")) (Some (b! "my-pod")) (Some (b! "abc-123")) (Some (b! "def456"))
    (Some (b! "app")) 4242 (b! "server") 11 (Some (b! "SIGSEGV")) Uploaded
    (Some (b! "local/abc-123/def456/1234567890-manifest.json")) 4096 (Some 1024%Z) false None
    1749600000.

Lemma sample_payload_ok : payload_ok sample_payload.
Proof.
  split; [done|done|done|by intros n [= <-]|done|reflexivity|].
  repeat (apply Forall_cons_2 || apply Forall_nil_2); intros s; try done;
    by intros <-%(inj Some).
Qed.

Lemma payload_roundtrip_witness :
  text_from_slice (JsonText := token_text) (text_to_vec (JsonText := token_text)
    (Obj (ser_payload sample_payload))) ≫= de_payload = Some sample_payload.
Proof. apply (payload_roundtrip (JL := token_text_laws)). apply sample_payload_ok. Defined.

(** During an upgrade the daemon understands older and newer handlers: a message
    with only the first release's fields, and any fields the daemon does not
    know, is read with the defaults for what was added since. *)
Theorem payload_upgrade_compatible p extra :
  payload_ok p → Forall (λ k, k ∉ extra.*1) payload_keys →
  de_payload (Obj (filter (λ kv, kv.1 ∈ first_release_keys) (ser_payload p) ++ extra))
  = Some (first_release p).
Proof.
  intros [Hh Hs Hc Hst Ht _ _] Hk. cbn [de_payload de_struct]. rewrite de_payload_ext by done.
  assert (∀ (x : option bytes), de_option de_string (ser_option Str x) = Some x) as Hopt.
  { intros x. by apply (de_option_ser (λ _, True)). }
  assert (de_option de_u64 (ser_option Num (stored_bytes p)) = Some (stored_bytes p)) as Hopt'.
  { apply (de_option_ser (λ n, 0 ≤ n ≤ u64_max)%Z); [apply _|apply _|done]. }
  assert (de_i32 (Num (signal p)) = Some (signal p)) as Hsig by by apply serde_int.
  assert (de_i64 (Num (timestamp p)) = Some (timestamp p)) as Hts by by apply serde_int.
  assert (de_outcome (ser_outcome (outcome p)) = Some (outcome p)) as Hout
    by by apply serde_outcome.
  unfold de_payload_fields.
  repeat first [de_field | eapply field_bind; [reflexivity|]]. reflexivity.
Qed.

Lemma payload_upgrade_compatible_witness :
  de_payload (Obj (filter (λ kv, kv.1 ∈ first_release_keys) (ser_payload sample_payload)
                   ++ [(b! "core_sha256", Null)]))
  = Some (first_release sample_payload).
Proof.
  apply payload_upgrade_compatible; [apply sample_payload_ok|].
  by apply (bool_decide_eq_true_1 _).
Defined.

End Events.
