(* ===== verification/Manifest.v ===== *)
(** * [src/manifest.rs]: the manifest sidecar

    The record stored next to each core, with its serialization. *)

From S2P Require Import Prelude RustStr Json.
Import Json.

Module Manifest.

Record CoreRef := mkCoreRef {
  present : bool;
  object_key : option bytes;
  sha256 : option bytes;
  size_bytes : option Z;
  stored_bytes : option Z;
  truncated : bool;
  truncated_reason : option bytes;
  skipped_reason : option bytes;
  codec : bytes;
}.

Record ProcSnapshotRef := mkSnapshotRef {
  ps_object_key : bytes;
  ps_truncated : bool;
  file_count : Z;
}.

Record ManifestIdentity := mkIdentity {
  mi_pod_uid : bytes;
  mi_container_id : bytes;
  mi_namespace : option bytes;
  mi_pod_name : option bytes;
  mi_container_name : option bytes;
  mi_image : option bytes;
  mi_image_digest : option bytes;
  mi_restart_count : option Z;
}.

Record Manifest := mkManifest {
  schema_version : Z;
  captured_at : bytes;
  cluster : bytes;
  node : bytes;
  m_signal : Z;
  m_signal_name : option bytes;
  m_exe : bytes;
  m_build_id : option bytes;
  identity : ManifestIdentity;
  core : CoreRef;
  proc_snapshot : option ProcSnapshotRef;
}.

(** ** The derived [Serialize] *)

Definition ser_core_ref (c : CoreRef) : Value :=
  Obj ([(b! "present", Bool (present c));
        (b! "object_key", ser_option Str (object_key c));
        (b! "sha256", ser_option Str (sha256 c));
        (b! "size_bytes", ser_option Num (size_bytes c));
        (b! "stored_bytes", ser_option Num (stored_bytes c));
        (b! "truncated", Bool (truncated c))]
       ++ ser_skip Str (b! "truncated_reason") (truncated_reason c)
       ++ ser_skip Str (b! "skipped_reason") (skipped_reason c)
       ++ [(b! "codec", Str (codec c))]).

Definition ser_snapshot_ref (r : ProcSnapshotRef) : Value :=
  Obj [(b! "object_key", Str (ps_object_key r));
       (b! "truncated", Bool (ps_truncated r));
       (b! "file_count", Num (file_count r))].

Definition ser_identity (i : ManifestIdentity) : Value :=
  Obj [(b! "pod_uid", Str (mi_pod_uid i));
       (b! "container_id", Str (mi_container_id i));
       (b! "namespace", ser_option Str (mi_namespace i));
       (b! "pod_name", ser_option Str (mi_pod_name i));
       (b! "container_name", ser_option Str (mi_container_name i));
       (b! "image", ser_option Str (mi_image i));
       (b! "image_digest", ser_option Str (mi_image_digest i));
       (b! "restart_count", ser_option Num (mi_restart_count i))].

Definition ser_manifest (m : Manifest) : Value :=
  Obj [(b! "schema_version", Num (schema_version m));
       (b! "captured_at", Str (captured_at m));
       (b! "cluster", Str (cluster m));
       (b! "node", Str (node m));
       (b! "signal", Num (m_signal m));
       (b! "signal_name", ser_option Str (m_signal_name m));
       (b! "exe", Str (m_exe m));
       (b! "build_id", ser_option Str (m_build_id m));
       (b! "identity", ser_identity (identity m));
       (b! "core", ser_core_ref (core m));
       (b! "proc_snapshot", ser_option ser_snapshot_ref (proc_snapshot m))].

(** ** The derived [Deserialize] *)

Definition core_ref_keys : list bytes :=
  [b! "present"; b! "object_key"; b! "sha256"; b! "size_bytes"; b! "stored_bytes";
   b! "truncated"; b! "truncated_reason"; b! "skipped_reason"; b! "codec"].
Definition de_core_ref : de CoreRef :=
  de_struct core_ref_keys [b! "truncated_reason"; b! "skipped_reason"] (λ kvs,
    present ← required de_bool (b! "present") kvs;
    object_key ← optional de_string (b! "object_key") kvs;
    sha256 ← optional de_string (b! "sha256") kvs;
    size_bytes ← optional de_u64 (b! "size_bytes") kvs;
    stored_bytes ← optional de_u64 (b! "stored_bytes") kvs;
    truncated ← required de_bool (b! "truncated") kvs;
    truncated_reason ← defaulted None (de_option de_string) (b! "truncated_reason") kvs;
    skipped_reason ← defaulted None (de_option de_string) (b! "skipped_reason") kvs;
    codec ← required de_string (b! "codec") kvs;
    Some (mkCoreRef present object_key sha256 size_bytes stored_bytes truncated
            truncated_reason skipped_reason codec)).

Definition snapshot_ref_keys : list bytes :=
  [b! "object_key"; b! "truncated"; b! "file_count"].
Definition de_snapshot_ref : de ProcSnapshotRef :=
  de_struct snapshot_ref_keys [] (λ kvs,
    object_key ← required de_string (b! "object_key") kvs;
    truncated ← required de_bool (b! "truncated") kvs;
    file_count ← required de_u64 (b! "file_count") kvs;
    Some (mkSnapshotRef object_key truncated file_count)).

Definition identity_keys : list bytes :=
  [b! "pod_uid"; b! "container_id"; b! "namespace"; b! "pod_name"; b! "container_name";
   b! "image"; b! "image_digest"; b! "restart_count"].
Definition de_identity : de ManifestIdentity :=
  de_struct identity_keys [] (λ kvs,
    pod_uid ← required de_string (b! "pod_uid") kvs;
    container_id ← required de_string (b! "container_id") kvs;
    namespace ← optional de_string (b! "namespace") kvs;
    pod_name ← optional de_string (b! "pod_name") kvs;
    container_name ← optional de_string (b! "container_name") kvs;
    image ← optional de_string (b! "image") kvs;
    image_digest ← optional de_string (b! "image_digest") kvs;
    restart_count ← optional de_u32 (b! "restart_count") kvs;
    Some (mkIdentity pod_uid container_id namespace pod_name container_name image
            image_digest restart_count)).

Definition manifest_keys : list bytes :=
  [b! "schema_version"; b! "captured_at"; b! "cluster"; b! "node"; b! "signal";
   b! "signal_name"; b! "exe"; b! "build_id"; b! "identity"; b! "core"; b! "proc_snapshot"].
Definition de_manifest : de Manifest :=
  de_struct manifest_keys [] (λ kvs,
    schema_version ← required de_u32 (b! "schema_version") kvs;
    captured_at ← required de_string (b! "captured_at") kvs;
    cluster ← required de_string (b! "cluster") kvs;
    node ← required de_string (b! "node") kvs;
    signal ← required de_i32 (b! "signal") kvs;
    signal_name ← optional de_string (b! "signal_name") kvs;
    exe ← required de_string (b! "exe") kvs;
    build_id ← optional de_string (b! "build_id") kvs;
    identity ← required de_identity (b! "identity") kvs;
    core ← required de_core_ref (b! "core") kvs;
    proc_snapshot ← optional de_snapshot_ref (b! "proc_snapshot") kvs;
    Some (mkManifest schema_version captured_at cluster node signal signal_name exe build_id
            identity core proc_snapshot)).

(** ** The machine types of the fields *)

Definition u64_opt (x : option Z) : Prop := ∀ n, x = Some n → (0 ≤ n ≤ u64_max)%Z.
Definition u32_opt (x : option Z) : Prop := ∀ n, x = Some n → (0 ≤ n ≤ u32_max)%Z.

Definition core_ref_ok (c : CoreRef) : Prop := u64_opt (size_bytes c) ∧ u64_opt (stored_bytes c).
Definition snapshot_ref_ok (r : ProcSnapshotRef) : Prop := (0 ≤ file_count r ≤ u64_max)%Z.
Definition manifest_ok (m : Manifest) : Prop :=
  (0 ≤ schema_version m ≤ u32_max)%Z ∧ (i32_min ≤ m_signal m ≤ i32_max)%Z
  ∧ u32_opt (mi_restart_count (identity m)) ∧ core_ref_ok (core m)
  ∧ ∀ r, proc_snapshot m = Some r → snapshot_ref_ok r.

(** ** Round trip *)

Lemma opt_str (x : option bytes) : de_option de_string (ser_option Str x) = Some x.
Proof. by apply (de_option_ser (λ _, True)). Qed.
Lemma opt_u64 x : u64_opt x → de_option de_u64 (ser_option Num x) = Some x.
Proof. apply (de_option_ser (λ n, 0 ≤ n ≤ u64_max)%Z); apply _. Qed.
Lemma opt_u32 x : u32_opt x → de_option de_u32 (ser_option Num x) = Some x.
Proof. apply (de_option_ser (λ n, 0 ≤ n ≤ u32_max)%Z); apply _. Qed.

#[global] Instance serde_snapshot_ref : Serde snapshot_ref_ok ser_snapshot_ref de_snapshot_ref.
Proof.
  intros r Hr. assert (de_u64 (Num (file_count r)) = Some (file_count r)) by by apply serde_int.
  cbn [de_snapshot_ref ser_snapshot_ref de_struct]. repeat de_field. by destruct r.
Qed.
#[global] Instance not_null_snapshot_ref : NotNull ser_snapshot_ref.
Proof. done. Qed.

#[global] Instance serde_identity :
  Serde (λ i, u32_opt (mi_restart_count i)) ser_identity de_identity.
Proof.
  intros i Hi. pose proof opt_str. pose proof (opt_u32 _ Hi).
  cbn [de_identity ser_identity de_struct]. repeat de_field. by destruct i.
Qed.

#[global] Instance serde_core_ref : Serde core_ref_ok ser_core_ref de_core_ref.
Proof.
  intros c [Hs Ht]. pose proof opt_str. pose proof (opt_u64 _ Hs). pose proof (opt_u64 _ Ht).
  unfold de_core_ref, ser_core_ref, de_struct.
  destruct c as [p ok sh sz st tr [rt|] [rs|] co]; cbn [ser_skip app truncated_reason skipped_reason];
    repeat first [de_field | eapply field_bind; [reflexivity|]]; reflexivity.
Qed.

(** A manifest reads back as it was written, whichever of its optional fields are
    absent or skipped. *)
Lemma de_ser_manifest m : manifest_ok m → de_manifest (ser_manifest m) = Some m.
Proof.
  intros (Hv & Hsig & Hrc & Hcore & Hps). pose proof opt_str.
  assert (de_u32 (Num (schema_version m)) = Some (schema_version m)) by by apply serde_int.
  assert (de_i32 (Num (m_signal m)) = Some (m_signal m)) by by apply serde_int.
  assert (de_identity (ser_identity (identity m)) = Some (identity m)) by by apply serde_identity.
  assert (de_core_ref (ser_core_ref (core m)) = Some (core m)) by by apply serde_core_ref.
  assert (de_option de_snapshot_ref (ser_option ser_snapshot_ref (proc_snapshot m))
          = Some (proc_snapshot m)) by (apply (de_option_ser snapshot_ref_ok); [apply _|apply _|done]).
  cbn [de_manifest ser_manifest de_struct]. repeat de_field. by destruct m.
Qed.

(** ** The text of a manifest *)

(** Every string of a manifest is text. *)
Definition manifest_text (m : Manifest) : Prop :=
  Forall (λ s, is_utf8 s = true)
    [captured_at m; cluster m; node m; m_exe m; mi_pod_uid (identity m);
     mi_container_id (identity m); codec (core m)]
  ∧ Forall utf8_opt
    [m_signal_name m; m_build_id m; mi_namespace (identity m); mi_pod_name (identity m);
     mi_container_name (identity m); mi_image (identity m); mi_image_digest (identity m);
     object_key (core m); sha256 (core m); truncated_reason (core m); skipped_reason (core m)]
  ∧ ∀ r, proc_snapshot m = Some r → is_utf8 (ps_object_key r) = true.

Ltac wf_fields :=
  apply wf_obj; [by apply (bool_decide_eq_true_1 _)|];
  repeat (apply Forall_cons_2 || apply Forall_nil_2); (split; [reflexivity|cbn [snd]]).

Lemma wf_ser_snapshot_ref r :
  snapshot_ref_ok r → is_utf8 (ps_object_key r) = true → wf_value (ser_snapshot_ref r) = true.
Proof. intros Hr Hk. unfold ser_snapshot_ref. wf_fields; try done. by eapply wf_num. Qed.

Lemma wf_ser_core_ref c :
  core_ref_ok c → is_utf8 (codec c) = true →
  Forall utf8_opt [object_key c; sha256 c; truncated_reason c; skipped_reason c] →
  wf_value (ser_core_ref c) = true.
Proof.
  intros [Hs Ht] Hc Hf. repeat (apply Forall_cons in Hf as [? Hf]). unfold ser_core_ref.
  destruct (truncated_reason c), (skipped_reason c); cbn [ser_skip app];
    wf_fields; try done; eauto using wf_opt_str; by eapply wf_opt_num.
Qed.

Lemma wf_ser_manifest m : manifest_ok m → manifest_text m → wf_value (ser_manifest m) = true.
Proof.
  intros (Hv & Hsig & Hrc & Hcore & Hps) (Hs & Ho & Hk).
  repeat (apply Forall_cons in Hs as [? Hs]). repeat (apply Forall_cons in Ho as [? Ho]).
  unfold ser_manifest. wf_fields; try done; try (by apply wf_opt_str); try (by eapply wf_num).
  - unfold ser_identity. wf_fields; try done; try (by apply wf_opt_str). by eapply wf_opt_num.
  - apply wf_ser_core_ref; [done..|]. by repeat (apply Forall_cons_2 || apply Forall_nil_2).
  - destruct (proc_snapshot m) as [r|]; [|done]. apply wf_ser_snapshot_ref; auto.
Qed.

(** A stored manifest reads back. *)
Lemma manifest_reads_back {J : JsonText} {JL : JsonTextLaws J} m :
  manifest_ok m → manifest_text m →
  text_from_slice (text_to_vec_pretty (ser_manifest m)) ≫= de_manifest = Some m.
Proof.
  intros Hok Ht. rewrite text_roundtrip_pretty by by apply wf_ser_manifest. cbn [mbind option_bind].
  by apply de_ser_manifest.
Qed.

Definition sample_manifest : Manifest :=
  mkManifest 1 (b! "2025-06-11T00:00:00+00:00") (b! "local") (b! "node-1") 11
    (Some (b! "SIGSEGV")) (b! "!usr!bin!app") None
    (mkIdentity (b! "abc-123") (b! "def456") None None None None None (Some 2%Z))
    (mkCoreRef false None None None None true (Some (b! "stream_error")) (Some (b! "rate_limit"))
       (b! "zstd"))
    (Some (mkSnapshotRef (b! "k") false 9)).

(** The positional form of a snapshot reference; all of its fields are required. *)
Example snapshot_ref_positional :
  de_snapshot_ref (Arr [Str (b! "k"); Bool false; Num 9]) = Some (mkSnapshotRef (b! "k") false 9)
  ∧ de_snapshot_ref (Arr [Str (b! "k"); Bool false]) = None
  ∧ de_snapshot_ref (Arr [Str (b! "k"); Bool false; Num 9; Null]) = None.
Proof. by vm_compute. Qed.

Example sample_roundtrip : de_manifest (ser_manifest sample_manifest) = Some sample_manifest.
Proof. vm_compute. reflexivity. Qed.

End Manifest.
