(* ===== verification/Snapshot.v ===== *)
(** * [src/snapshot.rs]: the pre-reap [/proc] snapshot

    What the handler reads of a faulting process and the tar it renders. The
    file system is a parameter; the tar writer is one with its documented
    behaviour as a law. *)

From Stdlib Require Import Sorting.Sorted.
From S2P Require Import Prelude RustStr Redact BuildId.

Module Snapshot.

Definition MAX_FILE_BYTES : Z := 8 * 1024 * 1024.
Definition MAX_FD_ENTRIES : Z := 10000.
Definition SIMPLE_FILES : list bytes :=
  [b! "maps"; b! "smaps"; b! "status"; b! "limits"; b! "stack"].

Record SnapshotFile := mkFile { name : bytes; data : bytes; truncated : bool }.
Record ProcSnapshot := mkSnapshot {
  host_pid : Z;
  build_id : option bytes;
  files : list SnapshotFile;
}.

(** ** The file system

    A file that opens: the bytes reading it yields, and whether a read error
    follows them. A directory entry that cannot be read is [None]. *)
Record OpenFile := mkOpen { content : bytes; read_error : bool }.
Record Fs := mkFs {
  fs_open : bytes → option OpenFile;
  fs_read_link : bytes → option bytes;
  fs_read_dir : bytes → option (list (option bytes));
}.

(** [file.take(n).read_to_end(&mut buf)]: an error past the limit is not seen. *)
Definition read_up_to (n : Z) (f : OpenFile) : option bytes :=
  if decide (n ≤ Z.of_nat (length (content f)))%Z then Some (takeZ n (content f))
  else if read_error f then None else Some (content f).

(** [std::fs::read_to_string] *)
Definition read_to_string (fs : Fs) (path : bytes) : option bytes :=
  f ← fs_open fs path; if read_error f then None else from_utf8 (content f).

Section snapshot.
Context (log2 : Redact.f64 → Redact.f64) (fs : Fs).

(** ** Reading *)

Definition read_capped (path : bytes) : option (bytes * bool) :=
  file ← fs_open fs path;
  buf ← read_up_to (MAX_FILE_BYTES + 1) file;
  let truncated := bool_decide (MAX_FILE_BYTES < Z.of_nat (length buf))%Z in
  Some (if truncated then takeZ MAX_FILE_BYTES buf else buf, truncated).

(** [entries.sort_by_key]: stable. *)
Fixpoint insert_by_key (x : Z * bytes) (l : list (Z * bytes)) : list (Z * bytes) :=
  match l with
  | [] => [x]
  | y :: l' => if decide (x.1 ≤ y.1)%Z then x :: l else y :: insert_by_key x l'
  end.
Definition sort_by_key (l : list (Z * bytes)) : list (Z * bytes) := foldr insert_by_key [] l.

Definition fd_entry (fd_dir name : bytes) : Z * bytes :=
  let shown := to_string_lossy name in
  let num := default u64_max (parse_u64 shown) in
  let target := from_option to_string_lossy (b! "<unreadable>")
                  (fs_read_link fs (path_join fd_dir name)) in
  (num, shown ++ b! " -> " ++ target).

(** The loop over the directory: every readable entry counts, the first
    [MAX_FD_ENTRIES] are kept. *)
Fixpoint fd_loop (fd_dir : bytes) (dirents : list (option bytes))
    (entries : list (Z * bytes)) (total : Z) : list (Z * bytes) * Z :=
  match dirents with
  | [] => (entries, total)
  | None :: dirents => fd_loop fd_dir dirents entries total
  | Some name :: dirents =>
      let total := (total + 1)%Z in
      if bool_decide (MAX_FD_ENTRIES ≤ Z.of_nat (length entries))%Z
      then fd_loop fd_dir dirents entries total
      else fd_loop fd_dir dirents (entries ++ [fd_entry fd_dir name]) total
  end.

Definition read_fd_listing (fd_dir : bytes) : option (bytes * bool) :=
  dirents ← fs_read_dir fs fd_dir;
  let '(entries, total) := fd_loop fd_dir dirents [] 0 in
  let lines := (sort_by_key entries).*2 in
  let shown := Z.of_nat (length lines) in
  let truncated := bool_decide (shown < total)%Z in
  let lines := if truncated
               then lines ++ [b! "... showing " ++ to_string shown ++ b! " of "
                              ++ to_string total ++ b! " fds"]
               else lines in
  Some (join [x0a] lines, truncated).

(** ** [ProcSnapshot::capture] *)

Definition push_if (name : bytes) (f : bytes → bytes) (r : option (bytes * bool))
    : list SnapshotFile :=
  match r with Some (raw, truncated) => [mkFile name (f raw) truncated] | None => [] end.

(** In a release build, where [build_id_total] rules the other outcomes out. *)
Definition build_id_of (path : bytes) : option bytes :=
  match BuildId.build_id_from_path false
          match f ← fs_open fs path; read_up_to BuildId.MAX_ELF_PREFIX f with
          | Some bs => Ok bs
          | None => Err tt
          end with
  | BuildId.Ret v => v
  | _ => None
  end.

Definition capture (proc_root : bytes) (pid : Z) (redactor : Redact.Redactor) : ProcSnapshot :=
  let base := path_join proc_root (to_string pid) in
  let simple := concat (map (λ n, push_if n id (read_capped (path_join base n))) SIMPLE_FILES) in
  let environ := push_if (b! "environ") (Redact.redact_environ log2 redactor)
                   (read_capped (path_join base (b! "environ"))) in
  let cmdline := push_if (b! "cmdline") (Redact.redact_cmdline log2 redactor)
                   (read_capped (path_join base (b! "cmdline"))) in
  let fd := push_if (b! "fd") id (read_fd_listing (path_join base (b! "fd"))) in
  let exe := match fs_read_link fs (path_join base (b! "exe")) with
             | Some target => [mkFile (b! "exe") (to_string_lossy target) false]
             | None => []
             end in
  mkSnapshot pid (build_id_of (path_join base (b! "exe")))
    (simple ++ environ ++ cmdline ++ fd ++ exe).

End snapshot.

(** ** The tar *)

Record Header := mkHeader { h_size : Z; h_mode : Z; h_mtime : Z }.
Definition tar_entry := (bytes * Header * bytes)%type.

(** [tar::Builder]; [tar_read] is what a tar reader sees. *)
Class Tar := {
  tb : Type;
  tb_new : tb;
  tb_append_data : tb → Header → bytes → bytes → option tb;
  tb_into_inner : tb → option bytes;
  tar_read : bytes → option (list tar_entry);
}.

Fixpoint tar_append_all {T : Tar} (b : tb) (es : list tar_entry) : option tb :=
  match es with
  | [] => Some b
  | (n, h, d) :: es => b ← tb_append_data b h n d; tar_append_all b es
  end.

(** Entries whose header has the size of their data read back in order. *)
Class TarLaws (T : Tar) : Prop :=
  tar_roundtrip es b bs :
    Forall (λ '(n, h, d), h_size h = Z.of_nat (length d)) es →
    tar_append_all tb_new es = Some b → tb_into_inner b = Some bs → tar_read bs = Some es.

Section tar.
Context `{T : Tar}.

Definition append_tar (b : tb) (name bs : bytes) : option tb :=
  tb_append_data b (mkHeader (Z.of_nat (length bs)) 384 0) name bs.

Fixpoint append_files (b : tb) (fs : list SnapshotFile) : option tb :=
  match fs with
  | [] => Some b
  | f :: fs => b ← append_tar b (name f) (data f); append_files b fs
  end.

Definition truncated_names (s : ProcSnapshot) : list bytes :=
  name <$> filter (λ f, truncated f = true) (files s).

Definition to_tar (s : ProcSnapshot) : option bytes :=
  b ← append_files tb_new (files s);
  b ← (if bool_decide (truncated_names s = []) then Some b
       else append_tar b (b! "TRUNCATED") (join [x0a] (truncated_names s)));
  tb_into_inner b.

Definition entry_of (name bs : bytes) : tar_entry :=
  (name, mkHeader (Z.of_nat (length bs)) 384 0, bs).

(** The entries the tar of a snapshot has. *)
Definition snapshot_entries (s : ProcSnapshot) : list tar_entry :=
  map (λ f, entry_of (name f) (data f)) (files s)
  ++ (if bool_decide (truncated_names s = []) then []
      else [entry_of (b! "TRUNCATED") (join [x0a] (truncated_names s))]).

Lemma tar_append_all_app b es1 es2 :
  tar_append_all b (es1 ++ es2) = tar_append_all b es1 ≫= λ b, tar_append_all b es2.
Proof.
  revert b. induction es1 as [|[[n h] d] es1 IH]; intros b; [done|]. cbn.
  destruct (tb_append_data b h n d); [apply IH|done].
Qed.

Lemma append_files_all b fs :
  append_files b fs = tar_append_all b (map (λ f, entry_of (name f) (data f)) fs).
Proof.
  revert b. induction fs as [|f fs IH]; intros b; [done|]. cbn.
  unfold append_tar. destruct (tb_append_data _ _ _ _); [apply IH|done].
Qed.

Lemma to_tar_entries s bs :
  to_tar s = Some bs →
  ∃ b, tar_append_all tb_new (snapshot_entries s) = Some b ∧ tb_into_inner b = Some bs.
Proof.
  unfold to_tar, snapshot_entries. rewrite append_files_all, tar_append_all_app.
  destruct (tar_append_all tb_new _) as [b|]; [|done]. cbn. case_bool_decide; cbn; [eauto|].
  unfold append_tar. destruct (tb_append_data _ _ _ _) as [b'|]; [|done]. cbn. eauto.
Qed.
End tar.

(** ** Lemmas *)

Lemma read_up_to_ok n f bs :
  (0 ≤ n)%Z → read_up_to n f = Some bs → bs = takeZ n (content f).
Proof.
  intros Hn. unfold read_up_to. case_decide; [congruence|].
  destruct (read_error f); [done|]. intros [= <-]. symmetry. apply takeZ_all. lia.
Qed.

(** A capped read: a prefix of the file, marked exactly when the file is longer. *)
Lemma read_capped_spec fs path bs tr :
  read_capped fs path = Some (bs, tr) →
  ∃ f, fs_open fs path = Some f ∧ bs = takeZ MAX_FILE_BYTES (content f)
       ∧ tr = bool_decide (MAX_FILE_BYTES < Z.of_nat (length (content f)))%Z.
Proof.
  unfold read_capped. destruct (fs_open fs path) as [f|]; [|done]. cbn.
  destruct (read_up_to _ f) as [buf|] eqn:E; [|done]. cbn. intros [= <- <-].
  apply read_up_to_ok in E as ->; [|done]. exists f. split; [done|].
  rewrite length_takeZ by done. unfold MAX_FILE_BYTES.
  repeat case_bool_decide; try lia; (split; [|done]).
  - by apply takeZ_takeZ.
  - rewrite !takeZ_all by lia. done.
Qed.

Lemma insert_by_key_perm x l : insert_by_key x l ≡ₚ x :: l.
Proof.
  induction l as [|y l IH]; cbn; [done|]. case_decide; [done|].
  rewrite IH. constructor.
Qed.

Lemma sort_by_key_perm l : sort_by_key l ≡ₚ l.
Proof. induction l as [|x l IH]; cbn; [done|]. by rewrite insert_by_key_perm, IH. Qed.

Definition by_key (x y : Z * bytes) : Prop := (x.1 ≤ y.1)%Z.

Lemma insert_by_key_sorted x l :
  StronglySorted by_key l → StronglySorted by_key (insert_by_key x l).
Proof.
  induction 1 as [|y l Hs IH Hy]; cbn; [by repeat constructor|].
  case_decide as Hle.
  - constructor; [by constructor|]. constructor; [done|].
    eapply Forall_impl; [exact Hy|]. unfold by_key. cbn. intros z ?. lia.
  - constructor; [done|]. rewrite insert_by_key_perm. constructor; [|done].
    unfold by_key. lia.
Qed.

Lemma sort_by_key_sorted l : StronglySorted by_key (sort_by_key l).
Proof.
  induction l as [|x l IH]; cbn; [constructor|]. by apply insert_by_key_sorted.
Qed.

(** The entries the loop keeps: the first [MAX_FD_ENTRIES] readable ones. *)
Lemma fd_loop_spec fs dir ds entries total :
  (Z.of_nat (length entries) ≤ MAX_FD_ENTRIES)%Z →
  fd_loop fs dir ds entries total =
  let names := omap id ds in
  (entries ++ map (fd_entry fs dir) (takeZ (MAX_FD_ENTRIES - Z.of_nat (length entries)) names),
   (total + Z.of_nat (length names))%Z).
Proof.
  revert entries total. induction ds as [|[n|] ds IH]; intros entries total Hl; cbn [fd_loop].
  - change (omap id []) with (@nil bytes). cbv zeta. rewrite takeZ_nil. cbn [map length].
    by rewrite app_nil_r, Z.add_0_r.
  - change (omap id (Some n :: ds)) with (n :: omap id ds). cbv zeta. case_bool_decide as Hm.
    + rewrite IH by done. cbv zeta. replace (MAX_FD_ENTRIES - Z.of_nat (length entries))%Z with 0%Z by lia.
      rewrite !takeZ_0. cbn [length]. f_equal. lia.
    + rewrite IH by (rewrite length_app; cbn; lia). cbn [length]. f_equal; [|lia].
      rewrite <- app_assoc. f_equal. rewrite length_app. unfold takeZ. cbn [length].
      replace (Z.to_nat (Z.min (MAX_FD_ENTRIES - Z.of_nat (length entries))
                               (Z.of_nat (S (length (omap id ds))))))
        with (S (Z.to_nat (Z.min (MAX_FD_ENTRIES - Z.of_nat (length entries + 1))
                                 (Z.of_nat (length (omap id ds)))))) by lia.
      done.
  - by apply IH.
Qed.

Lemma takeZ_fmap {A B} (f : A → B) n l : takeZ n (f <$> l) = f <$> takeZ n l.
Proof. unfold takeZ. by rewrite length_fmap, fmap_take. Qed.

(** ** An in-memory tar, for the examples *)
Module MemTar.
(** Entries are written as numbers in decimal, one per line. *)
#[global] Instance mem_tar : Tar := {
  tb := list tar_entry;
  tb_new := [];
  tb_append_data b h n d := Some (b ++ [(n, h, d)]);
  tb_into_inner b := Some (to_string (Zpos (encode
      (map (λ '(n, h, d), (n, (h_size h, (h_mode h, h_mtime h)), d)) b))));
  tar_read bs := z ← parse_digits bs;
    match z with
    | Zpos p => map (λ '(n, (s, (m, t)), d), (n, mkHeader s m t, d)) <$> decode p
    | _ => None
    end;
}.
#[global] Instance mem_tar_laws : TarLaws mem_tar.
Proof.
  intros es b bs _ Hb Hi.
  assert (∀ acc, tar_append_all (T := mem_tar) acc es = Some (acc ++ es)) as Happ.
  { clear. induction es as [|[[n h] d] es IH]; intros acc; cbn; [by rewrite app_nil_r|].
    rewrite IH. by rewrite <- app_assoc. }
  change tb_new with (@nil tar_entry) in Hb. rewrite Happ in Hb. injection Hb as <-.
  cbn [tb_into_inner mem_tar app] in Hi. injection Hi as <-. cbn [tar_read mem_tar].
  rewrite parse_digits_pos. cbn. rewrite decode_encode. cbn. f_equal.
  rewrite map_map. rewrite <- (map_id es) at 2. apply map_ext. by intros [[n [s m t]] d].
Qed.
End MemTar.

(** ** Properties *)

Lemma read_capped_ok fs path f :
  fs_open fs path = Some f → read_error f = false →
  read_capped fs path = Some (takeZ MAX_FILE_BYTES (content f),
                              bool_decide (MAX_FILE_BYTES < Z.of_nat (length (content f)))%Z).
Proof.
  intros Ho He. destruct (read_capped fs path) as [[bs tr]|] eqn:E.
  - apply read_capped_spec in E as (f' & Ho' & -> & ->).
    rewrite Ho in Ho'. by injection Ho' as <-.
  - unfold read_capped, read_up_to in E. rewrite Ho in E. cbn -[takeZ MAX_FILE_BYTES] in E.
    rewrite He in E. by case_decide.
Qed.

Lemma read_capped_small fs path bs :
  fs_open fs path = Some (mkOpen bs false) → (Z.of_nat (length bs) ≤ MAX_FILE_BYTES)%Z →
  read_capped fs path = Some (bs, false).
Proof.
  intros Ho Hl. rewrite (read_capped_ok _ _ _ Ho eq_refl). cbn [content].
  rewrite takeZ_all, bool_decide_false by lia. done.
Qed.

(** A snapshot file is the file's bytes up to 8 MiB, and is marked truncated exactly
    when the file is longer: a file of exactly the cap is complete. *)
Theorem read_capped_exact fs path f :
  fs_open fs path = Some f → read_error f = false →
  read_capped fs path = Some (takeZ MAX_FILE_BYTES (content f),
                              bool_decide (MAX_FILE_BYTES < Z.of_nat (length (content f)))%Z).
Proof. apply read_capped_ok. Qed.

Lemma read_capped_exact_witness :
  read_capped (mkFs (λ _, Some (mkOpen (b! "7f00-7f01 r-xp") false)) (λ _, None) (λ _, None))
    (b! "/proc/1/maps") = Some (b! "7f00-7f01 r-xp", false).
Proof.
  rewrite (read_capped_exact _ _ (mkOpen (b! "7f00-7f01 r-xp") false)); reflexivity.
Defined.

(** What [read_fd_listing] returns on a directory it can open. *)
Lemma fd_listing_of fs dir ds :
  fs_read_dir fs dir = Some ds →
  ∃ kept, kept ≡ₚ map (fd_entry fs dir) (takeZ MAX_FD_ENTRIES (omap id ds))
    ∧ StronglySorted by_key kept
    ∧ read_fd_listing fs dir =
      let total := Z.of_nat (length (omap id ds)) in
      if bool_decide (MAX_FD_ENTRIES < total)%Z
      then Some (join [x0a] (kept.*2 ++ [b! "... showing " ++ to_string MAX_FD_ENTRIES
                   ++ b! " of " ++ to_string total ++ b! " fds"]), true)
      else Some (join [x0a] (kept.*2), false).
Proof.
  intros Hd. set (names := omap id ds).
  exists (sort_by_key (map (fd_entry fs dir) (takeZ MAX_FD_ENTRIES names))).
  split_and!; [apply sort_by_key_perm|apply sort_by_key_sorted|].
  unfold read_fd_listing. rewrite Hd. cbn [mbind option_bind]. rewrite fd_loop_spec by done.
  cbv zeta. change (Z.of_nat (length [])) with 0%Z. rewrite Z.sub_0_r, Z.add_0_l, app_nil_l.
  fold names. set (kept := sort_by_key _).
  assert (Z.of_nat (length kept.*2) = Z.min MAX_FD_ENTRIES (Z.of_nat (length names))) as Hlen.
  { unfold kept. rewrite length_fmap, sort_by_key_perm, length_map, length_takeZ; done. }
  rewrite Hlen. repeat case_bool_decide; try lia; [|done].
  by rewrite Z.min_l by lia.
Qed.

(** C21: the fd listing of a directory that can be opened has one line per kept
    descriptor ([n -> target], or [<unreadable>]), in descriptor order; it keeps
    the first ten thousand entries that could be read, in the order the directory
    returns them, skips those that could not, and is marked truncated, with a
    closing line that says how many there were, exactly when there are more. *)
Theorem fd_listing_spec fs dir ds :
  fs_read_dir fs dir = Some ds →
  ∃ kept, kept ≡ₚ map (fd_entry fs dir) (takeZ MAX_FD_ENTRIES (omap id ds))
    ∧ StronglySorted by_key kept
    ∧ read_fd_listing fs dir =
      let total := Z.of_nat (length (omap id ds)) in
      if bool_decide (MAX_FD_ENTRIES < total)%Z
      then Some (join [x0a] (kept.*2 ++ [b! "... showing " ++ to_string MAX_FD_ENTRIES
                   ++ b! " of " ++ to_string total ++ b! " fds"]), true)
      else Some (join [x0a] (kept.*2), false).
Proof. apply fd_listing_of. Qed.

(** A directory with two descriptors and an entry that vanished. *)
Definition sample_fs : Fs :=
  mkFs (λ _, None)
       (λ p, if decide (p = b! "/proc/7/fd/10") then Some (b! "/dev/null") else None)
       (λ _, Some [Some (b! "10"); None; Some (b! "3")]).

Lemma fd_listing_spec_witness :
  ∃ kept, kept ≡ₚ map (fd_entry sample_fs (b! "/proc/7/fd")) [b! "10"; b! "3"]
    ∧ StronglySorted by_key kept
    ∧ read_fd_listing sample_fs (b! "/proc/7/fd") = Some (join [x0a] (kept.*2), false).
Proof.
  apply (fd_listing_spec sample_fs (b! "/proc/7/fd") [Some (b! "10"); None; Some (b! "3")]).
  reflexivity.
Defined.

Example fd_listing_example :
  read_fd_listing sample_fs (b! "/proc/7/fd")
  = Some (b! "3 -> <unreadable>" ++ [x0a] ++ b! "10 -> /dev/null", false).
Proof. by vm_compute. Qed.

(** The uploaded tar holds every captured file with mode 0600, in order, and a
    [TRUNCATED] entry naming the capped ones when there are any. *)
Theorem snapshot_tar_contents {T : Tar} {TL : TarLaws T} s bs :
  to_tar s = Some bs → tar_read bs = Some (snapshot_entries s).
Proof.
  intros (b & Hb & Hi)%to_tar_entries. eapply tar_roundtrip; [|done|done].
  unfold snapshot_entries. apply Forall_app. split; [apply Forall_map, Forall_true; done|].
  case_bool_decide; repeat constructor.
Qed.

Definition sample_snapshot : ProcSnapshot :=
  mkSnapshot 7 None [mkFile (b! "maps") (b! "m") false; mkFile (b! "environ") (b! "A=1") true].

Lemma snapshot_tar_contents_witness :
  ∃ bs, to_tar (T := MemTar.mem_tar) sample_snapshot = Some bs
    ∧ tar_read (Tar := MemTar.mem_tar) bs
      = Some [entry_of (b! "maps") (b! "m"); entry_of (b! "environ") (b! "A=1");
              entry_of (b! "TRUNCATED") (b! "environ")].
Proof.
  eexists. split; [reflexivity|].
  apply (snapshot_tar_contents (TL := MemTar.mem_tar_laws) sample_snapshot). reflexivity.
Defined.

(** Two process trees that agree except on the contents of [environ] and [cmdline]. *)
Definition agree_except (fs1 fs2 : Fs) (p q : bytes) : Prop :=
  fs_read_link fs1 = fs_read_link fs2 ∧ fs_read_dir fs1 = fs_read_dir fs2
  ∧ ∀ path, path ≠ p → path ≠ q → fs_open fs1 path = fs_open fs2 path.

(** The files of a snapshot but for [environ] and [cmdline] do not depend on them. *)
Lemma capture_cong log2 fs1 fs2 root pid r :
  let base := path_join root (to_string pid) in
  agree_except fs1 fs2 (path_join base (b! "environ")) (path_join base (b! "cmdline")) →
  push_if (b! "environ") (Redact.redact_environ log2 r)
    (read_capped fs1 (path_join base (b! "environ")))
  = push_if (b! "environ") (Redact.redact_environ log2 r)
    (read_capped fs2 (path_join base (b! "environ"))) →
  push_if (b! "cmdline") (Redact.redact_cmdline log2 r)
    (read_capped fs1 (path_join base (b! "cmdline")))
  = push_if (b! "cmdline") (Redact.redact_cmdline log2 r)
    (read_capped fs2 (path_join base (b! "cmdline"))) →
  capture log2 fs1 root pid r = capture log2 fs2 root pid r.
Proof.
  intros base (Hl & Hd & Ho) He Hc.
  assert (∀ n, starts_with (b! "/") n = false → n ≠ b! "environ" → n ≠ b! "cmdline" →
            fs_open fs1 (path_join base n) = fs_open fs2 (path_join base n)) as Hopen.
  { intros n Hn H1 H2. apply Ho; intros Hp%path_join_inj; done. }
  assert (∀ n, n ∈ SIMPLE_FILES → read_capped fs1 (path_join base n) = read_capped fs2 (path_join base n))
    as Hsimple.
  { intros n Hn. unfold read_capped. rewrite Hopen; [done|..];
      repeat (apply elem_of_cons in Hn as [->|Hn]; [done|]); by apply not_elem_of_nil in Hn. }
  unfold capture. fold base. rewrite He, Hc. f_equal.
  - unfold build_id_of. by rewrite Hopen.
  - f_equal.
    + f_equal. apply map_ext_in. intros n Hn%list_elem_of_In. by rewrite Hsimple.
    + do 2 f_equal. rewrite Hl. f_equal. unfold read_fd_listing. rewrite Hd.
      destruct (fs_read_dir fs2 _) as [ds|]; [|done]. cbn. rewrite !fd_loop_spec by done.
      unfold fd_entry. by rewrite Hl.
Qed.

(** Two process trees that differ only in values the redactor treats as secret:
    both processes have an [environ] and a [cmdline] below the cap, and entry by
    entry these agree but for the secrets. *)
Definition differ_in_secrets (log2 : Redact.f64 → Redact.f64) (fs1 fs2 : Fs) (root : bytes) (pid : Z)
    : Prop :=
  let base := path_join root (to_string pid) in
  agree_except fs1 fs2 (path_join base (b! "environ")) (path_join base (b! "cmdline"))
  ∧ ∃ es1 es2 as1 as2,
      fs_open fs1 (path_join base (b! "environ")) = Some (mkOpen (blob es1) false)
    ∧ fs_open fs2 (path_join base (b! "environ")) = Some (mkOpen (blob es2) false)
    ∧ fs_open fs1 (path_join base (b! "cmdline")) = Some (mkOpen (blob as1) false)
    ∧ fs_open fs2 (path_join base (b! "cmdline")) = Some (mkOpen (blob as2) false)
    ∧ Forall (λ b, Z.of_nat (length b) ≤ MAX_FILE_BYTES)%Z [blob es1; blob es2; blob as1; blob as2]
    ∧ Forall entry_ok es1 ∧ Forall entry_ok es2 ∧ Forall entry_ok as1 ∧ Forall entry_ok as2
    ∧ Forall2 (Redact.publicly_equal log2 Redact.Redactor_default) es1 es2
    ∧ Redact.args_equal log2 Redact.Redactor_default false as1 as2.

(** Secrets in the process environment or command line do not reach the snapshot:
    two processes that differ only there, in values the redactor treats as
    secret, have the same snapshot. *)
Lemma snapshot_noninterference log2 fs1 fs2 root pid :
  differ_in_secrets log2 fs1 fs2 root pid →
  capture log2 fs1 root pid Redact.Redactor_default
  = capture log2 fs2 root pid Redact.Redactor_default.
Proof.
  intros (Hagree & es1 & es2 & as1 & as2 & E1 & E2 & C1 & C2 & Hlen & Hes1 & Hes2 & Has1 & Has2 & He & Ha).
  repeat (apply Forall_cons in Hlen as [? Hlen]). apply capture_cong; [done|..].
  - rewrite (read_capped_small _ _ _ E1), (read_capped_small _ _ _ E2) by done. cbn [push_if].
    by rewrite (Redact.environ_public log2 es1 es2).
  - rewrite (read_capped_small _ _ _ C1), (read_capped_small _ _ _ C2) by done. cbn [push_if].
    by rewrite (Redact.cmdline_public log2 as1 as2).
Qed.

(** A snapshot holds the simple files, [environ], [cmdline], the fd listing and [exe] at most. *)
Lemma capture_file_count log2 fs root pid r :
  length (files (capture log2 fs root pid r)) ≤ 9.
Proof.
  assert (∀ n f x, length (push_if n f x) ≤ 1) as Hp by (intros n f [[]|]; cbn; lia).
  unfold capture. cbn [files SIMPLE_FILES map concat]. rewrite !length_app.
  pose proof Hp as Hq.
  repeat match goal with |- context [length (push_if ?n ?f ?x)] =>
    let H := fresh in pose proof (Hq n f x) as H; revert H; generalize (length (push_if n f x)); intros ? ? end.
  destruct (fs_read_link _ _); cbn [length]; lia.
Qed.

Lemma capture_build_id_utf8 log2 fs root pid r id :
  build_id (capture log2 fs root pid r) = Some id → is_utf8 id = true.
Proof.
  unfold capture, build_id_of. cbn [build_id].
  destruct (BuildId.build_id_from_path _ _) as [| |v] eqn:E; [done..|]. intros ->.
  by eapply BuildId.build_id_utf8.
Qed.

(** A process tree with one environment and one command line. *)
Definition proc_fs (environ cmdline : list bytes) : Fs :=
  mkFs (λ p, if decide (p = b! "/proc/7/environ") then Some (mkOpen (blob environ) false)
             else if decide (p = b! "/proc/7/cmdline") then Some (mkOpen (blob cmdline) false)
             else if decide (p = b! "/proc/7/maps") then Some (mkOpen (b! "m") false)
             else None)
       (λ _, None) (λ _, None).

Lemma sample_secrets :
  differ_in_secrets Redact.soft_log2
    (proc_fs [b! "DB_PASSWORD=hunter2"] [b! "app"; b! "--token"; b! "x"])
    (proc_fs [b! "DB_PASSWORD=letmein"] [b! "app"; b! "--token"; b! "y"]) (b! "/proc") 7.
Proof.
  split.
  { split; [done|]. split; [done|]. intros path H1 H2. cbn [fs_open proc_fs].
    rewrite !(decide_False (P := path = b! "/proc/7/environ")) by done.
    by rewrite !(decide_False (P := path = b! "/proc/7/cmdline")) by done. }
  exists [b! "DB_PASSWORD=hunter2"], [b! "DB_PASSWORD=letmein"],
    [b! "app"; b! "--token"; b! "x"], [b! "app"; b! "--token"; b! "y"].
  do 4 (split; [reflexivity|]).
  split; [by apply (bool_decide_eq_true_1 _)|].
  do 4 (split; [repeat constructor; try done; by apply (bool_decide_eq_false_1 _)|]). split.
  - constructor; [|constructor].
    apply (Redact.pe_key _ _ (b! "DB_PASSWORD") (b! "hunter2") (b! "letmein"));
      [by apply (bool_decide_eq_false_1 _)|reflexivity..].
  - apply Redact.ae_arg; [apply Redact.pe_same|]. apply Redact.ae_arg; [apply Redact.pe_same|].
    apply Redact.ae_value, Redact.ae_nil.
Qed.

End Snapshot.
