(* ===== verification/Config.v ===== *)
(** * [src/config.rs]: the handler config file

    The daemon writes it, the kernel-exec'd handler reads it: the record, its
    serialization, its validation, the atomic replacement of the file and the
    log rendering that hides credentials. *)

From S2P Require Import Prelude RustStr Json Upload.
Import Json.

Module Config.

Definition DEFAULT_CONFIG_PATH : bytes := b! "/run/coredrop/handler.json".
Definition DEFAULT_CLUSTER : bytes := b! "local".
Definition DEFAULT_PROC_ROOT : bytes := b! "/proc".
Definition DEFAULT_CRICTL_PATH : bytes := b! "/usr/local/bin/crictl".
Definition DEFAULT_MAX_CORE_BYTES : Z := 2 * 1024 * 1024 * 1024.
Definition DEFAULT_MAX_CORES_PER_HOUR : Z := 3.
Definition DEFAULT_UPLOAD_DEADLINE_SECS : Z := 300.
Definition DEFAULT_CRICTL_TIMEOUT_SECS : Z := 10.

Definition default_rate_state_path : bytes := b! "/run/coredrop/recent.json".
Definition rate_state_path_for (config_path : bytes) : bytes :=
  from_option (λ p, path_join p (b! "recent.json")) default_rate_state_path
    (path_parent config_path).
Definition default_event_socket_path : bytes := b! "/run/coredrop/events.sock".
Definition event_socket_path_for (config_path : bytes) : bytes :=
  from_option (λ p, path_join p (b! "events.sock")) default_event_socket_path
    (path_parent config_path).

Record HandlerConfig := mkConfig {
  cluster : bytes;
  no_redact : bool;
  proc_root : bytes;
  store_url : option bytes;
  store_options : list (bytes * bytes);
  crictl_path : bytes;
  cri_runtime_endpoint : option bytes;
  max_core_bytes : Z;
  max_cores_per_hour : Z;
  upload_deadline_secs : Z;
  crictl_timeout_secs : Z;
  rate_state_path : bytes;
  event_socket_path : option bytes;
}.

(** [Default] *)
Definition default_config : HandlerConfig :=
  mkConfig DEFAULT_CLUSTER false DEFAULT_PROC_ROOT None [] DEFAULT_CRICTL_PATH None
    DEFAULT_MAX_CORE_BYTES DEFAULT_MAX_CORES_PER_HOUR DEFAULT_UPLOAD_DEADLINE_SECS
    DEFAULT_CRICTL_TIMEOUT_SECS default_rate_state_path (Some default_event_socket_path).

(** ** The [Debug] rendering

    The fields handed to [debug_struct], each with the data its own [Debug]
    prints. *)
Inductive DebugValue :=
  | DStr (s : bytes)
  | DBool (b : bool)
  | DNum (n : Z)
  | DOpt (s : option bytes)
  | DPairs (l : list (bytes * bytes)).

Definition debug_fields (c : HandlerConfig) : list (bytes * DebugValue) :=
  let store_option_keys := map (λ kv, (kv.1, b! "<redacted>")) (store_options c) in
  [(b! "cluster", DStr (cluster c));
   (b! "no_redact", DBool (no_redact c));
   (b! "proc_root", DStr (proc_root c));
   (b! "store_url", DOpt (store_url c));
   (b! "store_options", DPairs store_option_keys);
   (b! "crictl_path", DStr (crictl_path c));
   (b! "cri_runtime_endpoint", DOpt (cri_runtime_endpoint c));
   (b! "max_core_bytes", DNum (max_core_bytes c));
   (b! "max_cores_per_hour", DNum (max_cores_per_hour c));
   (b! "upload_deadline_secs", DNum (upload_deadline_secs c));
   (b! "crictl_timeout_secs", DNum (crictl_timeout_secs c));
   (b! "rate_state_path", DStr (rate_state_path c));
   (b! "event_socket_path", DOpt (event_socket_path c))].

(** ** Serialization *)

Definition ser_pair (kv : bytes * bytes) : Value := Arr [Str kv.1; Str kv.2].
Definition ser_config_fields (c : HandlerConfig) : fields :=
  [(b! "cluster", Str (cluster c));
   (b! "no_redact", Bool (no_redact c));
   (b! "proc_root", Str (proc_root c));
   (b! "store_url", ser_option Str (store_url c));
   (b! "store_options", Arr (map ser_pair (store_options c)));
   (b! "crictl_path", Str (crictl_path c));
   (b! "cri_runtime_endpoint", ser_option Str (cri_runtime_endpoint c));
   (b! "max_core_bytes", Num (max_core_bytes c));
   (b! "max_cores_per_hour", Num (max_cores_per_hour c));
   (b! "upload_deadline_secs", Num (upload_deadline_secs c));
   (b! "crictl_timeout_secs", Num (crictl_timeout_secs c));
   (b! "rate_state_path", Str (rate_state_path c));
   (b! "event_socket_path", ser_option Str (event_socket_path c))].

(** A path that is not UTF-8 does not serialize. *)
Definition config_paths (c : HandlerConfig) : list bytes :=
  [proc_root c; crictl_path c; rate_state_path c]
  ++ match event_socket_path c with Some p => [p] | None => [] end.
Definition ser_config (c : HandlerConfig) : option Value :=
  if forallb is_utf8 (config_paths c) then Some (Obj (ser_config_fields c)) else None.

Definition config_keys : list bytes :=
  [b! "cluster"; b! "no_redact"; b! "proc_root"; b! "store_url"; b! "store_options";
   b! "crictl_path"; b! "cri_runtime_endpoint"; b! "max_core_bytes"; b! "max_cores_per_hour";
   b! "upload_deadline_secs"; b! "crictl_timeout_secs"; b! "rate_state_path";
   b! "event_socket_path"].
Definition de_config : de HandlerConfig :=
  de_struct config_keys [] (λ kvs,
    cluster ← required de_string (b! "cluster") kvs;
    no_redact ← required de_bool (b! "no_redact") kvs;
    proc_root ← required de_string (b! "proc_root") kvs;
    store_url ← optional de_string (b! "store_url") kvs;
    store_options ← required (de_vec (de_pair de_string de_string)) (b! "store_options") kvs;
    crictl_path ← required de_string (b! "crictl_path") kvs;
    cri_runtime_endpoint ← optional de_string (b! "cri_runtime_endpoint") kvs;
    max_core_bytes ← required de_u64 (b! "max_core_bytes") kvs;
    max_cores_per_hour ← required de_u32 (b! "max_cores_per_hour") kvs;
    upload_deadline_secs ← required de_u64 (b! "upload_deadline_secs") kvs;
    crictl_timeout_secs ← required de_u64 (b! "crictl_timeout_secs") kvs;
    rate_state_path ← required de_string (b! "rate_state_path") kvs;
    event_socket_path ← optional de_string (b! "event_socket_path") kvs;
    Some (mkConfig cluster no_redact proc_root store_url store_options crictl_path
            cri_runtime_endpoint max_core_bytes max_cores_per_hour upload_deadline_secs
            crictl_timeout_secs rate_state_path event_socket_path)).

(** ** [validate] *)

Section urls.
Context {Url Store ConfigKey : Type}.
Context (url_parse : bytes → option Url) (scheme_parse : Url → option Upload.Scheme).

Definition must_be_absolute (path label : bytes) : result unit (list bytes) :=
  if is_absolute path then Ok tt
  else Err [label ++ b! " must be absolute: " ++ path].

Definition validate (c : HandlerConfig) : result unit (list bytes) :=
  let? _ := must_be_absolute (crictl_path c) (b! "crictl_path") in
  let? _ := must_be_absolute (proc_root c) (b! "proc_root") in
  let? _ := must_be_absolute (rate_state_path c) (b! "rate_state_path") in
  let? _ := match event_socket_path c with
            | Some p => must_be_absolute p (b! "event_socket_path")
            | None => Ok tt
            end in
  match store_url c with
  | None => Ok tt
  | Some store_url =>
      match url_parse store_url with
      | None => Err [b! "store_url is not a valid URL: " ++ store_url]
      | Some url =>
          match scheme_parse url with
          | None => Err [b! "store_url has unrecognized scheme: " ++ store_url]
          | Some (Upload.AmazonS3 | Upload.GoogleCloudStorage | Upload.MicrosoftAzure) => Ok tt
          | Some _ => Err [b! "store_url scheme must be s3://, gs://, or az://: " ++ store_url]
          end
      end
  end.

(** [HandlerConfig::object_store] *)
Definition object_store (url_string url_path : Url → bytes)
    (config_key : Upload.Scheme → bytes → option ConfigKey)
    (cloud_build : Upload.Scheme → bytes → Upload.RetryConfig → list (ConfigKey * bytes) → option Store)
    (in_memory : Store) (local_fs : bytes → option Store) (c : HandlerConfig) : option Store :=
  url ← store_url c;
  Upload.object_store_from_url_opts url_parse url_string url_path scheme_parse config_key
    cloud_build in_memory local_fs url (store_options c).

(** ** The file

    The config directory's mode, what is at the config path and at its
    [.tmp] sibling, and the files elsewhere that a planted link may name. *)
Inductive node := File (data : bytes) (mode : Z) | Link (target : bytes) | Directory.
Record ConfigFs := mkFs {
  dir_mode : option Z;
  at_path : option node;
  at_tmp : option node;
  elsewhere : gmap bytes bytes;
}.

Context {J : JsonText}.

(** [std::fs::read] follows links. *)
Definition fs_read (fs : ConfigFs) : option bytes :=
  match at_path fs with
  | Some (File data _) => Some data
  | Some (Link t) => elsewhere fs !! t
  | Some Directory | None => None
  end.

Definition read (fs : ConfigFs) : option HandlerConfig :=
  data ← fs_read fs;
  cfg ← text_from_slice data ≫= de_config;
  match validate cfg with Ok _ => Some cfg | Err _ => None end.

(** The steps of [write] that the system can fail: [Some k] fails the step, for
    [WriteTmp] after [k] bytes and for [DirMode] with a new directory's mode [k]. The daemon being killed at a step leaves the
    same state. *)
Inductive write_step := EnsureDir | DirMode | RemoveTmp | OpenTmp | WriteTmp | SyncTmp | Rename.
Definition faults := write_step → option nat.
Definition no_faults : faults := λ _, None.

(** [remove_file]: a missing file is fine, a directory is an error. *)
Definition remove_tmp (fs : ConfigFs) : result ConfigFs unit :=
  match at_tmp fs with
  | Some Directory => Err tt
  | _ => Ok (mkFs (dir_mode fs) (at_path fs) None (elsewhere fs))
  end.

(** [create_new]: an existing name, even a dangling link, is an error. *)
Definition open_tmp (fs : ConfigFs) : result ConfigFs unit :=
  match at_tmp fs with
  | Some _ => Err tt
  | None => Ok (mkFs (dir_mode fs) (at_path fs) (Some (File [] 384)) (elsewhere fs))
  end.

Definition write_tmp (data : bytes) (fs : ConfigFs) : ConfigFs :=
  mkFs (dir_mode fs) (at_path fs) (Some (File data 384)) (elsewhere fs).

(** [rename] replaces a file or a link, never a directory. *)
Definition rename_tmp (fs : ConfigFs) : result ConfigFs unit :=
  match at_path fs with
  | Some Directory => Err tt
  | _ => Ok (mkFs (dir_mode fs) (at_tmp fs) None (elsewhere fs))
  end.

(** After the directory is private: temp file, then rename. *)
Definition write_file (fl : faults) (cfg : HandlerConfig) (path : bytes) (fs : ConfigFs)
    : ConfigFs * result unit (list bytes) :=
  let tmp := path ++ b! ".tmp" in
  match ser_config cfg with
  | None => (fs, Err [b! "serializing handler config"])
  | Some v =>
  let json := text_to_vec_pretty v in
  match fl RemoveTmp, remove_tmp fs with
  | None, Ok fs1 =>
      match fl OpenTmp, open_tmp fs1 with
      | None, Ok fs2 =>
          match fl WriteTmp with
          | Some k => (write_tmp (take k json) fs2, Err [b! "writing " ++ tmp])
          | None =>
              let fs3 := write_tmp json fs2 in
              match fl SyncTmp with
              | Some _ => (fs3, Err [b! "writing " ++ tmp])
              | None =>
                  match fl Rename, rename_tmp fs3 with
                  | None, Ok fs4 => (fs4, Ok tt)
                  | _, _ => (fs3, Err [b! "renaming " ++ tmp ++ b! " to " ++ path])
                  end
              end
          end
      | _, _ => (fs1, Err [b! "creating " ++ tmp])
      end
  | _, _ => (fs, Err [b! "removing stale " ++ tmp])
  end end.

Definition write (fl : faults) (cfg : HandlerConfig) (path : bytes) (fs : ConfigFs)
    : ConfigFs * result unit (list bytes) :=
  match path_parent path with
  | None => write_file fl cfg path fs
  | Some parent =>
      let '(dir, made) := ensure_private_dir (bool_decide (is_Some (fl EnsureDir)))
                            (Z.of_nat <$> fl DirMode) (dir_mode fs) in
      let fs := mkFs dir (at_path fs) (at_tmp fs) (elsewhere fs) in
      match made with
      | Err _ => (fs, Err [b! "creating config dir " ++ parent])
      | Ok _ => write_file fl cfg path fs
      end
  end.

(** ** Lemmas *)

Definition config_ok (c : HandlerConfig) : Prop :=
  forallb is_utf8 (config_paths c) = true ∧ is_utf8 (cluster c) = true
  ∧ utf8_opt (store_url c) ∧ utf8_opt (cri_runtime_endpoint c)
  ∧ Forall (λ kv, is_utf8 kv.1 = true ∧ is_utf8 kv.2 = true) (store_options c)
  ∧ (0 ≤ max_core_bytes c ≤ u64_max)%Z ∧ (0 ≤ max_cores_per_hour c ≤ u32_max)%Z
  ∧ (0 ≤ upload_deadline_secs c ≤ u64_max)%Z ∧ (0 ≤ crictl_timeout_secs c ≤ u64_max)%Z.

#[local] Instance serde_pair : Serde (λ _, True) ser_pair (de_pair de_string de_string).
Proof. by intros []. Qed.

Lemma de_ser_config c : config_ok c → de_config (Obj (ser_config_fields c)) = Some c.
Proof.
  intros (_ & _ & _ & _ & _ & Hb & Hh & Hu & Ht).
  assert (∀ x : option bytes, de_option de_string (ser_option Str x) = Some x)
    by (intros; by apply (de_option_ser (λ _, True))).
  assert (de_vec (de_pair de_string de_string) (Arr (map ser_pair (store_options c)))
          = Some (store_options c)) by (apply (de_vec_ser (λ _, True)); [apply _|by apply Forall_true]).
  assert (de_u64 (Num (max_core_bytes c)) = Some (max_core_bytes c)) by by apply serde_int.
  assert (de_u32 (Num (max_cores_per_hour c)) = Some (max_cores_per_hour c)) by by apply serde_int.
  assert (de_u64 (Num (upload_deadline_secs c)) = Some (upload_deadline_secs c)) by by apply serde_int.
  assert (de_u64 (Num (crictl_timeout_secs c)) = Some (crictl_timeout_secs c)) by by apply serde_int.
  cbn [de_config de_struct]. repeat de_field. by destruct c.
Qed.

Lemma wf_ser_config c : config_ok c → wf_value (Obj (ser_config_fields c)) = true.
Proof.
  intros (Hp & Hc & Hs & He & Ho & Hb & Hh & Hu & Ht).
  unfold config_paths in Hp. rewrite forallb_app in Hp. apply andb_prop in Hp as [Hp Hsock].
  cbn [forallb] in Hp. bool_hyps.
  assert (utf8_opt (event_socket_path c)) as Hes.
  { intros p Hep. rewrite Hep in Hsock. cbn [forallb] in Hsock. by bool_hyps. }
  apply wf_obj; [by apply (bool_decide_eq_true_1 _)|].
  unfold ser_config_fields. repeat (apply Forall_cons_2 || apply Forall_nil_2);
    (split; [reflexivity|]); cbn [snd]; try done; try (by apply wf_opt_str); try (by eapply wf_num).
  cbn [wf_value]. rewrite forallb_Forall. apply Forall_map.
  eapply Forall_impl; [exact Ho|]. intros [k v] [Hk Hv]. cbn [ser_pair wf_value forallb fst snd] in *.
  by rewrite Hk, Hv.
Qed.

(** Whatever fails, the config path holds what it held or the whole new file, and
    no other file is touched. *)
Lemma write_file_inv fl cfg path fs fs' r :
  write_file fl cfg path fs = (fs', r) →
  elsewhere fs' = elsewhere fs ∧ dir_mode fs' = dir_mode fs ∧
  match r with
  | Ok _ => ∃ v, ser_config cfg = Some v
                 ∧ at_path fs' = Some (File (text_to_vec_pretty v) 384) ∧ at_tmp fs' = None
  | Err _ => at_path fs' = at_path fs
  end.
Proof.
  unfold write_file, remove_tmp, open_tmp, rename_tmp, write_tmp. intros Hw.
  repeat (destruct_cond; simplify_eq/=; try done); eauto 10.
Qed.

Lemma write_inv fl cfg path fs fs' r :
  write fl cfg path fs = (fs', r) →
  elsewhere fs' = elsewhere fs ∧
  match r with
  | Ok _ => ∃ v, ser_config cfg = Some v
                 ∧ at_path fs' = Some (File (text_to_vec_pretty v) 384) ∧ at_tmp fs' = None
  | Err _ => at_path fs' = at_path fs
  end.
Proof.
  unfold write. destruct (path_parent path).
  - destruct (ensure_private_dir _ _ _) as [dir [[]|]]; [|by intros [= <- <-]].
    intros (He & _ & Hr)%write_file_inv. by destruct r.
  - intros (He & _ & Hr)%write_file_inv. done.
Qed.

Lemma write_ok cfg path fs v :
  ser_config cfg = Some v → at_path fs ≠ Some Directory → at_tmp fs ≠ Some Directory →
  ∃ fs', write no_faults cfg path fs = (fs', Ok tt)
         ∧ at_path fs' = Some (File (text_to_vec_pretty v) 384)
         ∧ (is_Some (path_parent path) → dir_mode fs' = Some 448%Z).
Proof.
  intros Hv Hp Ht. unfold write, write_file, no_faults. rewrite Hv.
  destruct fs as [dm [[]|] [[]|] el]; cbn in *; try done;
    destruct (path_parent path); eexists; split_and!; try done; by intros [].
Qed.

(** The temporary file is a file or missing once [write] is past it. *)
Lemma write_keeps_files fl cfg path fs fs' r :
  at_path fs ≠ Some Directory → at_tmp fs ≠ Some Directory → write fl cfg path fs = (fs', r) →
  at_path fs' ≠ Some Directory ∧ at_tmp fs' ≠ Some Directory.
Proof.
  unfold write, write_file, remove_tmp, open_tmp, rename_tmp, write_tmp. intros Hp Ht Hw.
  split_conds.
Qed.

(** A stored config is the config that is read, unless it is rejected. *)
Lemma stored_config_read {JL : JsonTextLaws J} cfg v mode fs :
  config_ok cfg → ser_config cfg = Some v →
  at_path fs = Some (File (text_to_vec_pretty v) mode) →
  read fs = match validate cfg with Ok _ => Some cfg | Err _ => None end.
Proof.
  intros Hok Hv Hpath.
  assert (v = Obj (ser_config_fields cfg)) as ->.
  { unfold ser_config in Hv. destruct Hok as [Hpaths _]. rewrite Hpaths in Hv. by injection Hv. }
  unfold read, fs_read. rewrite Hpath. cbn [mbind option_bind].
  rewrite text_roundtrip_pretty by by apply wf_ser_config. cbn [mbind option_bind].
  by rewrite de_ser_config by done.
Qed.

Lemma stored_config_reads {JL : JsonTextLaws J} cfg v mode fs :
  config_ok cfg → validate cfg = Ok tt → ser_config cfg = Some v →
  at_path fs = Some (File (text_to_vec_pretty v) mode) → read fs = Some cfg.
Proof. intros Hok Hval Hv Hp. rewrite (stored_config_read cfg v mode fs Hok Hv Hp). by rewrite Hval. Qed.
End urls.

(** ** Properties *)

Lemma write_then_read {Url} (url_parse : bytes → option Url)
    (scheme_parse : Url → option Upload.Scheme) {J : JsonText} {JL : JsonTextLaws J} cfg path fs :
  config_ok cfg → validate url_parse scheme_parse cfg = Ok tt →
  is_Some (path_parent path) → at_path fs ≠ Some Directory → at_tmp fs ≠ Some Directory →
  ∃ fs', write no_faults cfg path fs = (fs', Ok tt)
    ∧ read url_parse scheme_parse fs' = Some cfg
    ∧ (∃ data, at_path fs' = Some (File data 384)) ∧ dir_mode fs' = Some 448%Z.
Proof.
  intros Hok Hval Hpar Hp Ht.
  assert (ser_config cfg = Some (Obj (ser_config_fields cfg))) as Hv.
  { unfold ser_config. destruct Hok as [-> _]. done. }
  destruct (write_ok cfg path fs _ Hv Hp Ht) as (fs' & Hw & Hpath & Hdir).
  exists fs'. split_and!; [done|by eapply stored_config_reads|eauto|auto].
Qed.

(** The config the daemon writes is the config every later handler reads: a
    valid config round trips through the file, which is replaced as a 0600 file
    in a 0700 directory. *)
Theorem config_write_read {Url} (url_parse : bytes → option Url)
    (scheme_parse : Url → option Upload.Scheme) {J : JsonText} {JL : JsonTextLaws J} cfg path fs :
  config_ok cfg → validate url_parse scheme_parse cfg = Ok tt →
  is_Some (path_parent path) → at_path fs ≠ Some Directory → at_tmp fs ≠ Some Directory →
  ∃ fs', write no_faults cfg path fs = (fs', Ok tt)
    ∧ read url_parse scheme_parse fs' = Some cfg
    ∧ (∃ data, at_path fs' = Some (File data 384)) ∧ dir_mode fs' = Some 448%Z.
Proof. exact (write_then_read url_parse scheme_parse cfg path fs). Qed.

(** URLs as far as the examples need them. *)
Definition toy_scheme (url : bytes) : option Upload.Scheme :=
  if starts_with (b! "s3://") url then Some Upload.AmazonS3
  else if starts_with (b! "file://") url then Some Upload.Local else None.

Definition sample_config : HandlerConfig :=
  mkConfig (b! "prod") false (b! "/proc") (Some (b! "s3://crash-artifacts"))
    [(b! "AWS_ACCESS_KEY_ID", b! "minioadmin"); (b! "AWS_ENDPOINT", b! "http://minio:9000")]
    (b! "/usr/local/bin/crictl") (Some (b! "unix:///run/containerd/containerd.sock"))
    1024 3 300 10 (b! "/run/coredrop/recent.json") (Some (b! "/run/coredrop/events.sock")).

Lemma config_write_read_witness :
  ∃ fs', write (J := token_text) no_faults sample_config DEFAULT_CONFIG_PATH
           (mkFs None (Some (Link (b! "/etc/shadow"))) (Some (File (b! "stale") 420)) ∅)
         = (fs', Ok tt)
    ∧ read (J := token_text) Some toy_scheme fs' = Some sample_config
    ∧ (∃ data, at_path fs' = Some (File data 384)) ∧ dir_mode fs' = Some 448%Z.
Proof.
  apply (config_write_read Some toy_scheme (JL := token_text_laws)); [|reflexivity|by eexists|done|done].
  split_and!; try done.
  - by intros s <-%(inj Some).
  - by intros s <-%(inj Some).
  - by repeat constructor.
Defined.

(** C31: replacing the config is atomic and never follows a planted link: whichever step
    fails, and wherever the daemon dies, the config path holds either what it
    held or the complete new file, and every other file keeps its contents. *)
Theorem config_write_atomic {J : JsonText} fl cfg path fs :
  let fs' := fst (write fl cfg path fs) in
  (at_path fs' = at_path fs
   ∨ ∃ v, ser_config cfg = Some v ∧ at_path fs' = Some (File (text_to_vec_pretty v) 384))
  ∧ elsewhere fs' = elsewhere fs.
Proof.
  destruct (write fl cfg path fs) as [fs' r] eqn:E. apply write_inv in E as [He Hr]. cbn.
  split; [|done]. destruct r; [|by left].
  destruct Hr as (v' & Hv & Hp & _). right. eauto.
Qed.

(** The handler only acts on a config whose paths are absolute and whose store is a
    cloud store: anything else is read as no config at all. *)
Theorem config_read_valid {Url} (url_parse : bytes → option Url)
    (scheme_parse : Url → option Upload.Scheme) {J : JsonText} fs cfg :
  read url_parse scheme_parse fs = Some cfg →
  Forall (λ p, is_absolute p = true)
    ([crictl_path cfg; proc_root cfg; rate_state_path cfg]
     ++ match event_socket_path cfg with Some p => [p] | None => [] end)
  ∧ ∀ u, store_url cfg = Some u →
      ∃ url s, url_parse u = Some url ∧ scheme_parse url = Some s
        ∧ s ∈ [Upload.AmazonS3; Upload.GoogleCloudStorage; Upload.MicrosoftAzure].
Proof.
  unfold read. destruct (fs_read fs) as [data|]; [|done]. cbn [mbind option_bind].
  destruct (text_from_slice data ≫= de_config) as [c|]; [|done]. cbn [mbind option_bind].
  destruct (validate _ _ c) eqn:Ev; [|done]. intros [= ->].
  unfold validate, must_be_absolute in Ev.
  repeat (destruct_cond; simplify_eq/=; try done);
    (split; [by repeat (apply Forall_cons_2 || apply Forall_nil_2)|]);
    intros u' Hu; simplify_eq/=; eexists _, _;
    (split; [done|]); (split; [done|]); rewrite !elem_of_cons; auto.
Qed.

Lemma config_read_valid_witness :
  Forall (λ p, is_absolute p = true)
    [crictl_path sample_config; proc_root sample_config; rate_state_path sample_config;
     b! "/run/coredrop/events.sock"]
  ∧ ∀ u, store_url sample_config = Some u →
      ∃ url s, Some u = Some url ∧ toy_scheme url = Some s
        ∧ s ∈ [Upload.AmazonS3; Upload.GoogleCloudStorage; Upload.MicrosoftAzure].
Proof.
  apply (config_read_valid Some toy_scheme (J := token_text)
    (mkFs None (Some (File (text_to_vec_pretty (JsonText := token_text)
       (Obj (ser_config_fields sample_config))) 384)) None ∅)).
  vm_compute. reflexivity.
Defined.

(** The [Debug] rendering of a config shows which store options are set and nothing
    of their values. *)
Theorem config_debug_hides_credentials c opts :
  opts.*1 = (store_options c).*1 →
  debug_fields (mkConfig (cluster c) (no_redact c) (proc_root c) (store_url c) opts (crictl_path c)
    (cri_runtime_endpoint c) (max_core_bytes c) (max_cores_per_hour c) (upload_deadline_secs c)
    (crictl_timeout_secs c) (rate_state_path c) (event_socket_path c)) = debug_fields c.
Proof.
  intros Hk.
  assert (map (λ kv : bytes * bytes, (kv.1, b! "<redacted>")) opts
          = map (λ kv, (kv.1, b! "<redacted>")) (store_options c)) as Hmap.
  { revert Hk. generalize (store_options c). induction opts as [|kv opts IH]; intros [|kv' l] Hk;
      try done. injection Hk as Hk1 Hk2. cbn [map]. by rewrite Hk1, (IH l Hk2). }
  unfold debug_fields. cbn [store_options cluster]. by rewrite Hmap.
Qed.

Lemma config_debug_hides_credentials_witness :
  debug_fields (mkConfig (b! "prod") false (b! "/proc") (Some (b! "s3://crash-artifacts"))
    [(b! "AWS_ACCESS_KEY_ID", b! "other"); (b! "AWS_ENDPOINT", b! "https://elsewhere")]
    (b! "/usr/local/bin/crictl") (Some (b! "unix:///run/containerd/containerd.sock"))
    1024 3 300 10 (b! "/run/coredrop/recent.json") (Some (b! "/run/coredrop/events.sock")))
  = debug_fields sample_config.
Proof. apply (config_debug_hides_credentials sample_config). reflexivity. Defined.

Example derived_paths :
  rate_state_path_for DEFAULT_CONFIG_PATH = default_rate_state_path
  ∧ event_socket_path_for DEFAULT_CONFIG_PATH = default_event_socket_path.
Proof. split; reflexivity. Qed.

End Config.
