(* ===== verification/Crictl.v ===== *)
(** * [src/crictl.rs]: container identity from [crictl inspect]

    The command the handler runs, its timeout, and what is read from its JSON.
    The runtime is a parameter: what the command would print, and when. *)

From S2P Require Import Prelude RustStr Json Backend Config.
Import Json.

Module Crictl.

Inductive RunError := Io (e : bytes) | Timeout.

(** [std::process::Output] *)
Record Output := mkOutput { success : bool; stdout : bytes }.
Record Command := mkCommand { program : bytes; cmd_args : list bytes; cmd_env : list (bytes * bytes) }.

(** Running a command: it may finish after the timeout. *)
Abbreviation runtime := (Command → Backend.future (result Output bytes)).

Definition run_command (rt : runtime) (cmd : Command) (timeout_dur : option Z)
    : result Output RunError :=
  match timeout_dur with
  | None => match Backend.fut_value (rt cmd) with Ok o => Ok o | Err e => Err (Io e) end
  | Some _ =>
      match rt cmd with
      | Backend.Late _ => Err Timeout
      | Backend.InTime (Ok o) => Ok o
      | Backend.InTime (Err e) => Err (Io e)
      end
  end.

Definition unix_socket_path (endpoint : bytes) : option bytes :=
  p ← strip_prefix (b! "unix://") endpoint; if decide (p = []) then None else Some p.

Record ContainerInfo := mkInfo {
  namespace : option bytes;
  pod_name : option bytes;
  container_name : option bytes;
  image : option bytes;
  image_digest : option bytes;
  restart_count : option Z;
}.
Definition default_info : ContainerInfo := mkInfo None None None None None None.

Definition str_field (obj : Value) (key : bytes) : option bytes :=
  s ← as_str (index obj key); if decide (s = []) then None else Some s.

Definition extract (v : Value) : ContainerInfo :=
  let status := index v (b! "status") in
  let labels := index status (b! "labels") in
  let metadata := index status (b! "metadata") in
  let namespace := str_field labels (b! "io.kubernetes.pod.namespace") in
  let pod_name := str_field labels (b! "io.kubernetes.pod.name") in
  let container_name := str_field labels (b! "io.kubernetes.container.name") in
  let image := as_str (index (index status (b! "image")) (b! "image")) in
  let image_digest := r ← as_str (index status (b! "imageRef"));
                      '(_, d) ← split_once "@"%byte r; Some d in
  let restart_count := n ← as_u64 (index metadata (b! "attempt"));
                       if decide (n ≤ u32_max)%Z then Some n else None in
  mkInfo namespace pod_name container_name image image_digest restart_count.

Section inspect.
Context {J : JsonText} (rt : runtime).

Definition inspect_command (container_id : bytes) (config : Config.HandlerConfig) : Command :=
  mkCommand (Config.crictl_path config) [b! "inspect"; container_id]
    match Config.cri_runtime_endpoint config with
    | Some endpoint => [(b! "CONTAINER_RUNTIME_ENDPOINT", endpoint)]
    | None => []
    end.

Definition inspect (container_id : bytes) (config : Config.HandlerConfig) : option ContainerInfo :=
  let timeout_dur := if decide (Config.crictl_timeout_secs config = 0)%Z then None
                     else Some (Config.crictl_timeout_secs config) in
  match run_command rt (inspect_command container_id config) timeout_dur with
  | Err (Io _) => None
  | Err Timeout => None
  | Ok output =>
      if success output then extract <$> text_from_slice (stdout output) else None
  end.
End inspect.

(** ** Lemmas *)

(** Identity strings are never empty, and a restart count fits a [u32]. *)
Lemma extract_wf v :
  namespace (extract v) ≠ Some [] ∧ pod_name (extract v) ≠ Some []
  ∧ container_name (extract v) ≠ Some []
  ∧ ∀ n, restart_count (extract v) = Some n → (0 ≤ n ≤ u32_max)%Z.
Proof.
  assert (∀ obj key, str_field obj key ≠ Some []) as Hs.
  { intros obj key. unfold str_field. destruct (as_str _); [|done]. cbn. case_decide; congruence. }
  split_and!; [apply Hs..|]. intros n. unfold extract. cbn [restart_count].
  destruct (as_u64 _) as [m|] eqn:E; [|done]. cbn. case_decide; [|done]. intros [= <-].
  unfold as_u64 in E. destruct (index _ _); try done. case_decide; simplify_eq. lia.
Qed.

(** What crictl answers becomes text fields, whatever it answers. *)
Lemma inspect_utf8 {J : JsonText} {JL : JsonTextLaws J} rt cid config info :
  inspect rt cid config = Some info →
  utf8_opt (namespace info) ∧ utf8_opt (pod_name info) ∧ utf8_opt (container_name info)
  ∧ utf8_opt (image info) ∧ utf8_opt (image_digest info)
  ∧ ∀ n, restart_count info = Some n → (0 ≤ n ≤ u32_max)%Z.
Proof.
  unfold inspect. destruct (run_command _ _ _) as [out|[|]]; [|done..].
  destruct (success out); [|done]. rewrite fmap_Some. intros (v & Hv%text_strings & ->).
  assert (∀ key, utf8_opt (str_field (index (index v (b! "status")) (b! "labels")) key)) as Hf.
  { intros key x. unfold str_field. rewrite bind_Some. intros (y & Hy & Hx).
    case_decide; [done|]. injection Hx as <-.
    eapply as_str_utf8; [|exact Hy]. by repeat apply index_utf8. }
  split_and!; [apply Hf..| | |by apply extract_wf].
  - apply as_str_utf8. by repeat apply index_utf8.
  - intros d. cbn [extract image_digest]. rewrite bind_Some.
    intros (r & Hr & [[l d'] [Hs [= <-]]]%bind_Some).
    assert (is_utf8 r = true) as Hu.
    { eapply as_str_utf8; [|exact Hr]. by repeat apply index_utf8. }
    by apply split_once_utf8 in Hs as [_ ?].
Qed.

Definition sample_response : Value :=
  Obj [(b! "status", Obj [(b! "labels", Obj [(b! "io.kubernetes.pod.namespace", Str (b! "default"));
                                            (b! "io.kubernetes.pod.name", Str (b! "web-0"));
                                            (b! "io.kubernetes.container.name", Str [])]);
                          (b! "imageRef", Str (b! "docker.io/app@sha256:abc"));
                          (b! "metadata", Obj [(b! "attempt", Num 4)])])].

Example extract_example :
  extract sample_response
  = mkInfo (Some (b! "default")) (Some (b! "web-0")) None None (Some (b! "sha256:abc")) (Some 4%Z).
Proof. reflexivity. Qed.

End Crictl.
