(* ===== verification/Handler.v ===== *)
(** * [src/handler.rs]: the capture handler

    The whole of [run], composed of the components as the code composes them:
    snapshot, rate limit, core drain, snapshot upload, crictl, manifest,
    report. *)

From S2P Require Import Prelude RustStr Cgroup Redact BuildId RateLimit Backend Upload.
From S2P Require Import Json Events Manifest Snapshot Config Crictl.
Import Json Backend Upload.

Module Handler.

(** ** [CaptureArgs] *)

Record CaptureArgs := mkArgs { host_pid : Z; signal : Z; timestamp : Z; exe : bytes }.

(** [parse_number]: [to_str] and [parse] *)
Definition parse_number {T} (parse : bytes → option T) (arg : bytes) : option T :=
  s ← from_utf8 arg; parse s.

Definition with_context {T} (x : option T) (msg : bytes) : result T error :=
  match x with Some v => Ok v | None => Err [msg] end.

Definition parse (args : list bytes) : result CaptureArgs error :=
  match args with
  | [pid; sig; ts; exe] =>
      let? host_pid := with_context (parse_number parse_i32 pid)
                         (b! "bad host pid " ++ to_string_lossy pid) in
      let? signal := with_context (parse_number parse_i32 sig)
                       (b! "bad signal " ++ to_string_lossy sig) in
      let? timestamp := with_context (parse_number parse_i64 ts)
                          (b! "bad timestamp " ++ to_string_lossy ts) in
      Ok (mkArgs host_pid signal timestamp (to_string_lossy exe))
  (* the message also echoes the arguments *)
  | _ => Err [b! "capture expects 4 args (%P %s %t %E), got "
              ++ to_string (Z.of_nat (length args))]
  end.

(** ** Small helpers *)

Definition signal_name (sig : Z) : option bytes :=
  match sig with
  | 1 => Some (b! "SIGHUP")
  | 2 => Some (b! "SIGINT")
  | 3 => Some (b! "SIGQUIT")
  | 4 => Some (b! "SIGILL")
  | 6 => Some (b! "SIGABRT")
  | 7 => Some (b! "SIGBUS")
  | 8 => Some (b! "SIGFPE")
  | 9 => Some (b! "SIGKILL")
  | 11 => Some (b! "SIGSEGV")
  | 13 => Some (b! "SIGPIPE")
  | 15 => Some (b! "SIGTERM")
  | _ => None
  end%Z.

Definition base_payload (args : CaptureArgs) (outcome : Events.Outcome)
    : Events.CaptureEventPayload :=
  Events.mkPayload None None None None None (host_pid args) (exe args) (signal args)
    (signal_name (signal args)) outcome None 0 None false None (timestamp args).

Definition node_hostname (fs : Snapshot.Fs) : bytes :=
  match s ← Snapshot.read_to_string fs (b! "/proc/sys/kernel/hostname");
        (let s := trim s in if decide (s = []) then None else Some s) with
  | Some s => s
  | None => b! "localhost"
  end.

Definition read_cgroup_identity (fs : Snapshot.Fs) (proc_root : bytes) (pid : Z)
    : option Cgroup.CgroupIdentity :=
  let path := path_join (path_join proc_root (to_string pid)) (b! "cgroup") in
  content ← Snapshot.read_to_string fs path; Cgroup.parse_cgroup content.

(** ** The world the handler acts on *)

Record State (World : Type) := mkState {
  store_world : World;                            (** the object store *)
  limiter : RateLimit.StateFs;                    (** the rate-limit state file *)
  socket : list (bytes * bytes);                  (** datagrams sent to the daemon *)
  summary : list Events.CaptureEventPayload;      (** the summary lines logged *)
}.
Arguments mkState {World} _ _ _ _.
Arguments store_world {World} _.
Arguments limiter {World} _.
Arguments socket {World} _.
Arguments summary {World} _.

(** The URL parser and the store builders of the libraries; the store they build is
    the world, so a builder only says whether it succeeds. *)
Record StoreLib := mkLib {
  lib_url : Type;
  lib_key : Type;
  lib_url_parse : bytes → option lib_url;
  lib_url_string : lib_url → bytes;
  lib_url_path : lib_url → bytes;
  lib_scheme : lib_url → option Scheme;
  lib_config_key : Scheme → bytes → option lib_key;
  lib_cloud : Scheme → bytes → RetryConfig → list (lib_key * bytes) → bool;
  lib_local : bytes → bool;
}.

Definition built (b : bool) : option unit := if b then Some tt else None.

(** [config.object_store()] *)
Definition configured_store (l : StoreLib) (config : Config.HandlerConfig) : option unit :=
  Config.object_store (lib_url_parse l) (lib_scheme l) (lib_url_string l) (lib_url_path l)
    (lib_config_key l) (λ s url retry opts, built (lib_cloud l s url retry opts)) tt
    (λ path, built (lib_local l path)) config.

(** What the run depends on besides its state. *)
Record Env := mkEnv {
  env_fs : Snapshot.Fs;                          (** [/proc] and the root file system *)
  env_log2 : Redact.f64 → Redact.f64;
  env_rt : Crictl.runtime;                       (** [crictl] *)
  env_rfc3339 : Z → option bytes;                (** chrono: [from_timestamp] and [to_rfc3339] *)
  env_sha256 : bytes → bytes;
  env_lib : StoreLib;
  env_check_faults : RateLimit.faults;
  env_refund_faults : RateLimit.faults;
  env_send_fault : option Events.send_fault;
  env_monotonic : Z;                             (** the seconds of [Instant::now()] at the drain *)
}.

Definition format_timestamp (env : Env) (epoch_secs : Z) : bytes :=
  default (to_string epoch_secs) (env_rfc3339 env epoch_secs).

Section run.
Context {World : Type} `{ObjectStore World} {B : BufWriter World} {Zs : Zstd} {P : ObjectPath}
  {J : JsonText} {T : Snapshot.Tar} {C : RateLimit.StateCodec}.
Context (env : Env).

(** [report]: the summary line, then the datagram. *)
Definition report (config : Config.HandlerConfig) (payload : Events.CaptureEventPayload)
    (s : State World) : State World :=
  mkState (store_world s) (limiter s)
    (Events.send_capture_event (Config.event_socket_path config) (env_send_fault env) payload
       (socket s))
    (summary s ++ [payload]).

(** What the first part of [run] resolves. *)
Record Plan := mkPlan {
  snapshot : Snapshot.ProcSnapshot;
  identity : option Cgroup.CgroupIdentity;
  store : bool;
  keys : option ObjectKeys;
  target : option (Cgroup.CgroupIdentity * ObjectKeys);
}.

Definition plan (args : CaptureArgs) (config : Config.HandlerConfig) (store_override : bool) : Plan :=
  let proc_root := Config.proc_root config in
  let redactor := if Config.no_redact config then Redact.Redactor_disabled
                  else Redact.Redactor_default in
  let snapshot := Snapshot.capture (env_log2 env) (env_fs env) proc_root (host_pid args) redactor in
  let identity := read_cgroup_identity (env_fs env) proc_root (host_pid args) in
  let store := store_override || bool_decide (is_Some (configured_store (env_lib env) config)) in
  let keys := (λ id, Keys.new (Config.cluster config) (Cgroup.pod_uid id)
                       (Cgroup.container_id id) (timestamp args) (host_pid args)) <$> identity in
  let target := id ← identity; keys ← keys; if store then Some (id, keys) else None in
  mkPlan snapshot identity store keys target.

(** The rate-limit decision: the new limiter state, [rate_recorded], [rate_suppressed]. *)
Definition rate_limit (args : CaptureArgs) (config : Config.HandlerConfig) (pl : Plan)
    (l : RateLimit.StateFs) : RateLimit.StateFs * bool * bool :=
  match target pl with
  | Some (id, _) =>
      match RateLimit.check_and_record (env_check_faults env) (Config.max_cores_per_hour config)
              (Cgroup.pod_uid id) (timestamp args) l with
      | (l, RateLimit.Suppressed _) => (l, false, true)
      | (l, RateLimit.Allowed) => (l, true, false)
      end
  | None => (l, false, false)
  end.

(** Step 2: the backend and its drain. *)
Definition drain (config : Config.HandlerConfig) (pl : Plan) (rate_suppressed : bool)
    (core_in : pipe) (w : World) : World * outcome (result CoreStats error) :=
  let deadline := if decide (Config.upload_deadline_secs config = 0)%Z then None
                  else Some (Config.upload_deadline_secs config) in
  let now := env_monotonic env in
  if rate_suppressed then drain_core mkDiscard now core_in deadline w
  else match target pl with
       | Some (_, keys) =>
           standalone_drain_core (env_sha256 env)
             (standalone_new (Keys.core keys) (Config.max_core_bytes config)) now core_in deadline w
       | None => drain_core mkDiscard now core_in deadline w
       end.

(** Step 3: the snapshot's key when it was uploaded. *)
Definition upload_snapshot (pl : Plan) (w : World) : World * option bytes :=
  match target pl with
  | Some (_, keys) =>
      let key := Keys.proc_snapshot keys in
      match Snapshot.to_tar (snapshot pl) with
      | Some tar => match put_object w key tar with
                    | (w, Ok _) => (w, Some key)
                    | (w, Err _) => (w, None)
                    end
      | None => (w, None)
      end
  | None => (w, None)
  end.

(** Steps 4 and 5: the manifest. *)
Definition build_manifest (args : CaptureArgs) (config : Config.HandlerConfig) (pl : Plan)
    (rate_suppressed : bool) (stats : CoreStats) (proc_snapshot_key : option bytes)
    : Manifest.Manifest :=
  let container_info := id ← identity pl;
                        Crictl.inspect (env_rt env) (Cgroup.container_id id) config in
  let uploaded := bool_decide (is_Some (sha256 stats)) in
  let info := default Crictl.default_info container_info in
  let core_key := Keys.core <$> keys pl in
  let any_snapshot_truncated := existsb Snapshot.truncated (Snapshot.files (snapshot pl)) in
  let proc_ref := (λ key, Manifest.mkSnapshotRef key any_snapshot_truncated
                            (Z.of_nat (length (Snapshot.files (snapshot pl)))))
                    <$> proc_snapshot_key in
  Manifest.mkManifest 1 (format_timestamp env (timestamp args)) (Config.cluster config)
    (node_hostname (env_fs env)) (signal args) (signal_name (signal args)) (exe args)
    (Snapshot.build_id (snapshot pl))
    (Manifest.mkIdentity (from_option Cgroup.pod_uid [] (identity pl))
       (from_option Cgroup.container_id [] (identity pl))
       (Crictl.namespace info) (Crictl.pod_name info) (Crictl.container_name info)
       (Crictl.image info) (Crictl.image_digest info) (Crictl.restart_count info))
    (Manifest.mkCoreRef uploaded (if uploaded then core_key else None) (sha256 stats)
       (if uploaded then Some (bytes_ stats) else None)
       (if uploaded then Some (stored_bytes stats) else None)
       (truncated stats) (truncated_reason stats)
       (if rate_suppressed then Some (b! "rate_limit") else None) (b! "zstd"))
    proc_ref.

Definition write_manifest (pl : Plan) (m : Manifest.Manifest) (w : World) : World * option bytes :=
  match target pl with
  | Some (_, keys) =>
      let key := Keys.manifest keys in
      match put_object w key (text_to_vec_pretty (Manifest.ser_manifest m)) with
      | (w, Ok _) => (w, Some key)
      | (w, Err _) => (w, None)
      end
  | None => (w, None)
  end.

Definition outcome_of (pl : Plan) (rate_suppressed uploaded : bool) : Events.Outcome :=
  if bool_decide (identity pl = None) then Events.SkippedNonK8s
  else if rate_suppressed then Events.SuppressedRateLimit
  else if negb (store pl) then Events.NoStoreDiscard
  else if uploaded then Events.Uploaded
  else Events.Failed.

(** Step 6: what a capture that drained reports. *)
Definition success_payload (args : CaptureArgs) (pl : Plan) (rate_suppressed : bool) (stats : CoreStats)
    (manifest : Manifest.Manifest) (manifest_key : option bytes) : Events.CaptureEventPayload :=
  let uploaded := bool_decide (is_Some (sha256 stats)) in
  let id := Manifest.identity manifest in
  Events.mkPayload (Manifest.mi_namespace id) (Manifest.mi_pod_name id)
    (Cgroup.pod_uid <$> identity pl) (Cgroup.container_id <$> identity pl)
    (Manifest.mi_container_name id) (host_pid args) (exe args) (signal args)
    (signal_name (signal args)) (outcome_of pl rate_suppressed uploaded) manifest_key
    (bytes_ stats) (if uploaded then Some (stored_bytes stats) else None)
    (truncated stats) None (timestamp args).

(** After a successful drain: steps 3 to 6. *)
Definition finish (args : CaptureArgs) (config : Config.HandlerConfig) (pl : Plan)
    (rate_suppressed : bool) (stats : CoreStats) (s : State World) : State World :=
  let '(w, proc_snapshot_key) := upload_snapshot pl (store_world s) in
  let manifest := build_manifest args config pl rate_suppressed stats proc_snapshot_key in
  let '(w, manifest_key) := write_manifest pl manifest w in
  report config (success_payload args pl rate_suppressed stats manifest manifest_key)
    (mkState w (limiter s) (socket s) (summary s)).

(** The error path of the drain: refund, report, return the error. *)
Definition drain_failed (args : CaptureArgs) (config : Config.HandlerConfig) (pl : Plan)
    (rate_recorded : bool) (e : error) (s : State World) : State World :=
  let l := match target pl with
           | Some (id, _) =>
               if rate_recorded
               then RateLimit.refund (env_refund_faults env) (Config.max_cores_per_hour config)
                      (Cgroup.pod_uid id) (timestamp args) (limiter s)
               else limiter s
           | None => limiter s
           end in
  let base := base_payload args Events.Failed in
  report config
    (Events.mkPayload None None (Cgroup.pod_uid <$> identity pl)
       (Cgroup.container_id <$> identity pl) None (host_pid args) (exe args) (signal args)
       (Events.signal_name base) Events.Failed None 0 None false (Some (join (b! ": ") e))
       (timestamp args))
    (mkState (store_world s) l (socket s) (summary s)).

Definition run (args : CaptureArgs) (config : Config.HandlerConfig) (core_in : pipe)
    (store_override : bool) (s : State World) : State World * outcome (result unit error) :=
  let pl := plan args config store_override in
  let '(l, rate_recorded, rate_suppressed) := rate_limit args config pl (limiter s) in
  let '(w, drained) := drain config pl rate_suppressed core_in (store_world s) in
  let s := mkState w l (socket s) (summary s) in
  match drained with
  | Panic => (s, Panic)
  | Ret (Err e) =>
      let e := b! "draining core stream" :: e in
      (drain_failed args config pl rate_recorded e s, Ret (Err e))
  | Ret (Ok stats) => (finish args config pl rate_suppressed stats s, Ret (Ok tt))
  end.

End run.

(** ** Lemmas *)

(** A cluster name whose segments need no encoding in an object path. *)
Definition plain_cluster (config : Config.HandlerConfig) : Prop :=
  forallb path_segment (split "/"%byte (Config.cluster config)) = true.

Definition deadline_of (config : Config.HandlerConfig) : option Z :=
  if decide (Config.upload_deadline_secs config = 0)%Z then None
  else Some (Config.upload_deadline_secs config).

(** The deadline of this run is an [Instant]; [upload_deadline_secs] is any [u64]. *)
Definition deadline_fits (env : Env) (config : Config.HandlerConfig) : Prop :=
  fits (env_monotonic env) (deadline_of config).
#[global] Instance deadline_fits_dec env config : Decision (deadline_fits env config) := fits_dec _ _.

Lemma plain_segment s c :
  forallb path_char s = true → c ∈ s → c ≠ "."%byte → path_segment s = true.
Proof.
  intros Hs Hc Hne. unfold path_segment. rewrite Hs. apply bool_decide_eq_true_2.
  rewrite !not_elem_of_cons. split_and!; [intros ->..|apply not_elem_of_nil].
  - by apply not_elem_of_nil in Hc.
  - apply elem_of_cons in Hc as [?|Hc%not_elem_of_nil]; done.
  - apply elem_of_cons in Hc as [?|Hc]; [done|].
    apply elem_of_cons in Hc as [?|Hc%not_elem_of_nil]; done.
Qed.

Lemma plain_uid u : Cgroup.is_pod_uid u = true → path_segment u = true.
Proof.
  unfold Cgroup.is_pod_uid. intros H. bool_hyps. destruct u as [|c u]; [done|].
  apply plain_segment with c; [|by left|].
  - eapply forallb_weaken; [|done]. intros d. by destruct d.
  - intros ->. done.
Qed.

Lemma plain_cid u : Cgroup.is_container_id u = true → path_segment u = true.
Proof.
  unfold Cgroup.is_container_id. intros H. bool_hyps. destruct u as [|c u]; [cbn in *; lia|].
  apply plain_segment with c; [|by left|].
  - eapply forallb_weaken; [|done]. intros d. by destruct d.
  - intros ->. done.
Qed.

Lemma plain_last a ts pid :
  path_segment (to_string ts ++ "-"%byte :: to_string pid ++ "-"%byte :: suffix_of a) = true.
Proof.
  assert (∀ z, forallb path_char (to_string z) = true) as Hz.
  { intros z. eapply forallb_weaken; [|apply to_string_chars]. intros c. by destruct c. }
  apply plain_segment with "-"%byte; [|apply elem_of_app; right; by left|done].
  rewrite forallb_app. cbn [forallb]. rewrite forallb_app. cbn [forallb].
  rewrite !Hz. by destruct a.
Qed.

Section facts.
Context {World : Type} `{ObjectStore World} {OL : ObjectStoreLaws World}
  {B : BufWriter World} {BL : BufWriterLaws World} {Zs : Zstd} {ZL : ZstdLaws Zs}
  {P : ObjectPath} {PL : ObjectPathLaws P} {J : JsonText} {T : Snapshot.Tar}
  {C : RateLimit.StateCodec}.
Context (env : Env).
Implicit Types (s : State World) (w : World).

Lemma key_is_path a cl pod cid ts pid :
  forallb path_segment (split "/"%byte cl) = true →
  Cgroup.is_pod_uid pod = true → Cgroup.is_container_id cid = true →
  object_path (key_of a (Keys.new cl pod cid ts pid)) = key_of a (Keys.new cl pod cid ts pid).
Proof.
  intros Hcl Hp Hc. apply object_path_plain.
  rewrite key_of_split by auto using Cgroup.slash_free_uid, Cgroup.slash_free_cid.
  rewrite forallb_app, Hcl. cbn [forallb].
  by rewrite (plain_uid pod), (plain_cid cid), (plain_last a) by done.
Qed.

Lemma plan_target args config ov id k :
  target (plan env args config ov) = Some (id, k) →
  Cgroup.is_pod_uid (Cgroup.pod_uid id) = true
  ∧ Cgroup.is_container_id (Cgroup.container_id id) = true
  ∧ k = Keys.new (Config.cluster config) (Cgroup.pod_uid id) (Cgroup.container_id id)
          (timestamp args) (host_pid args)
  ∧ identity (plan env args config ov) = Some id ∧ keys (plan env args config ov) = Some k
  ∧ store (plan env args config ov) = true.
Proof.
  unfold plan. cbn [target identity keys store].
  destruct (read_cgroup_identity _ _ _) as [i|] eqn:E; [|done]. cbn.
  destruct (ov || _); [|done]. intros [= <- <-].
  unfold read_cgroup_identity in E. destruct (Snapshot.read_to_string _ _); [|done].
  apply Cgroup.parse_cgroup_valid in E as [Hu Hc]. done.
Qed.

(** The three objects of a capture are different objects of the bucket. *)
Lemma target_paths args config ov id k :
  plain_cluster config → target (plan env args config ov) = Some (id, k) →
  (∀ a, object_path (key_of a k) = key_of a k)
  ∧ ∀ a a', a ≠ a' → key_of a k ≠ key_of a' k.
Proof.
  intros Hcl Ht. apply plan_target in Ht as (Hu & Hc & -> & _).
  split; [intros a; by apply key_is_path|]. intros a a' Hne Heq.
  apply key_of_inj in Heq as [? _]; auto using Cgroup.slash_free_uid, Cgroup.slash_free_cid.
Qed.

Lemma put_object_ok w key v w' :
  put_object w key v = (w', Ok tt) → objects w' = <[object_path key := v]> (objects w).
Proof.
  unfold put_object. destruct (put w _ v) as [w1 [[]|e]] eqn:E; [|done].
  intros [= <-]. by apply put_ok.
Qed.

Lemma put_object_frame w key v w' r k :
  put_object w key v = (w', r) → k ≠ object_path key → objects w' !! k = objects w !! k.
Proof.
  unfold put_object. destruct (put w _ v) as [w1 r1] eqn:E. intros Hp Hk.
  assert (w' = w1) as -> by (destruct r1 as [[]|]; congruence).
  by eapply put_frame.
Qed.

Lemma upload_snapshot_spec pl w w' r :
  upload_snapshot pl w = (w', r) →
  (∀ k, (∀ id ks, target pl = Some (id, ks) → k ≠ object_path (Keys.proc_snapshot ks)) →
        objects w' !! k = objects w !! k)
  ∧ ∀ key, r = Some key →
      ∃ id ks tar, target pl = Some (id, ks) ∧ key = Keys.proc_snapshot ks
        ∧ Snapshot.to_tar (snapshot pl) = Some tar
        ∧ objects w' !! object_path key = Some tar.
Proof.
  unfold upload_snapshot. destruct (target pl) as [[id ks]|]; [|by intros [= <- <-]].
  destruct (Snapshot.to_tar _) as [tar|]; [|by intros [= <- <-]].
  destruct (put_object w _ tar) as [w1 [[]|e]] eqn:E; intros [= <- <-]; (split; [|done || idtac]).
  - intros k Hk. eapply put_object_frame; [done|]. by eapply Hk.
  - intros key [= <-]. exists id, ks, tar. split_and!; try done.
    apply put_object_ok in E as ->. apply lookup_insert_eq.
  - intros k Hk. eapply put_object_frame; [done|]. by eapply Hk.
Qed.

Lemma write_manifest_spec pl m w w' r :
  write_manifest pl m w = (w', r) →
  (∀ k, (∀ id ks, target pl = Some (id, ks) → k ≠ object_path (Keys.manifest ks)) →
        objects w' !! k = objects w !! k)
  ∧ ∀ key, r = Some key →
      ∃ id ks, target pl = Some (id, ks) ∧ key = Keys.manifest ks
        ∧ objects w' !! object_path key = Some (text_to_vec_pretty (Manifest.ser_manifest m)).
Proof.
  unfold write_manifest. destruct (target pl) as [[id ks]|]; [|by intros [= <- <-]].
  destruct (put_object w _ _) as [w1 [[]|e]] eqn:E; intros [= <- <-]; (split; [|done || idtac]).
  - intros k Hk. eapply put_object_frame; [done|]. by eapply Hk.
  - intros key [= <-]. exists id, ks. split_and!; try done.
    apply put_object_ok in E as ->. apply lookup_insert_eq.
  - intros k Hk. eapply put_object_frame; [done|]. by eapply Hk.
Qed.

(** What the stats of a stored core say about the object under [key]. *)
Definition core_stored (config : Config.HandlerConfig) (core_in : pipe) (key : bytes) (st : CoreStats)
    (w : World) : Prop :=
  let data := fst (delivered (deadline_of config) core_in) in
  ∃ obj, objects w !! object_path key = Some obj
    ∧ zstd_decode obj = Some (takeZ (cap_of (Config.max_core_bytes config)) data)
    ∧ bytes_ st = Z.of_nat (length data)
    ∧ stored_bytes st = wrap_u64 (Z.of_nat (length obj))
    ∧ sha256 st = Some (hex_lower (env_sha256 env obj)).

Lemma drain_frame config pl sup core_in w w' r :
  drain env config pl sup core_in w = (w', r) →
  ((r = Panic ↔ ¬ deadline_fits env config) ∧ (r = Panic → w' = w)) ∧
  ∀ k, (∀ id ks, sup = false → target pl = Some (id, ks) → k ≠ object_path (Keys.core ks)) →
       objects w' !! k = objects w !! k.
Proof.
  unfold drain. fold (deadline_of config). unfold deadline_fits. intros Hd.
  destruct sup; [by apply discard_frame in Hd as [-> ?]|].
  destruct (target pl) as [[id ks]|]; [|by apply discard_frame in Hd as [-> ?]].
  apply standalone_safe in Hd as (Hp & Hw & Hf & _). split; [done|].
  intros k Hk. apply Hf. cbn. by eapply Hk.
Qed.

Lemma drain_ok config pl sup core_in w w' st :
  (0 ≤ Config.max_core_bytes config ≤ u64_max)%Z →
  (Z.of_nat (length (fst (delivered (deadline_of config) core_in))) ≤ u64_max)%Z →
  drain env config pl sup core_in w = (w', Ret (Ok st)) →
  (sha256 st = None ∧ (sup = true ∨ target pl = None))
  ∨ (sup = false ∧ ∃ id ks, target pl = Some (id, ks)
       ∧ core_stored config core_in (Keys.core ks) st w').
Proof.
  intros Hm Hl. unfold drain. fold (deadline_of config).
  assert (∀ w1, drain_core mkDiscard (env_monotonic env) core_in (deadline_of config) w
                = (w1, Ret (Ok st)) → sha256 st = None) as Hdisc.
  { intros w1 Hd. by apply discard_stats in Hd as [? _]. }
  destruct sup; [intros Hd; left; eauto|].
  destruct (target pl) as [[id ks]|]; [|intros Hd; left; eauto].
  intros Hd. right. split; [done|]. exists id, ks. split; [done|].
  apply standalone_ok in Hd as (obj & Ho & Hdec & Hb & Hs & Hsha & _); [|done|done].
  exists obj. done.
Qed.

(** A run panics exactly when its deadline is no [Instant], and then it has touched
    nothing but the limiter. *)
Lemma run_panics args config core_in ov s s' r :
  run env args config core_in ov s = (s', r) →
  (r = Panic ↔ ¬ deadline_fits env config)
  ∧ (r = Panic → s' = mkState (store_world s)
       (fst (fst (rate_limit env args config (plan env args config ov) (limiter s))))
       (socket s) (summary s)).
Proof.
  unfold run. cbv zeta.
  destruct (rate_limit _ _ _ _ _) as [[l rec] sup]. destruct (drain _ _ _ _ _ _) as [w dr] eqn:Ed.
  apply drain_frame in Ed as [[<- Hw] _].
  destruct dr as [|[st|e]]; intros [= <- <-]; split; try done; intros _. by rewrite Hw.
Qed.

(** The two ways a run returns. *)
Lemma run_inv args config core_in ov s s' r :
  run env args config core_in ov s = (s', Ret r) →
  let pl := plan env args config ov in
  ∃ l rec sup w dr,
    rate_limit env args config pl (limiter s) = (l, rec, sup)
    ∧ drain env config pl sup core_in (store_world s) = (w, dr)
    ∧ match dr with
      | Panic => False
      | Ret (Err e) =>
          r = Err (b! "draining core stream" :: e)
          ∧ s' = drain_failed env args config pl rec (b! "draining core stream" :: e)
                   (mkState w l (socket s) (summary s))
      | Ret (Ok st) =>
          r = Ok tt ∧ s' = finish env args config pl sup st (mkState w l (socket s) (summary s))
      end.
Proof.
  unfold run. cbv zeta.
  destruct (rate_limit _ _ _ _ _) as [[l rec] sup] eqn:El.
  destruct (drain _ _ _ _ _ _) as [w dr] eqn:Ed. intros Hr.
  exists l, rec, sup, w, dr. split; [done|]. split; [done|].
  destruct dr as [|[st|e]]; [done| |]; injection Hr as <- <-; done.
Qed.

(** The manifest of a finished run. *)
Definition manifest_of (args : CaptureArgs) (config : Config.HandlerConfig) (ov : bool)
    (sup : bool) (st : CoreStats) (w : World) : Manifest.Manifest :=
  let pl := plan env args config ov in
  build_manifest env args config pl sup st (snd (upload_snapshot pl w)).

Lemma finish_inv args config ov sup st s :
  let pl := plan env args config ov in
  let m := manifest_of args config ov sup st (store_world s) in
  let w1 := fst (upload_snapshot pl (store_world s)) in
  let s' := finish env args config pl sup st s in
  store_world s' = fst (write_manifest pl m w1)
  ∧ limiter s' = limiter s
  ∧ ∃ p, summary s' = summary s ++ [p]
      ∧ socket s' = Events.send_capture_event (Config.event_socket_path config)
                      (env_send_fault env) p (socket s)
      ∧ Events.manifest_key p = snd (write_manifest pl m w1)
      ∧ Events.outcome p = outcome_of pl sup (bool_decide (is_Some (sha256 st)))
      ∧ Events.error p = None
      ∧ Events.pod_uid p = Cgroup.pod_uid <$> identity pl
      ∧ Events.container_id p = Cgroup.container_id <$> identity pl
      ∧ Events.namespace p = Manifest.mi_namespace (Manifest.identity m)
      ∧ Events.pod_name p = Manifest.mi_pod_name (Manifest.identity m).
Proof.
  unfold finish, manifest_of. cbv zeta.
  destruct (upload_snapshot _ _) as [w1 pk]. cbn [fst snd].
  destruct (write_manifest _ _ _) as [w2 mk]. cbn [fst snd report store_world limiter socket summary].
  split; [done|]. split; [done|]. eexists. split; [done|]. done.
Qed.

Lemma plan_target_some args config ov id :
  identity (plan env args config ov) = Some id → store (plan env args config ov) = true →
  is_Some (target (plan env args config ov)).
Proof. unfold plan. cbn [identity store target]. intros -> ->. by eexists. Qed.

(** A drain that discards: a suppressed core, or one without a target. *)
Lemma drain_discards config pl sup core_in w :
  sup = true ∨ target pl = None → deadline_fits env config →
  (Z.of_nat (length (fst (delivered (deadline_of config) core_in))) ≤ u64_max)%Z →
  drain env config pl sup core_in w
  = (w, Ret match delivered (deadline_of config) core_in with
            | (data, AtEof) => Ok (mkCoreStats (Z.of_nat (length data)) 0 None false None)
            | (data, AtError _) =>
                Ok (mkCoreStats (Z.of_nat (length data)) 0 None true (Some STREAM_ERROR))
            | (_, AtDeadline) => Err DEADLINE_ERROR
            end).
Proof.
  intros Hno Hf Hl. assert (drain env config pl sup core_in w
    = drain_core mkDiscard (env_monotonic env) core_in (deadline_of config) w) as ->.
  { unfold drain. destruct Hno as [-> | ->]; [done|by destruct sup]. }
  rewrite discard_drains by done. cbv zeta. rewrite decide_True by done.
  by destruct (delivered _ _) as [data []].
Qed.

(** A standalone drain that succeeds stored something. *)
Lemma drain_uploads config pl sup core_in w w' st :
  drain env config pl sup core_in w = (w', Ret (Ok st)) →
  sup = false → is_Some (target pl) → is_Some (sha256 st).
Proof.
  unfold drain. intros Hd -> [[id ks] Ht]. rewrite Ht in Hd. unfold standalone_drain_core in Hd.
  destruct (stream_core_through_zstd _ _ _ _ _ _ _) as [w1 [|[[[[n sz] sha] reason]|e]]]; try done.
  injection Hd as _ <-. by eexists.
Qed.

Lemma finish_not_failed args config ov sup st core_in w w' :
  let pl := plan env args config ov in
  drain env config pl sup core_in w = (w', Ret (Ok st)) →
  outcome_of pl sup (bool_decide (is_Some (sha256 st))) ≠ Events.Failed.
Proof.
  intros pl Hd. unfold outcome_of. case_bool_decide as Hid; [done|].
  destruct sup; [done|]. destruct (store pl) eqn:Hs; [|done]. cbn.
  destruct (identity pl) as [id|] eqn:Ei; [|done].
  pose proof (plan_target_some args config ov id Ei Hs) as Ht.
  pose proof (drain_uploads _ _ _ _ _ _ _ Hd eq_refl Ht) as Hu.
  by rewrite bool_decide_true.
Qed.

(** The limiter of a run without state-file errors only prunes, or records one upload. *)
Lemma rate_limit_state {CL : RateLimit.StateCodecLaws C} args config ov l l' rec sup id ks :
  env_check_faults env = RateLimit.no_faults → Config.max_cores_per_hour config ≠ 0%Z →
  target (plan env args config ov) = Some (id, ks) →
  rate_limit env args config (plan env args config ov) l = (l', rec, sup) →
  ∃ d, RateLimit.check_state (Config.max_cores_per_hour config) (Cgroup.pod_uid id)
         (timestamp args) (RateLimit.state_of l) = (RateLimit.state_of l', d)
       ∧ rec = bool_decide (d = RateLimit.Allowed) ∧ sup = negb rec.
Proof.
  intros Hf Hm Ht. unfold rate_limit. rewrite Ht, Hf.
  destruct (RateLimit.check_and_record_ok (Config.max_cores_per_hour config) (Cgroup.pod_uid id)
    (timestamp args) l Hm) as [Hst Hd].
  destruct (RateLimit.check_and_record _ _ _ _ l) as [l1 d]; cbn in Hst, Hd. intros Hr.
  exists d. assert (l' = l1) as -> by (destruct d; congruence).
  split; [rewrite Hst, Hd; apply surjective_pairing|]. destruct d; injection Hr as <- <-; done.
Qed.

(** What a completed capture leaves in the bucket: the manifest, over the core the
    stats describe and the snapshot. *)
Lemma capture_objects args config ov core_in sup st w0 w w1 w2 pk m mkey :
  let pl := plan env args config ov in
  plain_cluster config → (0 ≤ Config.max_core_bytes config ≤ u64_max)%Z →
  (Z.of_nat (length (fst (delivered (deadline_of config) core_in))) ≤ u64_max)%Z →
  drain env config pl sup core_in w0 = (w, Ret (Ok st)) →
  upload_snapshot pl w = (w1, pk) → write_manifest pl m w1 = (w2, Some mkey) →
  ∃ id ks, target pl = Some (id, ks) ∧ mkey = Keys.manifest ks
    ∧ objects w2 !! object_path mkey = Some (text_to_vec_pretty (Manifest.ser_manifest m))
    ∧ (is_Some (sha256 st) → core_stored config core_in (Keys.core ks) st w2)
    ∧ ∀ key, pk = Some key →
      ∃ tar, Snapshot.to_tar (snapshot pl) = Some tar ∧ objects w2 !! object_path key = Some tar.
Proof.
  intros pl Hcl Hm Hl Hd [Hfu Hku]%upload_snapshot_spec [Hfm Hkm]%write_manifest_spec.
  destruct (Hkm mkey eq_refl) as (id & ks & Ht & -> & Hobj).
  destruct (target_paths args config ov id ks Hcl Ht) as [Hpath Hne].
  assert (∀ a, a ≠ ManifestObj → objects w2 !! object_path (key_of a ks)
                                 = objects w1 !! object_path (key_of a ks)) as Hw2.
  { intros a Ha. apply Hfm. intros id' ks' Ht'. rewrite Ht in Ht'. injection Ht' as <- <-.
    rewrite Hpath. change (Keys.manifest ks) with (key_of ManifestObj ks). rewrite Hpath. by apply Hne. }
  exists id, ks. split_and!; [done..| |].
  - intros Hup. destruct (drain_ok config pl sup core_in _ w st Hm Hl Hd)
      as [[Hnone _]|(_ & id' & ks' & Ht' & obj & Ho & Hrest)].
    { rewrite Hnone in Hup. by destruct Hup. }
    rewrite Ht in Ht'. injection Ht' as <- <-. exists obj. split; [|exact Hrest].
    change (Keys.core ks) with (key_of CoreObj ks) in *. rewrite Hw2, Hfu; [done| |done].
    intros id' ks' Ht'. rewrite Ht in Ht'. injection Ht' as <- <-.
    rewrite Hpath. change (Keys.proc_snapshot ks) with (key_of SnapshotObj ks). rewrite Hpath. by apply Hne.
  - intros key Hpk. destruct (Hku key Hpk) as (id' & ks' & tar & Ht' & -> & Htar & Hat).
    rewrite Ht in Ht'. injection Ht' as <- <-. exists tar. split; [done|].
    change (Keys.proc_snapshot ks) with (key_of SnapshotObj ks) in *. by rewrite Hw2.
Qed.

(** With a target, the reported outcome tells whether the core was stored or suppressed. *)
Lemma target_outcome args config ov id ks core_in sup st w0 w :
  let pl := plan env args config ov in
  let uploaded := bool_decide (is_Some (sha256 st)) in
  target pl = Some (id, ks) → drain env config pl sup core_in w0 = (w, Ret (Ok st)) →
  outcome_of pl sup uploaded = if sup then Events.SuppressedRateLimit else Events.Uploaded.
Proof.
  intros pl uploaded Ht Hd. unfold outcome_of.
  destruct (plan_target _ _ _ _ _ Ht) as (_ & _ & _ & Hi & _ & Hs). fold pl in Hi, Hs.
  rewrite Hi, Hs, bool_decide_false by done. destruct sup; [done|]. cbn.
  unfold uploaded. rewrite bool_decide_true; [done|].
  eapply drain_uploads; [done..|]. by rewrite Ht.
Qed.

(** A suppressed core is discarded. *)
Lemma suppressed_not_stored config pl core_in w0 w st :
  drain env config pl true core_in w0 = (w, Ret (Ok st)) → sha256 st = None.
Proof.
  intros Hd. by apply discard_stats in Hd as [? _].
Qed.

(** What the bucket holds of a capture that reported [p]: under a reported manifest key, a
    manifest of the container with the objects it describes. *)
Definition complete (args : CaptureArgs) (config : Config.HandlerConfig) (core_in : pipe) (ov : bool)
    (p : Events.CaptureEventPayload) (w : World) : Prop :=
  let pl := plan env args config ov in
  ∀ mkey, Events.manifest_key p = Some mkey →
  ∃ m id ks, objects w !! object_path mkey = Some (text_to_vec_pretty (Manifest.ser_manifest m))
    ∧ target pl = Some (id, ks) ∧ mkey = Keys.manifest ks ∧ identity pl = Some id
    ∧ Manifest.mi_pod_uid (Manifest.identity m) = Cgroup.pod_uid id
    ∧ Manifest.mi_container_id (Manifest.identity m) = Cgroup.container_id id
    ∧ (Manifest.present (Manifest.core m) = true ↔ Events.outcome p = Events.Uploaded)
    ∧ (Manifest.skipped_reason (Manifest.core m) = Some (b! "rate_limit")
       ↔ Events.outcome p = Events.SuppressedRateLimit)
    ∧ (Manifest.present (Manifest.core m) = true →
       Manifest.object_key (Manifest.core m) = Some (Keys.core ks)
       ∧ ∃ st, core_stored config core_in (Keys.core ks) st w
           ∧ Manifest.size_bytes (Manifest.core m) = Some (bytes_ st)
           ∧ Manifest.stored_bytes (Manifest.core m) = Some (stored_bytes st)
           ∧ Manifest.sha256 (Manifest.core m) = sha256 st)
    ∧ ∀ r, Manifest.proc_snapshot m = Some r →
      Manifest.ps_object_key r = Keys.proc_snapshot ks
      ∧ ∃ tar, Snapshot.to_tar (snapshot pl) = Some tar
          ∧ objects w !! object_path (Keys.proc_snapshot ks) = Some tar.

(** A capture is complete once its manifest is stored over the objects it describes. *)
Lemma complete_intro args config ov core_in sup st pk id ks (p : Events.CaptureEventPayload) (w : World) :
  let pl := plan env args config ov in
  let m := build_manifest env args config pl sup st pk in
  target pl = Some (id, ks) →
  (is_Some (sha256 st) ↔ sup = false) →
  (is_Some (sha256 st) → core_stored config core_in (Keys.core ks) st w) →
  (∀ key, pk = Some key → key = Keys.proc_snapshot ks
     ∧ ∃ tar, Snapshot.to_tar (snapshot pl) = Some tar
         ∧ objects w !! object_path (Keys.proc_snapshot ks) = Some tar) →
  objects w !! object_path (Keys.manifest ks) = Some (text_to_vec_pretty (Manifest.ser_manifest m)) →
  Events.outcome p = (if sup then Events.SuppressedRateLimit else Events.Uploaded) →
  (∀ mkey, Events.manifest_key p = Some mkey → mkey = Keys.manifest ks) →
  complete args config core_in ov p w.
Proof.
  intros pl m Ht Hsup Hcore Hsnap Hobj Hout Hkey mkey Hk. rewrite (Hkey mkey Hk), Hout.
  destruct (plan_target args config ov id ks Ht) as (_ & _ & _ & Hid & Hkeys & _).
  exists m, id, ks. unfold m, pl. cbn [build_manifest Manifest.core Manifest.present Manifest.skipped_reason
    Manifest.identity Manifest.mi_pod_uid Manifest.mi_container_id Manifest.proc_snapshot].
  rewrite Hid, Hkeys. split_and!; [done..| | | |].
  - rewrite bool_decide_eq_true, Hsup. by destruct sup.
  - by destruct sup.
  - intros Hup. rewrite Hup. apply bool_decide_eq_true in Hup. split; [done|]. exists st. split; [by apply Hcore|done].
  - intros r. destruct pk as [key|]; [|done]. intros [= <-]. by apply Hsnap.
Qed.

(** What a successful drain says of its digest. *)
Lemma drain_digest config pl sup core_in w0 w st id ks :
  target pl = Some (id, ks) → drain env config pl sup core_in w0 = (w, Ret (Ok st)) →
  is_Some (sha256 st) ↔ sup = false.
Proof.
  intros Ht Hd. split.
  - destruct sup; [|done]. rewrite (suppressed_not_stored _ _ _ _ _ _ Hd). by intros [? ?].
  - intros Hs. eapply drain_uploads; [done..|]. by rewrite Ht.
Qed.

Lemma run_complete args config core_in ov s s' r :
  plain_cluster config → (0 ≤ Config.max_core_bytes config ≤ u64_max)%Z →
  (Z.of_nat (length (fst (delivered (deadline_of config) core_in))) ≤ u64_max)%Z →
  run env args config core_in ov s = (s', Ret r) →
  ∃ p, summary s' = summary s ++ [p] ∧ complete args config core_in ov p (store_world s').
Proof.
  intros Hcl Hm Hl Hrun. apply run_inv in Hrun as (l & rec & sup & w & dr & _ & Hd & Hr).
  destruct dr as [|[st|e]]; [done| |]; destruct Hr as [_ ->]; [|by eexists].
  destruct (finish_inv args config ov sup st (mkState w l (socket s) (summary s)))
    as (Hw & _ & p & Hsum & _ & Hmk & Hout & _). cbn [store_world summary] in *.
  exists p. split; [done|]. intros mkey Hk. pose proof Hk as Hk'. revert Hk'. rewrite Hmk, Hw. unfold manifest_of in *.
  set (pl := plan env args config ov) in *.
  destruct (upload_snapshot pl w) as [w1 pk] eqn:Eu. cbn [fst snd].
  destruct (write_manifest pl _ w1) as [w2 mk] eqn:Em. cbn [fst snd] in *. intros ->.
  destruct (capture_objects _ _ _ _ _ _ _ _ _ _ _ _ _ Hcl Hm Hl Hd Eu Em)
    as (id & ks & Ht & -> & Hobj & Hcore & Hsnap).
  refine (complete_intro args config ov core_in sup st pk id ks p w2 Ht _ Hcore _ Hobj _ _ _ Hk).
  - by eapply drain_digest.
  - intros key ->. apply upload_snapshot_spec in Eu as [_ Hu].
    destruct (Hu key eq_refl) as (id' & ks' & _ & Ht' & -> & _). unfold pl in Ht'.
    rewrite Ht in Ht'. injection Ht' as <- <-. split; [done|]. by apply Hsnap.
  - rewrite Hout. by apply (target_outcome args config ov id ks core_in sup st _ _ Ht Hd).
  - intros k Hk'. rewrite Hk in Hk'. by injection Hk'.
Qed.
End facts.

(** ** Properties *)

(** C1: a manifest is only ever stored over a complete capture: when a run reports a
    manifest key, the bucket holds under it a manifest of the crashed container that
    says a core is present exactly when the outcome is [uploaded] and that it was
    skipped exactly when the pod's budget suppressed it; a core that is present is
    an object that decompresses to the delivered core up to the cap, with the
    sizes and sha256 the manifest states; a snapshot it names is the snapshot's tar. *)
Theorem manifest_integrity {World} `{ObjectStore World} {OL : ObjectStoreLaws World}
    {B : BufWriter World} {BL : BufWriterLaws World} {Zs : Zstd} {ZL : ZstdLaws Zs}
    {P : ObjectPath} {PL : ObjectPathLaws P} {J : JsonText} {T : Snapshot.Tar}
    {C : RateLimit.StateCodec} env args config core_in ov (s s' : State World) :
  plain_cluster config → (0 ≤ Config.max_core_bytes config ≤ u64_max)%Z →
  (Z.of_nat (length (fst (delivered (deadline_of config) core_in))) ≤ u64_max)%Z →
  run env args config core_in ov s = (s', Ret (Ok tt)) →
  ∃ p, summary s' = summary s ++ [p] ∧
  ∀ mkey, Events.manifest_key p = Some mkey →
  ∃ m id, objects (store_world s') !! object_path mkey
       = Some (text_to_vec_pretty (Manifest.ser_manifest m))
    ∧ identity (plan env args config ov) = Some id
    ∧ Manifest.mi_pod_uid (Manifest.identity m) = Cgroup.pod_uid id
    ∧ Manifest.mi_container_id (Manifest.identity m) = Cgroup.container_id id
    ∧ (Manifest.present (Manifest.core m) = true ↔ Events.outcome p = Events.Uploaded)
    ∧ (Manifest.skipped_reason (Manifest.core m) = Some (b! "rate_limit")
       ↔ Events.outcome p = Events.SuppressedRateLimit)
    ∧ (Manifest.present (Manifest.core m) = true →
       ∃ key obj, Manifest.object_key (Manifest.core m) = Some key
         ∧ objects (store_world s') !! object_path key = Some obj
         ∧ zstd_decode obj = Some (takeZ (cap_of (Config.max_core_bytes config))
                                    (fst (delivered (deadline_of config) core_in)))
         ∧ Manifest.size_bytes (Manifest.core m)
           = Some (Z.of_nat (length (fst (delivered (deadline_of config) core_in))))
         ∧ Manifest.stored_bytes (Manifest.core m) = Some (wrap_u64 (Z.of_nat (length obj)))
         ∧ Manifest.sha256 (Manifest.core m) = Some (hex_lower (env_sha256 env obj)))
    ∧ ∀ r, Manifest.proc_snapshot m = Some r →
      ∃ tar, Snapshot.to_tar (snapshot (plan env args config ov)) = Some tar
        ∧ objects (store_world s') !! object_path (Manifest.ps_object_key r) = Some tar.
Proof.
  intros Hcl Hm Hl Hrun. destruct (run_complete env _ _ _ _ _ _ _ Hcl Hm Hl Hrun) as (p & Hsum & Hc).
  exists p. split; [done|]. intros mkey Hk.
  destruct (Hc mkey Hk) as (m & id & ks & Hobj & Ht & -> & Hid & Hu & Hcid & Hpres & Hskip & Hcore & Hsnap).
  exists m, id. split_and!; [done..| |].
  - intros Hp. destruct (Hcore Hp) as (Hkey & st & (obj & Ho & Hdec & Hb & Hst & Hsha) & Hsb & Hss & Hss').
    exists (Keys.core ks), obj. by rewrite Hsb, Hss, Hss', Hb, Hst.
  - intros r Hr. destruct (Hsnap r Hr) as (-> & tar & Htar & Hat). by exists tar.
Qed.

(** A container crash on a node with an in-memory store. *)
Definition sample_proc : Snapshot.Fs :=
  Snapshot.mkFs
    (λ p, if decide (p = b! "/proc/7/cgroup")
          then Some (Snapshot.mkOpen Cgroup.sample_content false)
          else if decide (p = b! "/proc/7/status")
          then Some (Snapshot.mkOpen (b! "Name: app") false) else None)
    (λ _, None) (λ _, None).

Definition sample_lib : StoreLib :=
  mkLib bytes bytes Some id id Config.toy_scheme (λ _, Some) (λ _ _ _ _, true) (λ _, false).

Definition sample_env : Env :=
  mkEnv sample_proc Redact.soft_log2 (λ _, InTime (Err (b! "no crictl"))) (λ _, None)
    Mem.toy_digest sample_lib RateLimit.no_faults RateLimit.no_faults None 4242.

Definition sample_args : CaptureArgs := mkArgs 7 11 1749600000 (b! "!usr!bin!app").
Definition sample_state : State Mem.store := mkState ∅ RateLimit.empty_fs [] [].

Definition sample_run (core_in : pipe) : State Mem.store * outcome (result unit error) :=
  run (J := token_text) (T := Snapshot.MemTar.mem_tar) (C := RateLimit.decimal_codec)
    sample_env sample_args Config.sample_config core_in false sample_state.

Lemma manifest_integrity_witness :
  ∃ p, summary (fst (sample_run [Avail (InTime (b! "core"))])) = [p] ∧
  ∀ mkey, Events.manifest_key p = Some mkey →
  ∃ m, objects (store_world (fst (sample_run [Avail (InTime (b! "core"))]))) !! mkey
       = Some (text_to_vec_pretty (JsonText := token_text) (Manifest.ser_manifest m)).
Proof.
  destruct (manifest_integrity (J := token_text) (T := Snapshot.MemTar.mem_tar)
    (C := RateLimit.decimal_codec) sample_env sample_args Config.sample_config
    [Avail (InTime (b! "core"))] false sample_state
    (fst (sample_run [Avail (InTime (b! "core"))]))) as (p & Hp & Hm).
  - reflexivity.
  - done.
  - done.
  - fold (sample_run [Avail (InTime (b! "core"))]).
    rewrite (surjective_pairing (sample_run _)) at 1. apply (f_equal (pair _)).
    vm_compute. reflexivity.
  - exists p. split; [exact Hp|]. intros mkey Hk. destruct (Hm mkey Hk) as (m & id & Ho & _).
    exists m. exact Ho.
Defined.

Example sample_run_uploads :
  (λ p, (Events.outcome p, bool_decide (is_Some (Events.manifest_key p))))
    <$> summary (fst (sample_run [Avail (InTime (b! "core"))]))
  = [(Events.Uploaded, true)].
Proof. vm_compute. reflexivity. Qed.

(** C2: every run ends in exactly one report, but for one panic. With a deadline that is
    an [Instant] (added to the monotonic clock its seconds fit an [i64]) the run
    returns: it logs one summary line and hands the same payload to the socket, and
    the reported outcome is [failed] exactly when the run returns an error. With any
    other deadline, which the config does not exclude, it panics after the budget was
    charged: nothing is drained, stored or reported. *)
Theorem run_reports_once {World} `{ObjectStore World} {OL : ObjectStoreLaws World}
    {B : BufWriter World} {BL : BufWriterLaws World} {Zs : Zstd} {ZL : ZstdLaws Zs}
    {P : ObjectPath} {J : JsonText} {T : Snapshot.Tar}
    {C : RateLimit.StateCodec} env args config core_in ov (s : State World) :
  if decide (deadline_fits env config) then
    ∃ s' r p, run env args config core_in ov s = (s', Ret r)
      ∧ summary s' = summary s ++ [p]
      ∧ socket s' = Events.send_capture_event (Config.event_socket_path config)
                      (env_send_fault env) p (socket s)
      ∧ (Events.outcome p = Events.Failed ↔ is_ok r = false)
      ∧ (is_Some (Events.error p) ↔ is_ok r = false)
  else
    run env args config core_in ov s
    = (mkState (store_world s)
         (fst (fst (rate_limit env args config (plan env args config ov) (limiter s))))
         (socket s) (summary s), Panic).
Proof.
  destruct (run env args config core_in ov s) as [s' r] eqn:Hrun.
  pose proof (run_panics _ _ _ _ _ _ _ _ Hrun) as [Hp Hs]. case_decide as Hf.
  2:{ assert (r = Panic) as -> by tauto. by rewrite Hs. }
  destruct r as [|r]; [by destruct Hp as [[] _]|].
  apply run_inv in Hrun as (l & rec & sup & w & dr & _ & Hd & Hr).
  destruct dr as [|[st|e]]; [done| |]; destruct Hr as [-> ->].
  - destruct (finish_inv env args config ov sup st (mkState w l (socket s) (summary s)))
      as (_ & _ & p & Hsum & Hsock & _ & Hout & Herr & _).
    eexists _, _, p. split; [done|]. split; [done|]. split; [done|]. cbn [is_ok].
    rewrite Hout, Herr. split; [|by split; [intros [? ?]|]]. split; [|done].
    intros Hfl. exfalso. by eapply finish_not_failed.
  - eexists _, _, _. split; [done|]. split; [done|]. split; [done|]. cbn. by split.
Qed.

(** A read error on the pipe, and a deadline of 2^64 - 1 seconds: the pod's slot is
    consumed and nobody hears of the crash. *)
Definition endless_config : Config.HandlerConfig :=
  Config.mkConfig (Config.cluster Config.sample_config) (Config.no_redact Config.sample_config)
    (Config.proc_root Config.sample_config) (Config.store_url Config.sample_config)
    (Config.store_options Config.sample_config) (Config.crictl_path Config.sample_config)
    (Config.cri_runtime_endpoint Config.sample_config) (Config.max_core_bytes Config.sample_config)
    (Config.max_cores_per_hour Config.sample_config) u64_max
    (Config.crictl_timeout_secs Config.sample_config) (Config.rate_state_path Config.sample_config)
    (Config.event_socket_path Config.sample_config).

(** Every handler accepts such a config. *)
Example endless_config_accepted :
  Config.validate Some Config.toy_scheme endless_config = Ok tt.
Proof. reflexivity. Qed.

Lemma run_reports_once_witness :
  (∃ s' r p, sample_run [Broken (InTime (b! "EIO"))] = (s', Ret r)
    ∧ summary s' = [p]
    ∧ socket s' = Events.send_capture_event (J := token_text)
                    (Config.event_socket_path Config.sample_config) None p []
    ∧ (Events.outcome p = Events.Failed ↔ is_ok r = false)
    ∧ (is_Some (Events.error p) ↔ is_ok r = false))
  ∧ ∃ l, run (J := token_text) (T := Snapshot.MemTar.mem_tar) (C := RateLimit.decimal_codec)
      sample_env sample_args endless_config [Avail (InTime (b! "core"))] false sample_state
    = (mkState ∅ l [] [], Panic).
Proof.
  split.
  - exact (run_reports_once (J := token_text) (T := Snapshot.MemTar.mem_tar)
      (C := RateLimit.decimal_codec) sample_env sample_args Config.sample_config
      [Broken (InTime (b! "EIO"))] false sample_state).
  - eexists. exact (run_reports_once (J := token_text) (T := Snapshot.MemTar.mem_tar)
      (C := RateLimit.decimal_codec) sample_env sample_args endless_config
      [Avail (InTime (b! "core"))] false sample_state).
Defined.

(** C3: a failed drain of a capture with a target leaves nothing behind but a report: no
    object other than the core's own key changes (so no snapshot and no manifest is
    stored), the report says [failed] without a manifest key and, when the limiter is
    on ([max_cores_per_hour] is not 0) and can read and write its state file both at the
    check and at the refund, the pod's budget is as if the crash had only pruned it: the
    slot recorded for the upload is refunded. *)
Theorem failed_drain_refunds {World} `{ObjectStore World} {OL : ObjectStoreLaws World}
    {B : BufWriter World} {BL : BufWriterLaws World} {Zs : Zstd} {ZL : ZstdLaws Zs}
    {P : ObjectPath} {J : JsonText} {T : Snapshot.Tar}
    {C : RateLimit.StateCodec} {CL : RateLimit.StateCodecLaws C}
    env args config core_in ov (s s' : State World) e id ks :
  target (plan env args config ov) = Some (id, ks) →
  run env args config core_in ov s = (s', Ret (Err e)) →
  (∀ k, k ≠ object_path (Keys.core ks) →
        objects (store_world s') !! k = objects (store_world s) !! k)
  ∧ (env_check_faults env = RateLimit.no_faults → env_refund_faults env = RateLimit.no_faults →
     Config.max_cores_per_hour config ≠ 0%Z →
     RateLimit.state_of (limiter s')
     = RateLimit.retain_recent (RateLimit.cutoff (timestamp args)) (RateLimit.state_of (limiter s)))
  ∧ ∃ p, summary s' = summary s ++ [p] ∧ Events.outcome p = Events.Failed
         ∧ Events.manifest_key p = None ∧ Events.error p = Some (join (b! ": ") e).
Proof.
  intros Ht Hrun. apply run_inv in Hrun as (l & rec & sup & w & dr & Hl & Hd & Hr).
  destruct dr as [|[st|e']]; [done|by destruct Hr|]. destruct Hr as [[= ->] ->].
  apply drain_frame in Hd as [_ Hfr]. unfold drain_failed. rewrite Ht.
  cbn [report store_world limiter summary].
  split; [|split; [|by eexists]].
  - intros k Hk. apply Hfr. intros id' ks' _ Ht'. rewrite Ht in Ht'. by injection Ht' as <- <-.
  - intros Hcf Hrf Hm.
    destruct (rate_limit_state env args config ov _ _ _ _ id ks Hcf Hm Ht Hl)
      as (d & Hck & -> & ->).
    rewrite Hrf. case_bool_decide as Hdec.
    + subst d. rewrite RateLimit.refund_ok by done. by eapply RateLimit.refund_undoes.
    + unfold RateLimit.check_state in Hck. case_decide; [by injection Hck|]. congruence.
Qed.

(** The core's pipe stalls past the deadline. *)
Definition stalled : pipe := [Avail (InTime (b! "par")); Avail (Late (b! "tial"))].

Lemma failed_drain_refunds_witness :
  (∀ k, k ≠ object_path (Keys.core (Keys.new (b! "prod") Cgroup.sample_uid Cgroup.sample_cid
                                                1749600000 7)) →
        objects (store_world (fst (sample_run stalled))) !! k
        = objects (store_world sample_state) !! k)
  ∧ RateLimit.state_of (C := RateLimit.decimal_codec) (limiter (fst (sample_run stalled)))
    = RateLimit.retain_recent (RateLimit.cutoff 1749600000)
        (RateLimit.state_of (C := RateLimit.decimal_codec) RateLimit.empty_fs)
  ∧ ∃ p, summary (fst (sample_run stalled)) = [p] ∧ Events.outcome p = Events.Failed
         ∧ Events.manifest_key p = None
         ∧ Events.error p
           = Some (join (b! ": ") (b! "draining core stream" :: DEADLINE_ERROR)).
Proof.
  destruct (failed_drain_refunds (J := token_text) (T := Snapshot.MemTar.mem_tar)
    (C := RateLimit.decimal_codec) (CL := RateLimit.decimal_codec_laws) sample_env sample_args
    Config.sample_config stalled false sample_state (fst (sample_run stalled))
    (b! "draining core stream" :: DEADLINE_ERROR)
    (Cgroup.mkIdentity Cgroup.sample_uid Cgroup.sample_cid)
    (Keys.new (b! "prod") Cgroup.sample_uid Cgroup.sample_cid 1749600000 7)) as (Hk & Hl & Hp).
  - vm_compute. reflexivity.
  - fold (sample_run stalled). rewrite (surjective_pairing (sample_run stalled)) at 1.
    apply (f_equal (pair _)). vm_compute. reflexivity.
  - split; [exact Hk|]. split; [|exact Hp]. by apply Hl.
Defined.

Lemma no_target_plan env args config ov :
  identity (plan env args config ov) = None ∨ store (plan env args config ov) = false →
  target (plan env args config ov) = None.
Proof.
  intros Hno. destruct (target _) as [[id ks]|] eqn:Ht; [|done].
  apply plan_target in Ht as (_ & _ & _ & Hid & _ & Hst). destruct Hno; congruence.
Qed.

(** Without a target a run discards the core and reports what it saw of it. *)
Lemma no_target_run {World} `{ObjectStore World} {OL : ObjectStoreLaws World}
    {B : BufWriter World} {BL : BufWriterLaws World} {Zs : Zstd} {ZL : ZstdLaws Zs}
    {P : ObjectPath} {J : JsonText} {T : Snapshot.Tar}
    {C : RateLimit.StateCodec} env args config core_in ov (s s' : State World) r :
  identity (plan env args config ov) = None ∨ store (plan env args config ov) = false →
  run env args config core_in ov s = (s', r) →
  store_world s' = store_world s ∧ limiter s' = limiter s
  ∧ ∀ v, r = Ret v → ∃ p, summary s' = summary s ++ [p] ∧ Events.manifest_key p = None
      ∧ (v = Ok tt →
         Events.outcome p = if bool_decide (identity (plan env args config ov) = None)
                            then Events.SkippedNonK8s else Events.NoStoreDiscard).
Proof.
  intros Hno Hrun. pose proof (no_target_plan _ _ _ _ Hno) as Ht. set (pl := plan env args config ov) in *.
  assert (rate_limit env args config pl (limiter s) = (limiter s, false, false)) as Hl.
  { unfold rate_limit. by rewrite Ht. }
  destruct r as [|v].
  { destruct (run_panics _ _ _ _ _ _ _ _ Hrun) as [_ ->]; [|done]. fold pl. by rewrite Hl. }
  apply run_inv in Hrun as (l & rec & sup & w & dr & Hl' & Hd & Hr). fold pl in Hl', Hd, Hr.
  rewrite Hl in Hl'. injection Hl' as <- <- <-. unfold drain in Hd. rewrite Ht in Hd.
  apply discard_frame in Hd as [-> _].
  destruct dr as [|[st|e]]; [done| |]; destruct Hr as [-> ->].
  - unfold finish, upload_snapshot, write_manifest. rewrite Ht. cbn [report store_world limiter summary].
    split; [done|]. split; [done|]. intros ? [= <-]. eexists. split; [done|]. split; [done|]. intros _.
    cbn [success_payload Events.outcome]. unfold outcome_of.
    repeat case_bool_decide; try done; (destruct Hno as [|Hst]; [done|]); by rewrite Hst.
  - unfold drain_failed. rewrite Ht. cbn [report store_world limiter summary].
    split; [done|]. split; [done|]. intros ? [= <-]. eexists. split; [done|]. split; [done|]. by intros [=].
Qed.

(** C37: a crash outside kubernetes, or without a store, touches neither the bucket nor
    the limiter. Its core is drained and counted: unless the deadline passes first
    (or is no [Instant]) the run returns [Ok] after the pipe's end or its first read
    error, and reports [skipped_non_k8s] or [no_store_discard], without a manifest key,
    with the number of bytes the pipe delivered and whether a read error cut it; when the
    deadline passes it returns an error and reports [failed]. *)
Theorem no_target_no_effects {World} `{ObjectStore World} {OL : ObjectStoreLaws World}
    {B : BufWriter World} {BL : BufWriterLaws World} {Zs : Zstd} {ZL : ZstdLaws Zs}
    {P : ObjectPath} {J : JsonText} {T : Snapshot.Tar}
    {C : RateLimit.StateCodec} env args config core_in ov (s s' : State World) r :
  identity (plan env args config ov) = None ∨ store (plan env args config ov) = false →
  run env args config core_in ov s = (s', r) →
  (Z.of_nat (length (fst (delivered (deadline_of config) core_in))) ≤ u64_max)%Z →
  store_world s' = store_world s ∧ limiter s' = limiter s
  ∧ (deadline_fits env config →
     ∃ v p, r = Ret v ∧ summary s' = summary s ++ [p] ∧ Events.manifest_key p = None
       ∧ match delivered (deadline_of config) core_in with
         | (_, AtDeadline) => is_ok v = false ∧ Events.outcome p = Events.Failed
         | (data, e) =>
             v = Ok tt ∧ Events.core_bytes p = Z.of_nat (length data)
             ∧ Events.truncated p = negb (bool_decide (e = AtEof))
             ∧ Events.outcome p = if bool_decide (identity (plan env args config ov) = None)
                                  then Events.SkippedNonK8s else Events.NoStoreDiscard
         end).
Proof.
  intros Hno Hrun Hlen. destruct (no_target_run _ _ _ _ _ _ _ _ Hno Hrun) as (Hw & Hlim & Hp).
  split; [done|]. split; [done|]. intros Hf.
  destruct r as [|v]; [by apply run_panics in Hrun as [[[] _] _]|].
  destruct (Hp v eq_refl) as (p & Hsum & Hmk & Hout). exists v, p. do 3 (split; [done|]).
  apply run_inv in Hrun as (l & rec & sup & w & dr & _ & Hd & Hr).
  rewrite drain_discards in Hd; [|right; by apply no_target_plan|done..]. injection Hd as <- <-.
  assert (∀ st, s' = finish env args config (plan env args config ov) sup st
                       (mkState (store_world s) l (socket s) (summary s)) →
          Events.core_bytes p = bytes_ st ∧ Events.truncated p = truncated st) as Hfin.
  { intros st ->. unfold finish in Hsum. cbv zeta in Hsum. destruct (upload_snapshot _ _) as [w1 pk].
    destruct (write_manifest _ _ w1) as [w2 mk]. cbn [report summary] in Hsum.
    by apply app_inj_tail in Hsum as [_ <-]. }
  destruct (delivered _ _) as [data [| |]]; destruct Hr as [-> Hs'].
  - destruct (Hfin _ Hs') as [-> ->]. auto.
  - destruct (Hfin _ Hs') as [-> ->]. auto.
  - subst s'. split; [done|]. unfold drain_failed in Hsum. cbn [report summary] in Hsum.
    by apply app_inj_tail in Hsum as [_ <-].
Qed.

(** A host process: its cgroup is not a kubernetes one. *)
Definition sample_host_run : State Mem.store * outcome (result unit error) :=
  run (World := Mem.store) (J := token_text) (T := Snapshot.MemTar.mem_tar)
    (C := RateLimit.decimal_codec) sample_env (mkArgs 8 6 1749600000 (b! "sshd"))
    Config.sample_config [Avail (InTime (b! "xyz")); Broken (InTime (b! "EIO"))] false sample_state.

Lemma no_target_no_effects_witness :
  store_world (fst sample_host_run) = ∅ ∧ limiter (fst sample_host_run) = RateLimit.empty_fs
  ∧ ∃ v p, snd sample_host_run = Ret v ∧ summary (fst sample_host_run) = [p]
      ∧ Events.manifest_key p = None ∧ v = Ok tt ∧ Events.core_bytes p = 3%Z
      ∧ Events.truncated p = true ∧ Events.outcome p = Events.SkippedNonK8s.
Proof.
  destruct (no_target_no_effects (World := Mem.store) (J := token_text) (T := Snapshot.MemTar.mem_tar)
    (C := RateLimit.decimal_codec) sample_env (mkArgs 8 6 1749600000 (b! "sshd"))
    Config.sample_config [Avail (InTime (b! "xyz")); Broken (InTime (b! "EIO"))] false sample_state _ _
    (or_introl eq_refl) (surjective_pairing _) ltac:(done)) as (Hw & Hl & Hp).
  split; [exact Hw|]. split; [exact Hl|]. apply Hp. by intros d [= <-].
Defined.

Lemma utf8_to_string z : from_utf8 (to_string z) = Some (to_string z).
Proof.
  unfold from_utf8. rewrite utf8_ascii; [done|].
  eapply forallb_weaken; [|apply to_string_chars]. intros c. by destruct c.
Qed.

(** The handler accepts every argument vector the kernel passes, whatever bytes the
    crashing workload put in its file name: the numbers are exact and the name
    is converted, never rejected. *)
Theorem kernel_args_parse pid sig ts exe :
  (i32_min ≤ pid ≤ i32_max)%Z → (i32_min ≤ sig ≤ i32_max)%Z → (i64_min ≤ ts ≤ i64_max)%Z →
  parse [to_string pid; to_string sig; to_string ts; exe]
  = Ok (mkArgs pid sig ts (to_string_lossy exe)).
Proof.
  intros Hp Hs Ht. unfold parse, parse_number. rewrite !utf8_to_string. cbn [mbind option_bind].
  unfold parse_i32, parse_i64. by rewrite !parse_signed_to_string by done.
Qed.

Lemma kernel_args_parse_witness :
  parse [to_string 4242; to_string 11; to_string 1749600000; b! "!usr!bin!app" ++ [xff]]
  = Ok (mkArgs 4242 11 1749600000 (b! "!usr!bin!app" ++ replacement_char)).
Proof. apply (kernel_args_parse 4242 11 1749600000 (b! "!usr!bin!app" ++ [xff])); done. Defined.

(** ** The report is a well-formed message *)

(** What the kernel's arguments are once parsed. *)
Definition args_ok (args : CaptureArgs) : Prop :=
  (i32_min ≤ host_pid args ≤ i32_max)%Z ∧ (i32_min ≤ signal args ≤ i32_max)%Z
  ∧ (i64_min ≤ timestamp args ≤ i64_max)%Z ∧ is_utf8 (exe args) = true.

Lemma parse_args_ok argv args : parse argv = Ok args → args_ok args.
Proof.
  unfold parse. destruct argv as [|a [|b [|c [|d [|]]]]]; try done.
  assert (∀ lo hi x n, parse_number (parse_signed lo hi) x = Some n → (lo ≤ n ≤ hi)%Z) as Hr.
  { intros lo hi x n. unfold parse_number. destruct (from_utf8 x); [|done].
    apply parse_signed_range. }
  unfold parse_i32, parse_i64.
  destruct (parse_number (parse_signed i32_min i32_max) a) as [pid|] eqn:E1; [|done].
  destruct (parse_number (parse_signed i32_min i32_max) b) as [sig|] eqn:E2; [|done].
  destruct (parse_number (parse_signed i64_min i64_max) c) as [ts|] eqn:E3; [|done].
  cbn [with_context]. intros [= <-].
  do 3 (split; [by eapply Hr|]). apply is_utf8_lossy.
Qed.

Lemma signal_name_utf8 sig : utf8_opt (signal_name sig).
Proof.
  unfold signal_name. intros s. repeat case_match; intros Hs; simplify_eq; reflexivity.
Qed.

Section report.
Context {World : Type} `{ObjectStore World} {OL : ObjectStoreLaws World}
  {B : BufWriter World} {BL : BufWriterLaws World} {Zs : Zstd} {ZL : ZstdLaws Zs}
  {P : ObjectPath} {J : JsonText} {JL : JsonTextLaws J} {T : Snapshot.Tar}
  {C : RateLimit.StateCodec}.
Context (env : Env) (args : CaptureArgs) (config : Config.HandlerConfig).
Context (Hargs : args_ok args) (Hcluster : is_utf8 (Config.cluster config) = true).

Lemma identity_utf8 ov :
  utf8_opt (Cgroup.pod_uid <$> identity (plan env args config ov))
  ∧ utf8_opt (Cgroup.container_id <$> identity (plan env args config ov)).
Proof.
  unfold plan. cbn [identity]. unfold read_cgroup_identity.
  destruct (Snapshot.read_to_string _ _) as [content|]; [|done]. cbn.
  destruct (Cgroup.parse_cgroup content) as [id|] eqn:E; [|done].
  apply Cgroup.parse_cgroup_valid in E as [Hu Hc].
  split; intros s [= <-]; apply Cgroup.layout_utf8;
    [by apply Cgroup.uid_layout|by apply Cgroup.cid_layout].
Qed.

Lemma manifest_key_utf8 ov m w : utf8_opt (snd (write_manifest (plan env args config ov) m w)).
Proof.
  intros key Hk. destruct (write_manifest _ m w) as [w' mk] eqn:E. cbn in Hk. subst mk.
  apply write_manifest_spec in E as [_ Hw]. destruct (Hw key eq_refl) as (id & ks & Ht & -> & _).
  apply plan_target in Ht as (Hu & Hc & -> & _).
  apply Cgroup.uid_layout, Cgroup.layout_utf8 in Hu. apply Cgroup.cid_layout, Cgroup.layout_utf8 in Hc.
  unfold Keys.manifest, Keys.new, prefix.
  repeat apply is_utf8_app; auto using is_utf8_to_string.
Qed.

Lemma stats_range ov sup core_in w w' st :
  (0 ≤ Config.max_core_bytes config ≤ u64_max)%Z →
  (Z.of_nat (length (fst (delivered (deadline_of config) core_in))) ≤ u64_max)%Z →
  drain env config (plan env args config ov) sup core_in w = (w', Ret (Ok st)) →
  (0 ≤ bytes_ st ≤ u64_max)%Z ∧ (is_Some (sha256 st) → (0 ≤ stored_bytes st ≤ u64_max)%Z).
Proof.
  intros Hm Hl. unfold drain. fold (deadline_of config).
  assert (∀ w1, drain_core mkDiscard (env_monotonic env) core_in (deadline_of config) w
                = (w1, Ret (Ok st)) →
    (0 ≤ bytes_ st ≤ u64_max)%Z ∧ (is_Some (sha256 st) → (0 ≤ stored_bytes st ≤ u64_max)%Z)) as Hd.
  { intros w1 [-> Hb]%discard_stats. split; [done|]. by intros [? ?]. }
  destruct sup; [apply Hd|]. destruct (target _) as [[id ks]|]; [|apply Hd].
  intros Hs. apply standalone_ok in Hs as (obj & _ & _ & -> & -> & _); [|done|done].
  split; [lia|]. intros _. apply wrap_u64_range.
Qed.

Lemma info_utf8 pl sup st pk :
  let i := Manifest.identity (build_manifest env args config pl sup st pk) in
  utf8_opt (Manifest.mi_namespace i) ∧ utf8_opt (Manifest.mi_pod_name i)
  ∧ utf8_opt (Manifest.mi_container_name i).
Proof.
  cbn [build_manifest Manifest.identity Manifest.mi_namespace Manifest.mi_pod_name
       Manifest.mi_container_name].
  destruct (identity pl ≫= _) as [info|] eqn:E; [|done].
  apply bind_Some in E as (id & _ & E). by apply Crictl.inspect_utf8 in E as (? & ? & ? & _).
Qed.

(** Every report of a run is a message the daemon can read. *)
Lemma run_report_ok core_in ov (s s' : State World) r :
  (0 ≤ Config.max_core_bytes config ≤ u64_max)%Z →
  (Z.of_nat (length (fst (delivered (deadline_of config) core_in))) ≤ u64_max)%Z →
  run env args config core_in ov s = (s', Ret r) →
  (∀ e, r = Err e → Forall (λ x, is_utf8 x = true) e) →
  ∃ p, summary s' = summary s ++ [p] ∧ Events.payload_ok p
    ∧ socket s' = Events.send_capture_event (Config.event_socket_path config)
                    (env_send_fault env) p (socket s).
Proof.
  intros Hm Hl Hrun He. apply run_inv in Hrun as (l & rec & sup & w & dr & _ & Hd & Hr).
  destruct (identity_utf8 ov) as [Hu Hc]. destruct Hargs as (Hpid & Hsig & Hts & Hexe).
  destruct dr as [|[st|e]]; [done| |]; destruct Hr as [Hr ->].
  - destruct (stats_range _ _ _ _ _ _ Hm Hl Hd) as [Hb Hst]. unfold finish. cbv zeta.
    destruct (upload_snapshot _ _) as [w1 pk].
    set (m := build_manifest _ _ _ _ _ _ _).
    pose proof (manifest_key_utf8 ov m w1) as Hmk.
    destruct (write_manifest _ m w1) as [w2 mk]. cbn [snd] in Hmk.
    destruct (info_utf8 (plan env args config ov) sup st pk) as (Hns & Hpod & Hcont). fold m in Hns, Hpod, Hcont.
    eexists. cbn [report summary socket]. split; [done|]. split; [|done]. split; try done.
    + intros n. cbn. case_bool_decide; [|done]. intros [= <-]. by apply Hst.
    + repeat apply Forall_cons_2; try done. apply signal_name_utf8.
  - subst r. set (e' := b! "draining core stream" :: e) in *. clearbody e'. eexists. cbn [drain_failed report summary socket]. split; [done|].
    split; [|done]. split; try done. repeat apply Forall_cons_2; try done; [apply signal_name_utf8|].
    intros x [= <-]. apply is_utf8_join; [done|]. by apply He.
Qed.
End report.

End Handler.
