(* ===== verification/Captures.v ===== *)
(** * Whole captures

    Properties of complete runs of the capture handler that hold across its
    components: what a run reveals of the process, what the stored manifest
    says when it is read back, and what is kept of a suppressed crash. *)

From S2P Require Import Prelude RustStr Cgroup Redact BuildId RateLimit Backend Upload Json Events Manifest Snapshot Config Crictl Handler.
Import Json Backend Upload.

Module Captures.
Import Handler.

(** ** The process tree a run reads *)

(** The same environment over another file system. *)
Definition with_fs (env : Env) (fs : Snapshot.Fs) : Env :=
  mkEnv fs (env_log2 env) (env_rt env) (env_rfc3339 env) (env_sha256 env) (env_lib env)
    (env_check_faults env) (env_refund_faults env) (env_send_fault env) (env_monotonic env).

(** A joined path ends in the name. *)
Lemma path_join_suffix base n :
  starts_with (b! "/") n = false → strip_suffix n (path_join base n) ≠ None.
Proof.
  unfold path_join. intros ->.
  assert (∀ x, strip_suffix n (x ++ n) ≠ None) as Hx by (intros x; by rewrite strip_suffix_app).
  destruct (_ || _); [done|]. rewrite app_assoc. apply Hx.
Qed.

(** The host name and the cgroup file are neither the environment nor the command line. *)
Lemma secrets_elsewhere log2 fs1 fs2 root pid :
  Snapshot.differ_in_secrets log2 fs1 fs2 root pid →
  node_hostname fs1 = node_hostname fs2
  ∧ read_cgroup_identity fs1 root pid = read_cgroup_identity fs2 root pid.
Proof.
  intros [(_ & _ & Ho) _]. set (base := path_join root (to_string pid)) in *.
  unfold node_hostname, read_cgroup_identity, Snapshot.read_to_string.
  rewrite !Ho; [done|..]; fold base.
  - by intros ?%path_join_inj.
  - by intros ?%path_join_inj.
  - intros E. apply (path_join_suffix base (b! "environ")); [done|]. by rewrite <- E.
  - intros E. apply (path_join_suffix base (b! "cmdline")); [done|]. by rewrite <- E.
Qed.

Section runs.
Context {World : Type} `{ObjectStore World} {OL : ObjectStoreLaws World}
  {B : BufWriter World} {BL : BufWriterLaws World} {Zs : Zstd} {ZL : ZstdLaws Zs}
  {P : ObjectPath} {PL : ObjectPathLaws P} {J : JsonText} {JL : JsonTextLaws J} {T : Snapshot.Tar}
  {C : RateLimit.StateCodec}.
Context (env : Env) (args : CaptureArgs) (config : Config.HandlerConfig).
Implicit Types (s : State World) (w : World).

(** A run depends on the file system through its plan and the host name. *)
Lemma run_fs_cong fs core_in ov s :
  plan (with_fs env fs) args config ov = plan env args config ov →
  node_hostname fs = node_hostname (env_fs env) →
  run (with_fs env fs) args config core_in ov s = run env args config core_in ov s.
Proof.
  intros Hp Hn. unfold run. rewrite Hp. unfold finish, build_manifest, drain_failed, report.
  cbn [with_fs env_fs env_rt env_sha256 env_send_fault env_refund_faults]. rewrite Hn. reflexivity.
Qed.
(** ** The manifest of a run *)

Lemma discard_loop_reason dl n rs st :
  discard_loop dl n rs = Ok st → utf8_opt (truncated_reason st).
Proof.
  revert n. induction rs as [|r rs IH]; intros n; cbn; [by intros [= <-]|].
  destruct (Backend.race r dl) as [[[|c cs]|e]|[]]; try done; [by intros [= <-]|apply IH|].
  intros [= <-] s [= <-]. reflexivity.
Qed.

Lemma discard_reason now p dl w w' st :
  drain_core mkDiscard now p dl w = (w', Ret (Ok st)) → utf8_opt (truncated_reason st).
Proof.
  unfold drain_core, discard_drain_core. destruct (deadline_at now dl); [done|].
  intros [= _ Hd]. by eapply discard_loop_reason.
Qed.

Definition sizes_ok (core_in : pipe) : Prop :=
  (0 ≤ Config.max_core_bytes config ≤ u64_max)%Z
  ∧ (Z.of_nat (length (fst (delivered (deadline_of config) core_in))) ≤ u64_max)%Z.

Lemma stats_text pl sup core_in w w' st :
  sizes_ok core_in → drain env config pl sup core_in w = (w', Ret (Ok st)) →
  utf8_opt (truncated_reason st) ∧ utf8_opt (sha256 st).
Proof.
  intros [Hm Hl]. unfold drain. fold (deadline_of config).
  assert (∀ w1, drain_core mkDiscard (env_monotonic env) core_in (deadline_of config) w
                = (w1, Ret (Ok st)) →
    utf8_opt (truncated_reason st) ∧ utf8_opt (sha256 st)) as Hd.
  { intros w1 Hd. split; [by eapply discard_reason|].
    by apply discard_stats in Hd as [-> _]. }
  destruct sup; [apply Hd|]. destruct (target pl) as [[id ks]|]; [|apply Hd].
  intros (obj & _ & _ & _ & _ & -> & -> & _)%standalone_ok; [|done..]. split.
  - intros s. unfold end_reason, cap_reason. repeat case_match; intros [= <-]; reflexivity.
  - intros s [= <-]. apply BuildId.hex_utf8.
Qed.

Lemma node_hostname_utf8 fs : is_utf8 (node_hostname fs) = true.
Proof.
  unfold node_hostname. destruct (Snapshot.read_to_string _ _) as [t|] eqn:E; [|done].
  cbn [mbind option_bind]. case_decide; [done|]. apply is_utf8_trim.
  unfold Snapshot.read_to_string in E. apply bind_Some in E as (f & _ & E).
  case_match; [done|]. unfold from_utf8 in E. by destruct (is_utf8 (Snapshot.content f)) eqn:?; simplify_eq.
Qed.

Lemma object_key_utf8 a ov :
  is_utf8 (Config.cluster config) = true →
  utf8_opt (key_of a <$> keys (plan env args config ov)).
Proof.
  intros Hcl key. unfold plan. cbn [keys].
  destruct (read_cgroup_identity _ _ _) as [id|] eqn:E; [|done]. cbn. intros [= <-].
  unfold read_cgroup_identity in E. destruct (Snapshot.read_to_string _ _); [|done].
  apply Cgroup.parse_cgroup_valid in E as [Hu Hc].
  apply Cgroup.uid_layout, Cgroup.layout_utf8 in Hu. apply Cgroup.cid_layout, Cgroup.layout_utf8 in Hc.
  unfold Keys.new, prefix.
  destruct a; repeat apply is_utf8_app; auto using is_utf8_to_string.
Qed.

(** The text fields of the CRI answer. *)
Lemma info_text ov :
  let info := default Crictl.default_info
                (id ← identity (plan env args config ov);
                 Crictl.inspect (env_rt env) (Cgroup.container_id id) config) in
  Forall utf8_opt [Crictl.namespace info; Crictl.pod_name info; Crictl.container_name info;
                   Crictl.image info; Crictl.image_digest info]
  ∧ Manifest.u32_opt (Crictl.restart_count info).
Proof.
  cbv zeta. destruct (identity _ ≫= _) as [info|] eqn:E; cbn [default from_option].
  - apply bind_Some in E as (id & _ & E). apply Crictl.inspect_utf8 in E as (? & ? & ? & ? & ? & Hn).
    split; [by repeat (apply Forall_cons_2 || apply Forall_nil_2)|exact Hn].
  - split; [|done]. by repeat (apply Forall_cons_2 || apply Forall_nil_2).
Qed.

(** Every run builds a manifest of the machine types and of text. *)
Lemma manifest_wf ov sup core_in st w0 w1 w2 pk :
  args_ok args → is_utf8 (Config.cluster config) = true → sizes_ok core_in →
  (∀ t x, env_rfc3339 env t = Some x → is_utf8 x = true) →
  drain env config (plan env args config ov) sup core_in w0 = (w1, Ret (Ok st)) →
  upload_snapshot (plan env args config ov) w1 = (w2, pk) →
  let m := build_manifest env args config (plan env args config ov) sup st pk in
  Manifest.manifest_ok m ∧ Manifest.manifest_text m.
Proof.
  intros (Hpid & Hsig & Hts & Hexe) Hcl Hsz Hrfc Hd Hup m.
  destruct (stats_text _ _ _ _ _ _ Hsz Hd) as [Htr Hsha]. destruct Hsz as [Hm Hl].
  destruct (stats_range env args config ov sup core_in _ _ _ Hm Hl Hd) as [Hb Hst].
  destruct (info_text ov) as [Hinfo Hrc]. repeat (apply Forall_cons in Hinfo as [? Hinfo]).
  destruct (identity_utf8 env args config ov) as [Hu Hc].
  assert (∀ r, Manifest.proc_snapshot m = Some r →
            (Manifest.file_count r = Z.of_nat (length (Snapshot.files (snapshot (plan env args config ov)))))
            ∧ pk = Some (Manifest.ps_object_key r)) as Hps.
  { intros r. cbn. destruct pk as [k|]; [|done]. by intros [= <-]. }
  pose proof (Snapshot.capture_file_count (env_log2 env) (env_fs env) (Config.proc_root config)
    (host_pid args) (if Config.no_redact config then Redact.Redactor_disabled
                     else Redact.Redactor_default)) as Hcount.
  split.
  - do 2 (split; [done|]). split; [exact Hrc|]. split; [split|].
    + intros n. cbn. case_bool_decide; [|done]. by intros [= <-].
    + intros n. cbn. case_bool_decide; [|done]. intros [= <-]. by apply Hst.
    + intros r Hr. unfold Manifest.snapshot_ref_ok. apply Hps in Hr as [-> _]. cbn [plan snapshot].
      unfold u64_max. lia.
  - assert (∀ o : option bytes, utf8_opt o → is_utf8 (default [] o) = true) as Hdef
      by (intros [?|] Ho; [by apply Ho|done]).
    split_and!.
    + repeat (apply Forall_cons_2 || apply Forall_nil_2); cbn; try done.
      * unfold format_timestamp. destruct (env_rfc3339 env _) eqn:E; [by eapply Hrfc|].
        apply is_utf8_to_string.
      * apply node_hostname_utf8.
      * apply Hdef in Hu. revert Hu. cbn [plan identity]. by destruct (read_cgroup_identity _ _ _).
      * apply Hdef in Hc. revert Hc. cbn [plan identity]. by destruct (read_cgroup_identity _ _ _).
    + repeat (apply Forall_cons_2 || apply Forall_nil_2); try done; cbn.
      * apply signal_name_utf8.
      * intros id Hid. 
        exact (Snapshot.capture_build_id_utf8 (env_log2 env) (env_fs env) (Config.proc_root config)
                 (host_pid args) Redact.Redactor_default id Hid).
      * case_bool_decide; [|done]. by apply (object_key_utf8 CoreObj ov).
      * by destruct sup; [intros ? [= <-]|].
    + intros r Hr. apply Hps in Hr as [_ ->].
      apply upload_snapshot_spec in Hup as [_ Hk]. destruct (Hk _ eq_refl) as (id & ks & _ & Ht & -> & _).
      apply plan_target in Ht as (_ & _ & _ & _ & Hks & _).
      apply (object_key_utf8 SnapshotObj ov Hcl). by rewrite Hks.
Qed.
(** ** A store that accepts puts *)

Definition accepts_puts : Prop := ∀ (w : World) k v, snd (put w k v) = Ok tt.

Lemma puts_succeed w k v : accepts_puts → snd (put_object w k v) = Ok tt.
Proof.
  intros Hp. unfold put_object. specialize (Hp w (object_path k) v).
  destruct (put w (object_path k) v) as [w1 [[]|]]; done.
Qed.

Lemma snapshot_uploaded pl id ks tar w :
  accepts_puts → target pl = Some (id, ks) → Snapshot.to_tar (snapshot pl) = Some tar →
  snd (upload_snapshot pl w) = Some (Keys.proc_snapshot ks).
Proof.
  intros Hp Ht Htar. unfold upload_snapshot. rewrite Ht, Htar.
  pose proof (puts_succeed w (Keys.proc_snapshot ks) tar Hp).
  destruct (put_object w _ tar) as [w1 [|]]; done.
Qed.

Lemma manifest_written pl id ks m w :
  accepts_puts → target pl = Some (id, ks) →
  snd (write_manifest pl m w) = Some (Keys.manifest ks).
Proof.
  intros Hp Ht. unfold write_manifest. rewrite Ht. set (v := text_to_vec_pretty _).
  pose proof (puts_succeed w (Keys.manifest ks) v Hp).
  destruct (put_object w _ v) as [w1 [|]]; done.
Qed.
End runs.

(** ** Properties *)

(** C22: nothing of a secret leaves the process except in the core itself: two crashes of
    the same container whose processes differ only in environment and command
    line values the redactor treats as secret have the same run, with the same
    objects stored, the same limiter file, the same datagram, the same log and
    the same result. *)
Theorem run_noninterference {World} `{ObjectStore World}
    {B : BufWriter World} {Zs : Zstd} {P : ObjectPath} {J : JsonText} {T : Snapshot.Tar}
    {C : RateLimit.StateCodec} env fs args config core_in ov (s : State World) :
  Config.no_redact config = false →
  Snapshot.differ_in_secrets (env_log2 env) (env_fs env) fs (Config.proc_root config) (host_pid args) →
  run (with_fs env fs) args config core_in ov s = run env args config core_in ov s.
Proof.
  intros Hr Hd. destruct (secrets_elsewhere _ _ _ _ _ Hd) as [Hn Hi].
  apply run_fs_cong; [|done]. unfold plan. cbn [with_fs env_fs env_log2 env_lib].
  by rewrite Hr, Hi, (Snapshot.snapshot_noninterference _ _ _ _ _ Hd).
Qed.

(** The sample process, with an environment and a command line. *)
Definition secret_proc (environ cmdline : list bytes) : Snapshot.Fs :=
  Snapshot.mkFs
    (λ p, if decide (p = b! "/proc/7/environ") then Some (Snapshot.mkOpen (blob environ) false)
          else if decide (p = b! "/proc/7/cmdline") then Some (Snapshot.mkOpen (blob cmdline) false)
          else Snapshot.fs_open sample_proc p)
    (λ _, None) (λ _, None).

Definition secret_env (environ cmdline : list bytes) : Env :=
  with_fs sample_env (secret_proc environ cmdline).

Definition secret_run (environ cmdline : list bytes) : State Mem.store * outcome (result unit error) :=
  run (J := token_text) (T := Snapshot.MemTar.mem_tar) (C := RateLimit.decimal_codec)
    (secret_env environ cmdline) sample_args Config.sample_config [Avail (InTime (b! "core"))]
    false sample_state.

Lemma run_noninterference_witness :
  secret_run [b! "DB_PASSWORD=letmein"] [b! "app"; b! "--token"; b! "y"]
  = secret_run [b! "DB_PASSWORD=hunter2"] [b! "app"; b! "--token"; b! "x"].
Proof.
  apply (run_noninterference (J := token_text) (T := Snapshot.MemTar.mem_tar)
    (C := RateLimit.decimal_codec)
    (secret_env [b! "DB_PASSWORD=hunter2"] [b! "app"; b! "--token"; b! "x"])
    (secret_proc [b! "DB_PASSWORD=letmein"] [b! "app"; b! "--token"; b! "y"])
    sample_args Config.sample_config [Avail (InTime (b! "core"))] false sample_state); [reflexivity|].
  destruct Snapshot.sample_secrets as [_ (es1 & es2 & as1 & as2 & Hs)].
  split.
  { split; [done|]. split; [done|]. intros path H1 H2. unfold secret_env, secret_proc. cbn [with_fs env_fs Snapshot.fs_open].
    rewrite !(decide_False (P := path = b! "/proc/7/environ")) by done.
    by rewrite !(decide_False (P := path = b! "/proc/7/cmdline")) by done. }
  exists es1, es2, as1, as2. exact Hs.
Defined.

(** C33: what is stored reads back: the object under a reported manifest key is JSON that
    deserializes to a manifest, and that manifest names the cluster, the signal,
    the executable and the container the report names, says a core is present
    exactly when the report says [uploaded], and locates the core under the
    capture's own key. *)
Theorem stored_manifest_reads_back {World} `{ObjectStore World} {OL : ObjectStoreLaws World}
    {B : BufWriter World} {BL : BufWriterLaws World} {Zs : Zstd} {ZL : ZstdLaws Zs}
    {P : ObjectPath} {PL : ObjectPathLaws P} {J : JsonText} {JL : JsonTextLaws J} {T : Snapshot.Tar}
    {C : RateLimit.StateCodec} env args config core_in ov (s s' : State World) :
  plain_cluster config → args_ok args → is_utf8 (Config.cluster config) = true →
  sizes_ok config core_in → (∀ t x, env_rfc3339 env t = Some x → is_utf8 x = true) →
  run env args config core_in ov s = (s', Ret (Ok tt)) →
  ∃ p, summary s' = summary s ++ [p] ∧
  ∀ mkey, Events.manifest_key p = Some mkey →
  ∃ obj m id ks, objects (store_world s') !! object_path mkey = Some obj
    ∧ text_from_slice obj ≫= Manifest.de_manifest = Some m
    ∧ target (plan env args config ov) = Some (id, ks) ∧ mkey = Keys.manifest ks
    ∧ Manifest.cluster m = Config.cluster config ∧ Manifest.m_signal m = signal args
    ∧ Manifest.m_exe m = exe args
    ∧ Manifest.mi_pod_uid (Manifest.identity m) = Cgroup.pod_uid id
    ∧ Manifest.mi_container_id (Manifest.identity m) = Cgroup.container_id id
    ∧ Manifest.mi_namespace (Manifest.identity m) = Events.namespace p
    ∧ Manifest.mi_pod_name (Manifest.identity m) = Events.pod_name p
    ∧ (Manifest.present (Manifest.core m) = true ↔ Events.outcome p = Events.Uploaded)
    ∧ Manifest.object_key (Manifest.core m)
      = if Manifest.present (Manifest.core m) then Some (Keys.core ks) else None.
Proof.
  intros Hcl Hargs Hu Hsz Hrfc Hrun.
  apply run_inv in Hrun as (l & rec & sup & w & dr & _ & Hd & Hr).
  destruct dr as [|[st|e]]; [done| |by destruct Hr]. destruct Hr as [_ ->].
  destruct (finish_inv env args config ov sup st (mkState w l (socket s) (summary s)))
    as (Hw & _ & p & Hsum & _ & Hmk & Hout & _ & _ & _ & Hns & Hpod). cbn [store_world summary] in *.
  exists p. split; [done|]. intros mkey Hkey. rewrite Hmk in Hkey. clear Hmk. rewrite Hw, Hout, Hns, Hpod.
  unfold manifest_of in *. set (pl := plan env args config ov) in *.
  destruct (upload_snapshot pl w) as [w1 pk] eqn:Eu. cbn [fst snd] in *.
  destruct (manifest_wf env args config ov sup core_in st _ _ _ pk Hargs Hu Hsz Hrfc Hd Eu) as [Hok Htext].
  fold pl in Hok, Htext. set (m := build_manifest env args config pl sup st pk) in *.
  destruct (write_manifest pl m w1) as [w2 mk] eqn:Em. cbn [fst snd] in *. subst mk.
  apply write_manifest_spec in Em as [_ Hm]. destruct (Hm mkey eq_refl) as (id & ks & Ht & -> & Hobj).
  destruct (plan_target _ _ _ _ _ _ Ht) as (_ & _ & _ & Hid & Hks & _). fold pl in Hid, Hks.
  exists (text_to_vec_pretty (Manifest.ser_manifest m)), m, id, ks.
  do 2 (split; [by try apply Manifest.manifest_reads_back|]). do 2 (split; [done|]).
  pose proof (target_outcome env args config ov id ks core_in sup st _ _ Ht Hd) as Ho.
  fold pl in Ho. rewrite Ho.
  unfold m, build_manifest.
  cbn [Manifest.cluster Manifest.m_signal Manifest.m_exe Manifest.identity Manifest.core
       Manifest.mi_pod_uid Manifest.mi_container_id Manifest.mi_namespace Manifest.mi_pod_name
       Manifest.present Manifest.object_key].
  rewrite Hid, Hks. do 7 (split; [done|]). split; [|by case_bool_decide].
  destruct sup.
  - rewrite bool_decide_false; [done|]. rewrite (suppressed_not_stored _ _ _ _ _ _ _ Hd). by intros [? ?].
  - rewrite bool_decide_true; [done|]. eapply drain_uploads; [done..|]. by rewrite Ht.
Qed.

Lemma stored_manifest_reads_back_witness :
  ∃ p, summary (fst (sample_run [Avail (InTime (b! "core"))])) = [p] ∧
  ∀ mkey, Events.manifest_key p = Some mkey →
  ∃ obj m, objects (store_world (fst (sample_run [Avail (InTime (b! "core"))]))) !! mkey = Some obj
    ∧ text_from_slice (JsonText := token_text) obj ≫= Manifest.de_manifest = Some m.
Proof.
  destruct (stored_manifest_reads_back (J := token_text) (T := Snapshot.MemTar.mem_tar)
    (C := RateLimit.decimal_codec) sample_env sample_args Config.sample_config
    [Avail (InTime (b! "core"))] false sample_state
    (fst (sample_run [Avail (InTime (b! "core"))]))) as (p & Hp & Hm).
  - reflexivity.
  - by split_and!.
  - reflexivity.
  - by split.
  - done.
  - fold (sample_run [Avail (InTime (b! "core"))]).
    rewrite (surjective_pairing (sample_run _)) at 1. apply (f_equal (pair _)).
    vm_compute. reflexivity.
  - exists p. split; [exact Hp|]. intros mkey Hk. destruct (Hm mkey Hk) as (obj & m & id & ks & Ho & Hr & _).
    exists obj, m. by split.
Defined.

(** What a suppressed run that drained leaves in the bucket: the snapshot, and a manifest
    that says why the core is missing and where the snapshot is. *)
Lemma suppressed_objects {World} `{ObjectStore World} {OL : ObjectStoreLaws World}
    {B : BufWriter World} {BL : BufWriterLaws World} {Zs : Zstd} {ZL : ZstdLaws Zs}
    {P : ObjectPath} {PL : ObjectPathLaws P} {J : JsonText} {T : Snapshot.Tar}
    {C : RateLimit.StateCodec} env args config ov st (s : State World) id ks tar :
  plain_cluster config → target (plan env args config ov) = Some (id, ks) →
  Snapshot.to_tar (snapshot (plan env args config ov)) = Some tar →
  accepts_puts (World := World) → sha256 st = None →
  let s' := finish env args config (plan env args config ov) true st s in
  (∀ k, k ≠ object_path (Keys.proc_snapshot ks) → k ≠ object_path (Keys.manifest ks) →
        objects (store_world s') !! k = objects (store_world s) !! k)
  ∧ objects (store_world s') !! object_path (Keys.proc_snapshot ks) = Some tar
  ∧ ∃ m p, objects (store_world s') !! object_path (Keys.manifest ks)
           = Some (text_to_vec_pretty (Manifest.ser_manifest m))
      ∧ Manifest.present (Manifest.core m) = false
      ∧ Manifest.skipped_reason (Manifest.core m) = Some (b! "rate_limit")
      ∧ Manifest.ps_object_key <$> Manifest.proc_snapshot m = Some (Keys.proc_snapshot ks)
      ∧ summary s' = summary s ++ [p] ∧ Events.outcome p = Events.SuppressedRateLimit
      ∧ Events.manifest_key p = Some (Keys.manifest ks) ∧ Events.core_bytes p = bytes_ st.
Proof.
  intros Hcl Ht Htar Hput Hsha. cbv zeta. unfold finish. set (pl := plan env args config ov) in *.
  pose proof (snapshot_uploaded pl id ks tar (store_world s) Hput Ht Htar) as Hpk.
  destruct (upload_snapshot pl _) as [w1 pk] eqn:Eu. cbn [snd] in Hpk. subst pk.
  set (m := build_manifest env args config pl true st (Some (Keys.proc_snapshot ks))).
  pose proof (manifest_written pl id ks m w1 Hput Ht) as Hmk.
  destruct (write_manifest pl m w1) as [w2 mk] eqn:Em. cbn [snd] in Hmk. subst mk.
  destruct (target_paths env args config ov id ks Hcl Ht) as [Hpath Hne].
  destruct (plan_target _ _ _ _ _ _ Ht) as (_ & _ & _ & Hid & _).
  apply upload_snapshot_spec in Eu as [Hfu Hu]. apply write_manifest_spec in Em as [Hfm Hm].
  destruct (Hu _ eq_refl) as (_ & _ & tar' & _ & _ & Htar' & Hat).
  rewrite Htar in Htar'. injection Htar' as <-. destruct (Hm _ eq_refl) as (_ & _ & _ & _ & Hobj).
  cbn [report store_world summary]. split; [|split].
  - intros k Hk1 Hk2. rewrite Hfm, Hfu; [done|..];
      intros ? ? Ht'; rewrite Ht in Ht'; by injection Ht' as <- <-.
  - rewrite Hfm; [done|]. intros ? ? Ht'. rewrite Ht in Ht'. injection Ht' as <- <-.
    pose proof (Hpath SnapshotObj) as Hs. pose proof (Hpath ManifestObj) as Hm'. cbn [key_of] in *.
    rewrite Hs, Hm'. by apply (Hne SnapshotObj ManifestObj).
  - exists m. eexists. split; [done|]. unfold m.
    cbn [build_manifest Manifest.core Manifest.present]. rewrite Hsha. do 4 (split; [done|]).
    cbn [success_payload Events.outcome]. unfold outcome_of. unfold pl. by rewrite Hid.
Qed.


(** The pod of the sample capture has had its three cores this hour. *)
Definition spent_state : State Mem.store :=
  mkState ∅
    (RateLimit.mkFs (Some 448%Z)
       (Some (RateLimit.mkFile
          (default [] (RateLimit.to_vec (StateCodec := RateLimit.decimal_codec)
             {[ Cgroup.sample_uid := [1749599000; 1749599500; 1749599900]%Z ]})) 384%Z))) [] [].

Definition sample_keys : ObjectKeys :=
  Keys.new (b! "prod") Cgroup.sample_uid Cgroup.sample_cid 1749600000 7.
Definition sample_tar : bytes :=
  default [] (Snapshot.to_tar (T := Snapshot.MemTar.mem_tar)
    (snapshot (plan sample_env sample_args Config.sample_config false))).
Definition spent_run : State Mem.store * outcome (result unit error) :=
  run (J := token_text) (T := Snapshot.MemTar.mem_tar) (C := RateLimit.decimal_codec)
    sample_env sample_args Config.sample_config [Avail (InTime (b! "core"))] false spent_state.


End Captures.
