(* ===== verification/History.v ===== *)
(** * A node's history of crashes

    The handler is one process per crash and keeps nothing in memory between
    two of them: what a crash knows of the earlier ones is the bucket and the
    limiter's state file. This file runs the whole handler of [src/handler.rs]
    once per crash and proves what holds over the sequence: no capture spoils
    an earlier one, and the reports are those of an abstract node that
    remembers only which uploads it reported. *)

From S2P Require Import Prelude RustStr Cgroup Redact BuildId RateLimit Backend Upload Json Events Manifest Snapshot Config Crictl Handler.
Import Json Backend Upload.

Module History.
Import Handler.

(** One crash the kernel pipes to the handler. *)
Record Crash := mkCrash { c_env : Env; c_args : CaptureArgs; c_core : pipe }.

(** ** The abstract node

    Its memory is the log of the uploads it reported. *)

(** The uploads a list of reports states, as the limiter's specification logs them. *)
Definition upload_of (p : Events.CaptureEventPayload) : option (bytes * Z) :=
  if decide (Events.outcome p = Events.Uploaded)
  then (λ uid, (uid, Events.timestamp p)) <$> Events.pod_uid p else None.
Definition uploads_of (ps : list Events.CaptureEventPayload) : RateLimit.Spec.log := omap upload_of ps.

(** The outcome of a crash whose core is delivered and whose store works. *)
Definition verdict (max : Z) (pl : Plan) (now : Z) (uploads : RateLimit.Spec.log) : Events.Outcome :=
  match identity pl with
  | None => Events.SkippedNonK8s
  | Some id =>
      if negb (store pl) then Events.NoStoreDiscard
      else if decide (max = 0%Z) then Events.Uploaded
      else match snd (RateLimit.Spec.check max (Cgroup.pod_uid id) now uploads) with
           | RateLimit.Allowed => Events.Uploaded
           | RateLimit.Suppressed _ => Events.SuppressedRateLimit
           end
  end.

Section history.
Context {World : Type} `{ObjectStore World} {B : BufWriter World} {Zs : Zstd} {P : ObjectPath}
  {J : JsonText} {T : Snapshot.Tar} {C : RateLimit.StateCodec}.
Context (config : Config.HandlerConfig) (ov : bool).

Definition plan_of (c : Crash) : Plan := plan (c_env c) (c_args c) config ov.

(** The state one handler process leaves, and the crashes of a node one after another. *)
Definition capture (s : State World) (c : Crash) : State World :=
  fst (run (c_env c) (c_args c) config (c_core c) ov s).
Definition captures (cs : list Crash) (s : State World) : State World := foldl capture s cs.

(** Who crashed, and when. *)
Definition crash_id (c : Crash) : option Cgroup.CgroupIdentity * Z * Z :=
  (identity (plan_of c), timestamp (c_args c), host_pid (c_args c)).

(** The report of a crash names its container and its time. *)
Definition names (c : Crash) (p : Events.CaptureEventPayload) : Prop :=
  Events.pod_uid p = Cgroup.pod_uid <$> identity (plan_of c)
  ∧ Events.timestamp p = timestamp (c_args c).

(** The reports follow the abstract node, but for the captures that failed. *)
Fixpoint follows (max : Z) (cs : list Crash) (ps : list Events.CaptureEventPayload)
    (uploads : RateLimit.Spec.log) : Prop :=
  match cs, ps with
  | [], [] => True
  | c :: cs, p :: ps =>
      names c p
      ∧ (Events.outcome p = Events.Failed
         ∨ Events.outcome p = verdict max (plan_of c) (timestamp (c_args c)) uploads)
      ∧ follows max cs ps (uploads ++ uploads_of [p])
  | _, _ => False
  end.

(** Crash timestamps of one clock, and limiter files whose steps succeed. *)
Fixpoint clocked (last : Z) (cs : list Crash) : Prop :=
  match cs with
  | [] => True
  | c :: cs =>
      let now := timestamp (c_args c) in
      (last ≤ now)%Z ∧ (i64_min + RateLimit.RATE_WINDOW_SECS ≤ now ≤ i64_max)%Z ∧ clocked now cs
  end.
Definition limiter_works (c : Crash) : Prop :=
  env_check_faults (c_env c) = RateLimit.no_faults ∧ env_refund_faults (c_env c) = RateLimit.no_faults.

Context {OL : ObjectStoreLaws World} {BL : BufWriterLaws World} {ZL : ZstdLaws Zs}
  {PL : ObjectPathLaws P}.
Implicit Types (s : State World).

(** ** The bucket *)

(** A key that is none of the three a crash's capture may write. *)
Definition untouched (c : Crash) (k : bytes) : Prop :=
  ∀ id ks a, target (plan_of c) = Some (id, ks) → k ≠ object_path (key_of a ks).

Lemma capture_frame c s k :
  untouched c k → objects (store_world (capture s c)) !! k = objects (store_world s) !! k.
Proof.
  intros Hk. unfold capture. destruct (run _ _ _ _ _ s) as [s' r] eqn:Hrun. cbn [fst].
  destruct r as [|r]; [destruct (run_panics _ _ _ _ _ _ _ _ Hrun) as [_ ->]; done|].
  apply run_inv in Hrun as (l & rec & sup & w & dr & _ & Hd & Hr).
  apply drain_frame in Hd as [_ Hfd].
  assert (objects w !! k = objects (store_world s) !! k) as <-.
  { apply Hfd. intros id ks _ Ht. by apply (Hk id ks CoreObj). }
  destruct dr as [|[st|e]]; [done| |]; destruct Hr as [_ ->]; [|done].
  destruct (finish_inv (c_env c) (c_args c) config ov sup st (mkState w l (socket s) (summary s)))
    as (-> & _ & _). cbn [store_world]. fold (plan_of c).
  destruct (upload_snapshot (plan_of c) w) as [w1 pk] eqn:Eu. cbn [fst].
  destruct (write_manifest _ _ w1) as [w2 mk] eqn:Em. cbn [fst].
  apply upload_snapshot_spec in Eu as [Hfu _]. apply write_manifest_spec in Em as [Hfm _].
  rewrite Hfm, Hfu; [done|..]; intros id ks Ht; [apply (Hk id ks SnapshotObj Ht)|apply (Hk id ks ManifestObj Ht)].
Qed.

Lemma captures_frame cs s k :
  (∀ c, c ∈ cs → untouched c k) →
  objects (store_world (captures cs s)) !! k = objects (store_world s) !! k.
Proof.
  revert s. induction cs as [|c cs IH]; intros s Hk; [done|]. cbn [captures foldl].
  change (foldl capture (capture s c) cs) with (captures cs (capture s c)).
  rewrite IH by (intros c' Hc'; apply Hk; by right). apply capture_frame, Hk. by left.
Qed.

(** Captures of different crashes write under different keys. *)
Lemma other_crash_untouched c c' id ks a :
  plain_cluster config → crash_id c ≠ crash_id c' → target (plan_of c) = Some (id, ks) →
  untouched c' (object_path (key_of a ks)).
Proof.
  intros Hcl Hne Ht id' ks' a' Ht'.
  destruct (target_paths _ _ _ _ _ _ Hcl Ht) as [-> _]. destruct (target_paths _ _ _ _ _ _ Hcl Ht') as [-> _].
  apply plan_target in Ht as (Hu & Hc & -> & Hi & _). apply plan_target in Ht' as (Hu' & Hc' & -> & Hi' & _).
  intros (_ & _ & Epod & Ecid & Ets & Epid)%key_of_inj; auto using Cgroup.slash_free_uid, Cgroup.slash_free_cid.
  apply Hne. unfold crash_id. rewrite Ets, Epid.
  change (identity (plan_of c)) with (identity (plan (c_env c) (c_args c) config ov)).
  change (identity (plan_of c')) with (identity (plan (c_env c') (c_args c') config ov)).
  rewrite Hi, Hi'. destruct id, id'; cbn in *; by subst.
Qed.

(** A complete capture stays complete while its three objects do. *)
Lemma complete_frame c p (w w' : World) :
  (∀ id ks a, target (plan_of c) = Some (id, ks) →
     objects w' !! object_path (key_of a ks) = objects w !! object_path (key_of a ks)) →
  complete (c_env c) (c_args c) config (c_core c) ov p w →
  complete (c_env c) (c_args c) config (c_core c) ov p w'.
Proof.
  intros Hf Hc mkey Hk.
  destruct (Hc mkey Hk) as (m & id & ks & Ho & Ht & -> & Hid & Hu & Hcid & Hpr & Hsk & Hcore & Hsnap).
  exists m, id, ks. pose proof (λ a, Hf id ks a Ht) as Hf'.
  split_and!; try done.
  - pose proof (Hf' ManifestObj) as E. cbn [key_of] in E. by rewrite E.
  - intros Hp. destruct (Hcore Hp) as (? & st & (obj & Hobj & Hst) & Hrest). split; [done|]. exists st.
    split; [|done]. exists obj. split; [|done]. pose proof (Hf' CoreObj) as E. cbn [key_of] in E. by rewrite E.
  - intros r Hr. destruct (Hsnap r Hr) as (? & tar & ? & Htar). split; [done|]. exists tar. split; [done|].
    pose proof (Hf' SnapshotObj) as E. cbn [key_of] in E. by rewrite E.
Qed.

(** A crash whose deadline is an [Instant]. *)
Definition punctual (c : Crash) : Prop := deadline_fits (c_env c) config.

(** The handler returns on every such crash, with one report. *)
Lemma capture_returns c s :
  punctual c → ∃ r, run (c_env c) (c_args c) config (c_core c) ov s = (capture s c, Ret r).
Proof.
  intros Hf. unfold capture. destruct (run _ _ _ _ _ s) as [s' [|r]] eqn:Hrun; [|by exists r].
  by apply run_panics in Hrun as [[[] _] _].
Qed.

Lemma capture_silent c s : ¬ punctual c → summary (capture s c) = summary s.
Proof.
  intros Hf. unfold capture. destruct (run _ _ _ _ _ s) as [s' r] eqn:Hrun.
  apply run_panics in Hrun as [Hp Hs]. by rewrite Hs by by apply Hp.
Qed.

Definition deliverable (c : Crash) : Prop :=
  (Z.of_nat (length (fst (delivered (deadline_of config) (c_core c)))) ≤ u64_max)%Z.

(** What a crash reported, if its handler came to report it, is in the bucket. *)
Definition accounted (w : World) (c : Crash) (report : option Events.CaptureEventPayload) : Prop :=
  match report with
  | Some p => punctual c ∧ complete (c_env c) (c_args c) config (c_core c) ov p w
  | None => ¬ punctual c
  end.

Lemma capture_accounted c s :
  plain_cluster config → (0 ≤ Config.max_core_bytes config ≤ u64_max)%Z → deliverable c →
  ∃ r, summary (capture s c) = summary s ++ option_list r ∧ accounted (store_world (capture s c)) c r.
Proof.
  intros Hcl Hm Hd. destruct (decide (deadline_fits (c_env c) config)) as [Hf|Hf].
  - destruct (capture_returns c s Hf) as [r Hrun].
    destruct (run_complete _ _ _ _ _ _ _ _ Hcl Hm Hd Hrun) as (p & Hsum & Hp). by exists (Some p).
  - exists None. split; [|done]. cbn. rewrite app_nil_r. by apply capture_silent.
Qed.

Lemma captures_complete cs s :
  plain_cluster config → (0 ≤ Config.max_core_bytes config ≤ u64_max)%Z → Forall deliverable cs →
  NoDup (crash_id <$> cs) →
  ∃ rs, summary (captures cs s) = summary s ++ omap id rs
    ∧ Forall2 (accounted (store_world (captures cs s))) cs rs.
Proof.
  intros Hcl Hm. revert s. induction cs as [|c cs IH]; intros s Hdel Hnd.
  - exists []. by rewrite app_nil_r.
  - apply Forall_cons in Hdel as [Hd Hdel]. rewrite fmap_cons in Hnd. apply NoDup_cons in Hnd as [Hnin Hnd].
    destruct (capture_accounted c s Hcl Hm Hd) as (r & Hsum & Hr).
    destruct (IH (capture s c) Hdel Hnd) as (rs & Hsums & Hrs).
    change (captures (c :: cs) s) with (captures cs (capture s c)).
    exists (r :: rs). split; [rewrite Hsums, Hsum, <- app_assoc; by destruct r|]. constructor; [|done].
    destruct r as [p|]; [|done]. destruct Hr as [Hf Hp]. split; [done|].
    eapply complete_frame, Hp. intros id ks a Ht. apply captures_frame. intros c' Hc'.
    eapply other_crash_untouched; [done| |done]. intros E. apply Hnin, list_elem_of_fmap. by exists c'.
Qed.

(** ** The limiter *)

Lemma capture_names c s :
  punctual c → ∃ r p, run (c_env c) (c_args c) config (c_core c) ov s = (capture s c, Ret r)
    ∧ summary (capture s c) = summary s ++ [p] ∧ names c p
    ∧ (is_ok r = false → Events.outcome p = Events.Failed).
Proof.
  intros Hf. destruct (capture_returns c s Hf) as [r Hrun]. exists r. pose proof Hrun as Hinv.
  apply run_inv in Hinv as (l & rec & sup & w & dr & _ & _ & Hr).
  assert (∃ p, summary (capture s c) = summary s ++ [p] ∧ names c p
    ∧ (is_ok r = false → Events.outcome p = Events.Failed)) as [p Hp]; [|by exists p].
  destruct dr as [|[st|e]]; [done| |]; destruct Hr as [-> ->].
  - unfold finish. cbv zeta. destruct (upload_snapshot _ _) as [w1 pk]. destruct (write_manifest _ _ w1) as [w2 mk].
    eexists. split; [done|]. by split; [split|].
  - eexists. split; [done|]. by split; [split|].
Qed.

Lemma refines_later last now st h :
  (last ≤ now)%Z → RateLimit.refines last st h → RateLimit.refines now st h.
Proof. intros Hl Hr sc c Hc. apply Hr. lia. Qed.

Lemma uploads_of_names c p id :
  names c p → identity (plan_of c) = Some id →
  uploads_of [p] = if decide (Events.outcome p = Events.Uploaded)
                   then [(Cgroup.pod_uid id, timestamp (c_args c))] else [].
Proof.
  intros [Hu Ht] Hid. unfold uploads_of, upload_of. cbn. rewrite Hu, Ht, Hid. by case_decide.
Qed.

Lemma uploads_of_cons p ps : uploads_of (p :: ps) = uploads_of [p] ++ uploads_of ps.
Proof. exact (omap_app upload_of [p] ps). Qed.

Lemma uploads_of_none c p : names c p → identity (plan_of c) = None → uploads_of [p] = [].
Proof.
  intros [Hu _] Hid. unfold uploads_of, upload_of. cbn. rewrite Hu, Hid. by case_decide.
Qed.

(** What the limiter's file stands for between two crashes. *)
Definition remembers (max last : Z) (uploads : RateLimit.Spec.log) (s : State World) : Prop :=
  max ≠ 0%Z → RateLimit.refines last (RateLimit.state_of (limiter s)) uploads.

Context {CL : RateLimit.StateCodecLaws C}.
Abbreviation max := (Config.max_cores_per_hour config).

Lemma spec_check_log m uid now h :
  fst (RateLimit.Spec.check m uid now h)
  = if decide (snd (RateLimit.Spec.check m uid now h) = RateLimit.Allowed)
    then h ++ [(uid, now)] else h.
Proof. unfold RateLimit.Spec.check. by case_decide. Qed.

(** With a target, the capture's report and the limiter follow the verdict. *)
Lemma target_step c s id ks uploads last r p :
  let now := timestamp (c_args c) in
  limiter_works c → (last ≤ now)%Z → (i64_min + RateLimit.RATE_WINDOW_SECS ≤ now ≤ i64_max)%Z →
  target (plan_of c) = Some (id, ks) → remembers max last uploads s →
  run (c_env c) (c_args c) config (c_core c) ov s = (capture s c, Ret r) →
  summary (capture s c) = summary s ++ [p] → names c p →
  (Events.outcome p = Events.Failed ∨ Events.outcome p = verdict max (plan_of c) now uploads)
  ∧ remembers max now (uploads ++ uploads_of [p]) (capture s c).
Proof.
  intros now [Hcf Hrf] Hlast Hnow Ht Hrem Hrun Hsum Hn. subst now.
  destruct (plan_target _ _ _ _ _ _ Ht) as (_ & _ & _ & Hid & _ & Hst).
  rewrite (uploads_of_names c p id Hn Hid). unfold verdict, remembers.
  change (identity (plan_of c)) with (identity (plan (c_env c) (c_args c) config ov)).
  change (store (plan_of c)) with (store (plan (c_env c) (c_args c) config ov)).
  rewrite Hid, Hst. cbn [negb]. pose proof Ht as Ht'. unfold plan_of in Ht'.
  apply run_inv in Hrun as (l & rec & sup & w & dr & Hl & Hd & Hr).
  assert (∀ st, dr = Ret (Ok st) → limiter (capture s c) = l ∧ Events.outcome p
    = if sup then Events.SuppressedRateLimit else Events.Uploaded) as Hok.
  { intros st ->. destruct Hr as [_ Hr]. rewrite Hr in Hsum |- *.
    destruct (finish_inv (c_env c) (c_args c) config ov sup st (mkState w l (socket s) (summary s)))
      as (_ & -> & p' & Hsum' & _ & _ & Hout & _). split; [done|].
    rewrite Hsum' in Hsum. apply app_inj_tail in Hsum as [_ <-]. rewrite Hout.
    by apply (target_outcome _ _ _ _ _ _ _ _ _ _ _ Ht Hd). }
  assert (∀ e, dr = Ret (Err e) → Events.outcome p = Events.Failed ∧ limiter (capture s c)
    = if rec then RateLimit.refund (env_refund_faults (c_env c)) max (Cgroup.pod_uid id) (timestamp (c_args c)) l else l) as Herr.
  { intros e ->. destruct Hr as [_ Hr]. rewrite Hr in Hsum |- *. unfold drain_failed in *.
    rewrite Ht'. cbn [report summary limiter] in *.
    apply app_inj_tail in Hsum as [_ <-]. by destruct rec. }
  assert (max = 0%Z → sup = false) as Hunl.
  { intros E. unfold rate_limit, RateLimit.check_and_record in Hl. rewrite Ht', decide_True in Hl by done. congruence. }
  destruct (decide (max = 0%Z)) as [Hz|Hz].
  { split; [|done]. destruct dr as [|[st|e]]; [done|right|left; by eapply Herr].
    destruct (Hok st eq_refl) as [_ ->]. by rewrite Hunl. }
  destruct (rate_limit_state _ _ _ _ _ _ _ _ _ _ Hcf Hz Ht Hl) as (d & Hck & -> & ->).
  destruct (RateLimit.check_refines max last (timestamp (c_args c)) (Cgroup.pod_uid id) (RateLimit.state_of (limiter s)) uploads
    Hlast Hnow (Hrem Hz)) as [Hdec Href].
  rewrite Hck in Hdec, Href. cbn [fst snd] in Hdec, Href. rewrite <- Hdec.
  rewrite spec_check_log, <- Hdec in Href.
  destruct dr as [|[st|e]]; [done| |].
  - destruct (Hok st eq_refl) as [-> ->]. split; [right; by destruct d|]. intros _.
    destruct d; cbn in Href |- *; by rewrite ?app_nil_r.
  - destruct (Herr e eq_refl) as [-> ->]. split; [by left|]. intros _.
    rewrite decide_False, app_nil_r by done.
    destruct d; [|exact Href]. rewrite decide_True in Href by done.
    rewrite bool_decide_true, Hrf, RateLimit.refund_ok by done.
    apply (RateLimit.refund_refines (timestamp (c_args c)) (Cgroup.pod_uid id) (timestamp (c_args c))) in Href.
    unfold RateLimit.Spec.give_back in Href. by rewrite RateLimit.remove_last_snoc in Href.
Qed.

(** One crash of a history. *)
Lemma capture_step c s uploads last :
  let now := timestamp (c_args c) in
  punctual c → limiter_works c → (last ≤ now)%Z → (i64_min + RateLimit.RATE_WINDOW_SECS ≤ now ≤ i64_max)%Z →
  remembers max last uploads s →
  ∃ p, summary (capture s c) = summary s ++ [p] ∧ names c p
    ∧ (Events.outcome p = Events.Failed ∨ Events.outcome p = verdict max (plan_of c) now uploads)
    ∧ remembers max now (uploads ++ uploads_of [p]) (capture s c).
Proof.
  intros now Hpunc Hw Hlast Hnow Hrem. destruct (capture_names c s Hpunc) as (r & p & Hrun & Hsum & Hn & Hfail).
  exists p. do 2 (split; [done|]).
  destruct (target (plan_of c)) as [[id ks]|] eqn:Ht; [by eapply target_step|].
  assert (identity (plan_of c) = None ∨ store (plan_of c) = false) as Hno.
  { destruct (identity (plan_of c)) as [id|] eqn:Ei; [right|by left].
    destruct (store (plan_of c)) eqn:Es; [|done].
    destruct (plan_target_some _ _ _ _ _ Ei Es) as [? E]. unfold plan_of in Ht. congruence. }
  destruct (no_target_run _ _ _ _ _ _ _ _ Hno Hrun) as (_ & Hl & Hp').
  destruct (Hp' r eq_refl) as (p' & Hsum' & _ & Hout).
  rewrite Hsum' in Hsum. apply app_inj_tail in Hsum as [_ ->].
  assert (Events.outcome p = Events.Failed ∨ Events.outcome p = verdict max (plan_of c) now uploads) as Hv.
  { destruct r as [[]|e]; [right|left; by apply Hfail]. rewrite (Hout eq_refl). unfold verdict.
    change (plan (c_env c) (c_args c) config ov) with (plan_of c).
    destruct (identity (plan_of c)); [|done]. rewrite bool_decide_false by done.
    destruct Hno as [? | ->]; done. }
  split; [exact Hv|]. intros Hm. rewrite Hl.
  assert (uploads_of [p] = []) as ->; [|rewrite app_nil_r; by eapply refines_later, Hrem].
  destruct (identity (plan_of c)) as [id|] eqn:Ei; [|by eapply uploads_of_none].
  rewrite (uploads_of_names c p id Hn Ei), decide_False; [done|].
  destruct Hv as [-> | ->]; [done|]. unfold verdict. rewrite Ei. by destruct Hno as [? | ->].
Qed.

Lemma captures_follow cs s uploads last :
  Forall punctual cs → Forall limiter_works cs → clocked last cs → remembers max last uploads s →
  ∃ ps, summary (captures cs s) = summary s ++ ps ∧ follows max cs ps uploads.
Proof.
  revert s uploads last. induction cs as [|c cs IH]; intros s uploads last Hp Hw Hc Hrem.
  - exists []. by rewrite app_nil_r.
  - apply Forall_cons in Hp as [Hpc Hp]. apply Forall_cons in Hw as [Hwc Hw]. destruct Hc as (Hlast & Hnow & Hc).
    destruct (capture_step c s uploads last Hpc Hwc Hlast Hnow Hrem) as (p & Hsum & Hn & Hv & Hrem').
    destruct (IH _ _ _ Hp Hw Hc Hrem') as (ps & Hsums & Hf).
    exists (p :: ps). split; [|done].
    change (captures (c :: cs) s) with (captures cs (capture s c)).
    by rewrite Hsums, Hsum, <- app_assoc.
Qed.

(** The abstract node keeps every pod within its budget. *)
Lemma follows_budget cs ps uploads :
  (0 < max ≤ u32_max)%Z → RateLimit.within_budget max uploads → follows max cs ps uploads →
  RateLimit.within_budget max (uploads ++ uploads_of ps).
Proof.
  intros Hm. revert ps uploads. induction cs as [|c cs IH]; intros [|p ps] uploads Hb; try done.
  - intros _. by rewrite app_nil_r.
  - intros (Hn & Hv & Hf). rewrite uploads_of_cons, app_assoc. apply (IH ps); [|exact Hf].
    destruct (identity (plan_of c)) as [id|] eqn:Ei;
      [rewrite (uploads_of_names c p id Hn Ei)|by rewrite (uploads_of_none c p Hn Ei), app_nil_r].
    case_decide as Hup; [|by rewrite app_nil_r].
    pose proof (RateLimit.check_within_budget max (Cgroup.pod_uid id) (timestamp (c_args c)) uploads
      (proj2 Hm) Hb) as Hb'.
    rewrite spec_check_log in Hb'. rewrite Hup in Hv. unfold verdict in Hv. rewrite Ei in Hv.
    destruct Hv as [|Hv]; [done|]. destruct (negb _); [done|]. rewrite decide_False in Hv by lia.
    by destruct (snd (RateLimit.Spec.check _ _ _ _)).
Qed.

End history.

(** ** Properties *)

(** C14: no crash spoils an earlier capture: after any sequence of crashes that differ in
    container, time or process, the bucket still holds, for every one of them
    that reported a manifest key, the manifest and the core and snapshot it
    describes, and every crash of the sequence has exactly one report, in order; only a
    crash whose handler panics, because its upload deadline is no [Instant], has none. *)
Theorem bucket_stays_complete {World} `{ObjectStore World} {OL : ObjectStoreLaws World}
    {B : BufWriter World} {BL : BufWriterLaws World} {Zs : Zstd} {ZL : ZstdLaws Zs}
    {P : ObjectPath} {PL : ObjectPathLaws P} {J : JsonText} {T : Snapshot.Tar}
    {C : RateLimit.StateCodec} config ov cs (s : State World) :
  plain_cluster config → (0 ≤ Config.max_core_bytes config ≤ u64_max)%Z →
  Forall (deliverable config) cs → NoDup (crash_id config ov <$> cs) →
  ∃ rs, summary (captures config ov cs s) = summary s ++ omap id rs
    ∧ Forall2 (λ c r, match r with
                      | Some p => deadline_fits (c_env c) config
                                  ∧ complete (c_env c) (c_args c) config (c_core c) ov p
                                      (store_world (captures config ov cs s))
                      | None => ¬ deadline_fits (c_env c) config
                      end) cs rs.
Proof. exact (captures_complete config ov cs s). Qed.

(** A crash of the sample process at a time, with its core on the pipe. *)
Definition sample_crash (now : Z) (core : bytes) : Crash :=
  mkCrash sample_env (mkArgs 7 11 now (b! "!usr!bin!app")) [Avail (InTime core)].
(** A host process, then a container crash loop: one upload fails on the way. *)
Definition sample_crashes : list Crash :=
  [mkCrash sample_env (mkArgs 8 6 1749600000 (b! "sshd")) [Avail (InTime (b! "x"))];
   sample_crash 1749600000 (b! "one");
   mkCrash sample_env (mkArgs 7 11 1749600001 (b! "!usr!bin!app")) stalled;
   sample_crash 1749600002 (b! "two"); sample_crash 1749600003 (b! "three");
   sample_crash 1749600004 (b! "four"); sample_crash 1749603601 (b! "five")].
Definition sample_history : State Mem.store :=
  captures (J := token_text) (T := Snapshot.MemTar.mem_tar) (C := RateLimit.decimal_codec)
    Config.sample_config false sample_crashes sample_state.

Lemma bucket_stays_complete_witness :
  ∃ rs, summary sample_history = omap id rs ∧ Forall2 (λ c r,
    match r with
    | Some p => deadline_fits (c_env c) Config.sample_config
                ∧ complete (J := token_text) (T := Snapshot.MemTar.mem_tar) (c_env c) (c_args c)
                    Config.sample_config (c_core c) false p (store_world sample_history)
    | None => ¬ deadline_fits (c_env c) Config.sample_config
    end) sample_crashes rs.
Proof.
  destruct (bucket_stays_complete (J := token_text) (T := Snapshot.MemTar.mem_tar)
    (C := RateLimit.decimal_codec) Config.sample_config false sample_crashes sample_state)
    as (ps & Hsum & Hps).
  - reflexivity.
  - done.
  - by repeat (apply Forall_cons_2 || apply Forall_nil_2).
  - apply (NoDup_fmap_1 (λ x, (x.1.2, x.2))), (bool_decide_eq_true_1 _). vm_compute. reflexivity.
  - exists ps. split; [exact Hsum|exact Hps].
Defined.

(** C12: over any sequence of crashes, of a node whose clock does not run backwards (nor
    out of an [i64] by an hour), whose limiter can read and write its state file at every
    crash and starts out empty, and whose upload deadline is an [Instant], the reports are
    those of an abstract node whose only memory is the log of uploads it reported: a host
    process is skipped, a container without a store is discarded, and otherwise the core
    is uploaded exactly when the pod's reported uploads of the last hour leave room in
    its budget. Then only a failed capture departs from it, and leaves no trace in it:
    the next verdicts are as if it had not been tried. (A limiter that cannot use its
    file fails open instead, see [limiter_fails_open].) *)
Theorem history_follows_spec {World} `{ObjectStore World} {OL : ObjectStoreLaws World}
    {B : BufWriter World} {BL : BufWriterLaws World} {Zs : Zstd} {ZL : ZstdLaws Zs}
    {P : ObjectPath} {J : JsonText} {T : Snapshot.Tar}
    {C : RateLimit.StateCodec} {CL : RateLimit.StateCodecLaws C} config ov cs (s : State World) :
  Forall limiter_works cs → clocked i64_min cs → RateLimit.state_of (limiter s) = ∅ →
  Forall (λ c, deadline_fits (c_env c) config) cs →
  ∃ ps, summary (captures config ov cs s) = summary s ++ ps
    ∧ follows config ov (Config.max_cores_per_hour config) cs ps [].
Proof.
  intros Hw Hc He Hp. apply (captures_follow config ov cs s [] i64_min Hp Hw Hc).
  intros _. rewrite He. by intros ? ?.
Qed.

Example sample_history_outcomes :
  Events.outcome <$> summary sample_history
  = [Events.SkippedNonK8s; Events.Uploaded; Events.Failed; Events.Uploaded; Events.Uploaded;
     Events.SuppressedRateLimit; Events.Uploaded].
Proof. vm_compute. reflexivity. Qed.

Lemma history_follows_spec_witness :
  ∃ ps, summary sample_history = ps
    ∧ follows Config.sample_config false 3 sample_crashes ps [].
Proof.
  destruct (history_follows_spec (J := token_text) (T := Snapshot.MemTar.mem_tar)
    (C := RateLimit.decimal_codec) (CL := RateLimit.decimal_codec_laws)
    Config.sample_config false sample_crashes sample_state) as (ps & Hsum & Hps).
  - by repeat (apply Forall_cons_2 || apply Forall_nil_2).
  - vm_compute. intuition congruence.
  - reflexivity.
  - by repeat (apply Forall_cons_2 || apply Forall_nil_2); intros d [= <-].
  - exists ps. split; [exact Hsum|exact Hps].
Defined.

(** C13: the budget of a pod, end to end: on a node whose limiter is on, can read and write
    its state file at every crash and starts out empty, whose clock does not run
    backwards and whose upload deadline is an [Instant], the uploads reported of a pod in
    any hour are at most [max_cores_per_hour], over any sequence of crashes, whatever
    they are and however their uploads fare. (A limiter that cannot use its file fails
    open, and the budget does not hold then.) *)
Theorem node_budget {World} `{ObjectStore World} {OL : ObjectStoreLaws World}
    {B : BufWriter World} {BL : BufWriterLaws World} {Zs : Zstd} {ZL : ZstdLaws Zs}
    {P : ObjectPath} {J : JsonText} {T : Snapshot.Tar}
    {C : RateLimit.StateCodec} {CL : RateLimit.StateCodecLaws C} config ov cs (s : State World) :
  (0 < Config.max_cores_per_hour config ≤ u32_max)%Z → Forall limiter_works cs →
  clocked i64_min cs → RateLimit.state_of (limiter s) = ∅ → summary s = [] →
  Forall (λ c, deadline_fits (c_env c) config) cs →
  ∀ uid t, (RateLimit.Spec.window_count (uploads_of (summary (captures config ov cs s))) uid t
            ≤ Config.max_cores_per_hour config)%Z.
Proof.
  intros Hm Hw Hc He Hs Hp.
  destruct (captures_follow config ov cs s [] i64_min Hp Hw Hc) as (ps & -> & Hf).
  { intros _. rewrite He. by intros ? ?. }
  rewrite Hs. apply (follows_budget config ov cs ps [] Hm); [|exact Hf].
  intros uid t. unfold RateLimit.Spec.window_count. cbn. lia.
Qed.

Lemma node_budget_witness :
  (RateLimit.Spec.window_count (uploads_of (summary sample_history)) Cgroup.sample_uid 1749603500
   ≤ 3)%Z.
Proof.
  apply (node_budget (J := token_text) (T := Snapshot.MemTar.mem_tar)
    (C := RateLimit.decimal_codec) (CL := RateLimit.decimal_codec_laws)
    Config.sample_config false sample_crashes sample_state).
  - done.
  - by repeat (apply Forall_cons_2 || apply Forall_nil_2).
  - vm_compute. intuition congruence.
  - reflexivity.
  - reflexivity.
  - by repeat (apply Forall_cons_2 || apply Forall_nil_2); intros d [= <-].
Defined.

End History.
