(* ===== verification/Storm.v ===== *)
(** * A crash storm: handlers that run at the same time

    The kernel runs one handler per crash, up to [core_pipe_limit] at once. This
    file runs the stages of [run] (src/handler.rs) of many handlers
    interleaved, on the bucket and the limiter file they share, lets any of them be
    killed between two stages or inside one, and proves that the manifest is
    a commit record: in every configuration the bucket holds, for each crash, no manifest
    of it or a complete capture. *)

From S2P Require Import Prelude RustStr Cgroup Redact BuildId RateLimit Backend Upload Json Events Manifest Snapshot Config Crictl Handler History.
Import Json Backend Upload.

Module Storm.
Import Handler History.

(** [ObjectStore::put] is documented to be atomic: an object is written whole or the
    bucket keeps what it held, also when the call fails. *)
Class AtomicPut (World : Type) `{ObjectStore World} : Prop :=
  put_atomic w k v w' r : put w k v = (w', r) →
    objects w' !! k = Some v ∨ objects w' !! k = objects w !! k.

#[global] Instance mem_atomic_put : AtomicPut Mem.store.
Proof. intros w k v w' r [= <- _]. left. apply lookup_insert_eq. Qed.

(** How far a handler is. *)
Inductive phase :=
  | Started
  | Limited (rec sup : bool)                                 (** the budget was checked *)
  | Drained (sup : bool) (st : CoreStats)                    (** the core is stored or discarded *)
  | Failing (rec : bool) (e : error)                         (** the drain failed *)
  | Snapped (sup : bool) (st : CoreStats) (pk : option bytes)
  | Written (sup : bool) (st : CoreStats) (pk mk : option bytes)
  | Done
  | Dead.                                                    (** killed, or it panicked *)

Section storm.
Context {World : Type} `{ObjectStore World} {B : BufWriter World} {Zs : Zstd} {P : ObjectPath}
  {J : JsonText} {T : Snapshot.Tar} {C : RateLimit.StateCodec}.
Context (config : Config.HandlerConfig) (ov : bool).
Implicit Types (s : State World) (w : World).

Definition with_world s w : State World := mkState w (limiter s) (socket s) (summary s).

(** The next stage of [run]. *)
Definition advance (c : Crash) (p : phase) s : phase * State World :=
  let env := c_env c in
  let args := c_args c in
  let pl := plan_of config ov c in
  match p with
  | Started =>
      let '(l, rec, sup) := rate_limit env args config pl (limiter s) in
      (Limited rec sup, mkState (store_world s) l (socket s) (summary s))
  | Limited rec sup =>
      let '(w, drained) := drain env config pl sup (c_core c) (store_world s) in
      (match drained with
       | Panic => Dead
       | Ret (Err e) => Failing rec (b! "draining core stream" :: e)
       | Ret (Ok st) => Drained sup st
       end, with_world s w)
  | Failing rec e => (Done, drain_failed env args config pl rec e s)
  | Drained sup st =>
      let '(w, pk) := upload_snapshot pl (store_world s) in (Snapped sup st pk, with_world s w)
  | Snapped sup st pk =>
      let m := build_manifest env args config pl sup st pk in
      let '(w, mk) := write_manifest pl m (store_world s) in (Written sup st pk mk, with_world s w)
  | Written sup st pk mk =>
      let m := build_manifest env args config pl sup st pk in
      (Done, report env config (success_payload args pl sup st m mk) s)
  | Done | Dead => (p, s)
  end.

(** A handler that runs alone, to its end. *)
Definition alone (c : Crash) s : phase * State World :=
  Nat.iter 5 (λ '(p, s), advance c p s) (Started, s).

(** The handlers by crash, and what they share. *)
Record Sys := mkSys { phases : list phase; shared : State World }.

(** A handler makes a step, or is killed: between two steps, in the limiter's
    critical section (which leaves the file as it may), or in the upload of the core
    (which may leave the core under its key). *)
Inductive step (cs : list Crash) : Sys → Sys → Prop :=
  | advances i c ps p s :
      cs !! i = Some c → ps !! i = Some p →
      step cs (mkSys ps s) (mkSys (<[i := fst (advance c p s)]> ps) (snd (advance c p s)))
  | killed i ps s : step cs (mkSys ps s) (mkSys (<[i := Dead]> ps) s)
  | killed_limiting i ps s l :
      ps !! i = Some Started →
      step cs (mkSys ps s) (mkSys (<[i := Dead]> ps) (mkState (store_world s) l (socket s) (summary s)))
  | killed_draining i c ps rec sup s w :
      cs !! i = Some c → ps !! i = Some (Limited rec sup) →
      (∀ k, (∀ id ks, target (plan_of config ov c) = Some (id, ks) → k ≠ object_path (Keys.core ks)) →
            objects w !! k = objects (store_world s) !! k) →
      step cs (mkSys ps s) (mkSys (<[i := Dead]> ps) (with_world s w)).

Definition init (cs : list Crash) s : Sys := mkSys (replicate (length cs) Started) s.

Context {OL : ObjectStoreLaws World} {BL : BufWriterLaws World} {ZL : ZstdLaws Zs}
  {PL : ObjectPathLaws P} {AP : AtomicPut World}.

(** The stages of one handler alone are [run]; a handler that panics is dead. *)
Lemma alone_is_run c s :
  ∃ r, run (c_env c) (c_args c) config (c_core c) ov s = (snd (alone c s), r)
    ∧ fst (alone c s) = match r with Ret _ => Done | Panic => Dead end.
Proof.
  destruct (run (c_env c) (c_args c) config (c_core c) ov s) as [s' [|r]] eqn:Hrun.
  { exists Panic. unfold alone. cbn [Nat.iter nat_rect]. cbn [advance]. unfold plan_of.
    unfold run in Hrun. cbv zeta in Hrun.
    destruct (rate_limit _ _ _ _ _) as [[l rec] sup]. cbn [advance store_world]. unfold plan_of.
    destruct (drain _ _ _ _ _ _) as [w [|[|]]]; [|done..]. by injection Hrun as <-. }
  apply run_inv in Hrun as (l & rec & sup & w & dr & Hl & Hd & Hr).
  unfold alone. cbn [Nat.iter nat_rect]. cbn [advance]. unfold plan_of. rewrite Hl.
  cbn [advance]. unfold plan_of. cbn [store_world]. rewrite Hd.
  exists (Ret r). destruct dr as [|[st|e]]; [done| |]; destruct Hr as [-> ->]; cbn [advance].
  - unfold finish, plan_of, with_world. cbn [store_world limiter socket summary].
    destruct (upload_snapshot _ w) as [w1 pk]. cbn [advance]. unfold plan_of. cbn [store_world].
    by destruct (write_manifest _ _ w1) as [w2 mk].
  - done.
Qed.

(** ** One handler's facts *)

Abbreviation complete_of c := (complete (c_env c) (c_args c) config (c_core c) ov).

Definition drained_facts (c : Crash) (sup : bool) (st : CoreStats) w : Prop :=
  ∀ id ks, target (plan_of config ov c) = Some (id, ks) →
    (is_Some (sha256 st) ↔ sup = false)
    ∧ (is_Some (sha256 st) → core_stored (c_env c) config (c_core c) (Keys.core ks) st w)
    ∧ outcome_of (plan_of config ov c) sup (bool_decide (is_Some (sha256 st)))
      = if sup then Events.SuppressedRateLimit else Events.Uploaded.

Definition snapped_facts (c : Crash) (pk : option bytes) w : Prop :=
  ∀ id ks, target (plan_of config ov c) = Some (id, ks) → ∀ key, pk = Some key →
    key = Keys.proc_snapshot ks
    ∧ ∃ tar, Snapshot.to_tar (snapshot (plan_of config ov c)) = Some tar
        ∧ objects w !! object_path (Keys.proc_snapshot ks) = Some tar.

(** What a handler has done so far. *)
Definition progress (c : Crash) (p : phase) w : Prop :=
  match p with
  | Drained sup st => drained_facts c sup st w
  | Snapped sup st pk => drained_facts c sup st w ∧ snapped_facts c pk w
  | Written sup st pk mk =>
      let m := build_manifest (c_env c) (c_args c) config (plan_of config ov c) sup st pk in
      complete_of c (success_payload (c_args c) (plan_of config ov c) sup st m mk) w
  | _ => True
  end.

Definition before_manifest (p : phase) : bool :=
  match p with Written _ _ _ _ | Done | Dead => false | _ => true end.

(** The manifest of a crash is as it was in the bucket [w0] or, once it was its turn, over
    a complete capture. *)
Definition committed (c : Crash) (p : phase) (w0 w : World) : Prop :=
  ∀ id ks, target (plan_of config ov c) = Some (id, ks) →
    objects w !! object_path (Keys.manifest ks) = objects w0 !! object_path (Keys.manifest ks)
    ∨ before_manifest p = false
      ∧ ∃ rp, Events.manifest_key rp = Some (Keys.manifest ks) ∧ complete_of c rp w.

(** The crash's three objects are the same in two buckets. *)
Definition same_objects (c : Crash) (w w' : World) : Prop :=
  ∀ id ks a, target (plan_of config ov c) = Some (id, ks) →
    objects w' !! object_path (key_of a ks) = objects w !! object_path (key_of a ks).

Lemma drained_frame c sup st w w' : same_objects c w w' → drained_facts c sup st w → drained_facts c sup st w'.
Proof.
  intros Hf Hd id ks Ht. destruct (Hd id ks Ht) as (Hs & Hc & Ho). split; [done|]. split; [|done].
  intros Hu. destruct (Hc Hu) as (obj & Hobj & Hrest). exists obj. split; [|done].
  pose proof (Hf id ks CoreObj Ht) as E. cbn [key_of] in E. by rewrite E.
Qed.

Lemma snapped_frame c pk w w' : same_objects c w w' → snapped_facts c pk w → snapped_facts c pk w'.
Proof.
  intros Hf Hd id ks Ht key Hk. destruct (Hd id ks Ht key Hk) as (-> & tar & Htar & Hobj). split; [done|].
  exists tar. split; [done|]. pose proof (Hf id ks SnapshotObj Ht) as E. cbn [key_of] in E. by rewrite E.
Qed.

Lemma progress_frame c p w w' : same_objects c w w' → progress c p w → progress c p w'.
Proof.
  intros Hf. destruct p; cbn [progress]; try done.
  - by apply drained_frame.
  - intros [Hd Hs]. split; [by eapply drained_frame|by eapply snapped_frame].
  - by apply complete_frame.
Qed.

Lemma committed_frame c p w0 w w' : same_objects c w w' → committed c p w0 w → committed c p w0 w'.
Proof.
  intros Hf Hc id ks Ht. pose proof (Hf id ks ManifestObj Ht) as E. cbn [key_of] in E. rewrite E.
  destruct (Hc id ks Ht) as [|(Hb & rp & Hk & Hp)]; [by left|right]. split; [done|]. exists rp. split; [done|].
  by eapply complete_frame.
Qed.

(** Once the bucket is as before at the manifest's key, any phase will do. *)
Lemma committed_unwritten c p p' w0 w :
  before_manifest p = true → committed c p w0 w → committed c p' w0 w.
Proof. intros Hb Hc id ks Ht. destruct (Hc id ks Ht) as [|[Hb' _]]; [by left|congruence]. Qed.

Lemma committed_dead c p w0 w : committed c p w0 w → committed c Dead w0 w.
Proof. intros Hc id ks Ht. destruct (Hc id ks Ht) as [|[_ Hr]]; [by left|by right]. Qed.

(** The bucket changes at a key of the crash that is not its manifest's. *)
Lemma committed_other c p w0 w w' a :
  plain_cluster config → before_manifest p = true → a ≠ ManifestObj →
  (∀ k, (∀ id ks, target (plan_of config ov c) = Some (id, ks) → k ≠ object_path (key_of a ks)) →
        objects w' !! k = objects w !! k) →
  committed c p w0 w → committed c p w0 w'.
Proof.
  intros Hcl Hb Ha Hf Hc id ks Ht. left. destruct (Hc id ks Ht) as [<-|[Hb' _]]; [|congruence].
  apply Hf. intros id' ks' Ht'. rewrite Ht in Ht'. injection Ht' as <- <-.
  destruct (target_paths _ _ _ _ _ _ Hcl Ht) as [Hp Hne].
  change (Keys.manifest ks) with (key_of ManifestObj ks). rewrite !Hp. by apply Hne.
Qed.

(** ** The stages *)

Context (Hcl : plain_cluster config) (Hmax : (0 ≤ Config.max_core_bytes config ≤ u64_max)%Z).

Lemma advance_frame c p s k :
  untouched config ov c k →
  objects (store_world (snd (advance c p s))) !! k = objects (store_world s) !! k.
Proof.
  intros Hk. destruct p as [|rec sup|sup st|rec e|sup st pk|sup st pk mk| |]; cbn [advance]; try done.
  - by destruct (rate_limit _ _ _ _ _) as [[l rec] sup].
  - destruct (drain _ _ _ _ _ _) as [w r] eqn:Ed. cbn [snd with_world store_world].
    apply drain_frame in Ed as [_ Hf]. apply Hf. intros id ks _ Ht. by apply (Hk id ks CoreObj).
  - destruct (upload_snapshot _ _) as [w r] eqn:Eu. cbn [snd with_world store_world].
    apply upload_snapshot_spec in Eu as [Hf _]. apply Hf. intros id ks Ht. by apply (Hk id ks SnapshotObj).
  - destruct (write_manifest _ _ _) as [w r] eqn:Em. cbn [snd with_world store_world].
    apply write_manifest_spec in Em as [Hf _]. apply Hf. intros id ks Ht. by apply (Hk id ks ManifestObj).
Qed.

(** The object under the manifest's key after the write, whatever it returned. *)
Lemma write_manifest_atomic pl id ks m w :
  target pl = Some (id, ks) →
  objects (fst (write_manifest pl m w)) !! object_path (Keys.manifest ks)
    = Some (text_to_vec_pretty (Manifest.ser_manifest m))
  ∨ objects (fst (write_manifest pl m w)) !! object_path (Keys.manifest ks)
    = objects w !! object_path (Keys.manifest ks).
Proof.
  intros Ht. unfold write_manifest. rewrite Ht. set (v := text_to_vec_pretty _). unfold put_object.
  destruct (put w _ v) as [w1 [[]|e]] eqn:E; cbn [fst]; by apply put_atomic in E.
Qed.

(** A capture is complete once its manifest is in the bucket. *)
Lemma written_complete c sup st pk mk id ks w w' :
  let m := build_manifest (c_env c) (c_args c) config (plan_of config ov c) sup st pk in
  target (plan_of config ov c) = Some (id, ks) → drained_facts c sup st w → snapped_facts c pk w →
  (∀ a, a ≠ ManifestObj → objects w' !! object_path (key_of a ks) = objects w !! object_path (key_of a ks)) →
  objects w' !! object_path (Keys.manifest ks) = Some (text_to_vec_pretty (Manifest.ser_manifest m)) →
  (∀ k, mk = Some k → k = Keys.manifest ks) →
  complete_of c (success_payload (c_args c) (plan_of config ov c) sup st m mk) w'.
Proof.
  intros m Ht Hd Hs Hf Hobj Hmk. destruct (Hd id ks Ht) as (Hsup & Hcore & Hout).
  pose proof (Hf CoreObj ltac:(done)) as Ec. pose proof (Hf SnapshotObj ltac:(done)) as Es. cbn [key_of] in Ec, Es.
  eapply (complete_intro _ _ _ _ _ sup st pk id ks); [exact Ht|exact Hsup| | |exact Hobj|exact Hout|exact Hmk].
  - intros Hu. destruct (Hcore Hu) as (obj & Ho & Hrest). exists obj. by rewrite Ec.
  - intros key Hk. destruct (Hs id ks Ht key Hk) as (-> & tar & Htar & Ho). split; [done|].
    exists tar. by rewrite Es.
Qed.

Definition local (c : Crash) (p : phase) (w0 w : World) : Prop := committed c p w0 w ∧ progress c p w.

Lemma drain_local c rec sup w0 s :
  deliverable config c → local c (Limited rec sup) w0 (store_world s) →
  local c (fst (advance c (Limited rec sup) s)) w0 (store_world (snd (advance c (Limited rec sup) s))).
Proof.
  intros Hdel [Hc _]. cbn [advance]. destruct (drain _ _ _ _ _ _) as [w dr] eqn:Ed. cbn [snd fst with_world store_world].
  pose proof (drain_frame _ _ _ _ _ _ _ _ Ed) as [_ Hf].
  assert (committed c (Limited rec sup) w0 w) as Hc'.
  { eapply (committed_other c _ w0 (store_world s) w CoreObj); [done..| |done].
    intros k Hk. apply Hf. intros id ks _ Ht. by apply (Hk id ks). }
  destruct dr as [|[st|e]]; (split; [by apply (committed_unwritten c (Limited rec sup))|]);
    cbn [progress]; [done| |done].
  intros id ks Ht. split; [by eapply drain_digest|].
  split; [|exact (target_outcome _ _ _ _ id ks _ sup st _ _ Ht Ed)].
  intros Hu. destruct (drain_ok _ _ _ _ _ _ _ _ Hmax Hdel Ed) as [[Hn _]|(_ & id' & ks' & Ht' & Hst)].
  - rewrite Hn in Hu. by destruct Hu.
  - rewrite Ht in Ht'. by injection Ht' as <- <-.
Qed.

Lemma snapshot_local c sup st w0 s :
  local c (Drained sup st) w0 (store_world s) →
  local c (fst (advance c (Drained sup st) s)) w0 (store_world (snd (advance c (Drained sup st) s))).
Proof.
  intros [Hc Hd]. cbn [advance progress] in *. destruct (upload_snapshot _ _) as [w pk] eqn:Eu.
  cbn [snd fst with_world store_world]. apply upload_snapshot_spec in Eu as [Hf Hk].
  split; [|split].
  - apply (committed_unwritten c (Drained sup st)); [done|].
    by eapply (committed_other c _ w0 (store_world s) w SnapshotObj).
  - intros id ks Ht. destruct (Hd id ks Ht) as (Hs & Hcore & Ho). split; [done|]. split; [|done].
    intros Hu. destruct (Hcore Hu) as (obj & Hobj & Hrest). exists obj. split; [|done]. rewrite <- Hobj.
    apply Hf. intros id' ks' Ht'. rewrite Ht in Ht'. injection Ht' as <- <-.
    destruct (target_paths _ _ _ _ _ _ Hcl Ht) as [Hp Hne].
    change (object_path (key_of CoreObj ks) ≠ object_path (key_of SnapshotObj ks)). rewrite !Hp. by apply Hne.
  - intros id ks Ht key Hkey. destruct (Hk key Hkey) as (id' & ks' & tar & Ht' & -> & Htar & Hobj).
    rewrite Ht in Ht'. injection Ht' as <- <-. split; [done|]. by exists tar.
Qed.

Lemma manifest_local c sup st pk w0 s :
  local c (Snapped sup st pk) w0 (store_world s) →
  local c (fst (advance c (Snapped sup st pk) s)) w0 (store_world (snd (advance c (Snapped sup st pk) s))).
Proof.
  intros [Hc [Hd Hs]]. cbn [advance].
  set (m := build_manifest _ _ _ _ sup st pk). destruct (write_manifest _ m _) as [w mk] eqn:Em.
  cbn [snd fst with_world store_world]. pose proof (write_manifest_spec _ _ _ _ _ Em) as [Hf Hk].
  assert (∀ id ks, target (plan_of config ov c) = Some (id, ks) → ∀ a, a ≠ ManifestObj →
    objects w !! object_path (key_of a ks) = objects (store_world s) !! object_path (key_of a ks)) as Hother.
  { intros id ks Ht a Ha. apply Hf. intros id' ks' Ht'. rewrite Ht in Ht'. injection Ht' as <- <-.
    destruct (target_paths _ _ _ _ _ _ Hcl Ht) as [Hp Hne].
    change (object_path (key_of a ks) ≠ object_path (key_of ManifestObj ks)). rewrite !Hp. by apply Hne. }
  split.
  - intros id ks Ht. pose proof (write_manifest_atomic _ id ks m (store_world s) Ht) as Ha. rewrite Em in Ha. cbn [fst] in Ha.
    destruct Ha as [Ha|Ha].
    + right. split; [done|]. eexists. split; [|eapply (written_complete c sup st pk (Some (Keys.manifest ks)));
        [exact Ht|exact Hd|exact Hs|by eapply Hother|exact Ha|by intros k [= <-]]]. done.
    + left. rewrite Ha. destruct (Hc id ks Ht) as [|[Hb _]]; [done|discriminate Hb].
  - cbn [progress]. destruct mk as [key|]; [|by intros mkey].
    destruct (Hk key eq_refl) as (id & ks & Ht & -> & Hobj).
    eapply written_complete; [exact Ht|exact Hd|exact Hs|by eapply Hother|exact Hobj|by intros k [= <-]].
Qed.

Lemma advance_local c p w0 s :
  deliverable config c → local c p w0 (store_world s) →
  local c (fst (advance c p s)) w0 (store_world (snd (advance c p s))).
Proof.
  intros Hdel Hloc. destruct p as [|rec sup|sup st|rec e|sup st pk|sup st pk mk| |].
  - destruct Hloc as [Hc _]. cbn [advance]. destruct (rate_limit _ _ _ _ _) as [[l rec] sup].
    split; [by apply (committed_unwritten c Started)|done].
  - by apply drain_local.
  - by apply snapshot_local.
  - destruct Hloc as [Hc _]. split; [by apply (committed_unwritten c (Failing rec e))|done].
  - by apply manifest_local.
  - destruct Hloc as [Hc _]. split; [exact Hc|done].
  - exact Hloc.
  - exact Hloc.
Qed.

(** What a stage reports. *)
Lemma advance_reports c p w0 s :
  local c p w0 (store_world s) →
  summary (snd (advance c p s)) = summary s
  ∨ ∃ rp, summary (snd (advance c p s)) = summary s ++ [rp] ∧ fst (advance c p s) = Done
      ∧ complete_of c rp (store_world (snd (advance c p s))).
Proof.
  intros [_ Hp]. destruct p as [|rec sup|sup st|rec e|sup st pk|sup st pk mk| |]; cbn [advance progress] in *.
  - left. by destruct (rate_limit _ _ _ _ _) as [[l rec] sup].
  - left. by destruct (drain _ _ _ _ _ _).
  - left. by destruct (upload_snapshot _ _).
  - right. eexists. split; [done|]. split; [done|]. by intros mkey.
  - left. by destruct (write_manifest _ _ _).
  - right. eexists. split; [done|]. split; [done|]. exact Hp.
  - by left.
  - by left.
Qed.

(** ** All handlers *)

Definition finished (p : phase) : Prop := p = Done ∨ p = Dead.

(** A report is of a finished handler's capture, which is complete. *)
Definition reported (cs : list Crash) (ps : list phase) (w : World) (rp : Events.CaptureEventPayload) : Prop :=
  ∃ i c p, cs !! i = Some c ∧ ps !! i = Some p ∧ finished p ∧ complete_of c rp w.

Definition inv (cs : list Crash) (s0 : State World) (y : Sys) : Prop :=
  let w := store_world (shared y) in
  length (phases y) = length cs
  ∧ (∀ i c p, cs !! i = Some c → phases y !! i = Some p → local c p (store_world s0) w)
  ∧ ∃ rs, summary (shared y) = summary s0 ++ rs ∧ Forall (reported cs (phases y) w) rs.

Lemma other_same_objects cs i j c c' w w' :
  NoDup (crash_id config ov <$> cs) → i ≠ j → cs !! i = Some c → cs !! j = Some c' →
  (∀ k, untouched config ov c' k → objects w' !! k = objects w !! k) → same_objects c w w'.
Proof.
  intros Hnd Hij Hi Hj Hf id ks a Ht. apply Hf. apply (other_crash_untouched config ov c c' id ks a Hcl); [|exact Ht].
  intros E. apply Hij. eapply (NoDup_lookup _ i j (crash_id config ov c) Hnd); rewrite list_lookup_fmap;
    [by rewrite Hi|by rewrite Hj, E].
Qed.

(** A step of handler [j] that only touches its own objects keeps the invariant. *)
Lemma inv_update cs s0 ps s j c p p' s' :
  NoDup (crash_id config ov <$> cs) → cs !! j = Some c → ps !! j = Some p →
  (∀ k, untouched config ov c k → objects (store_world s') !! k = objects (store_world s) !! k) →
  (finished p → finished p' ∧ store_world s' = store_world s) →
  local c p' (store_world s0) (store_world s') →
  (summary s' = summary s
   ∨ ∃ rp, summary s' = summary s ++ [rp] ∧ p' = Done ∧ complete_of c rp (store_world s')) →
  inv cs s0 (mkSys ps s) → inv cs s0 (mkSys (<[j := p']> ps) s').
Proof.
  intros Hnd Hj Hp Hf Hfin Hloc Hsum (Hlen & Hall & rs & Hrs & Hrep). cbn [phases shared] in *.
  assert (j < length ps) as Hlt by by eapply lookup_lt_Some.
  assert (Forall (reported cs (<[j := p']> ps) (store_world s')) rs) as Hrep'.
  { eapply Forall_impl; [exact Hrep|]. intros rp (i & ci & pi & Hi & Hpi & Hfi & Hc).
    destruct (decide (i = j)) as [->|Hij].
    - rewrite Hj in Hi. rewrite Hp in Hpi. injection Hi as <-. injection Hpi as <-.
      destruct (Hfin Hfi) as [Hf' ->]. exists j, c, p'. by rewrite list_lookup_insert_eq.
    - exists i, ci, pi. rewrite list_lookup_insert_ne by done. split_and!; [done..|].
      eapply complete_frame; [|exact Hc]. exact (other_same_objects cs i j ci c _ _ Hnd Hij Hi Hj Hf). }
  split; [cbn [phases]; by rewrite length_insert|]. split.
  - intros i ci pi Hi. cbn [phases shared]. destruct (decide (i = j)) as [->|Hij].
    + rewrite Hj in Hi. injection Hi as <-. rewrite list_lookup_insert_eq by done. by intros [= <-].
    + rewrite list_lookup_insert_ne by done. intros Hpi. destruct (Hall i ci pi Hi Hpi) as [Hc Hpr].
      pose proof (other_same_objects cs i j ci c _ _ Hnd Hij Hi Hj Hf) as Hsame.
      split; [by eapply committed_frame|by eapply progress_frame].
  - cbn [phases shared]. destruct Hsum as [-> | (rp & -> & -> & Hc)]; [by exists rs|].
    exists (rs ++ [rp]). split; [by rewrite Hrs, app_assoc|]. apply Forall_app. split; [done|].
    constructor; [|constructor]. exists j, c, Done. split; [done|]. rewrite list_lookup_insert_eq by done.
    split; [done|]. split; [by left|done].
Qed.

Lemma dead_local c p w0 w : local c p w0 w → local c Dead w0 w.
Proof. intros [Hc _]. split; [by eapply committed_dead|done]. Qed.

Lemma storm_step_inv cs s0 y y' :
  NoDup (crash_id config ov <$> cs) → Forall (deliverable config) cs →
  step cs y y' → inv cs s0 y → inv cs s0 y'.
Proof.
  intros Hnd Hdel Hst Hi. pose proof Hi as (Hlen & Hall & _).
  destruct Hst as [j c ps p s Hc Hp|j ps s|j ps s l Hp|j c ps rec sup s w Hc Hp Hf]; cbn [phases shared] in *.
  - pose proof (Hall j c p Hc Hp) as Hloc.
    eapply inv_update; [done|exact Hc|exact Hp|..|exact Hi].
    + intros k Hk. by apply advance_frame.
    + by intros [-> | ->]; (split; [|done]); [left|right].
    + apply advance_local; [by eapply (proj1 (Forall_lookup _ _) Hdel)|exact Hloc].
    + by eapply advance_reports.
  - destruct (ps !! j) as [p|] eqn:Hp; [|by rewrite list_insert_ge by by apply lookup_ge_None].
    destruct (lookup_lt_is_Some_2 cs j) as [c Hc]; [rewrite <- Hlen; by eapply lookup_lt_Some|].
    eapply inv_update; [done|exact Hc|exact Hp|done| |by eapply dead_local, Hall|by left|exact Hi].
    intros _. split; [by right|done].
  - destruct (lookup_lt_is_Some_2 cs j) as [c Hc]; [rewrite <- Hlen; by eapply lookup_lt_Some|].
    eapply inv_update; [done|exact Hc|exact Hp|done| |by eapply dead_local, Hall|by left|exact Hi].
    intros _. split; [by right|done].
  - pose proof (Hall j c _ Hc Hp) as [Hcom _].
    eapply inv_update; [done|exact Hc|exact Hp|..|exact Hi].
    + intros k Hk. apply Hf. intros id ks Ht. by apply (Hk id ks CoreObj).
    + by intros [|].
    + split; [|done]. apply (committed_dead c (Limited rec sup)).
      by apply (committed_other c _ _ (store_world s) w CoreObj).
    + by left.
Qed.

Lemma storm_init_inv cs s0 : inv cs s0 (init cs s0).
Proof.
  split; [apply length_replicate|]. split; [|exists []; by rewrite app_nil_r].
  intros i c p _ [-> _]%lookup_replicate. split; [|done]. intros id ks _. by left.
Qed.

Lemma reachable_inv cs s0 y :
  NoDup (crash_id config ov <$> cs) → Forall (deliverable config) cs →
  rtc (step cs) (init cs s0) y → inv cs s0 y.
Proof.
  intros Hnd Hdel. revert y. apply rtc_ind_r; [apply storm_init_inv|]. intros y y' _ Hst Hi. by eapply storm_step_inv.
Qed.

End storm.

(** ** Properties *)

(** C4: the manifest is a commit record, in every crash storm: however the handlers of
    different crashes interleave, whatever store operations fail and wherever
    handlers are killed, in every configuration that is reached the bucket holds
    for each crash no manifest of it (or whatever was there before) or one whose core and snapshot
    are complete, and every report that names a manifest is of such a capture. *)
Theorem manifest_is_commit_record {World} `{ObjectStore World} {OL : ObjectStoreLaws World}
    {B : BufWriter World} {BL : BufWriterLaws World} {Zs : Zstd} {ZL : ZstdLaws Zs}
    {P : ObjectPath} {PL : ObjectPathLaws P} {AP : AtomicPut World} {J : JsonText} {T : Snapshot.Tar}
    {C : RateLimit.StateCodec} config ov cs (s0 : State World) y :
  plain_cluster config → (0 ≤ Config.max_core_bytes config ≤ u64_max)%Z →
  Forall (deliverable config) cs → NoDup (crash_id config ov <$> cs) →
  rtc (step config ov cs) (init cs s0) y →
  let w := store_world (shared y) in
  (∀ c id ks, c ∈ cs → target (plan_of config ov c) = Some (id, ks) →
     objects w !! object_path (Keys.manifest ks)
       = objects (store_world s0) !! object_path (Keys.manifest ks)
     ∨ ∃ rp, Events.manifest_key rp = Some (Keys.manifest ks)
         ∧ complete (c_env c) (c_args c) config (c_core c) ov rp w)
  ∧ ∃ rs, summary (shared y) = summary s0 ++ rs
      ∧ Forall (λ rp, ∃ c, c ∈ cs ∧ complete (c_env c) (c_args c) config (c_core c) ov rp w) rs.
Proof.
  intros Hcl Hmax Hdel Hnd Hy w.
  destruct (reachable_inv config ov Hcl Hmax cs s0 y Hnd Hdel Hy) as (Hlen & Hall & rs & Hrs & Hrep). split.
  - intros c id ks Hc Ht. apply list_elem_of_lookup in Hc as [i Hi].
    destruct (lookup_lt_is_Some_2 (phases y) i) as [p Hp]; [rewrite Hlen; by eapply lookup_lt_Some|].
    destruct (Hall i c p Hi Hp) as [Hcom _]. destruct (Hcom id ks Ht) as [|[_ Hr]]; [by left|by right].
  - exists rs. split; [done|]. eapply Forall_impl; [exact Hrep|].
    intros rp (i & c & p & Hi & _ & _ & Hc). exists c. split; [by eapply list_elem_of_lookup_2|done].
Qed.

(** Two crashes of the sample container; the second handler stops before its manifest. *)
Definition storm_crashes : list Crash :=
  [sample_crash 1749600000 (b! "one"); sample_crash 1749600001 (b! "two")].
Abbreviation sample_advance :=
  (advance (J := token_text) (T := Snapshot.MemTar.mem_tar) (C := RateLimit.decimal_codec)
    Config.sample_config false).

(** What a schedule of handlers does; a killed handler is one the schedule leaves. *)
Definition exec (sched : list nat) : Sys (World := Mem.store) :=
  foldl (λ y i, match storm_crashes !! i, phases y !! i with
                | Some c, Some p => mkSys (<[i := fst (sample_advance c p (shared y))]> (phases y))
                                      (snd (sample_advance c p (shared y)))
                | _, _ => y
                end)
    (init storm_crashes sample_state) sched.

Lemma exec_reached sched :
  rtc (step (J := token_text) (T := Snapshot.MemTar.mem_tar) (C := RateLimit.decimal_codec)
        Config.sample_config false storm_crashes) (init storm_crashes sample_state) (exec sched).
Proof.
  unfold exec. generalize (init (World := Mem.store) storm_crashes sample_state).
  induction sched as [|i sched IH]; intros y; cbn [foldl]; [done|].
  etrans; [|apply IH].
  destruct (storm_crashes !! i) as [c|] eqn:Hc; [|done].
  destruct (phases y !! i) as [p|] eqn:Hp; [|done].
  apply rtc_once. destruct y as [ps s]. cbn [phases shared] in *. by apply advances.
Qed.

Definition storm_end : Sys := exec [0; 1; 0; 1; 0; 0; 1; 0].

Example storm_end_phases :
  (λ p, match p with Done => 2 | Snapped _ _ _ => 1 | _ => 0 end) <$> phases storm_end = [2; 1].
Proof. vm_compute. reflexivity. Qed.

Lemma manifest_is_commit_record_witness :
  ∃ rs, summary (shared storm_end) = rs
    ∧ Forall (λ rp, ∃ c, c ∈ storm_crashes ∧ complete (J := token_text) (T := Snapshot.MemTar.mem_tar)
        (c_env c) (c_args c) Config.sample_config (c_core c) false rp (store_world (shared storm_end))) rs.
Proof.
  destruct (manifest_is_commit_record (J := token_text) (T := Snapshot.MemTar.mem_tar)
    (C := RateLimit.decimal_codec) Config.sample_config false storm_crashes sample_state storm_end)
    as [_ (rs & Hsum & Hrs)].
  - reflexivity.
  - done.
  - by repeat (apply Forall_cons_2 || apply Forall_nil_2).
  - apply (NoDup_fmap_1 (λ x, (x.1.2, x.2))), (bool_decide_eq_true_1 _). vm_compute. reflexivity.
  - apply exec_reached.
  - exists rs. split; [exact Hsum|exact Hrs].
Defined.

(** One handler that is not disturbed does what [run] does: the stages are those of the
    handler, in its order. *)
Theorem stages_are_run {World} `{ObjectStore World} {OL : ObjectStoreLaws World}
    {B : BufWriter World} {BL : BufWriterLaws World} {Zs : Zstd} {ZL : ZstdLaws Zs}
    {P : ObjectPath} {J : JsonText} {T : Snapshot.Tar} {C : RateLimit.StateCodec}
    config ov c (s : State World) :
  ∃ r, run (c_env c) (c_args c) config (c_core c) ov s = (snd (alone config ov c s), r)
    ∧ fst (alone config ov c s) = match r with Ret _ => Done | Panic => Dead end.
Proof. exact (alone_is_run config ov c s). Qed.

End Storm.
