(* ===== verification/CorePattern.v ===== *)
(** * [src/core_pattern.rs] and [src/health.rs]: routing cores to the handler

    Saving, installing and restoring the kernel's [core_pattern] and
    [core_pipe_limit], and the probe that checks the capture path. *)

From S2P Require Import Prelude RustStr Json Upload Config.

Module CorePattern.

Definition DEFAULT_PIPE_LIMIT : Z := 128.
Definition CORE_PATTERN_PATH : bytes := b! "/proc/sys/kernel/core_pattern".
Definition CORE_PIPE_LIMIT_PATH : bytes := b! "/proc/sys/kernel/core_pipe_limit".
Definition KERNEL_DEFAULT_PATTERN : bytes := b! "core".

(** [Path::display] is lossy on a path that is not UTF-8. *)
Definition build_pattern (handler_path : bytes) : bytes :=
  b! "|" ++ to_string_lossy handler_path ++ b! " capture %P %s %t %E".

(** A sysctl file: its path, its contents when it can be read, and whether it can be
    written. *)
Record Sysctl := mkSysctl { s_path : bytes; value : option bytes; writable : bool }.
Record Kernel := mkKernel { pattern : Sysctl; pipe_limit : Sysctl }.

Definition sysctl_read (s : Sysctl) : option bytes := value s ≫= from_utf8.
Definition sysctl_write (v : bytes) (s : Sysctl) : option Sysctl :=
  if writable s then Some (mkSysctl (s_path s) (Some v) true) else None.

(** The guard: the values to restore; the paths it keeps are those of the [Kernel]. *)
Record CorePatternGuard := mkGuard { prev_pattern : bytes; prev_pipe_limit : bytes }.

Definition install_at (handler_path : bytes) (limit : Z) (k : Kernel)
    : Kernel * result CorePatternGuard (list bytes) :=
  match sysctl_read (pattern k) with
  | None => (k, Err [b! "reading " ++ s_path (pattern k)])
  | Some prev_pattern =>
      let prev_pattern := if bool_decide (trim_end prev_pattern = build_pattern handler_path)
                          then KERNEL_DEFAULT_PATTERN else prev_pattern in
      let prev_pipe_limit := default [] (sysctl_read (pipe_limit k)) in
      match sysctl_write (build_pattern handler_path) (pattern k) with
      | None => (k, Err [b! "writing " ++ s_path (pattern k)])
      | Some p =>
          let l := default (pipe_limit k) (sysctl_write (to_string limit) (pipe_limit k)) in
          (mkKernel p l, Ok (mkGuard prev_pattern prev_pipe_limit))
      end
  end.

Definition restore (g : CorePatternGuard) (k : Kernel) : Kernel :=
  mkKernel (default (pattern k) (sysctl_write (prev_pattern g) (pattern k)))
    (if bool_decide (prev_pipe_limit g = []) then pipe_limit k
     else default (pipe_limit k) (sysctl_write (prev_pipe_limit g) (pipe_limit k))).

(** A daemon that is killed leaves its pattern; one that stops drops its guard. *)
Inductive daemon_end := Killed | Stopped.
Definition daemon_life (handler_path : bytes) (limit : Z) (e : daemon_end) (k : Kernel) : Kernel :=
  match install_at handler_path limit k with
  | (k, Err _) => k
  | (k, Ok g) => match e with Killed => k | Stopped => restore g k end
  end.
Definition daemon_lives (handler_path : bytes) (limit : Z) (es : list daemon_end) (k : Kernel) : Kernel :=
  foldl (λ k e, daemon_life handler_path limit e k) k es.

(** ** Lemmas *)

Lemma install_ok h limit prev k :
  value (pattern k) = Some prev → is_utf8 prev = true → writable (pattern k) = true →
  install_at h limit k =
  (mkKernel (mkSysctl (s_path (pattern k)) (Some (build_pattern h)) true)
     (default (pipe_limit k) (sysctl_write (to_string limit) (pipe_limit k))),
   Ok (mkGuard (if bool_decide (trim_end prev = build_pattern h) then KERNEL_DEFAULT_PATTERN
                else prev)
         (default [] (sysctl_read (pipe_limit k))))).
Proof.
  intros Hv Hu Hw. unfold install_at, sysctl_read, sysctl_write. rewrite Hv. cbn [mbind option_bind].
  unfold from_utf8. rewrite Hu, Hw. done.
Qed.

Lemma build_pattern_utf8 h : is_utf8 (build_pattern h) = true.
Proof. unfold build_pattern. by repeat apply is_utf8_app; [|apply is_utf8_lossy|]. Qed.

(** The pattern ends in [%E], so there is nothing to trim. *)
Lemma trim_build_pattern h : trim_end (build_pattern h) = build_pattern h.
Proof.
  apply (trim_end_last _ "E"%byte); [|by vm_compute].
  unfold build_pattern. rewrite app_assoc, last_app. reflexivity.
Qed.

Lemma default_not_ours h : trim_end KERNEL_DEFAULT_PATTERN ≠ build_pattern h.
Proof. intros H. change (trim_end KERNEL_DEFAULT_PATTERN) with (b! "core") in H. done. Qed.

(** ** [health::check] *)

Section health.
Context {Url : Type} (url_parse : bytes → option Url) (scheme_parse : Url → option Upload.Scheme)
  {J : Json.JsonText}.
(** [Path::exists] *)
Context (exists_ : bytes → bool).

Definition check (handler_path config_path core_pattern_path : bytes) (k : Kernel)
    (fs : Config.ConfigFs) : result unit (list bytes) :=
  match sysctl_read (pattern k) with
  | None => Err [b! "reading " ++ core_pattern_path]
  | Some current =>
      let expected := build_pattern handler_path in
      if decide (trim_end current ≠ expected)
      then Err [b! "core_pattern is " ++ trim_end current ++ b! ", expected " ++ expected]
      else
        match Config.read url_parse scheme_parse fs with
        | None => Err [b! "handler config " ++ config_path ++ b! " is missing or invalid"]
        | Some config =>
            match Config.event_socket_path config with
            | Some socket =>
                if exists_ socket then Ok tt
                else Err [b! "capture event socket " ++ socket ++ b! " is not bound"]
            | None => Ok tt
            end
        end
  end.
End health.

(** ** Properties *)

(** An installation that succeeded read the pattern it replaced. *)
Lemma install_inv h limit k k' g :
  install_at h limit k = (k', Ok g) →
  (∃ prev, value (pattern k) = Some prev ∧ is_utf8 prev = true ∧ writable (pattern k) = true)
  ∧ sysctl_read (pattern k') = Some (build_pattern h).
Proof.
  intros Hi. assert (∃ prev, value (pattern k) = Some prev ∧ is_utf8 prev = true
    ∧ writable (pattern k) = true) as (prev & Hv & Hu & Hw).
  { unfold install_at, sysctl_read, sysctl_write in Hi. destruct (value (pattern k)) as [v|]; [|done].
    cbn [mbind option_bind] in Hi. unfold from_utf8 in Hi. destruct (is_utf8 v) eqn:Hu; [|done].
    destruct (writable (pattern k)); [|done]. eauto. }
  split; [eauto|]. rewrite (install_ok h limit prev k Hv Hu Hw) in Hi. injection Hi as <- _.
  unfold sysctl_read. cbn [pattern value mbind option_bind]. unfold from_utf8.
  by rewrite build_pattern_utf8.
Qed.

(** What dropping the guard of an installation leaves. *)
Definition restored (h : bytes) (prev : bytes) : bytes :=
  if bool_decide (trim_end prev = build_pattern h) then KERNEL_DEFAULT_PATTERN else prev.

Lemma restore_spec h limit k k' g prev :
  install_at h limit k = (k', Ok g) → value (pattern k) = Some prev →
  restore g k'
  = mkKernel (mkSysctl (s_path (pattern k)) (Some (restored h prev)) true)
      (match sysctl_read (pipe_limit k) with Some (_ :: _) => pipe_limit k | _ => pipe_limit k' end).
Proof.
  intros Hi Hv. destruct (install_inv _ _ _ _ _ Hi) as [(prev' & Hv' & Hu & Hw) _].
  rewrite Hv in Hv'. injection Hv' as <-. rewrite (install_ok h limit prev k Hv Hu Hw) in Hi.
  injection Hi as <- <-. unfold restore, restored. cbn [prev_pattern prev_pipe_limit pattern pipe_limit].
  f_equal. unfold sysctl_read. destruct k as [kp [lp [lv|] lw]]; cbn; [|done].
  unfold from_utf8. destruct (is_utf8 lv); [|done]. destruct lv as [|c lv]; [done|].
  cbn [default from_option]. rewrite bool_decide_false by done. by destruct lw.
Qed.

(** However many daemons were killed before, a stopping daemon leaves a pattern
    that is not its own. *)
Lemma stopped_not_ours h limit k prev :
  value (pattern k) = Some prev → is_utf8 prev = true → writable (pattern k) = true →
  ∃ v, pattern (daemon_life h limit Stopped k) = mkSysctl (s_path (pattern k)) (Some v) true
       ∧ is_utf8 v = true ∧ trim_end v ≠ build_pattern h.
Proof.
  intros Hv Hu Hw. unfold daemon_life. rewrite (install_ok h limit prev k Hv Hu Hw).
  unfold restore. cbn [prev_pattern pattern sysctl_write writable default from_option].
  eexists. split; [done|]. case_bool_decide; [|done]. split; [done|apply default_not_ours].
Qed.

Lemma daemon_life_readable h limit e k prev :
  value (pattern k) = Some prev → is_utf8 prev = true → writable (pattern k) = true →
  ∃ v, pattern (daemon_life h limit e k) = mkSysctl (s_path (pattern k)) (Some v) true ∧ is_utf8 v = true.
Proof.
  intros Hv Hu Hw. destruct e.
  - unfold daemon_life. rewrite (install_ok h limit prev k Hv Hu Hw). cbn [pattern].
    eauto using build_pattern_utf8.
  - destruct (stopped_not_ours h limit k prev Hv Hu Hw) as (v & ? & ? & _). eauto.
Qed.

Lemma daemon_lives_readable h limit es k prev :
  value (pattern k) = Some prev → is_utf8 prev = true → writable (pattern k) = true →
  ∃ v, value (pattern (daemon_lives h limit es k)) = Some v ∧ is_utf8 v = true
       ∧ writable (pattern (daemon_lives h limit es k)) = true.
Proof.
  revert k prev. induction es as [|e es IH]; intros k prev Hv Hu Hw; cbn; [eauto|].
  destruct (daemon_life_readable h limit e k prev Hv Hu Hw) as (v & Hp & Hu').
  apply (IH _ v); rewrite ?Hp; done.
Qed.

(** C39: the node is never left pointing at a handler that is gone: whatever number of
    daemons were killed or stopped before, the pattern a stopping daemon
    leaves is not the handler's. *)
Theorem stop_never_leaves_handler h limit es k prev :
  value (pattern k) = Some prev → is_utf8 prev = true → writable (pattern k) = true →
  ∃ v, value (pattern (daemon_lives h limit (es ++ [Stopped]) k)) = Some v
       ∧ trim_end v ≠ build_pattern h.
Proof.
  intros Hv Hu Hw. unfold daemon_lives. rewrite foldl_app. cbn [foldl].
  destruct (daemon_lives_readable h limit es k prev Hv Hu Hw) as (v & Hv' & Hu' & Hw').
  destruct (stopped_not_ours h limit _ v Hv' Hu' Hw') as (v' & Hp & _ & Hne).
  exists v'. split; [|done]. unfold daemon_lives in Hp. by rewrite Hp.
Qed.

Lemma stop_never_leaves_handler_witness :
  ∃ v, value (pattern (daemon_lives (b! "/opt/coredrop/bin/coredrop") 128 [Killed; Killed; Stopped]
         (mkKernel (mkSysctl CORE_PATTERN_PATH (Some (b! "core")) true) (mkSysctl CORE_PIPE_LIMIT_PATH None false)))) = Some v
       ∧ trim_end v ≠ build_pattern (b! "/opt/coredrop/bin/coredrop").
Proof.
  apply (stop_never_leaves_handler _ _ [Killed; Killed] _ (b! "core")); try done.
Defined.

End CorePattern.
