(* ===== verification/K8sEvents.v ===== *)
(** * [src/k8s_events.rs]: the daemon's event listener

    Binding the socket, parsing and logging datagrams, aggregating repeats, and
    the requests sent to the API server. The HTTP client, URL type and clock
    formatting are parameters. *)

From S2P Require Import Prelude RustStr Cgroup Json Events.
Import Json.

Module K8sEvents.

Definition SERVICE_ACCOUNT_DIR : bytes := b! "/var/run/secrets/kubernetes.io/serviceaccount".
(** In seconds. *)
Definition AGGREGATION_TTL : Z := 3600.
Definition EVENT_SOCKET_MODE : Z := 384.
Definition MAX_AGGREGATION_KEYS : nat := Z.to_nat 10000.
Definition MAX_NAMESPACE_LEN : nat := 63.

(** ** [bind_socket] *)

(** What is at the socket path: a socket with its mode, another file, or a directory. *)
Inductive sock_node := Sock (mode : Z) | OtherFile | Dir.
Record SockFs := mkSockFs { sock_dir_mode : option Z; at_sock : option sock_node }.
Inductive bind_step := BEnsureDir | BDirMode | BRemove | BBind | BNonBlocking | BChmod | BFromStd.

Definition bind_socket (fault : bind_step → bool) (umask_mode : Z) (path : bytes) (fs : SockFs)
    : SockFs * result unit bind_step :=
  let bind fs :=
    let removed := match at_sock fs with
                   | Some Dir => fs
                   | _ => if fault BRemove then fs else mkSockFs (sock_dir_mode fs) None
                   end in
    match at_sock removed, fault BBind with
    | None, false =>
        let bound := mkSockFs (sock_dir_mode removed) (Some (Sock umask_mode)) in
        if fault BNonBlocking then (bound, Err BNonBlocking)
        else if fault BChmod then (bound, Err BChmod)
        else let private := mkSockFs (sock_dir_mode removed) (Some (Sock EVENT_SOCKET_MODE)) in
             if fault BFromStd then (private, Err BFromStd) else (private, Ok tt)
    | _, _ => (removed, Err BBind)
    end in
  match path_parent path with
  | None => bind fs
  | Some _ =>
      let '(dir, made) := ensure_private_dir (fault BEnsureDir)
                            (if fault BDirMode then Some umask_mode else None) (sock_dir_mode fs) in
      let fs := mkSockFs dir (at_sock fs) in
      match made with Err _ => (fs, Err BEnsureDir) | Ok _ => bind fs end
  end.

(** ** [Reason] *)

Inductive Reason := CoreDumped | CoreDumpSuppressed | CoreDiscardedNoStore.
#[global] Instance Reason_eq_dec : EqDecision Reason.
Proof. solve_decision. Defined.

Definition from_outcome (o : Events.Outcome) : option Reason :=
  match o with
  | Events.Uploaded => Some CoreDumped
  | Events.SuppressedRateLimit => Some CoreDumpSuppressed
  | Events.NoStoreDiscard => Some CoreDiscardedNoStore
  | Events.SkippedNonK8s | Events.Failed => None
  end.
Definition reason_str (r : Reason) : bytes :=
  match r with
  | CoreDumped => b! "CoreDumped"
  | CoreDumpSuppressed => b! "CoreDumpSuppressed"
  | CoreDiscardedNoStore => b! "CoreDiscardedNoStore"
  end.
Definition slug (r : Reason) : bytes :=
  match r with
  | CoreDumped => b! "coredumped"
  | CoreDumpSuppressed => b! "coredumpsuppressed"
  | CoreDiscardedNoStore => b! "corediscardednostore"
  end.

(** ** [Aggregator] *)

Record AggKey := mkKey { k_namespace : bytes; k_pod_uid : bytes; k_reason : Reason }.
#[global] Instance AggKey_eq_dec : EqDecision AggKey.
Proof. solve_decision. Defined.

Definition reason_code (r : Reason) : N :=
  match r with CoreDumped => 0 | CoreDumpSuppressed => 1 | CoreDiscardedNoStore => 2 end.
Definition code_reason (n : N) : Reason :=
  match n with 0%N => CoreDumped | 1%N => CoreDumpSuppressed | _ => CoreDiscardedNoStore end.
#[global] Instance AggKey_countable : Countable AggKey.
Proof.
  refine (inj_countable'
    (λ k, (k_namespace k, k_pod_uid k, reason_code (k_reason k)))
    (λ '(n, u, r), mkKey n u (code_reason r)) _).
  by intros [n u []].
Defined.

Record AggEntry := mkEntry { event_name_ : bytes; count : Z; created_at : Z }.
Abbreviation Aggregator := (gmap AggKey AggEntry).

(** [Instant::duration_since] saturates at zero. *)
Definition duration_since (now t : Z) : Z := Z.max 0 (now - t).

Definition prune (now : Z) (a : Aggregator) : Aggregator :=
  filter (λ kv, (duration_since now (created_at kv.2) < AGGREGATION_TTL)%Z) a.
Definition sweep (now : Z) (a : Aggregator) : Aggregator := prune now a.

Record Recorded := mkRecorded { r_event_name : bytes; is_new : bool; r_count : Z }.

Definition record (key : AggKey) (now : Z) (make_name : unit → bytes) (a : Aggregator)
    : Aggregator * option Recorded :=
  let a := prune now a in
  match a !! key with
  | Some e =>
      let e := mkEntry (event_name_ e) (wrap_u32 (count e + 1)) (created_at e) in
      (<[key := e]> a, Some (mkRecorded (event_name_ e) false (count e)))
  | None =>
      if decide (MAX_AGGREGATION_KEYS ≤ size a) then (a, None)
      else let name := make_name tt in
           (<[key := mkEntry name 1 now]> a, Some (mkRecorded name true 1))
  end.

(** ** Validation and naming *)

Definition is_dns1123_label (s : bytes) : bool :=
  let alnum c := is_ascii_lowercase c || is_ascii_digit c in
  match s with
  | [] => false
  | c :: _ =>
      bool_decide (length s ≤ MAX_NAMESPACE_LEN)
      && forallb (λ c, alnum c || is_byte "-"%byte c) s
      && alnum c && from_option alnum false (last s)
  end.

Definition event_name (pod_uid : bytes) (reason : Reason) (timestamp : Z) : bytes :=
  b! "coredrop-" ++ pod_uid ++ b! "-" ++ slug reason ++ b! "-" ++ to_string timestamp.

Definition note (payload : Events.CaptureEventPayload) : bytes :=
  let signal := default (to_string (Events.signal payload)) (Events.signal_name payload) in
  match Events.manifest_key payload with
  | Some key => b! "core dumped (signal " ++ signal ++ b! "); artifacts at " ++ key
  | None => b! "core dumped (signal " ++ signal ++ b! ")"
  end.

Record EventTarget := mkTarget { t_namespace : bytes; t_pod_name : bytes; t_pod_uid : bytes }.

Section client.
(** chrono: [from_timestamp] and [to_rfc3339_opts]. *)
Context (rfc3339_opts : Z → option bytes).

Definition rfc3339_micro (epoch_secs : Z) : bytes :=
  default (to_string epoch_secs) (rfc3339_opts epoch_secs).

Definition event_body (node name : bytes) (reason : Reason) (target : EventTarget)
    (payload : Events.CaptureEventPayload) : Value :=
  Obj [(b! "apiVersion", Str (b! "events.k8s.io/v1"));
       (b! "kind", Str (b! "Event"));
       (b! "metadata", Obj [(b! "name", Str name);
                            (b! "namespace", Str (t_namespace target))]);
       (b! "eventTime", Str (rfc3339_micro (Events.timestamp payload)));
       (b! "reportingController", Str (b! "coredrop"));
       (b! "reportingInstance", Str node);
       (b! "action", Str (b! "CoreCaptured"));
       (b! "reason", Str (reason_str reason));
       (b! "regarding", Obj [(b! "kind", Str (b! "Pod"));
                             (b! "apiVersion", Str (b! "v1"));
                             (b! "namespace", Str (t_namespace target));
                             (b! "name", Str (t_pod_name target));
                             (b! "uid", Str (t_pod_uid target))]);
       (b! "note", Str (note payload));
       (b! "type", Str (b! "Warning"))].

Definition series_patch (count : Z) (last_observed : bytes) : Value :=
  Obj [(b! "series", Obj [(b! "count", Num count);
                          (b! "lastObservedTime", Str last_observed)])].

(** ** The API client *)

(** A URL as its origin and decoded path segments; pushing a segment encodes
    it, and [.] and [..] are dropped. *)
Record Url := mkUrl { origin : bytes; segments : list bytes }.
Definition push_segment (s : bytes) (u : Url) : Url :=
  if bool_decide (s = b! "." ∨ s = b! "..") then u else mkUrl (origin u) (segments u ++ [s]).

(** A [reqwest::Client] as the program configures it: the timeout of a request and
    the only certificates it trusts, as DER. *)
Record Http := mkHttp { timeout_secs : Z; trusted : list bytes }.

Record EventClient := mkClient { http : Http; events_base_ : Url; token : bytes }.

Definition events_url (c : EventClient) (namespace : bytes) (name : option bytes) : Url :=
  let url := push_segment (b! "events") (push_segment namespace (events_base_ c)) in
  match name with Some name => push_segment name url | None => url end.

Inductive Request :=
  | Post (url : Url) (bearer : bytes) (body : Value)
  | Patch (url : Url) (bearer : bytes) (body : Value).

Definition request_url (r : Request) : Url := match r with Post u _ _ | Patch u _ _ => u end.
Definition request_bearer (r : Request) : bytes := match r with Post _ b _ | Patch _ b _ => b end.

(** A request and the HTTP client that sends it. *)
Definition call : Type := Http * Request.

(** The API server: a status and a body, or a transport error. *)
Abbreviation api := (call → result (Z * bytes) bytes).

(** [chars().take(n)] of a UTF-8 string: a character is a lead byte and its
    continuation bytes. *)
Fixpoint take_chars (n : nat) (s : bytes) : bytes :=
  match s with
  | [] => []
  | c :: s => if is_cont c then c :: take_chars n s
              else match n with 0 => [] | S n => c :: take_chars n s end
  end.

Definition api_result (what : bytes) (resp : Z * bytes) : result unit (list bytes) :=
  let '(status, body) := resp in
  if decide (200 ≤ status < 300)%Z then Ok tt
  else Err [what ++ b! ": HTTP " ++ to_string status ++ b! ": " ++ take_chars 500 body].

Definition create_event (srv : api) (c : EventClient) (namespace : bytes) (body : Value)
    : call * result unit (list bytes) :=
  let req := (http c, Post (events_url c namespace None) (token c) body) in
  (req, match srv req with Ok resp => api_result (b! "create event") resp
        | Err e => Err [b! "create event"; e] end).

Definition patch_event_series (srv : api) (c : EventClient) (namespace name : bytes) (body : Value)
    : call * result unit (list bytes) :=
  let req := (http c, Patch (events_url c namespace (Some name)) (token c) body) in
  (req, match srv req with Ok resp => api_result (b! "patch event series") resp
        | Err e => Err [b! "patch event series"; e] end).

(** ** [handle_payload]: the aggregator after it, the request sent with its result *)

Definition handle_payload (srv : api) (client : option EventClient) (a : Aggregator) (node : bytes)
    (payload : Events.CaptureEventPayload) (now : Z)
    : Aggregator * option (call * result unit (list bytes)) :=
  match from_outcome (Events.outcome payload) with
  | None => (a, None)
  | Some reason =>
  match client with
  | None => (a, None)
  | Some client =>
  match Events.namespace payload, Events.pod_name payload, Events.pod_uid payload with
  | Some namespace, Some pod_name, Some pod_uid =>
      let target := mkTarget namespace pod_name pod_uid in
      if negb (is_dns1123_label namespace) || negb (Cgroup.is_pod_uid pod_uid) then (a, None)
      else
        let key := mkKey namespace pod_uid reason in
        match record key now (λ _, event_name pod_uid reason (Events.timestamp payload)) a with
        | (a, None) => (a, None)
        | (a, Some recorded) =>
            let last_observed := rfc3339_micro (Events.timestamp payload) in
            (a, Some (if is_new recorded
                      then create_event srv client namespace
                             (event_body node (r_event_name recorded) reason target payload)
                      else patch_event_series srv client namespace (r_event_name recorded)
                             (series_patch (r_count recorded) last_observed)))
        end
  | _, _, _ => (a, None)
  end end end.

(** ** [run_listener] *)

Inductive log_level := Warn | Info.
(** A log line: its level and its fields. *)
Abbreviation log_line := (log_level * list (bytes * bytes))%type.

Definition log_capture (p : Events.CaptureEventPayload) : log_line :=
  let none := b! "<none>" in
  (if decide (Events.outcome p = Events.Failed) then Warn else Info,
   [(b! "outcome", Events.as_str (Events.outcome p));
    (b! "namespace", default none (Events.namespace p));
    (b! "pod", default none (Events.pod_name p));
    (b! "container", default none (Events.container_name p));
    (b! "pod_uid", default none (Events.pod_uid p));
    (b! "host_pid", to_string (Events.host_pid p));
    (b! "exe", Events.exe p);
    (b! "signal", default (to_string (Events.signal p)) (Events.signal_name p));
    (b! "manifest_key", default none (Events.manifest_key p));
    (b! "core_bytes", to_string (Events.core_bytes p));
    (b! "stored_bytes", to_string (default 0%Z (Events.stored_bytes p)));
    (b! "truncated", if Events.truncated p then b! "true" else b! "false");
    (b! "error", default [] (Events.error p))]).

Definition RECV_BUF : Z := 64 * 1024.

(** What the loop's [select!] sees: a datagram, a failed [recv], or a tick. *)
Inductive input := Datagram (data : bytes) (now : Z) | RecvError | Tick (now : Z).

Record Listener := mkListener {
  aggregator : Aggregator;
  logged : list log_line;
  sent : list call;
}.

Context {J : JsonText}.

(** [recv] cuts a datagram at the buffer. *)
Definition parse_datagram (data : bytes) : option Events.CaptureEventPayload :=
  text_from_slice (takeZ RECV_BUF data) ≫= Events.de_payload.

Definition listen_step (srv : api) (client : option EventClient) (node : bytes) (l : Listener)
    (i : input) : Listener :=
  match i with
  | RecvError => l
  | Tick now => mkListener (sweep now (aggregator l)) (logged l) (sent l)
  | Datagram data now =>
      match parse_datagram data with
      | None => l
      | Some payload =>
          let '(a, req) := handle_payload srv client (aggregator l) node payload now in
          mkListener a (logged l ++ [log_capture payload])
            (sent l ++ match req with Some (r, _) => [r] | None => [] end)
      end
  end.

(** [env_client] is what [EventClient::from_env] returns. *)
Definition run_listener (srv : api) (env_client : option EventClient) (node : bytes)
    (post_events : bool) (inputs : list input) : Listener :=
  let client := if post_events then env_client else None in
  foldl (listen_step srv client node) (mkListener ∅ [] []) inputs.

End client.

(** ** Building the client

    Parsing a PEM bundle, the rest of the client builder and the URL parser are the
    libraries'. *)
Section environment.
Context (from_pem_bundle : bytes → option (list bytes)) (builder_build : Http → bool).

Definition build_http (ca_pem : bytes) : option Http :=
  certs ← from_pem_bundle ca_pem;
  if decide (certs = []) then None
  else let http := mkHttp 30 certs in if builder_build http then Some http else None.

Context (url_parse : bytes → option Url).

Definition events_base (origin : bytes) : option Url :=
  url_parse (origin ++ b! "/apis/events.k8s.io/v1/namespaces").

(** [EventClient::from_env]; [fs_read] and [env] are the file system and the
    environment, whose text need not be UTF-8. *)
Definition from_env (fs_read env : bytes → option bytes) : option EventClient :=
  token ← (trim <$> (fs_read (SERVICE_ACCOUNT_DIR ++ b! "/token") ≫= from_utf8));
  ca_pem ← fs_read (SERVICE_ACCOUNT_DIR ++ b! "/ca.crt");
  http ← build_http ca_pem;
  host ← (env (b! "KUBERNETES_SERVICE_HOST") ≫= from_utf8);
  let port := default (b! "443") (env (b! "KUBERNETES_SERVICE_PORT") ≫= from_utf8) in
  let host := if contains (b! ":") host && negb (starts_with (b! "[") host)
              then b! "[" ++ host ++ b! "]" else host in
  base ← events_base (b! "https://" ++ host ++ b! ":" ++ port);
  Some (mkClient http base token).

(** The client trusts the certificates of the cluster's [ca.crt] and nothing else. *)
Lemma from_env_trust fs_read env c :
  from_env fs_read env = Some c →
  ∃ ca, fs_read (SERVICE_ACCOUNT_DIR ++ b! "/ca.crt") = Some ca
    ∧ from_pem_bundle ca = Some (trusted (http c)) ∧ trusted (http c) ≠ []
    ∧ timeout_secs (http c) = 30%Z.
Proof.
  unfold from_env. rewrite bind_Some. intros (tok & _ & H). rewrite bind_Some in H.
  destruct H as (ca & Hca & H). rewrite bind_Some in H. destruct H as (h & Hh & H).
  rewrite bind_Some in H. destruct H as (host & _ & H). rewrite bind_Some in H.
  destruct H as (base & _ & [= <-]). exists ca. split; [done|]. unfold build_http in Hh.
  rewrite bind_Some in Hh. destruct Hh as (certs & Hc & Hh). case_decide; [done|].
  destruct (builder_build _); [|done]. by injection Hh as <-.
Qed.
End environment.

(** ** Lemmas on the aggregator *)

Lemma lookup_prune now (a : Aggregator) k e :
  prune now a !! k = Some e ↔
  a !! k = Some e ∧ (duration_since now (created_at e) < AGGREGATION_TTL)%Z.
Proof. unfold prune. apply map_lookup_filter_Some. Qed.

Lemma prune_size now (a : Aggregator) : size (prune now a) ≤ size a.
Proof. apply map_size_filter. Qed.

Lemma record_size key now mk (a : Aggregator) :
  size a ≤ MAX_AGGREGATION_KEYS → size (fst (record key now mk a)) ≤ MAX_AGGREGATION_KEYS.
Proof.
  intros Hs. pose proof (prune_size now a). unfold record.
  destruct (prune now a !! key) as [e|] eqn:E; cbn [fst].
  - rewrite map_size_insert_Some by by eexists. lia.
  - case_decide; cbn [fst]; [lia|]. rewrite map_size_insert_None by done. lia.
Qed.

(** A sequence of records: key, time, and the name a new entry gets. *)
Fixpoint run_records (a : Aggregator) (ops : list (AggKey * Z * bytes))
    : Aggregator * list (AggKey * option Recorded) :=
  match ops with
  | [] => (a, [])
  | (k, now, name) :: ops =>
      let '(a, r) := record k now (λ _, name) a in
      let '(a, rs) := run_records a ops in (a, (k, r) :: rs)
  end.

Definition results_of (k : AggKey) (rs : list (AggKey * option Recorded)) : list (option Recorded) :=
  omap (λ '(k', r), if decide (k' = k) then Some r else None) rs.
Definition records_of (k : AggKey) (ops : list (AggKey * Z * bytes)) : nat :=
  length (filter (λ op, op.1.1 = k) ops).

Lemma results_of_cons k k' r rs :
  results_of k ((k', r) :: rs) = (if decide (k' = k) then [r] else []) ++ results_of k rs.
Proof. unfold results_of. cbn. by case_decide. Qed.

Lemma duration_within now t0 :
  (now < t0 + AGGREGATION_TTL)%Z → (duration_since now t0 < AGGREGATION_TTL)%Z.
Proof. unfold duration_since, AGGREGATION_TTL. lia. Qed.

(** Records of other keys within the TTL leave an entry alone. *)
Lemma record_other (k k' : AggKey) now mk (a : Aggregator) e :
  k' ≠ k → a !! k = Some e → (now < created_at e + AGGREGATION_TTL)%Z →
  fst (record k' now mk a) !! k = Some e.
Proof.
  intros Hne Hk Ht.
  assert (prune now a !! k = Some e) as Hp.
  { apply lookup_prune. split; [done|]. by apply duration_within. }
  unfold record. destruct (prune now a !! k'); cbn [fst].
  - by rewrite lookup_insert_ne.
  - case_decide; cbn [fst]; [done|]. by rewrite lookup_insert_ne.
Qed.

Lemma series_counts (k : AggKey) ops : ∀ (a : Aggregator) n c t0,
  a !! k = Some (mkEntry n c t0) → (0 ≤ c)%Z →
  Forall (λ op, (op.1.2 < t0 + AGGREGATION_TTL)%Z) ops →
  (c + Z.of_nat (records_of k ops) ≤ u32_max)%Z →
  results_of k (snd (run_records a ops))
  = map (λ i, Some (mkRecorded n false (c + Z.of_nat i))) (seq 1 (records_of k ops)).
Proof.
  induction ops as [|[[k' now] name] ops IH]; intros a n c t0 Hk Hc Ht Hmax; [done|].
  apply Forall_cons in Ht as [Hnow Ht]. cbn [fst snd] in Hnow. cbn [run_records].
  unfold records_of in *. rewrite filter_cons in *. cbn [fst] in *.
  destruct (decide (k' = k)) as [->|Hne].
  - assert (prune now a !! k = Some (mkEntry n c t0)) as Hp.
    { apply lookup_prune. split; [done|]. by apply duration_within. }
    unfold record. rewrite Hp. cbn [event_name_ count created_at length] in *.
    rewrite wrap_u32_small by lia.
    specialize (IH (<[k := mkEntry n (c + 1) t0]> (prune now a)) n (c + 1)%Z t0).
    rewrite lookup_insert_eq in IH.
    destruct (run_records _ ops) as [a' rs]. cbn [snd] in *.
    rewrite results_of_cons, decide_True by done. cbn [seq map app]. f_equal.
    rewrite IH; [|done|lia|done|lia]. rewrite <- (seq_shift _ 1), map_map.
    apply map_ext. intros i. do 2 f_equal. lia.
  - pose proof (record_other k k' now (λ _, name) a _ Hne Hk Hnow) as Hk'.
    destruct (record k' now _ a) as [a' r]. cbn [fst] in Hk'.
    specialize (IH a' n c t0 Hk' Hc Ht Hmax).
    destruct (run_records a' ops) as [a'' rs]. cbn [snd] in *.
    rewrite results_of_cons, decide_False by done. exact IH.
Qed.

(** ** Event names *)

Definition dns_char (c : byte) : bool :=
  is_ascii_lowercase c || is_ascii_digit c || is_byte "-"%byte c.

Lemma pod_uid_dns u : Cgroup.is_pod_uid u = true → forallb dns_char u = true.
Proof.
  unfold Cgroup.is_pod_uid. intros H. bool_hyps.
  eapply forallb_weaken; [|done]. intros c. by destruct c.
Qed.

Lemma event_name_dns u r ts : Cgroup.is_pod_uid u = true → forallb dns_char (event_name u r ts) = true.
Proof.
  intros Hu. unfold event_name. rewrite !forallb_app, (pod_uid_dns u Hu).
  assert (forallb dns_char (to_string ts) = true) as ->.
  { eapply forallb_weaken; [|apply to_string_chars]. intros c. by destruct c. }
  by destruct r.
Qed.

Lemma event_name_not_dots u r ts : event_name u r ts ≠ b! "." ∧ event_name u r ts ≠ b! "..".
Proof. by split. Qed.

Lemma label_not_dots s : is_dns1123_label s = true → s ≠ b! "." ∧ s ≠ b! "..".
Proof. by split; intros ->. Qed.

(** ** Lemmas on the listener *)

(** Every entry's name is that of an event of its pod and reason, and its pod and
    namespace were checked. *)
Definition agg_ok (a : Aggregator) : Prop :=
  ∀ k e, a !! k = Some e →
    is_dns1123_label (k_namespace k) = true ∧ Cgroup.is_pod_uid (k_pod_uid k) = true
    ∧ ∃ ts, event_name_ e = event_name (k_pod_uid k) (k_reason k) ts.

Lemma prune_agg_ok now a : agg_ok a → agg_ok (prune now a).
Proof. intros Ha k e [Hk _]%lookup_prune. by apply Ha. Qed.

Lemma record_agg_ok k now ts a a' r :
  agg_ok a → is_dns1123_label (k_namespace k) = true → Cgroup.is_pod_uid (k_pod_uid k) = true →
  record k now (λ _, event_name (k_pod_uid k) (k_reason k) ts) a = (a', r) →
  agg_ok a' ∧ ∀ x, r = Some x → ∃ ts', r_event_name x = event_name (k_pod_uid k) (k_reason k) ts'.
Proof.
  intros Ha Hn Hu. unfold record. pose proof (prune_agg_ok now a Ha) as Hp.
  destruct (prune now a !! k) as [e|] eqn:E.
  - destruct (Hp k e E) as (_ & _ & ts' & Hts). intros [= <- <-]. split.
    + intros k' e'. rewrite lookup_insert_Some. intros [[<- <-]|[_ Hk']]; [|by apply Hp].
      cbn [event_name_]. eauto.
    + intros x [= <-]. eauto.
  - case_decide; intros [= <- <-]; [by split|]. split.
    + intros k' e'. rewrite lookup_insert_Some. intros [[<- <-]|[_ Hk']]; [|by apply Hp].
      cbn [event_name_]. eauto.
    + intros x [= <-]. eauto.
Qed.

(** A request that can only reach the events of a checked namespace. *)
Definition safe_request (c : EventClient) (r : call) : Prop :=
  r.1 = http c ∧ request_bearer r.2 = token c ∧
  ∃ ns, is_dns1123_label ns = true
    ∧ (request_url r.2 = mkUrl (origin (events_base_ c))
         (segments (events_base_ c) ++ [ns; b! "events"])
       ∨ ∃ u reason ts, Cgroup.is_pod_uid u = true
           ∧ request_url r.2 = mkUrl (origin (events_base_ c))
               (segments (events_base_ c) ++ [ns; b! "events"; event_name u reason ts])).

Lemma push_segment_ok s u :
  s ≠ b! "." ∧ s ≠ b! ".." → push_segment s u = mkUrl (origin u) (segments u ++ [s]).
Proof. intros [H1 H2]. unfold push_segment. rewrite bool_decide_false; [done|]. by intros [?|?]. Qed.

Lemma events_url_collection c ns :
  is_dns1123_label ns = true →
  events_url c ns None = mkUrl (origin (events_base_ c)) (segments (events_base_ c) ++ [ns; b! "events"]).
Proof.
  intros Hn. unfold events_url. rewrite (push_segment_ok ns) by by apply label_not_dots.
  rewrite push_segment_ok by done. cbn [origin segments]. by rewrite <- app_assoc.
Qed.

Lemma events_url_event c ns u r ts :
  is_dns1123_label ns = true →
  events_url c ns (Some (event_name u r ts))
  = mkUrl (origin (events_base_ c)) (segments (events_base_ c) ++ [ns; b! "events"; event_name u r ts]).
Proof.
  intros Hn. pose proof (events_url_collection c ns Hn) as Hc. unfold events_url in *.
  rewrite Hc, push_segment_ok by apply event_name_not_dots. cbn [origin segments].
  by rewrite <- app_assoc.
Qed.

Section listener.
Context (rfc3339_opts : Z → option bytes) {J : JsonText} (srv : call → result (Z * bytes) bytes).

Lemma handle_payload_safe client a node p now a' req :
  agg_ok a → handle_payload rfc3339_opts srv client a node p now = (a', req) →
  agg_ok a' ∧ ∀ r res, req = Some (r, res) → ∃ c, client = Some c ∧ safe_request c r.
Proof.
  intros Ha. unfold handle_payload.
  destruct (from_outcome _) as [reason|]; [|by intros [= <- <-]].
  destruct client as [c|]; [|by intros [= <- <-]].
  destruct (Events.namespace p) as [ns|]; [|by intros [= <- <-]].
  destruct (Events.pod_name p) as [pod|]; [|by intros [= <- <-]].
  destruct (Events.pod_uid p) as [uid|]; [|by intros [= <- <-]].
  destruct (negb _ || negb _) eqn:Ev; [by intros [= <- <-]|]. bool_hyps.
  destruct (record _ _ _ _) as [a1 [rec|]] eqn:Er;
    apply (record_agg_ok (mkKey ns uid reason)) in Er as [Ha1 Hr]; try done;
    intros [= <- <-]; [|done].
  split; [done|]. intros r res Hreq. exists c. split; [done|].
  split; [by destruct (is_new rec); injection Hreq as <- _|].
  split; [by destruct (is_new rec); injection Hreq as <- _|].
  exists ns. split; [done|]. destruct (is_new rec).
  - left. injection Hreq as <- _. by apply events_url_collection.
  - right. destruct (Hr rec eq_refl) as [ts' Hts]. exists uid, reason, ts'. split; [done|].
    injection Hreq as <- _. cbn [request_url snd]. rewrite Hts. by apply events_url_event.
Qed.

Lemma listen_step_safe client node l i :
  let safe r := ∃ c, client = Some c ∧ safe_request c r in
  agg_ok (aggregator l) → Forall safe (sent l) →
  let l' := listen_step rfc3339_opts srv client node l i in
  agg_ok (aggregator l') ∧ Forall safe (sent l').
Proof.
  intros safe Ha Hs. destruct i as [data now| |now]; cbn [listen_step]; [|done|].
  - destruct (parse_datagram data) as [p|]; [|done].
    destruct (handle_payload _ _ _ _ _ _ _) as [a req] eqn:E.
    apply handle_payload_safe in E as [Ha' Hreq]; [|done]. cbn [aggregator sent].
    split; [done|]. apply Forall_app. split; [done|].
    destruct req as [[r res]|]; [|constructor]. apply Forall_singleton. by eapply Hreq.
  - split; [by apply prune_agg_ok|done].
Qed.
End listener.

(** ** What was posted before *)

(** The object name an Event body gives. *)
Definition body_names (body : Value) (name : bytes) : Prop :=
  index (index body (b! "metadata")) (b! "name") = Str name.

(** Among [reqs] the client posted an Event called [name] to the namespace. *)
Definition posted (c : EventClient) (reqs : list call) (ns name : bytes) : Prop :=
  ∃ body, (http c, Post (events_url c ns None) (token c) body) ∈ reqs ∧ body_names body name.

(** A patch is of an Event posted before it. *)
Definition patch_ok (c : EventClient) (before : list call) (r : call) : Prop :=
  ∀ u tok body, r.2 = Patch u tok body →
    ∃ ns name, u = events_url c ns (Some name) ∧ posted c before ns name.

Fixpoint patches_ok (c : EventClient) (before : list call) (reqs : list call) : Prop :=
  match reqs with
  | [] => True
  | r :: reqs => patch_ok c before r ∧ patches_ok c (before ++ [r]) reqs
  end.

Lemma patches_ok_snoc c before reqs r :
  patches_ok c before (reqs ++ [r]) ↔ patches_ok c before reqs ∧ patch_ok c (before ++ reqs) r.
Proof.
  revert before. induction reqs as [|x reqs IH]; intros before; cbn [app patches_ok].
  - rewrite app_nil_r. tauto.
  - rewrite IH, <- app_assoc. cbn [app]. tauto.
Qed.

Lemma posted_app c reqs r ns name : posted c reqs ns name → posted c (reqs ++ [r]) ns name.
Proof. intros (body & Hin & Hb). exists body. split; [|done]. apply elem_of_app. by left. Qed.

(** Every entry of the aggregator names an Event that was posted. *)
Definition entries_posted (c : EventClient) (a : Aggregator) (reqs : list call) : Prop :=
  ∀ k e, a !! k = Some e → posted c reqs (k_namespace k) (event_name_ e).

Lemma prune_posted c now a reqs : entries_posted c a reqs → entries_posted c (prune now a) reqs.
Proof. intros Ha k e [Hk _]%lookup_prune. by apply Ha. Qed.

Section posts.
Context (rfc3339_opts : Z → option bytes) {J : JsonText} (srv : call → result (Z * bytes) bytes)
  (c : EventClient) (node : bytes).

Lemma event_body_names name reason target p :
  body_names (event_body rfc3339_opts node name reason target p) name.
Proof. reflexivity. Qed.

Lemma handle_payload_posts a reqs p now a' req :
  entries_posted c a reqs →
  handle_payload rfc3339_opts srv (Some c) a node p now = (a', req) →
  let new := match req with Some (r, _) => [r] | None => [] end in
  entries_posted c a' (reqs ++ new) ∧ Forall (patch_ok c reqs) new.
Proof.
  intros Ha. pose proof (prune_posted c now a reqs Ha) as Hp. unfold handle_payload.
  assert (∀ a, entries_posted c a reqs → entries_posted c a (reqs ++ []) ∧ Forall (patch_ok c reqs) [])
    as Hnone by (intros; rewrite app_nil_r; split; [done|constructor]).
  destruct (from_outcome _) as [reason|]; [|intros [= <- <-]; by apply Hnone].
  destruct (Events.namespace p) as [ns|]; [|intros [= <- <-]; by apply Hnone].
  destruct (Events.pod_name p) as [pod|]; [|intros [= <- <-]; by apply Hnone].
  destruct (Events.pod_uid p) as [uid|]; [|intros [= <- <-]; by apply Hnone].
  destruct (negb _ || negb _); [intros [= <- <-]; by apply Hnone|].
  unfold record, create_event, patch_event_series. set (key := mkKey ns uid reason).
  destruct (prune now a !! key) as [e|] eqn:E; cbn [is_new r_event_name r_count event_name_ count].
  - intros [= <- <-]. cbn zeta. split.
    + intros k e' [[<- <-]|[_ Hk]]%lookup_insert_Some; apply posted_app; [exact (Hp key e E)|by apply Hp].
    + apply Forall_singleton. intros u tok body [= <- <- <-]. exists ns, (event_name_ e).
      split; [done|]. exact (Hp key e E).
  - case_decide; [intros [= <- <-]; by apply Hnone|]. intros [= <- <-]. cbn zeta. split.
    + intros k e' [[<- <-]|[_ Hk]]%lookup_insert_Some; [|by apply posted_app, Hp].
      eexists. split; [apply elem_of_app; right; by apply list_elem_of_singleton|]. apply event_body_names.
    + apply Forall_singleton. by intros u tok body [=].
Qed.

Lemma listen_step_posts l i :
  entries_posted c (aggregator l) (sent l) → patches_ok c [] (sent l) →
  let l' := listen_step rfc3339_opts srv (Some c) node l i in
  entries_posted c (aggregator l') (sent l') ∧ patches_ok c [] (sent l').
Proof.
  intros Ha Hs. destruct i as [data now| |now]; cbn [listen_step]; [|done|].
  - destruct (parse_datagram data) as [p|]; [|done].
    destruct (handle_payload _ _ _ _ _ _ _) as [a req] eqn:E.
    destruct (handle_payload_posts _ _ _ _ _ _ Ha E) as [Ha' Hreq]. cbn [aggregator sent].
    split; [done|]. destruct req as [[r res]|]; [|by rewrite app_nil_r].
    apply patches_ok_snoc. split; [done|]. exact (Forall_inv Hreq).
  - split; [by apply prune_posted|done].
Qed.
End posts.

(** ** Properties *)

(** C35: a crash loop is one Event: from the first record of a key, as long as the TTL
    of its entry lasts and whatever other pods crash in between, the first
    record creates the Event and every later one bumps its count by one under
    the same name. *)
Theorem crash_loop_is_one_event (k : AggKey) (a : Aggregator) t0 name ops :
  prune t0 a !! k = None → size (prune t0 a) < MAX_AGGREGATION_KEYS →
  Forall (λ op, (op.1.2 < t0 + AGGREGATION_TTL)%Z) ops →
  (Z.of_nat (records_of k ops) < u32_max)%Z →
  results_of k (snd (run_records a ((k, t0, name) :: ops)))
  = Some (mkRecorded name true 1)
    :: map (λ i, Some (mkRecorded name false (1 + Z.of_nat i))) (seq 1 (records_of k ops)).
Proof.
  intros Hn Hs Ht Hm. cbn [run_records]. unfold record. rewrite Hn, decide_False by lia.
  pose proof (series_counts k ops (<[k := mkEntry name 1 t0]> (prune t0 a)) name 1 t0
    (lookup_insert_eq _ _ _) ltac:(lia) Ht ltac:(lia)) as Hser.
  destruct (run_records _ ops) as [a' rs]. cbn [snd] in *.
  rewrite results_of_cons, decide_True by done. cbn [app]. by rewrite Hser.
Qed.

Definition key_a : AggKey := mkKey (b! "default") (b! "ab-1") CoreDumped.
Definition key_b : AggKey := mkKey (b! "default") (b! "ab-2") CoreDumped.

Lemma crash_loop_is_one_event_witness :
  results_of key_a (snd (run_records ∅
    [(key_a, 100, b! "ev-1"); (key_b, 101, b! "ev-2"); (key_a, 102, b! "ev-3");
     (key_a, 3699, b! "ev-4")]%Z))
  = [Some (mkRecorded (b! "ev-1") true 1); Some (mkRecorded (b! "ev-1") false 2);
     Some (mkRecorded (b! "ev-1") false 3)].
Proof.
  apply (crash_loop_is_one_event key_a ∅ 100 (b! "ev-1")
    [(key_b, 101, b! "ev-2"); (key_a, 102, b! "ev-3"); (key_a, 3699, b! "ev-4")]%Z).
  - done.
  - apply Nat.ltb_lt. vm_compute. reflexivity.
  - by repeat constructor.
  - by vm_compute.
Defined.

(** The aggregation map never outgrows its cap, whatever is recorded. *)
Theorem aggregator_bounded ops :
  size (fst (run_records ∅ ops)) ≤ MAX_AGGREGATION_KEYS.
Proof.
  assert (size (∅ : Aggregator) ≤ MAX_AGGREGATION_KEYS) as H by (rewrite map_size_empty; lia).
  revert H. generalize (∅ : Aggregator). induction ops as [|[[k now] name] ops IH]; intros a H; [done|].
  cbn [run_records]. pose proof (record_size k now (λ _, name) a H) as H'.
  destruct (record k now _ a) as [a' r]. specialize (IH a' H').
  by destruct (run_records a' ops).
Qed.

(** C34: no datagram, however crafted, makes the daemon send a request outside the
    events of a well-formed namespace, or its token to a server other than the
    cluster's: every request it ever sends carries the service account token
    over a client that trusts exactly the certificates of [ca.crt] (at least
    one), and posts to [<base>/<namespace>/events] or patches one event there
    that is named after a valid pod UID; with [--no-events] it sends none. *)
Theorem listener_requests_safe rfc3339_opts {J : JsonText} srv from_pem_bundle builder_build url_parse
    fs_read env node post_events inputs :
  Forall (λ r, ∃ c ca, post_events = true
      ∧ from_env from_pem_bundle builder_build url_parse fs_read env = Some c ∧ safe_request c r
      ∧ fs_read (SERVICE_ACCOUNT_DIR ++ b! "/ca.crt") = Some ca
      ∧ from_pem_bundle ca = Some (trusted r.1) ∧ trusted r.1 ≠ [])
    (sent (run_listener rfc3339_opts srv (from_env from_pem_bundle builder_build url_parse fs_read env)
             node post_events inputs)).
Proof.
  unfold run_listener. set (env_client := from_env _ _ _ _ _).
  set (client := if post_events then env_client else None).
  assert (∀ l, agg_ok (aggregator l) → Forall (λ r, ∃ c, client = Some c ∧ safe_request c r) (sent l) →
    Forall (λ r, ∃ c, client = Some c ∧ safe_request c r)
      (sent (foldl (listen_step rfc3339_opts srv client node) l inputs))) as Hall.
  { induction inputs as [|i inputs IH]; intros l Ha Hs; cbn [foldl]; [done|].
    destruct (listen_step_safe rfc3339_opts srv client node l i Ha Hs). by apply IH. }
  eapply Forall_impl; [apply Hall; [|constructor]|].
  - intros k e. cbn. by rewrite lookup_empty.
  - intros r (c & Hc & Hr). unfold client in Hc. destruct post_events; [|done].
    destruct (from_env_trust _ _ _ _ _ _ Hc) as (ca & Hca & Hcerts & Hne & _).
    destruct Hr as [Hh Hr]. exists c, ca. rewrite Hh. by split_and!.
Qed.

(** C15: a series only ever grows on an Event the daemon has posted: in the requests it
    sends, in order and over any traffic, every patch addresses an Event that an
    earlier request posted to the same namespace under that name. *)
Theorem patches_follow_posts rfc3339_opts {J : JsonText} srv c node post_events inputs before h u tok body after :
  sent (run_listener rfc3339_opts srv (Some c) node post_events inputs)
  = before ++ (h, Patch u tok body) :: after →
  ∃ ns name body', u = events_url c ns (Some name)
    ∧ (http c, Post (events_url c ns None) (token c) body') ∈ before
    ∧ index (index body' (b! "metadata")) (b! "name") = Str name.
Proof.
  unfold run_listener. destruct post_events.
  2:{ assert (∀ l, sent l = [] → sent (foldl (listen_step rfc3339_opts srv None node) l inputs) = []) as Hn.
      { induction inputs as [|i inputs IH]; intros l Hl; [done|]. cbn [foldl]. apply IH.
        destruct i as [data now| |now]; cbn [listen_step]; [|done..].
        destruct (parse_datagram data); [|done]. unfold handle_payload.
        destruct (from_outcome _); cbn [sent]; by rewrite Hl. }
      rewrite Hn by done. by destruct before. }
  assert (∀ l, entries_posted c (aggregator l) (sent l) → patches_ok c [] (sent l) →
    patches_ok c [] (sent (foldl (listen_step rfc3339_opts srv (Some c) node) l inputs))) as Hall.
  { induction inputs as [|i inputs IH]; intros l Ha Hs; cbn [foldl]; [done|].
    destruct (listen_step_posts rfc3339_opts srv c node l i Ha Hs). by apply IH. }
  specialize (Hall (mkListener ∅ [] [])). cbn [aggregator sent patches_ok] in Hall.
  intros Hsent. rewrite Hsent in Hall.
  assert (patches_ok c [] (before ++ [(h, Patch u tok body)])) as Hok.
  { assert (∀ b l1 l2, patches_ok c b (l1 ++ l2) → patches_ok c b l1) as Hpre.
    { intros b l1. revert b. induction l1 as [|x l1 IH]; intros b l2; cbn; [done|]. intros [? ?]; eauto. }
    apply (Hpre _ _ after). rewrite <- app_assoc. apply Hall; [|done].
    intros k e. by rewrite lookup_empty. }
  apply patches_ok_snoc in Hok as [_ Hok]. destruct (Hok u tok body eq_refl) as (ns & name & -> & body' & ? & ?).
  by exists ns, name, body'.
Qed.

(** What a sequence of branches logs. *)
Lemma logged_inputs rfc3339_opts {J : JsonText} srv client node inputs l :
  logged (foldl (listen_step rfc3339_opts srv client node) l inputs)
  = logged l ++ (log_capture <$> omap (λ i, match i with
      Datagram data _ => parse_datagram data | _ => None end) inputs).
Proof.
  revert l. induction inputs as [|i inputs IH]; intros l; cbn [foldl]; [by rewrite app_nil_r|].
  rewrite IH. destruct i as [data now| |now]; cbn [listen_step omap list_omap]; try done.
  destruct (parse_datagram data) as [p|]; [|done].
  destruct (handle_payload _ _ _ _ _ _ _) as [a req]. cbn [logged].
  rewrite <- app_assoc. done.
Qed.

(** The daemon logs every capture it can parse exactly once and in order, at
    warning level exactly when it failed, and drops everything else: malformed
    datagrams, socket errors and API failures never affect a later capture. *)
Theorem listener_logs_every_capture rfc3339_opts {J : JsonText} srv env_client node post_events inputs :
  logged (run_listener rfc3339_opts srv env_client node post_events inputs)
  = log_capture <$> omap (λ i, match i with Datagram data _ => parse_datagram data | _ => None end) inputs.
Proof. apply logged_inputs. Qed.

(** A payload whose JSON fits the receive buffer reads back as it was sent. *)
Lemma datagram_parses {J : JsonText} {JL : JsonTextLaws J} p :
  Events.payload_ok p →
  (Z.of_nat (length (text_to_vec (Obj (Events.ser_payload p)))) ≤ RECV_BUF)%Z →
  parse_datagram (text_to_vec (Obj (Events.ser_payload p))) = Some p.
Proof.
  intros Hp Hlen. unfold parse_datagram. rewrite takeZ_all by done.
  rewrite text_roundtrip by by apply Events.wf_ser_payload. by apply Events.de_payload_ser.
Qed.

(** A parsed datagram is logged after everything received before it. *)
Lemma listener_logs_next rfc3339_opts {J : JsonText} srv env_client node post_events inputs data now p :
  parse_datagram data = Some p →
  logged (run_listener rfc3339_opts srv env_client node post_events (inputs ++ [Datagram data now]))
  = logged (run_listener rfc3339_opts srv env_client node post_events inputs) ++ [log_capture p].
Proof.
  intros Hp. unfold run_listener. rewrite foldl_app. cbn [foldl]. unfold listen_step at 1.
  rewrite Hp. by destruct (handle_payload _ _ _ _ _ _ _).
Qed.

(** C25: for the pod UIDs the listener accepts, an Event's name is made of lowercase
    letters, digits and dashes only, and it identifies the pod, the reason and the
    crash time: two Events of the same name are of the same pod, reason and second,
    so the Event a later crash creates never collides with an earlier one. *)
Theorem event_name_identifies u u' r r' ts ts' :
  Cgroup.is_pod_uid u = true → Cgroup.is_pod_uid u' = true →
  forallb dns_char (event_name u r ts) = true
  ∧ (event_name u r ts = event_name u' r' ts' → u = u' ∧ r = r' ∧ ts = ts').
Proof.
  intros Hu Hu'. split; [by apply event_name_dns|]. unfold event_name.
  intros H%(inj (b! "coredrop-" ++.)).
  assert (∀ u r ts, u ++ b! "-" ++ slug r ++ b! "-" ++ to_string ts
    = (u ++ b! "-c") ++ "o"%byte :: drop 2 (slug r) ++ b! "-" ++ to_string ts) as Hsplit.
  { intros v q t. rewrite <- app_assoc. by destruct q. }
  rewrite !Hsplit in H. clear Hsplit.
  assert (∀ v, Cgroup.is_pod_uid v = true → forallb Cgroup.is_uid_byte (v ++ b! "-c") = true) as Hb.
  { intros v Hv. unfold Cgroup.is_pod_uid in Hv. bool_hyps. rewrite forallb_app. by apply andb_true_intro. }
  apply (app_sep_inj Cgroup.is_uid_byte) in H as [H1 H2]; auto.
  apply (inj (.++ b! "-c")) in H1 as <-. split; [done|].
  destruct r, r'; try done; (split; [done|]); apply (inj to_string); by injection H2.
Qed.

Lemma event_name_identifies_witness :
  forallb dns_char (event_name (b! "ab-12") CoreDumped 5) = true
  ∧ (event_name (b! "ab-12") CoreDumped 5 = event_name (b! "ab-12") CoreDumped (-5) →
     b! "ab-12" = b! "ab-12" ∧ CoreDumped = CoreDumped ∧ 5%Z = (-5)%Z).
Proof. by apply event_name_identifies. Defined.

(** An Event whose creation the API server refused is not created again: the entry
    stays, so for an hour every repeat patches an Event that does not exist. *)
Theorem failed_create_is_not_retried rfc3339_opts srv c node p a now now' ns pod uid reason :
  from_outcome (Events.outcome p) = Some reason →
  Events.namespace p = Some ns → Events.pod_name p = Some pod → Events.pod_uid p = Some uid →
  is_dns1123_label ns = true → Cgroup.is_pod_uid uid = true →
  prune now a !! mkKey ns uid reason = None → size (prune now a) < MAX_AGGREGATION_KEYS →
  (now ≤ now' < now + AGGREGATION_TTL)%Z →
  let '(a1, first) := handle_payload rfc3339_opts srv (Some c) a node p now in
  let '(_, second) := handle_payload rfc3339_opts srv (Some c) a1 node p now' in
  (∃ body res, first = Some ((http c, Post (events_url c ns None) (token c) body), res))
  ∧ ∃ body res, second = Some ((http c, Patch (events_url c ns (Some (event_name uid reason (Events.timestamp p))))
                                 (token c) body), res).
Proof.
  intros Ho Hns Hpod Huid Hl Hu Hn Hs Ht. unfold handle_payload. rewrite Ho, Hns, Hpod, Huid, Hl, Hu.
  cbn [negb orb]. unfold record at 1. rewrite Hn, decide_False by lia. cbn [is_new].
  unfold record.
  assert (prune now' (<[mkKey ns uid reason := mkEntry (event_name uid reason (Events.timestamp p)) 1 now]>
    (prune now a)) !! mkKey ns uid reason
    = Some (mkEntry (event_name uid reason (Events.timestamp p)) 1 now)) as ->.
  { apply lookup_prune. rewrite lookup_insert_eq. split; [done|]. apply duration_within. cbn. lia. }
  cbn [is_new]. split; unfold create_event, patch_event_series; eauto.
Qed.

Definition down : call → result (Z * bytes) bytes := λ _, Ok (503%Z, b! "unavailable").
Definition sample_client : EventClient :=
  mkClient (mkHttp 30 [b! "ca"])
    (mkUrl (b! "https://10.0.0.1:443") [b! "apis"; b! "events.k8s.io"; b! "v1"; b! "namespaces"])
    (b! "token").
Definition sample_payload : Events.CaptureEventPayload :=
  Events.mkPayload (Some (b! "default")) (Some (b! "my-pod")) (Some (b! "abc-123")) None None 4242
    (b! "server") 11 None Events.Uploaded None 4096 (Some 1024%Z) false None 1749600000.

Lemma failed_create_is_not_retried_witness :
  let '(a1, first) := handle_payload (λ _, None) down (Some sample_client) ∅ (b! "node") sample_payload 0 in
  let '(_, second) := handle_payload (λ _, None) down (Some sample_client) a1 (b! "node") sample_payload 60 in
  (∃ body res, first = Some ((mkHttp 30 [b! "ca"], Post (events_url sample_client (b! "default") None) (b! "token") body), res))
  ∧ ∃ body res, second = Some ((mkHttp 30 [b! "ca"], Patch (events_url sample_client (b! "default")
                   (Some (event_name (b! "abc-123") CoreDumped 1749600000))) (b! "token") body), res).
Proof.
  apply (failed_create_is_not_retried (λ _, None) down sample_client (b! "node") sample_payload ∅ 0 60
           (b! "default") (b! "my-pod") (b! "abc-123") CoreDumped); try done.
  apply Nat.ltb_lt. vm_compute. reflexivity.
Defined.

(** Two crashes of a pod, with a repeat that is a patch. *)
Definition two_crashes : Listener :=
  run_listener (J := token_text) (λ _, None) down (Some sample_client) (b! "node") true
    [Datagram (text_to_vec (JsonText := token_text) (Obj (Events.ser_payload sample_payload))) 0;
     Datagram (text_to_vec (JsonText := token_text) (Obj (Events.ser_payload sample_payload))) 60].

Definition two_crashes_patch : call :=
  (mkHttp 30 [b! "ca"],
   Patch (events_url sample_client (b! "default") (Some (event_name (b! "abc-123") CoreDumped 1749600000)))
     (b! "token") (series_patch 2 (b! "1749600000"))).

Lemma patches_follow_posts_witness :
  ∃ ns name body',
    events_url sample_client (b! "default") (Some (event_name (b! "abc-123") CoreDumped 1749600000))
      = events_url sample_client ns (Some name)
    ∧ (http sample_client, Post (events_url sample_client ns None) (token sample_client) body')
        ∈ take 1 (sent two_crashes)
    ∧ index (index body' (b! "metadata")) (b! "name") = Str name.
Proof.
  apply (patches_follow_posts (J := token_text) (λ _, None) down sample_client (b! "node") true
    [Datagram (text_to_vec (JsonText := token_text) (Obj (Events.ser_payload sample_payload))) 0;
     Datagram (text_to_vec (JsonText := token_text) (Obj (Events.ser_payload sample_payload))) 60]
    (take 1 (sent two_crashes)) (mkHttp 30 [b! "ca"])
    _ (b! "token") (series_patch 2 (b! "1749600000")) []).
  vm_compute. reflexivity.
Defined.

End K8sEvents.
