(* ===== verification/ListenTime.v ===== *)
(** * [src/k8s_events.rs]: the listener's loop in time

    [run_listener] waits on two branches of a [select!]: the socket and the sweep
    timer. [K8sEvents.run_listener] is the effect of a sequence of branches; this
    file is the loop that chooses them, as a step relation over a clock, the
    socket's queue and the timer, and shows that every run is one of
    those sequences, in arrival order, and when the sweep has done its work. *)

From S2P Require Import Prelude RustStr Json Events K8sEvents.
Import Json.

Module ListenTime.
Import K8sEvents.

Definition AGGREGATION_SWEEP_INTERVAL : Z := 300.
Definition RECV_ERROR_BACKOFF : Z := 1.

(** The loop between two steps; [chosen] is what its [select!] saw so far and
    [arrived] every datagram the kernel put in the queue. *)
Record Loop := mkLoop {
  listener : Listener;
  clock : Z;
  next_tick : Z;
  queue : list bytes;
  chosen : list input;
  arrived : list bytes;
}.

(** [tokio::time::interval]: the first tick is due at once. *)
Definition start (now : Z) : Loop := mkLoop (mkListener ∅ [] []) now now [] [] [].

Definition datagram_of (i : input) : option bytes :=
  match i with Datagram data _ => Some data | _ => None end.
#[local] Instance input_eq_dec : EqDecision input.
Proof. solve_decision. Defined.
Definition recv_errors (ins : list input) : Z :=
  Z.of_nat (length (filter (λ i, i = RecvError) ins)).

Section loop.
Context (rfc3339_opts : Z → option bytes) {J : JsonText} (srv : call → result (Z * bytes) bytes)
  (client : option EventClient) (node : bytes).
(** How late the runtime wakes the task when its timer is due. *)
Context (lag : Z).

Abbreviation do_input := (listen_step rfc3339_opts srv client node).

Inductive step : Loop → Loop → Prop :=
  (** the kernel queues a datagram, whatever the loop does *)
  | arrives l now tick q ins ar data :
      step (mkLoop l now tick q ins ar) (mkLoop l now tick (q ++ [data]) ins (ar ++ [data]))
  (** neither branch is ready: the task sleeps, until the timer at the latest *)
  | waits l now tick ins ar d :
      (0 ≤ d)%Z → (now + d ≤ tick + lag)%Z →
      step (mkLoop l now tick [] ins ar) (mkLoop l (now + d) tick [] ins ar)
  (** the socket branch: one datagram, and the time its request takes *)
  | receives l now tick data q ins ar busy :
      (0 ≤ busy)%Z →
      step (mkLoop l now tick (data :: q) ins ar)
        (mkLoop (do_input l (Datagram data now)) (now + busy) tick q (ins ++ [Datagram data now]) ar)
  (** the socket branch when [recv] fails: back off *)
  | recv_fails l now tick q ins ar :
      step (mkLoop l now tick q ins ar)
        (mkLoop (do_input l RecvError) (now + RECV_ERROR_BACKOFF) tick q (ins ++ [RecvError]) ar)
  (** the timer branch; a late tick delays the next one ([MissedTickBehavior::Delay]) *)
  | ticks l now tick q ins ar :
      (tick ≤ now)%Z →
      step (mkLoop l now tick q ins ar)
        (mkLoop (do_input l (Tick now)) now (now + AGGREGATION_SWEEP_INTERVAL) q (ins ++ [Tick now]) ar).

(** ** What the loop is an implementation of *)

Definition implements (t0 : Z) (s : Loop) : Prop :=
  listener s = foldl do_input (mkListener ∅ [] []) (chosen s)
  ∧ omap datagram_of (chosen s) ++ queue s = arrived s
  ∧ (recv_errors (chosen s) * RECV_ERROR_BACKOFF ≤ clock s - t0)%Z.

Lemma recv_errors_snoc ins i :
  recv_errors (ins ++ [i]) = (recv_errors ins + (if decide (i = RecvError) then 1 else 0))%Z.
Proof. unfold recv_errors. rewrite filter_app, length_app, filter_cons. case_decide; cbn; lia. Qed.

Lemma step_implements t0 s s' : step s s' → implements t0 s → implements t0 s'.
Proof.
  destruct 1; unfold implements, RECV_ERROR_BACKOFF; cbn; intros (-> & <- & Ht);
    rewrite ?foldl_app, ?omap_app, ?recv_errors_snoc, ?app_assoc; cbn -[decide]; rewrite <- ?app_assoc, ?app_nil_r;
    (split; [done|]); (split; [done|]); repeat case_decide; try lia; congruence.
Qed.

(** ** The ages of the entries *)

(** Every entry is younger than the lifetime before the last sweep, and none is of the
    future. *)
Definition fresh_entries (s : Loop) : Prop :=
  ∀ k e, aggregator (listener s) !! k = Some e →
    (next_tick s - AGGREGATION_SWEEP_INTERVAL - AGGREGATION_TTL < created_at e ≤ clock s)%Z.

(** An entry after a step of the listener was there, or is created by it. *)
Lemma record_entries key now mk (a : Aggregator) k e :
  fst (record key now mk a) !! k = Some e →
  (∃ e0, a !! k = Some e0 ∧ created_at e = created_at e0) ∨ created_at e = now.
Proof.
  unfold record. destruct (prune now a !! key) as [e1|] eqn:E; cbn [fst].
  - intros [[<- <-]|[_ [Hk _]%lookup_prune]]%lookup_insert_Some; left; [|by exists e].
    apply lookup_prune in E as [E _]. by exists e1.
  - case_decide; cbn [fst]; [intros [Hk _]%lookup_prune; left; by exists e|].
    intros [[<- <-]|[_ [Hk _]%lookup_prune]]%lookup_insert_Some; [by right|left; by exists e].
Qed.

Lemma datagram_entries l data now k e :
  aggregator (do_input l (Datagram data now)) !! k = Some e →
  (∃ e0, aggregator l !! k = Some e0 ∧ created_at e = created_at e0) ∨ created_at e = now.
Proof.
  cbn. destruct (parse_datagram data) as [p|]; [|left; by exists e].
  destruct (handle_payload _ _ _ _ _ _ _) as [a req] eqn:Eh. cbn [aggregator].
  unfold handle_payload in Eh.
  destruct (from_outcome _) as [reason|]; [|simplify_eq; left; by exists e].
  destruct client as [c|]; [|simplify_eq; left; by exists e].
  destruct (Events.namespace p) as [ns|], (Events.pod_name p) as [pn|], (Events.pod_uid p) as [pu|];
    try (simplify_eq; left; by exists e).
  destruct (_ || _); [simplify_eq; left; by exists e|].
  pose proof (record_entries (mkKey ns pu reason) now
    (λ _, event_name pu reason (Events.timestamp p)) (aggregator l) k e) as Hr.
  destruct (record _ now _ (aggregator l)) as [a' [r|]]; simplify_eq/=; exact Hr.
Qed.

Lemma step_fresh s s' : step s s' → (next_tick s - AGGREGATION_SWEEP_INTERVAL ≤ clock s)%Z →
  fresh_entries s →
  fresh_entries s' ∧ (next_tick s' - AGGREGATION_SWEEP_INTERVAL ≤ clock s')%Z.
Proof.
  destruct 1 as [| |l now tick data q ins ar busy Hb| |l now tick q ins ar Hd];
    unfold fresh_entries, AGGREGATION_SWEEP_INTERVAL, RECV_ERROR_BACKOFF; cbn -[listen_step]; intros Ht Hf;
    (split; [|lia]).
  - exact Hf.
  - intros k e Hk. specialize (Hf k e Hk). lia.
  - intros k e [(e0 & Hk & ->)| ->]%datagram_entries; [specialize (Hf k e0 Hk); lia|].
    unfold AGGREGATION_TTL. lia.
  - intros k e Hk. specialize (Hf k e Hk). lia.
  - intros k e [Hk Hage]%lookup_prune. specialize (Hf k e Hk). unfold duration_since in Hage. lia.
Qed.

Lemma reachable_fresh t0 s :
  rtc step (start t0) s →
  fresh_entries s ∧ (next_tick s - AGGREGATION_SWEEP_INTERVAL ≤ clock s)%Z.
Proof.
  revert s. apply (rtc_ind_r (λ s, fresh_entries s ∧ (next_tick s - AGGREGATION_SWEEP_INTERVAL ≤ clock s)%Z)).
  - split; [|unfold AGGREGATION_SWEEP_INTERVAL; cbn; lia]. intros k e Hk. cbn in Hk. by rewrite lookup_empty in Hk.
  - intros s s' _ Hst [Hf Ht]. by eapply step_fresh.
Qed.

(** A quiet stretch: time passes and the timer ticks, and nothing is received. *)
Definition quiet_step (s s' : Loop) : Prop := step s s' ∧ omap datagram_of (chosen s) = omap datagram_of (chosen s').

Lemma quiet_entries s s' :
  quiet_step s s' → ∀ k e, aggregator (listener s') !! k = Some e → aggregator (listener s) !! k = Some e.
Proof.
  intros [Hst Hq] k e. destruct Hst; cbn -[listen_step] in *; try done.
  - exfalso. rewrite omap_app in Hq. cbn in Hq. apply (f_equal length) in Hq. rewrite length_app in Hq. cbn in Hq. lia.
  - cbn. by intros [? _]%lookup_prune.
Qed.

Lemma quiet_run s s' :
  rtc quiet_step s s' →
  rtc step s s' ∧ ∀ k e, aggregator (listener s') !! k = Some e → aggregator (listener s) !! k = Some e.
Proof.
  induction 1 as [|s s1 s' Hq _ [IHs IH]]; [done|]. split; [eapply rtc_l; [apply Hq|done]|].
  intros k e Hk. by eapply quiet_entries, IH.
Qed.

(** Any number of sweep intervals can pass quietly. *)
Lemma quiet_cycles n : (0 ≤ lag)%Z → ∀ l now tick ins ar, (tick ≤ now)%Z →
  let t := (now + Z.of_nat n * AGGREGATION_SWEEP_INTERVAL)%Z in
  ∃ l' ins' tick', rtc quiet_step (mkLoop l now tick [] ins ar) (mkLoop l' t tick' [] ins' ar)
                   ∧ ((tick' ≤ t ≤ tick' + lag)%Z ∨ n = 0).
Proof.
  intros Hl. induction n as [|n IH]; intros l now tick ins ar Ht t.
  - exists l, ins, tick. replace t with now by (unfold t; lia). split; [done|by right].
  - set (l1 := do_input l (Tick now)). set (t1 := (now + AGGREGATION_SWEEP_INTERVAL)%Z).
    destruct (IH l1 t1 t1 (ins ++ [Tick now]) ar) as (l' & ins' & tick' & Hrun & Hb); [done|].
    replace (t1 + Z.of_nat n * AGGREGATION_SWEEP_INTERVAL)%Z with t in Hrun, Hb by (unfold t, t1; lia).
    assert (rtc quiet_step (mkLoop l now tick [] ins ar) (mkLoop l1 t1 t1 [] (ins ++ [Tick now]) ar)) as Hone.
    { eapply rtc_l; [split; [by apply ticks|]|]; [cbn; by rewrite omap_app, app_nil_r|].
      eapply rtc_once. split; [|done]. apply waits; unfold t1, AGGREGATION_SWEEP_INTERVAL; lia. }
    destruct Hb as [Hb| ->].
    + exists l', ins', tick'. split; [by etrans|by left].
    + exists l1, (ins ++ [Tick now]), t1. replace t with t1 by (unfold t, t1; lia). split; [done|left; lia].
Qed.

(** Past the lifetime, a quiet loop holds nothing. *)
Lemma quiet_forgets t0 s s' :
  rtc step (start t0) s → rtc quiet_step s s' →
  (clock s + AGGREGATION_TTL + AGGREGATION_SWEEP_INTERVAL + lag ≤ clock s')%Z →
  (clock s' ≤ next_tick s' + lag)%Z → aggregator (listener s') = ∅.
Proof.
  intros Hs [Hs' Hq]%quiet_run Hlong Hidle. apply map_empty. intros k.
  destruct (aggregator (listener s') !! k) as [e|] eqn:E; [exfalso|done].
  destruct (reachable_fresh t0 s Hs) as [Hf _]. pose proof (Hf k e (Hq k e E)) as [_ Hold].
  destruct (reachable_fresh t0 s') as [Hf' _]; [by etrans|]. pose proof (Hf' k e E) as [Hyoung _]. lia.
Qed.

End loop.

(** ** Properties *)

(** C38: the select loop is [run_listener] on the arrivals: however datagrams, failing
    [recv]s and ticks interleave and however long each request takes, the loop has
    done what [run_listener] does on the branches it chose; the datagrams it read
    and those still queued are the arrivals in order, none lost, repeated or
    overtaken, so its log depends on the arrivals alone; and a persistent
    [recv] error is retried at most once a second. *)
Theorem timed_loop_implements_listener rfc3339_opts {J : JsonText} srv env_client node post_events lag t0 s :
  rtc (step rfc3339_opts srv (if post_events : bool then env_client else None) node lag) (start t0) s →
  listener s = run_listener rfc3339_opts srv env_client node post_events (chosen s)
  ∧ (∃ read, arrived s = read ++ queue s
      ∧ logged (listener s) = log_capture <$> omap parse_datagram read)
  ∧ (recv_errors (chosen s) ≤ clock s - t0)%Z.
Proof.
  intros Hs. assert (implements rfc3339_opts srv (if post_events then env_client else None) node t0 s) as (Hl & Ha & He).
  { revert s Hs. apply rtc_ind_r.
    - split; [done|]. split; [done|]. unfold recv_errors. cbn. lia.
    - intros s s' _ Hst IH. by eapply step_implements. }
  split; [exact Hl|]. split; [|unfold RECV_ERROR_BACKOFF in He; lia].
  exists (omap datagram_of (chosen s)). split; [by rewrite Ha|]. rewrite Hl, logged_inputs. cbn [logged app].
  f_equal. clear. induction (chosen s) as [|[data now| |now] ins IH]; cbn; [done|..]; [|exact IH..].
  destruct (parse_datagram data); cbn; by f_equal.
Qed.

(** C36: a quiet daemon forgets: entries are aged by the timer alone, so when nothing
    arrives any more the aggregator is empty at the latest one lifetime and one
    sweep interval later (and the runtime's lag), and such a stretch exists from every
    reachable state whose queue is empty. *)
Theorem quiet_listener_forgets rfc3339_opts {J : JsonText} srv client node lag t0 s :
  (0 ≤ lag)%Z → rtc (step rfc3339_opts srv client node lag) (start t0) s → queue s = [] →
  (∀ s', rtc (quiet_step rfc3339_opts srv client node lag) s s' →
     (clock s + AGGREGATION_TTL + AGGREGATION_SWEEP_INTERVAL + lag ≤ clock s')%Z →
     (clock s' ≤ next_tick s' + lag)%Z → aggregator (listener s') = ∅)
  ∧ ∃ s', rtc (quiet_step rfc3339_opts srv client node lag) s s' ∧ aggregator (listener s') = ∅.
Proof.
  intros Hlag Hs Hq. split; [intros s' Hs'; by eapply quiet_forgets|].
  destruct s as [l now tick q ins ar]. cbn in Hq. subst q.
  set (now' := Z.max now tick).
  assert (rtc (quiet_step rfc3339_opts srv client node lag) (mkLoop l now tick [] ins ar)
            (mkLoop l now' tick [] ins ar)) as Hwait.
  { destruct (decide (tick ≤ now)%Z) as [Ht|Ht]; [replace now' with now by lia; done|].
    replace now' with (now + (tick - now))%Z by lia. apply rtc_once. split; [|done]. apply waits; lia. }
  destruct (quiet_cycles rfc3339_opts srv client node lag (13 + Z.to_nat lag) Hlag l now' tick ins ar)
    as (l' & ins' & tick' & Hrun & Hb); [lia|]. cbv zeta in Hrun, Hb.
  eexists. split; [by etrans|]. eapply quiet_forgets; [exact Hs|by etrans|..];
    cbn [clock next_tick]; unfold AGGREGATION_TTL, AGGREGATION_SWEEP_INTERVAL in *; lia.
Qed.

(** *** Witnesses: two reports, a failing socket and a sweep *)

Definition sample_data : bytes := text_to_vec (JsonText := token_text) (Obj (Events.ser_payload sample_payload)).
Abbreviation sample_step := (step (J := token_text) (λ _, Some (b! "t")) down (Some sample_client) (b! "node-1") 1).
Abbreviation sample_input := (listen_step (J := token_text) (λ _, Some (b! "t")) down (Some sample_client) (b! "node-1")).
Definition sample_chosen : list input := [Datagram sample_data 0; RecvError; Tick 31; Datagram sample_data 31].
Definition sample_loop : Loop :=
  mkLoop (foldl sample_input (mkListener ∅ [] []) sample_chosen) 31 331 [] sample_chosen
    [sample_data; sample_data].

Lemma sample_reached : rtc sample_step (start 0) sample_loop.
Proof.
  assert (∃ s, rtc sample_step (start 0) s ∧ s = sample_loop) as (s & Hs & <-); [|exact Hs].
  eexists. split.
  - eapply rtc_l; [apply (arrives _ _ _ _ _ _ _ _ _ _ _ sample_data)|].
    eapply rtc_l; [by apply (receives _ _ _ _ _ _ _ _ _ _ _ _ 30)|].
    eapply rtc_l; [apply (arrives _ _ _ _ _ _ _ _ _ _ _ sample_data)|].
    eapply rtc_l; [apply recv_fails|]. eapply rtc_l; [by apply ticks|].
    eapply rtc_once. by apply (receives _ _ _ _ _ _ _ _ _ _ _ _ 0).
  - reflexivity.
Qed.

Lemma timed_loop_implements_listener_witness :
  ∃ read, [sample_data; sample_data] = read ++ []
    ∧ logged (listener sample_loop) = log_capture <$> omap (parse_datagram (J := token_text)) read.
Proof.
  destruct (timed_loop_implements_listener (J := token_text) (λ _, Some (b! "t")) down (Some sample_client)
    (b! "node-1") true 1 0 sample_loop) as (_ & Hr & _); [apply sample_reached|exact Hr].
Defined.

Lemma quiet_listener_forgets_witness :
  ∃ s', rtc (quiet_step (J := token_text) (λ _, Some (b! "t")) down (Some sample_client) (b! "node-1") 1)
          sample_loop s' ∧ aggregator (listener s') = ∅.
Proof.
  apply (quiet_listener_forgets (J := token_text) (λ _, Some (b! "t")) down (Some sample_client) (b! "node-1")
    1 0 sample_loop); [done|apply sample_reached|reflexivity].
Defined.

End ListenTime.
