(* ===== verification/Daemon.v ===== *)
(** * [src/main.rs]: the daemon and the entry point

    Argument dispatch, the config the daemon derives from its flags, and its
    startup and shutdown over the socket, the config file and the kernel. *)

From S2P Require Import Prelude RustStr RateLimit Backend Upload Json Events.
From S2P Require Import Config Crictl CorePattern K8sEvents Snapshot Handler.
Import Json.

Module Daemon.

Definition DEFAULT_HANDLER_PATH : bytes := b! "/opt/coredrop/bin/coredrop".

Record DaemonArgs := mkArgs {
  handler_path : bytes;
  config_path : bytes;
  cluster : bytes;
  no_redact : bool;
  proc_root : bytes;
  store_url : option bytes;
  crictl_path : bytes;
  cri_runtime_endpoint : option bytes;
  max_core_bytes : Z;
  max_cores_per_hour : Z;
  upload_deadline_secs : Z;
  crictl_timeout_secs : Z;
  no_events : bool;
  pipe_limit : Z;
  node_name : option bytes;
  core_pattern_path : bytes;
  core_pipe_limit_path : bytes;
}.

(** The flag defaults. *)
Definition default_args : DaemonArgs :=
  mkArgs DEFAULT_HANDLER_PATH Config.DEFAULT_CONFIG_PATH Config.DEFAULT_CLUSTER false
    Config.DEFAULT_PROC_ROOT None Config.DEFAULT_CRICTL_PATH None Config.DEFAULT_MAX_CORE_BYTES
    Config.DEFAULT_MAX_CORES_PER_HOUR Config.DEFAULT_UPLOAD_DEADLINE_SECS
    Config.DEFAULT_CRICTL_TIMEOUT_SECS false CorePattern.DEFAULT_PIPE_LIMIT None
    CorePattern.CORE_PATTERN_PATH CorePattern.CORE_PIPE_LIMIT_PATH.

Definition nonempty (s : option bytes) : option bytes :=
  s ← s; if decide (s = []) then None else Some s.

Definition to_handler_config (env : list (bytes * bytes)) (self : DaemonArgs)
    : Backend.outcome Config.HandlerConfig :=
  match Upload.store_options_from_env env with
  | Backend.Panic => Backend.Panic
  | Backend.Ret store_options =>
      Backend.Ret (Config.mkConfig (cluster self) (no_redact self) (proc_root self)
        (nonempty (store_url self)) store_options (crictl_path self) (cri_runtime_endpoint self)
        (max_core_bytes self) (max_cores_per_hour self) (upload_deadline_secs self)
        (crictl_timeout_secs self) (Config.rate_state_path_for (config_path self))
        (Some (Config.event_socket_path_for (config_path self))))
  end.

(** ** [main]: the mode of an invocation *)

Inductive Mode := Capture (rest : list bytes) | Check | RunDaemon.

(** [argv] after the binary's name; a first argument that is not UTF-8 is the
    daemon's to reject. *)
Definition dispatch (argv : list bytes) : Mode :=
  match argv with
  | [] => RunDaemon
  | a :: rest =>
      match from_utf8 a with
      | Some s => if decide (s = b! "capture") then Capture rest
                  else if decide (s = b! "check") then Check else RunDaemon
      | None => RunDaemon
      end
  end.

Definition env_path (env : bytes → option bytes) (key dflt : bytes) : bytes :=
  default dflt (env key).

(** The config a capture runs with. *)
Definition capture_config {Url} (url_parse : bytes → option Url)
    (scheme_parse : Url → option Upload.Scheme) {J : JsonText} (fs : Config.ConfigFs)
    : Config.HandlerConfig :=
  default Config.default_config (Config.read url_parse scheme_parse fs).

(** ** [run_daemon] *)

(** What the daemon acts on. *)
Record World := mkWorld {
  sock : K8sEvents.SockFs;
  conf : Config.ConfigFs;
  kernel : CorePattern.Kernel;
}.

Record Faults := mkFaults {
  bind_fault : K8sEvents.bind_step → bool;
  write_fault : Config.faults;
}.
Definition no_faults : Faults := mkFaults (λ _, false) Config.no_faults.

Section daemon.
Context {J : JsonText} (umask_mode : Z).

(** Until the listener runs: bind, write, install, in this order. *)
Definition start (fl : Faults) (config : Config.HandlerConfig) (args : DaemonArgs) (w : World)
    : World * result CorePattern.CorePatternGuard (list bytes) :=
  let socket_path := Config.event_socket_path_for (config_path args) in
  match K8sEvents.bind_socket (bind_fault fl) umask_mode socket_path (sock w) with
  | (s, Err _) => (mkWorld s (conf w) (kernel w),
                   Err [b! "binding capture event socket " ++ socket_path])
  | (s, Ok _) =>
      match Config.write (write_fault fl) config (config_path args) (conf w) with
      | (c, Err e) => (mkWorld s c (kernel w), Err e)
      | (c, Ok _) =>
          match CorePattern.install_at (handler_path args) (pipe_limit args) (kernel w) with
          | (k, Err e) => (mkWorld s c k, Err e)
          | (k, Ok guard) => (mkWorld s c k, Ok guard)
          end
      end
  end.

(** The node name events are reported under. *)
Definition node_of (fs : Snapshot.Fs) (args : DaemonArgs) : bytes :=
  match nonempty (node_name args) with
  | Some n => n
  | None => Handler.node_hostname fs
  end.

(** When the guard drops, at the end of [run_daemon]. *)
Definition shutdown (g : CorePattern.CorePatternGuard) (w : World) : World :=
  mkWorld (sock w) (conf w) (CorePattern.restore g (kernel w)).

(** *** [shutdown_signal] *)

Inductive SignalKind := Terminate | Interrupt.
#[global] Instance signal_kind_eq_dec : EqDecision SignalKind.
Proof. solve_decision. Defined.
(** What reaches the daemon: a signal it handles, or a [SIGKILL]. *)
Inductive Arrival := Signal (k : SignalKind) | Kill.
#[global] Instance arrival_eq_dec : EqDecision Arrival.
Proof. solve_decision. Defined.
(** The daemon still waits, was killed (nothing of it runs any more), or went on. *)
Inductive Wait := Waiting | WasKilled | Returned (r : result unit (list bytes)).

(** When signals arrive: before the handler of [SIGTERM] is registered, between that and
    the handler of [SIGINT], and from then on. *)
Record Signals := mkSignals {
  sg_register : SignalKind → result unit bytes;
  sg_before : list Arrival;
  sg_between : list Arrival;
  sg_arrivals : list Arrival;
  sg_init : bool;    (** the daemon is the init process of its pid namespace *)
}.

(** The default action of a signal without a handler: it ends the process, unless that is
    an init process, for which the kernel drops it. *)
Definition fatal (init : bool) (a : Arrival) : bool :=
  match a with Kill => true | Signal _ => negb init end.

Definition shutdown_signal (sg : Signals) : Wait :=
  if existsb (fatal (sg_init sg)) (sg_before sg) then WasKilled else
  match sg_register sg Terminate with
  | Err e => Returned (Err [e])
  | Ok _ =>
      (* a [SIGTERM] is kept for [term.recv] from here on *)
      let terms := filter (λ a, a = Signal Terminate) (sg_between sg) in
      let others := filter (λ a, a ≠ Signal Terminate) (sg_between sg) in
      if existsb (fatal (sg_init sg)) others then WasKilled else
      match sg_register sg Interrupt with
      | Err e => Returned (Err [e])
      | Ok _ => match terms ++ sg_arrivals sg with
                | [] => Waiting
                | Kill :: _ => WasKilled
                | Signal _ :: _ => Returned (Ok tt)
                end
      end
  end.

(** *** The whole of it *)

Inductive Warning := PlaintextEndpoint | CriSocketMissing (socket : bytes).

(** The warnings logged before anything is touched. *)
Definition startup_warnings (exists_ : bytes → bool) (config : Config.HandlerConfig) : list Warning :=
  (if bool_decide (is_Some (Config.store_url config))
      && Upload.is_plaintext_endpoint (Config.store_options config) then [PlaintextEndpoint] else [])
  ++ match Config.cri_runtime_endpoint config with
     | None => []
     | Some endpoint =>
         match Crictl.unix_socket_path endpoint with
         | Some socket => if exists_ socket then [] else [CriSocketMissing socket]
         | None => []
         end
     end.

(** What a daemon meets while it runs: how its socket, its API server and its signals
    behave, and what it receives before it ends. *)
Record Surroundings := mkSurroundings {
  s_exists : bytes → bool;                        (** [Path::exists] *)
  s_proc : Snapshot.Fs;
  s_rfc3339_opts : Z → option bytes;
  s_api : K8sEvents.call → result (Z * bytes) bytes;
  s_client : option K8sEvents.EventClient;        (** [EventClient::from_env] *)
  s_inputs : list K8sEvents.input;
  s_signals : Signals;
}.

Record DaemonRun := mkRun {
  d_world : World;
  d_warnings : list Warning;
  d_listener : option K8sEvents.Listener;
  d_wait : Backend.outcome Wait;
}.

Definition run_daemon (fl : Faults) (env : list (bytes * bytes)) (args : DaemonArgs) (x : Surroundings)
    (w : World) : DaemonRun :=
  match to_handler_config env args with
  | Backend.Panic => mkRun w [] None Backend.Panic
  | Backend.Ret config =>
      let warnings := startup_warnings (s_exists x) config in
      match start fl config args w with
      | (w, Err e) => mkRun w warnings None (Backend.Ret (Returned (Err e)))
      | (w, Ok guard) =>
          let listener := K8sEvents.run_listener (s_rfc3339_opts x) (s_api x) (s_client x)
                            (node_of (s_proc x) args) (negb (no_events args)) (s_inputs x) in
          match shutdown_signal (s_signals x) with
          | Returned r => mkRun (shutdown guard w) warnings (Some listener) (Backend.Ret (Returned r))
          | e => mkRun w warnings (Some listener) (Backend.Ret e)
          end
      end
  end.

End daemon.

(** ** Lemmas *)

Lemma bind_ok fault umask path fs fs' :
  K8sEvents.bind_socket fault umask path fs = (fs', Ok tt) →
  K8sEvents.at_sock fs' = Some (K8sEvents.Sock K8sEvents.EVENT_SOCKET_MODE).
Proof.
  unfold K8sEvents.bind_socket. intros H.
  repeat (destruct_cond; simplify_eq/=; try done).
Qed.

Lemma install_changes h limit k k' r :
  CorePattern.install_at h limit k = (k', r) →
  match r with Ok _ => True | Err _ => k' = k end.
Proof.
  unfold CorePattern.install_at. intros H. repeat (destruct_cond; simplify_eq/=; try done).
Qed.

(** The paths of a config are beside the config file. *)
Lemma to_handler_config_socket env args config :
  to_handler_config env args = Backend.Ret config →
  Config.event_socket_path config = Some (Config.event_socket_path_for (config_path args)).
Proof. unfold to_handler_config. destruct (Upload.store_options_from_env env); [done|]. by intros [= <-]. Qed.

(** A startup that fails leaves the sysctls alone. *)
Lemma start_failed {J : JsonText} umask fl config args w w' e :
  start umask fl config args w = (w', Err e) → kernel w' = kernel w.
Proof.
  unfold start. destruct (K8sEvents.bind_socket _ _ _ _) as [s [[]|e']] eqn:Eb; [|by intros [= <- <-]].
  destruct (Config.write _ _ _ _) as [c [[]|e']] eqn:Ew; [|by intros [= <- <-]].
  destruct (CorePattern.install_at _ _ _) as [k [g'|e']] eqn:Ei; intros [= <- <-].
  by apply install_changes in Ei.
Qed.

(** What a successful startup leaves. *)
Lemma start_inv {J : JsonText} umask fl config args w w' g :
  start umask fl config args w = (w', Ok g) →
  K8sEvents.at_sock (sock w') = Some (K8sEvents.Sock K8sEvents.EVENT_SOCKET_MODE)
  ∧ (∃ v, Config.ser_config config = Some v
          ∧ Config.at_path (conf w') = Some (Config.File (text_to_vec_pretty v) 384))
  ∧ CorePattern.install_at (handler_path args) (pipe_limit args) (kernel w) = (kernel w', Ok g).
Proof.
  unfold start. destruct (K8sEvents.bind_socket _ _ _ _) as [s [[]|e]] eqn:Eb; [|done].
  destruct (Config.write _ _ _ _) as [c [[]|e]] eqn:Ew; [|done].
  destruct (CorePattern.install_at _ _ _) as [k [g'|e]] eqn:Ei; [|done]. intros [= <- <-].
  cbn [sock conf kernel]. split; [by eapply bind_ok|]. split; [|done].
  apply Config.write_inv in Ew as (_ & v & Hv & Hp & _). eauto.
Qed.

(** Once the daemon wrote it, a handler that finds it reads it back, or rejects it. *)
Lemma started_config_reads {J : JsonText} {JL : JsonTextLaws J} {Url}
    (url_parse : bytes → option Url) (scheme_parse : Url → option Upload.Scheme)
    umask fl config args w w' g :
  Config.config_ok config → start umask fl config args w = (w', Ok g) →
  capture_config url_parse scheme_parse (conf w')
  = match Config.validate url_parse scheme_parse config with
    | Ok _ => config | Err _ => Config.default_config end.
Proof.
  intros Hok (_ & (v & Hv & Hp) & _)%start_inv. unfold capture_config.
  rewrite (Config.stored_config_read url_parse scheme_parse config v _ _ Hok Hv Hp).
  by destruct (Config.validate _ _ config).
Qed.

(** ** Properties *)

(** C17: the node gets its sysctls back whichever way the daemon returns. A startup step
    that fails leaves the kernel as it was. After a startup that succeeded, a signal
    handler that cannot be installed and a termination signal alike put the previous
    core pattern back (the kernel's default [core] when the previous one already was
    this handler's, left by a daemon that was killed) and, if it could be read and was
    not empty, the previous pipe limit. For as long as the daemon has not returned,
    or when it was killed, which a signal before its handlers are registered does as
    well, the kernel is pointed at the handler while the event socket and the config are
    in place. A daemon that panics (on an environment variable that is not UTF-8) has
    touched nothing. *)
Theorem run_daemon_restores {J : JsonText} umask fl env args x w :
  let run := run_daemon umask fl env args x w in
  match d_wait run with
  | Backend.Panic => d_world run = w
  | Backend.Ret (Returned _) =>
      if decide (d_listener run = None) then kernel (d_world run) = kernel w
      else
        (∃ prev, CorePattern.value (CorePattern.pattern (kernel w)) = Some prev
           ∧ CorePattern.pattern (kernel (d_world run))
             = CorePattern.mkSysctl (CorePattern.s_path (CorePattern.pattern (kernel w)))
                 (Some (if decide (trim_end prev = CorePattern.build_pattern (handler_path args))
                        then b! "core" else prev)) true)
        ∧ ∀ prev_limit,
            CorePattern.sysctl_read (CorePattern.pipe_limit (kernel w)) = Some prev_limit →
            prev_limit ≠ [] →
            CorePattern.pipe_limit (kernel (d_world run)) = CorePattern.pipe_limit (kernel w)
  | Backend.Ret (Waiting | WasKilled) =>
      CorePattern.sysctl_read (CorePattern.pattern (kernel (d_world run)))
        = Some (CorePattern.build_pattern (handler_path args))
      ∧ K8sEvents.at_sock (sock (d_world run)) = Some (K8sEvents.Sock K8sEvents.EVENT_SOCKET_MODE)
      ∧ ∃ config v, to_handler_config env args = Backend.Ret config
          ∧ Config.ser_config config = Some v
          ∧ Config.at_path (conf (d_world run)) = Some (Config.File (text_to_vec_pretty v) 384)
  end.
Proof.
  intros run. unfold run, run_daemon. clear run.
  destruct (to_handler_config env args) as [|config]; [done|].
  destruct (start umask fl config args w) as [w' [g|e]] eqn:Es.
  - destruct (start_inv _ _ _ _ _ _ _ Es) as (Hsock & (v & Hv & Hp) & Hi).
    pose proof (CorePattern.install_inv _ _ _ _ _ Hi) as [(prev & Hprev & _) Hpat].
    destruct (shutdown_signal _); cbn [d_wait d_world d_listener];
      [by split_and!; try by exists config, v..|].
    rewrite decide_False by done. cbn [shutdown kernel].
    rewrite (CorePattern.restore_spec _ _ _ _ _ _ Hi Hprev). cbn [CorePattern.pattern CorePattern.pipe_limit].
    split.
    + exists prev. split; [done|]. unfold CorePattern.restored, CorePattern.KERNEL_DEFAULT_PATTERN.
      by destruct (decide (trim_end prev = _)) as [E|E];
        [rewrite bool_decide_true|rewrite bool_decide_false].
    + intros [|c l] -> ?; done.
  - cbn [d_wait d_world d_listener]. rewrite decide_True by done. by apply start_failed in Es.
Qed.

(** The kernel is pointed at the handler last: whichever step of the startup fails,
    the sysctls are only changed when the event socket is bound (mode 0600) and
    the complete new config is in place, so no handler ever runs without them. *)
Theorem startup_installs_last {J : JsonText} umask fl config args w w' r :
  start umask fl config args w = (w', r) →
  kernel w' = kernel w
  ∨ (K8sEvents.at_sock (sock w') = Some (K8sEvents.Sock K8sEvents.EVENT_SOCKET_MODE)
     ∧ ∃ v, Config.ser_config config = Some v
            ∧ Config.at_path (conf w') = Some (Config.File (text_to_vec_pretty v) 384)).
Proof.
  intros Hs. destruct r as [g|e]; [|left; by eapply start_failed].
  right. apply start_inv in Hs as (? & ? & _). by split.
Qed.

Definition fresh_world : World :=
  mkWorld (K8sEvents.mkSockFs None (Some K8sEvents.OtherFile)) (Config.mkFs None None None ∅)
    (CorePattern.mkKernel (CorePattern.mkSysctl CorePattern.CORE_PATTERN_PATH (Some (b! "core")) true)
                          (CorePattern.mkSysctl CorePattern.CORE_PIPE_LIMIT_PATH (Some (b! "0")) true)).

(** The sample daemon runs, stops on a signal, or cannot handle signals. *)
Definition sample_surroundings (register : SignalKind → result unit bytes) (arrivals : list Arrival)
    : Surroundings :=
  mkSurroundings (λ _, true) Handler.sample_proc (λ _, None) (λ _, Err (b! "down")) None []
    (mkSignals register [] [] arrivals false).

(** What the sample daemon derives from its flags. *)
Definition default_handler_config : Config.HandlerConfig :=
  Config.mkConfig Config.DEFAULT_CLUSTER false Config.DEFAULT_PROC_ROOT None []
    Config.DEFAULT_CRICTL_PATH None Config.DEFAULT_MAX_CORE_BYTES Config.DEFAULT_MAX_CORES_PER_HOUR
    Config.DEFAULT_UPLOAD_DEADLINE_SECS Config.DEFAULT_CRICTL_TIMEOUT_SECS
    (Config.rate_state_path_for Config.DEFAULT_CONFIG_PATH)
    (Some (Config.event_socket_path_for Config.DEFAULT_CONFIG_PATH)).

Example default_handler_config_derived :
  to_handler_config [] default_args = Backend.Ret default_handler_config.
Proof. reflexivity. Qed.

(** A node whose pattern a killed daemon left behind. *)
Definition orphaned_world : World :=
  mkWorld (sock fresh_world) (conf fresh_world)
    (CorePattern.mkKernel
       (CorePattern.mkSysctl CorePattern.CORE_PATTERN_PATH
          (Some (CorePattern.build_pattern DEFAULT_HANDLER_PATH)) true)
       (CorePattern.pipe_limit (kernel fresh_world))).

(** A signal ends the daemon while its handlers are not there yet, unless it runs as an
    init process; in between a [SIGTERM] is kept. *)
Example early_signals :
  (λ '(before, between, init),
     shutdown_signal (mkSignals (λ _, Ok tt) before between [] init))
    <$> [([Signal Terminate], [], false); ([Signal Terminate], [], true); ([], [Signal Terminate], false);
         ([], [Signal Interrupt], false); ([], [Signal Interrupt], true)]
  = [WasKilled; Waiting; Returned (Ok tt); WasKilled; Waiting].
Proof. reflexivity. Qed.

Lemma run_daemon_restores_witness :
  let run x := run_daemon (J := token_text) 420 no_faults [] default_args x in
  let term := sample_surroundings (λ _, Ok tt) [Signal Terminate] in
  CorePattern.value (CorePattern.pattern (kernel (d_world (run term fresh_world)))) = Some (b! "core")
  ∧ CorePattern.value (CorePattern.pattern (kernel (d_world (run term orphaned_world)))) = Some (b! "core").
Proof.
  split.
  - destruct (run_daemon_restores (J := token_text) 420 no_faults [] default_args
      (sample_surroundings (λ _, Ok tt) [Signal Terminate]) fresh_world) as [(prev & [= <-] & Hp) _].
    exact (f_equal CorePattern.value Hp).
  - destruct (run_daemon_restores (J := token_text) 420 no_faults [] default_args
      (sample_surroundings (λ _, Ok tt) [Signal Terminate]) orphaned_world) as [(prev & [= <-] & Hp) _].
    exact (f_equal CorePattern.value Hp).
Defined.

Lemma startup_installs_last_witness :
  let w' := fst (start (J := token_text) 420 no_faults default_handler_config default_args fresh_world) in
  kernel w' = kernel fresh_world
  ∨ (K8sEvents.at_sock (sock w') = Some (K8sEvents.Sock K8sEvents.EVENT_SOCKET_MODE)
     ∧ ∃ v, Config.ser_config default_handler_config = Some v
            ∧ Config.at_path (conf w')
              = Some (Config.File (text_to_vec_pretty (JsonText := token_text) v) 384)).
Proof.
  apply (startup_installs_last (J := token_text) 420 no_faults default_handler_config default_args
           fresh_world _
           (snd (start (J := token_text) 420 no_faults default_handler_config default_args fresh_world))).
  apply surjective_pairing.
Defined.

(** A daemon that started passes its own probe, if the handler accepts its config: after a
    successful startup the health check finds the pattern, reads back the very config the
    daemon wrote, and sees the socket. *)
Theorem started_daemon_is_healthy {J : JsonText} {JL : JsonTextLaws J} {Url}
    (url_parse : bytes → option Url) (scheme_parse : Url → option Upload.Scheme)
    umask fl env config args w w' g exists_ :
  to_handler_config env args = Backend.Ret config → Config.config_ok config →
  Config.validate url_parse scheme_parse config = Ok tt →
  start umask fl config args w = (w', Ok g) →
  exists_ (Config.event_socket_path_for (config_path args))
    = bool_decide (is_Some (K8sEvents.at_sock (sock w'))) →
  Config.read url_parse scheme_parse (conf w') = Some config
  ∧ CorePattern.check url_parse scheme_parse exists_ (handler_path args) (config_path args)
      (core_pattern_path args) (kernel w') (conf w') = Ok tt.
Proof.
  intros Hconf Hok Hval Hs Hex.
  destruct (start_inv _ _ _ _ _ _ _ Hs) as (Hsock & (v & Hv & Hp) & [_ Hpat]%CorePattern.install_inv).
  pose proof (Config.stored_config_reads url_parse scheme_parse config v _ _ Hok Hval Hv Hp) as Hread.
  split; [done|]. unfold CorePattern.check.
  rewrite Hread, Hpat, CorePattern.trim_build_pattern, decide_False by auto.
  by rewrite (to_handler_config_socket _ _ _ Hconf), Hex, Hsock.
Qed.

Example sample_daemon_is_healthy :
  let w' := fst (start (J := token_text) 420 no_faults default_handler_config default_args fresh_world) in
  CorePattern.check (J := token_text) Some Config.toy_scheme (λ _, true) DEFAULT_HANDLER_PATH
    Config.DEFAULT_CONFIG_PATH CorePattern.CORE_PATTERN_PATH (kernel w') (conf w') = Ok tt.
Proof. vm_compute. reflexivity. Qed.

(** One variable that is not text stops the daemon before it touches anything. *)
Example non_utf8_environment_panics :
  let run := run_daemon (J := token_text) 420 no_faults [(b! "HOSTNAME", [xff])] default_args
               (sample_surroundings (λ _, Ok tt) []) fresh_world in
  d_wait run = Backend.Panic ∧ d_world run = fresh_world.
Proof. done. Qed.

(** The kernel's invocation is a capture whatever file name the workload chose. *)
Example dispatch_capture :
  dispatch [b! "capture"; b! "42"; b! "11"; b! "1749600000"; [xff; xfe]]
  = Capture [b! "42"; b! "11"; b! "1749600000"; [xff; xfe]].
Proof. reflexivity. Qed.

(** A relative config path makes a config every handler rejects: the daemon starts, the
    handler falls back to the defaults and stores nothing. *)
Example relative_config_path_rejected :
  match to_handler_config [] (mkArgs DEFAULT_HANDLER_PATH (b! "conf/handler.json") (b! "local") false
          (b! "/proc") None (b! "/usr/local/bin/crictl") None 0 0 0 0 false 128 None
          CorePattern.CORE_PATTERN_PATH CorePattern.CORE_PIPE_LIMIT_PATH) with
  | Backend.Ret config => Config.validate Some Config.toy_scheme config
  | Backend.Panic => Ok tt
  end = Err [b! "rate_state_path must be absolute: conf/recent.json"].
Proof. reflexivity. Qed.

(** C11: from the kernel to the log: whatever arguments the kernel passed and however the
    capture ended, a handler that returns and whose socket accepts the datagram sends
    exactly one, and the daemon that receives it, after any other traffic, logs exactly
    the payload the handler reported (as long as it fits the receive buffer). *)
Theorem capture_reaches_log {W} `{Backend.ObjectStore W} {OL : Backend.ObjectStoreLaws W}
    {B : Upload.BufWriter W} {BL : Upload.BufWriterLaws W} {Zs : Upload.Zstd} {ZL : Upload.ZstdLaws Zs}
    {P : Upload.ObjectPath} {J : JsonText} {JL : JsonTextLaws J} {T : Snapshot.Tar}
    {C : RateLimit.StateCodec} env argv args config core_in ov (s s' : Handler.State W) r path
    rfc3339_opts srv env_client node post_events inputs now :
  Handler.parse argv = Ok args → is_utf8 (Config.cluster config) = true →
  (0 ≤ Config.max_core_bytes config ≤ u64_max)%Z →
  (Z.of_nat (length (fst (Backend.delivered (Handler.deadline_of config) core_in))) ≤ u64_max)%Z →
  Config.event_socket_path config = Some path → Handler.env_send_fault env = None →
  Handler.run env args config core_in ov s = (s', Backend.Ret r) →
  (∀ e, r = Err e → Forall (λ x, is_utf8 x = true) e) →
  ∃ p data, Handler.summary s' = Handler.summary s ++ [p]
    ∧ Handler.socket s' = Handler.socket s ++ [(path, data)]
    ∧ ((Z.of_nat (length data) ≤ K8sEvents.RECV_BUF)%Z →
       K8sEvents.logged (K8sEvents.run_listener rfc3339_opts srv env_client node post_events
                           (inputs ++ [K8sEvents.Datagram data now]))
       = K8sEvents.logged (K8sEvents.run_listener rfc3339_opts srv env_client node post_events inputs)
         ++ [K8sEvents.log_capture p]).
Proof.
  intros Hargs%Handler.parse_args_ok Hcl Hm Hl Hpath Hfault Hrun He.
  destruct (Handler.run_report_ok env args config Hargs Hcl core_in ov s s' r Hm Hl Hrun He)
    as (p & Hsum & Hok & Hsock).
  rewrite Hpath, Hfault in Hsock. eexists p, _. split; [done|]. split; [exact Hsock|].
  intros Hlen. by apply K8sEvents.listener_logs_next, K8sEvents.datagram_parses.
Qed.

(** A capture, and its datagram at a daemon without
    API access. *)
Definition sample_capture : Handler.State Upload.Mem.store * Backend.outcome (result unit Backend.error) :=
  Handler.run (J := token_text) (T := Snapshot.MemTar.mem_tar) (C := RateLimit.decimal_codec)
    Handler.sample_env Handler.sample_args Config.sample_config
    [Backend.Avail (Backend.InTime (b! "core"))] false Handler.sample_state.

Lemma capture_reaches_log_witness :
  ∃ p data, Handler.summary (fst sample_capture) = [p]
    ∧ Handler.socket (fst sample_capture) = [(Config.default_event_socket_path, data)]
    ∧ ((Z.of_nat (length data) ≤ K8sEvents.RECV_BUF)%Z →
       K8sEvents.logged (K8sEvents.run_listener (J := token_text) (λ _, None)
         (λ _, Err (b! "down")) None (b! "node") true ([K8sEvents.RecvError] ++ [K8sEvents.Datagram data 0]))
       = [K8sEvents.log_capture p]).
Proof.
  apply (capture_reaches_log (W := Upload.Mem.store) (J := token_text) (JL := token_text_laws)
    (T := Snapshot.MemTar.mem_tar) (C := RateLimit.decimal_codec) Handler.sample_env
    [b! "7"; b! "11"; b! "1749600000"; b! "!usr!bin!app"] Handler.sample_args
    Config.sample_config [Backend.Avail (Backend.InTime (b! "core"))] false
    Handler.sample_state (fst sample_capture) (Ok tt) Config.default_event_socket_path).
  - vm_compute. reflexivity.
  - reflexivity.
  - done.
  - done.
  - reflexivity.
  - reflexivity.
  - fold sample_capture. rewrite (surjective_pairing sample_capture) at 1. apply (f_equal (pair _)).
    vm_compute. reflexivity.
  - done.
Defined.

(** The datagram of that run fits the buffer, so the daemon does log it. *)
Example sample_capture_fits :
  forallb (λ '(_, data), (Z.of_nat (length data) <=? K8sEvents.RECV_BUF)%Z)
    (Handler.socket (fst sample_capture)) = true.
Proof. vm_compute. reflexivity. Qed.

End Daemon.
