(* ===== verification/Main.v ===== *)
(** * [src/main.rs]: the node

    [main] in its three modes, on the state its processes share: the config file
    the daemon writes and the handler reads, the sysctls, the event socket and
    what the handler leaves behind. *)

From stdpp Require Import functions.
From S2P Require Import Prelude RustStr RateLimit Backend Upload Json Events Manifest Config CorePattern K8sEvents Snapshot Handler Daemon.
Import Json Backend Upload.

Module Main.

(** What the processes of a node act on; the config files by path. *)
Record Node (W : Type) := mkNode {
  n_sock : K8sEvents.SockFs;
  n_configs : bytes → Config.ConfigFs;
  n_kernel : CorePattern.Kernel;
  n_handler : Handler.State W;
}.
Arguments mkNode {W} _ _ _ _.
Arguments n_sock {W} _.
Arguments n_configs {W} _ _.
Arguments n_kernel {W} _.
Arguments n_handler {W} _.

(** How an invocation ends. *)
Inductive Exit :=
  | Exits (r : result unit (list bytes))      (** [main] returned *)
  | Panics
  | Usage                                     (** the flag parser printed its usage *)
  | Stays (e : Daemon.Wait).                  (** the daemon waits, or was killed *)

(** [std::env::var_os] *)
Definition var_os (env : list (bytes * bytes)) (key : bytes) : option bytes :=
  '(_, kv) ← list_find (λ kv, kv.1 = key) env; Some kv.2.

Section main.
Context {W : Type} `{ObjectStore W} {B : BufWriter W} {Zs : Zstd} {P : ObjectPath}
  {J : JsonText} {T : Snapshot.Tar} {C : RateLimit.StateCodec}.
(** The flag parser, the system the handler runs on, and what the daemon meets. *)
Context (clap_parse : list bytes → list (bytes * bytes) → option Daemon.DaemonArgs)
  (henv : Handler.Env) (umask_mode : Z) (fl : Daemon.Faults) (x : Daemon.Surroundings).

(** The config a handler invoked in this environment runs with. *)
Definition handler_config (env : list (bytes * bytes)) (n : Node W) : Config.HandlerConfig :=
  let l := Handler.env_lib henv in
  Daemon.capture_config (Handler.lib_url_parse l) (Handler.lib_scheme l)
    (n_configs n (Daemon.env_path (var_os env) (b! "CAPTURE_CONFIG_PATH") Config.DEFAULT_CONFIG_PATH)).

Definition capture (rest : list bytes) (env : list (bytes * bytes)) (stdin : pipe) (n : Node W)
    : Node W * Exit :=
  match Handler.parse rest with
  | Err e => (n, Exits (Err e))
  | Ok args =>
      let '(h, out) := Handler.run henv args (handler_config env n) stdin false (n_handler n) in
      (mkNode (n_sock n) (n_configs n) (n_kernel n) h,
       match out with Ret r => Exits r | Panic => Panics end)
  end.

Definition check (env : list (bytes * bytes)) (n : Node W) : result unit (list bytes) :=
  let l := Handler.env_lib henv in
  let config_path := Daemon.env_path (var_os env) (b! "CAPTURE_CONFIG_PATH") Config.DEFAULT_CONFIG_PATH in
  CorePattern.check (Handler.lib_url_parse l) (Handler.lib_scheme l) (Daemon.s_exists x)
    (Daemon.env_path (var_os env) (b! "CAPTURE_HANDLER_PATH") Daemon.DEFAULT_HANDLER_PATH)
    config_path
    (Daemon.env_path (var_os env) (b! "CAPTURE_CORE_PATTERN_PATH") CorePattern.CORE_PATTERN_PATH)
    (n_kernel n) (n_configs n config_path).

(** The node as the daemon with these flags sees it, and the node after it. *)
Definition daemon_world (args : Daemon.DaemonArgs) (n : Node W) : Daemon.World :=
  Daemon.mkWorld (n_sock n) (n_configs n (Daemon.config_path args)) (n_kernel n).
Definition after_daemon (args : Daemon.DaemonArgs) (w : Daemon.World) (n : Node W) : Node W :=
  mkNode (Daemon.sock w) (<[Daemon.config_path args := Daemon.conf w]> (n_configs n))
    (Daemon.kernel w) (n_handler n).

Definition daemon (args : Daemon.DaemonArgs) (env : list (bytes * bytes)) (n : Node W) : Node W * Exit :=
  let run := Daemon.run_daemon umask_mode fl env args x (daemon_world args n) in
  (after_daemon args (Daemon.d_world run) n,
   match Daemon.d_wait run with
   | Panic => Panics
   | Ret (Daemon.Returned r) => Exits r
   | Ret e => Stays e
   end).

Definition main (argv : list bytes) (env : list (bytes * bytes)) (stdin : pipe) (n : Node W)
    : Node W * Exit :=
  match Daemon.dispatch argv with
  | Daemon.Capture rest => capture rest env stdin n
  | Daemon.Check => (n, Exits (check env n))
  | Daemon.RunDaemon =>
      match clap_parse argv env with
      | None => (n, Usage)
      | Some args => daemon args env n
      end
  end.

End main.

(** ** Lemmas *)

Lemma config_insert {A} (f : bytes → A) p q v : (<[p := v]> f) q = if decide (p = q) then v else f q.
Proof. unfold insert, fn_insert. by case_decide. Qed.

Section facts.
Context {W : Type} `{ObjectStore W} {OL : ObjectStoreLaws W} {B : BufWriter W} {BL : BufWriterLaws W}
  {Zs : Zstd} {ZL : ZstdLaws Zs} {P : ObjectPath} {J : JsonText} {JL : JsonTextLaws J}
  {T : Snapshot.Tar} {C : RateLimit.StateCodec}.
Context (henv : Handler.Env) (umask_mode : Z) (fl : Daemon.Faults) (x : Daemon.Surroundings).

(** A daemon that stays up derived a config and started, and its world is the one the
    startup left. *)
Lemma daemon_stays args env (n n' : Node W) e :
  daemon umask_mode fl x args env n = (n', Stays e) →
  ∃ config w g, Daemon.to_handler_config env args = Ret config
    ∧ Daemon.start umask_mode fl config args (daemon_world args n) = (w, Ok g)
    ∧ n' = after_daemon args w n.
Proof.
  unfold daemon, Daemon.run_daemon.
  destruct (Daemon.to_handler_config env args) as [|config]; [by intros [=]|].
  destruct (Daemon.start _ _ _ _ _) as [w [g|err]] eqn:Es; [|by intros [=]].
  destruct (Daemon.shutdown_signal _); cbn [Daemon.d_wait Daemon.d_world]; intros Hd; simplify_eq; eauto 6.
Qed.

(** What a handler makes of a config a daemon wrote where it looks. *)
Definition accepted (config : Config.HandlerConfig) : Config.HandlerConfig :=
  let l := Handler.env_lib henv in
  match Config.validate (Handler.lib_url_parse l) (Handler.lib_scheme l) config with
  | Ok _ => config
  | Err _ => Config.default_config
  end.

(** The config a handler of the kernel runs with, after a daemon that stays up. *)
Lemma handler_config_after args env config (n n' : Node W) e :
  Daemon.to_handler_config env args = Ret config → Config.config_ok config →
  daemon umask_mode fl x args env n = (n', Stays e) →
  handler_config henv [] n'
  = if decide (Daemon.config_path args = Config.DEFAULT_CONFIG_PATH)
    then accepted config else handler_config henv [] n.
Proof.
  intros Hc Hok (config' & w & g & Hc' & Hs & ->)%daemon_stays. rewrite Hc in Hc'. injection Hc' as <-.
  unfold handler_config, after_daemon.
  cbn [n_configs]. change (Daemon.env_path (var_os []) _ _) with Config.DEFAULT_CONFIG_PATH.
  rewrite config_insert. case_decide; [|done].
  by rewrite (Daemon.started_config_reads _ _ _ _ _ _ _ _ _ Hok Hs).
Qed.

(** Without a store URL there is no store, so nothing is uploaded. *)
Lemma default_config_no_target args :
  Handler.store (Handler.plan henv args Config.default_config false) = false.
Proof. reflexivity. Qed.
End facts.

(** ** Properties *)

(** C32: the handler runs under the daemon's config, if it can find it and accepts it:
    while a daemon is up (or after it was killed), a capture the kernel starts (with an
    empty environment) runs with the very config the daemon derived from its flags and
    environment when the daemon keeps it at the default path and the config passes the
    handler's validation; a config that does not, which the daemon writes all the same,
    makes it run with the defaults. A daemon told to keep the config elsewhere changes
    nothing for the handler, which runs with whatever was at the default path before, or
    the defaults. *)
Theorem capture_follows_daemon {W} `{ObjectStore W} {B : BufWriter W} {Zs : Zstd} {P : ObjectPath}
    {J : JsonText} {JL : JsonTextLaws J} {T : Snapshot.Tar} {C : RateLimit.StateCodec}
    clap_parse henv umask fl x argv env args derived pipe0 (n n' : Node W) e rest cargs core_in :
  Daemon.dispatch argv = Daemon.RunDaemon → clap_parse argv env = Some args →
  Daemon.to_handler_config env args = Ret derived → Config.config_ok derived →
  main clap_parse henv umask fl x argv env pipe0 n = (n', Stays e) →
  Handler.parse rest = Ok cargs →
  let config :=
    if decide (Daemon.config_path args = Config.DEFAULT_CONFIG_PATH) then
      match Config.validate (Handler.lib_url_parse (Handler.env_lib henv))
              (Handler.lib_scheme (Handler.env_lib henv)) derived with
      | Ok _ => derived
      | Err _ => Config.default_config
      end
    else handler_config henv [] n in
  let '(h, out) := Handler.run henv cargs config core_in false (n_handler n) in
  main clap_parse henv umask fl x (b! "capture" :: rest) [] core_in n'
  = (mkNode (n_sock n') (n_configs n') (n_kernel n') h,
     match out with Ret r => Exits r | Panic => Panics end).
Proof.
  intros Hd Hclap Hc Hok Hm Hp config. unfold main in *. rewrite Hd, Hclap in Hm.
  change (Daemon.dispatch (b! "capture" :: rest)) with (Daemon.Capture rest). cbn match.
  unfold capture. rewrite Hp. pose proof (handler_config_after henv _ _ _ _ _ _ _ _ _ Hc Hok Hm) as Hh.
  unfold accepted in Hh. rewrite Hh. fold config. apply daemon_stays in Hm as (? & w & g & _ & _ & ->).
  cbn [after_daemon n_handler]. by destruct (Handler.run _ _ _ _ _ _).
Qed.

(** C28: a node whose config is missing, unreadable or invalid stores nothing: the
    capture touches neither the bucket nor the limiter file, nor the configs,
    the sysctls or the socket file of the node; all it leaves is its report. *)
Theorem unconfigured_capture_stores_nothing {W} `{ObjectStore W} {OL : ObjectStoreLaws W}
    {B : BufWriter W} {BL : BufWriterLaws W} {Zs : Zstd} {ZL : ZstdLaws Zs} {P : ObjectPath}
    {J : JsonText} {T : Snapshot.Tar} {C : RateLimit.StateCodec}
    clap_parse henv umask fl x rest env core_in (n n' : Node W) e :
  Config.read (Handler.lib_url_parse (Handler.env_lib henv)) (Handler.lib_scheme (Handler.env_lib henv))
    (n_configs n (Daemon.env_path (var_os env) (b! "CAPTURE_CONFIG_PATH") Config.DEFAULT_CONFIG_PATH))
  = None →
  main clap_parse henv umask fl x (b! "capture" :: rest) env core_in n = (n', e) →
  Handler.store_world (n_handler n') = Handler.store_world (n_handler n)
  ∧ Handler.limiter (n_handler n') = Handler.limiter (n_handler n)
  ∧ n_sock n' = n_sock n ∧ n_configs n' = n_configs n ∧ n_kernel n' = n_kernel n.
Proof.
  intros Hr. unfold main. change (Daemon.dispatch (b! "capture" :: rest)) with (Daemon.Capture rest).
  cbn match. unfold capture. destruct (Handler.parse rest) as [cargs|]; [|by intros [= <- <-]].
  unfold handler_config, Daemon.capture_config. rewrite Hr. cbn [default from_option].
  destruct (Handler.run _ _ _ _ _ _) as [h out] eqn:Erun. intros [= <- <-].
  apply Handler.no_target_run in Erun as (Hw & Hl & _); [|by right]. done.
Qed.

(** The finding behind [capture_follows_daemon]: with a config path other than the
    default one a daemon comes up and passes its own probe, which reads the
    path from the environment, while the captures of the node store nothing. *)
Definition custom_path : bytes := b! "/var/coredrop/handler.json".
Definition custom_args : Daemon.DaemonArgs :=
  Daemon.mkArgs Daemon.DEFAULT_HANDLER_PATH custom_path (b! "prod") false (b! "/proc")
    (Some (b! "s3://crash-artifacts")) (b! "/usr/local/bin/crictl") None 1024 3 300 10 false 128 None
    CorePattern.CORE_PATTERN_PATH CorePattern.CORE_PIPE_LIMIT_PATH.
Definition custom_env : list (bytes * bytes) := [(b! "CAPTURE_CONFIG_PATH", custom_path)].

Definition fresh_node : Node Mem.store :=
  mkNode (Daemon.sock Daemon.fresh_world) (λ _, Config.mkFs None None None ∅)
    (Daemon.kernel Daemon.fresh_world) Handler.sample_state.

(** [main] on the sample system; the flag parser knows two sets of flags. *)
Definition sample_main (argv : list bytes) (env : list (bytes * bytes)) (stdin : pipe)
    : Node Mem.store → Node Mem.store * Exit :=
  main (J := token_text) (T := Snapshot.MemTar.mem_tar) (C := RateLimit.decimal_codec)
    (λ _ env, Some (if decide (env = []) then Daemon.default_args else custom_args))
    Handler.sample_env 420 Daemon.no_faults
    (Daemon.sample_surroundings (λ _, Ok tt) []) argv env stdin.

Definition kernel_argv : list bytes :=
  [b! "capture"; b! "7"; b! "11"; b! "1749600000"; b! "!usr!bin!app"].

(** Start a daemon, probe it, and let a process crash. *)
Definition crash_story (env : list (bytes * bytes)) : Exit * Exit * list Events.Outcome * nat :=
  let '(n, up) := sample_main [] env [] fresh_node in
  let '(n, healthy) := sample_main [b! "check"] env [] n in
  let '(n, _) := sample_main kernel_argv [] [Avail (InTime (b! "core"))] n in
  (up, healthy, Events.outcome <$> Handler.summary (n_handler n),
   size (objects (Handler.store_world (n_handler n)))).

Example custom_path_stores_nothing :
  crash_story custom_env = (Stays Daemon.Waiting, Exits (Ok tt), [Events.NoStoreDiscard], 0).
Proof. vm_compute. reflexivity. Qed.

Lemma capture_follows_daemon_witness :
  let n' := fst (sample_main [] [] [] fresh_node) in
  let '(h, out) := Handler.run (J := token_text) (T := Snapshot.MemTar.mem_tar)
                     (C := RateLimit.decimal_codec) Handler.sample_env Handler.sample_args
                     Daemon.default_handler_config
                     [Avail (InTime (b! "core"))] false Handler.sample_state in
  sample_main kernel_argv [] [Avail (InTime (b! "core"))] n'
  = (mkNode (n_sock n') (n_configs n') (n_kernel n') h,
     match out with Ret r => Exits r | Panic => Panics end).
Proof.
  apply (capture_follows_daemon (J := token_text) (T := Snapshot.MemTar.mem_tar)
    (C := RateLimit.decimal_codec)
    (λ _ env, Some (if decide (env = []) then Daemon.default_args else custom_args))
    Handler.sample_env 420 Daemon.no_faults (Daemon.sample_surroundings (λ _, Ok tt) [])
    [] [] Daemon.default_args Daemon.default_handler_config [] fresh_node _ Daemon.Waiting
    [b! "7"; b! "11"; b! "1749600000"; b! "!usr!bin!app"] Handler.sample_args
    [Avail (InTime (b! "core"))]).
  - reflexivity.
  - reflexivity.
  - reflexivity.
  - by split_and!.
  - fold (sample_main [] [] [] fresh_node).
    rewrite (surjective_pairing (sample_main [] [] [] fresh_node)) at 1. apply (f_equal (pair _)).
    vm_compute. reflexivity.
  - vm_compute. reflexivity.
Defined.

Lemma unconfigured_capture_stores_nothing_witness :
  let n' := fst (sample_main kernel_argv [] [Avail (InTime (b! "core"))] fresh_node) in
  Handler.store_world (n_handler n') = ∅ ∧ Handler.limiter (n_handler n') = RateLimit.empty_fs.
Proof.
  cbv zeta.
  destruct (unconfigured_capture_stores_nothing (J := token_text) (T := Snapshot.MemTar.mem_tar)
    (C := RateLimit.decimal_codec)
    (λ _ env, Some (if decide (env = []) then Daemon.default_args else custom_args))
    Handler.sample_env 420 Daemon.no_faults (Daemon.sample_surroundings (λ _, Ok tt) [])
    [b! "7"; b! "11"; b! "1749600000"; b! "!usr!bin!app"] [] [Avail (InTime (b! "core"))] fresh_node
    _ _ eq_refl (surjective_pairing _)) as (Hw & Hl & _).
  split; [exact Hw|exact Hl].
Defined.

End Main.
