(* ===== verification/NodeLife.v ===== *)
(** * The life of a node

    The processes of [src/main.rs] on one node over time: daemons that start,
    fail to start, stop, or are killed at any point of [run_daemon], and the
    handlers the kernel runs in between. Each is a step on the node's state, made
    of the same operations [Daemon] and [Main] compose, and the invariants are
    proved by induction over the steps. *)

From S2P Require Import Prelude RustStr RateLimit Backend Upload Json Events Manifest Config CorePattern K8sEvents Snapshot Handler Daemon Main.
Import Json Backend Upload.

Module NodeLife.
Import Main.

(** A daemon: the config it derived and its flags. One whose environment makes it panic
    derives no config and changes nothing. *)
Abbreviation Launch := (Config.HandlerConfig * Daemon.DaemonArgs)%type.
Definition derived (l : Launch) : Prop := ∃ env, Daemon.to_handler_config env l.2 = Ret l.1.

(** The node, the daemon that runs on it with the guard it holds, and the daemons
    ever launched. *)
Record State (W : Type) := mkState {
  node : Node W;
  running : option (Launch * CorePattern.CorePatternGuard);
  launched : list Launch;
}.
Arguments mkState {W} _ _ _.
Arguments node {W} _.
Arguments running {W} _.
Arguments launched {W} _.

Section life.
Context {W : Type} `{ObjectStore W} {B : BufWriter W} {Zs : Zstd} {P : ObjectPath}
  {J : JsonText} {T : Snapshot.Tar} {C : RateLimit.StateCodec}.
(** The libraries the binary is built with, and the umask its processes have. *)
Context (lib : Handler.StoreLib) (umask_mode : Z).

(** What a [SIGKILL] during the startup leaves: after the bind, somewhere in the
    config's write, or between the two sysctl writes. *)
Inductive killed_in_start (l : Launch) : Daemon.World → Daemon.World → Prop :=
  | killed_binding fault w s r :
      K8sEvents.bind_socket fault umask_mode (Config.event_socket_path_for (Daemon.config_path l.2))
        (Daemon.sock w) = (s, r) →
      killed_in_start l w (Daemon.mkWorld s (Daemon.conf w) (Daemon.kernel w))
  | killed_writing fault fl w s c r :
      K8sEvents.bind_socket fault umask_mode (Config.event_socket_path_for (Daemon.config_path l.2))
        (Daemon.sock w) = (s, Ok tt) →
      Config.write fl l.1 (Daemon.config_path l.2) (Daemon.conf w)
        = (c, r) →
      killed_in_start l w (Daemon.mkWorld s c (Daemon.kernel w))
  | killed_installing fl w w' g :
      Daemon.start umask_mode fl l.1 l.2 w = (w', Ok g) →
      killed_in_start l w
        (Daemon.mkWorld (Daemon.sock w') (Daemon.conf w')
           (CorePattern.mkKernel (CorePattern.pattern (Daemon.kernel w'))
              (CorePattern.pipe_limit (Daemon.kernel w)))).

(** One daemon at a time, and any number of handlers. *)
Inductive step : State W → State W → Prop :=
  | starts fl l n w g ls :
      derived l →
      Daemon.start umask_mode fl l.1 l.2 (daemon_world l.2 n) = (w, Ok g) →
      step (mkState n None ls) (mkState (after_daemon l.2 w n) (Some (l, g)) (l :: ls))
  | fails_to_start fl l n w e ls :
      derived l →
      Daemon.start umask_mode fl l.1 l.2 (daemon_world l.2 n) = (w, Err e) →
      step (mkState n None ls) (mkState (after_daemon l.2 w n) None (l :: ls))
  | killed_starting l n w ls :
      derived l →
      killed_in_start l (daemon_world l.2 n) w →
      step (mkState n None ls) (mkState (after_daemon l.2 w n) None (l :: ls))
  | stops l g n ls :
      step (mkState n (Some (l, g)) ls)
        (mkState (after_daemon l.2 (Daemon.shutdown g (daemon_world l.2 n)) n) None ls)
  | killed d n ls : step (mkState n (Some d) ls) (mkState n None ls)
  | crash henv rest stdin n n' e r ls :
      Handler.env_lib henv = lib → capture henv rest [] stdin n = (n', e) →
      step (mkState n r ls) (mkState n' r ls).

(** A node no daemon has run on, with any sysctls, files and bucket. *)
Definition fresh (s : State W) : Prop := running s = None ∧ launched s = [].

(** The kernel pipes cores to the handler at [h]. *)
Definition routes (k : CorePattern.Kernel) (h : bytes) : Prop :=
  ∃ v, CorePattern.sysctl_read (CorePattern.pattern k) = Some v
       ∧ trim_end v = CorePattern.build_pattern h.

(** The config path holds the complete config of a daemon. *)
Definition holds_config (c : Config.ConfigFs) (l : Launch) : Prop :=
  ∃ v, Config.ser_config l.1 = Some v
       ∧ Config.at_path c = Some (Config.File (text_to_vec_pretty v) 384).

(** A daemon that keeps its config at the default path, its strings text and its numbers of
    their width. *)
Definition default_path (l : Launch) : Prop :=
  Daemon.config_path l.2 = Config.DEFAULT_CONFIG_PATH ∧ Config.config_ok l.1.

(** ** The steps on the files and the sysctls *)

Lemma start_config fl l w w' r :
  Daemon.start umask_mode fl l.1 l.2 w = (w', r) →
  match r with
  | Ok _ => holds_config (Daemon.conf w') l
  | Err _ => Config.at_path (Daemon.conf w') = Config.at_path (Daemon.conf w)
             ∨ holds_config (Daemon.conf w') l
  end.
Proof.
  intros Hs. destruct r as [g|e]; [by apply Daemon.start_inv in Hs as (_ & Hc & _)|].
  unfold Daemon.start in Hs. destruct (K8sEvents.bind_socket _ _ _ _) as [s [[]|]]; [|simplify_eq; by left].
  destruct (Config.write _ _ _ _) as [c r] eqn:Ew. apply Config.write_inv in Ew as [_ Hw].
  destruct r as [[]|]; [|simplify_eq; by left]. destruct Hw as (v & Hv & Hp & _).
  destruct (CorePattern.install_at _ _ _) as [k []]; simplify_eq. right. by exists v.
Qed.

Lemma killed_config l w w' :
  killed_in_start l w w' →
  Config.at_path (Daemon.conf w') = Config.at_path (Daemon.conf w) ∧ Daemon.kernel w' = Daemon.kernel w
  ∨ holds_config (Daemon.conf w') l.
Proof.
  destruct 1 as [|fault fl w s c r _ Hw|fl w w' g Hs]; [by left| |].
  - apply Config.write_inv in Hw as [_ Hw]. destruct r as [[]|]; [right|by left].
    destruct Hw as (v & ? & ? & _). by exists v.
  - right. by apply Daemon.start_inv in Hs as (_ & Hc & _).
Qed.

(** ** The invariant *)

(** The daemon that runs has its socket, its config and its pattern in place. *)
Definition up (n : Node W) (l : Launch) : Prop :=
  K8sEvents.at_sock (n_sock n) = Some (K8sEvents.Sock K8sEvents.EVENT_SOCKET_MODE)
  ∧ holds_config (n_configs n (Daemon.config_path l.2)) l
  ∧ CorePattern.sysctl_read (CorePattern.pattern (n_kernel n))
    = Some (CorePattern.build_pattern (Daemon.handler_path l.2)).

(** Either a config of a launched daemon is in place, or nothing routes cores to it. *)
Definition configured (s : State W) : Prop :=
  ∃ l, l ∈ launched s ∧ holds_config (n_configs (node s) Config.DEFAULT_CONFIG_PATH) l.
Definition unrouted (s : State W) : Prop := ∀ h, ¬ routes (n_kernel (node s)) h.

Definition inv (s : State W) : Prop :=
  match running s with
  | Some (l, _) => l ∈ launched s ∧ up (node s) l
  | None => configured s ∨ unrouted s
  end.

Lemma holds_config_at c c' l :
  Config.at_path c' = Config.at_path c → holds_config c l → holds_config c' l.
Proof. intros E (v & Hv & Hp). exists v. by rewrite E. Qed.

Lemma capture_keeps henv rest stdin (n n' : Node W) e :
  capture henv rest [] stdin n = (n', e) →
  n_sock n' = n_sock n ∧ n_configs n' = n_configs n ∧ n_kernel n' = n_kernel n.
Proof.
  unfold capture. destruct (Handler.parse rest); [|by intros [= <- <-]].
  destruct (Handler.run _ _ _ _ _ _). by intros [= <- <-].
Qed.

Definition all_default (s : State W) : Prop :=
  Forall (λ l, Daemon.config_path l.2 = Config.DEFAULT_CONFIG_PATH) (launched s).

(** A step of a daemon that does not come up. *)
Lemma not_up l w n ls :
  Daemon.config_path l.2 = Config.DEFAULT_CONFIG_PATH →
  Config.at_path (Daemon.conf w) = Config.at_path (Daemon.conf (daemon_world l.2 n))
    ∧ Daemon.kernel w = Daemon.kernel (daemon_world l.2 n)
  ∨ holds_config (Daemon.conf w) l →
  inv (mkState n None ls) → inv (mkState (after_daemon l.2 w n) None (l :: ls)).
Proof.
  intros Hp Hw Hi. unfold inv, configured, unrouted, after_daemon. cbn. rewrite config_insert, decide_True by done.
  destruct Hw as [[Hpath Hk]|Hc]; [|left; exists l; split; [by left|done]].
  destruct Hi as [(l' & Hin & Hc)|Hun].
  - left. exists l'. split; [by right|]. eapply holds_config_at, Hc. rewrite Hpath. cbn. by rewrite Hp.
  - right. intros h. rewrite Hk. apply Hun.
Qed.

Lemma life_step_inv s s' : step s s' → all_default s' → inv s → inv s'.
Proof.
  destruct 1 as [fl l n w g ls _ Hs|fl l n w e ls _ Hs|l n w ls _ Hs|l g n ls|[l g] n ls|henv rest stdin n n' e r ls _ Hc];
    intros Hd Hi.
  - apply Forall_cons in Hd as [Hp _]. apply Daemon.start_inv in Hs as (Hsock & Hc & Hk%CorePattern.install_inv).
    split; [by left|]. split; [done|]. cbn. rewrite config_insert, decide_True by done. split; [done|apply Hk].
  - apply Forall_cons in Hd as [Hp _]. eapply not_up; [done| |done]. pose proof (start_config _ _ _ _ _ Hs) as Hc.
    apply Daemon.start_failed in Hs. by destruct Hc; [left|right].
  - apply Forall_cons in Hd as [Hp _]. eapply not_up; [done| |done]. by apply killed_config.
  - destruct Hi as [Hin (_ & Hc & _)]. cbn in Hin, Hc. left. exists l. split; [done|]. cbn.
    rewrite config_insert, decide_True; [done|]. by apply (proj1 (Forall_forall _ _) Hd l).
  - destruct Hi as [Hin (_ & Hc & _)]. cbn in Hin, Hc. left. exists l. split; [done|].
    rewrite (proj1 (Forall_forall _ _) Hd l Hin) in Hc. exact Hc.
  - apply capture_keeps in Hc as (Hs & Hc & Hk). unfold inv, up, configured, unrouted in *. cbn in *.
    by rewrite Hs, Hc, Hk.
Qed.

Lemma step_derived s s' : step s s' → Forall derived (launched s) → Forall derived (launched s').
Proof. destruct 1; cbn; try done; by constructor. Qed.

Lemma reachable_derived s s' : rtc step s s' → launched s = [] → Forall derived (launched s').
Proof.
  intros Hs He. assert (Forall derived (launched s)) as Hd by by rewrite He.
  clear He. induction Hs as [|s s1 s' Hst _ IH]; [done|]. by eapply IH, step_derived.
Qed.

Lemma step_launched s s' : step s s' → launched s `suffix_of` launched s'.
Proof. destruct 1; cbn; try done; by apply suffix_cons_r. Qed.

Lemma rtc_launched s s' : rtc step s s' → all_default s' → all_default s.
Proof.
  intros Hs. induction Hs as [|s s1 s' Hst _ IH]; [done|]. intros Hd.
  destruct (step_launched _ _ Hst) as [ls E]. specialize (IH Hd). unfold all_default in *.
  rewrite E in IH. by apply Forall_app in IH as [_ ?].
Qed.

(** An invariant of the steps holds wherever daemons use the default config path. *)
Lemma rtc_inv (I : State W → Prop) s s' :
  (∀ s s', step s s' → all_default s' → I s → I s') →
  rtc step s s' → all_default s' → I s → I s'.
Proof.
  intros HI Hs. induction Hs as [|s s1 s' Hst Hs IH]; [done|]. intros Hd Hi.
  apply IH; [done|]. eapply HI; [done| |done]. by eapply rtc_launched.
Qed.

(** ** Nothing a daemon leaves blocks the next one *)

(** Names a daemon can replace, and a pattern it can read and write. *)
Definition startable (n : Node W) : Prop :=
  let c := n_configs n Config.DEFAULT_CONFIG_PATH in
  K8sEvents.at_sock (n_sock n) ≠ Some K8sEvents.Dir
  ∧ Config.at_path c ≠ Some Config.Directory ∧ Config.at_tmp c ≠ Some Config.Directory
  ∧ (∃ v, CorePattern.value (CorePattern.pattern (n_kernel n)) = Some v ∧ is_utf8 v = true)
  ∧ CorePattern.writable (CorePattern.pattern (n_kernel n)) = true.

Lemma bind_keeps_name fault path fs fs' r :
  K8sEvents.at_sock fs ≠ Some K8sEvents.Dir →
  K8sEvents.bind_socket fault umask_mode path fs = (fs', r) →
  K8sEvents.at_sock fs' ≠ Some K8sEvents.Dir.
Proof.
  unfold K8sEvents.bind_socket. intros Hd Hb. split_conds; congruence.
Qed.

Lemma bind_succeeds path fs :
  K8sEvents.at_sock fs ≠ Some K8sEvents.Dir →
  ∃ fs', K8sEvents.bind_socket (λ _, false) umask_mode path fs = (fs', Ok tt).
Proof.
  unfold K8sEvents.bind_socket. intros Hd. destruct (path_parent path), (K8sEvents.at_sock fs) as [[]|] eqn:E;
    cbn; rewrite ?E; cbn; by eauto.
Qed.

Lemma install_keeps_pattern h limit k k' r :
  (∃ v, CorePattern.value (CorePattern.pattern k) = Some v ∧ is_utf8 v = true) →
  CorePattern.writable (CorePattern.pattern k) = true →
  CorePattern.install_at h limit k = (k', r) →
  (∃ v, CorePattern.value (CorePattern.pattern k') = Some v ∧ is_utf8 v = true)
  ∧ CorePattern.writable (CorePattern.pattern k') = true
  ∧ ∃ g, r = Ok g ∧ is_utf8 (CorePattern.prev_pattern g) = true.
Proof.
  intros (v & Hv & Hu) Hw. rewrite (CorePattern.install_ok h limit v k Hv Hu Hw). intros [= <- <-].
  cbn [CorePattern.pattern CorePattern.value CorePattern.writable]. split_and!; [|done|].
  - eexists. split; [done|apply CorePattern.build_pattern_utf8].
  - eexists. split; [done|]. cbn [CorePattern.prev_pattern]. by case_bool_decide.
Qed.

(** On a startable node every startup step keeps it so, and without faults all succeed. *)
Lemma start_startable fl l n w r :
  Daemon.config_path l.2 = Config.DEFAULT_CONFIG_PATH → startable n →
  Daemon.start umask_mode fl l.1 l.2 (daemon_world l.2 n) = (w, r) →
  startable (after_daemon l.2 w n)
  ∧ (∀ g, r = Ok g → is_utf8 (CorePattern.prev_pattern g) = true).
Proof.
  intros Hp (Hs & Hc & Ht & Hv & Hw) Hst. unfold Daemon.start, daemon_world in Hst.
  cbn [Daemon.sock Daemon.conf Daemon.kernel] in Hst. rewrite Hp in Hst. unfold startable, after_daemon.
  cbn [n_sock n_configs n_kernel]. rewrite config_insert, decide_True by done.
  destruct (K8sEvents.bind_socket _ _ _ _) as [s [[]|e]] eqn:Eb; (apply bind_keeps_name in Eb; [|done]);
    [|by injection Hst as <- <-].
  destruct (Config.write _ _ _ _) as [c [[]|e]] eqn:Ew;
    (apply Config.write_keeps_files in Ew as [? ?]; [|done..]);
    [|by injection Hst as <- <-].
  destruct (CorePattern.install_at _ _ _) as [k r'] eqn:Ei.
  apply install_keeps_pattern in Ei as (Hv' & Hw' & g & -> & Hg); [|done..]. injection Hst as <- <-.
  split; [done|]. by intros ? [= <-].
Qed.

Lemma clean_start_succeeds l n :
  Daemon.config_path l.2 = Config.DEFAULT_CONFIG_PATH → startable n →
  Config.config_ok l.1 →
  ∃ w g, Daemon.start umask_mode Daemon.no_faults l.1 l.2 (daemon_world l.2 n) = (w, Ok g).
Proof.
  intros Hp (Hs & Hc & Ht & Hv & Hw) Hok. unfold Daemon.start, daemon_world.
  cbn [Daemon.sock Daemon.conf Daemon.kernel]. rewrite Hp.
  edestruct bind_succeeds as [s Hb]; [exact Hs|]. unfold Daemon.no_faults. cbn [Daemon.bind_fault Daemon.write_fault].
  rewrite Hb.
  assert (Config.ser_config l.1
          = Some (Obj (Config.ser_config_fields l.1))) as Hser.
  { unfold Config.ser_config. by destruct Hok as [-> _]. }
  destruct (Config.write_ok _ Config.DEFAULT_CONFIG_PATH _ _ Hser Hc Ht) as (c & -> & _).
  destruct (CorePattern.install_at _ _ _) as [k r] eqn:Ei.
  apply install_keeps_pattern in Ei as (_ & _ & g & -> & _); [|done..]. by eexists _, _.
Qed.

(** The guard a running daemon holds can be restored. *)
Definition startable_inv (s : State W) : Prop :=
  startable (node s)
  ∧ ∀ l g, running s = Some (l, g) → is_utf8 (CorePattern.prev_pattern g) = true.

Lemma killed_startable l n w :
  Daemon.config_path l.2 = Config.DEFAULT_CONFIG_PATH → startable n →
  killed_in_start l (daemon_world l.2 n) w → startable (after_daemon l.2 w n).
Proof.
  intros Hp Hn Hk. pose proof Hn as (Hs & Hc & Ht & Hv & Hw). remember (daemon_world l.2 n) as w0 eqn:E.
  destruct Hk as [fault w s r Hb|fault fl w s c r Hb Hwr|fl w w' g Hst]; subst w;
    unfold startable, after_daemon;
    cbn [n_sock n_configs n_kernel Daemon.sock Daemon.conf Daemon.kernel]; rewrite config_insert, decide_True by done.
  - apply bind_keeps_name in Hb; [|exact Hs]. unfold daemon_world. cbn [Daemon.conf Daemon.kernel]. by rewrite Hp.
  - apply bind_keeps_name in Hb; [|exact Hs]. cbn [daemon_world Daemon.conf] in Hwr. rewrite Hp in Hwr.
    by apply Config.write_keeps_files in Hwr as [? ?].
  - apply start_startable in Hst as [Hst _]; [|done..]. unfold startable, after_daemon in Hst.
    cbn [n_sock n_configs n_kernel] in Hst. rewrite config_insert, decide_True in Hst by done. exact Hst.
Qed.

Lemma step_startable s s' : step s s' → all_default s' → startable_inv s → startable_inv s'.
Proof.
  destruct 1 as [fl l n w g ls _ Hs|fl l n w e ls _ Hs|l n w ls _ Hs|l g n ls|[l g] n ls|henv rest stdin n n' e r ls _ Hc];
    intros Hd [Hn Hg]; cbn [node running] in Hn, Hg.
  - apply Forall_cons in Hd as [Hp _]. apply start_startable in Hs as [Hn' Hg']; [|done..].
    split; [exact Hn'|]. intros l' g' [= <- <-]. by apply Hg'.
  - apply Forall_cons in Hd as [Hp _]. apply start_startable in Hs as [Hn' _]; [|done..]. by split.
  - apply Forall_cons in Hd as [Hp _]. split; [by apply killed_startable|done].
  - split; [|done]. destruct Hn as (Hs & Hc & Ht & Hv & Hw). specialize (Hg _ _ eq_refl).
    unfold startable, after_daemon, Daemon.shutdown, daemon_world.
    cbn [node n_sock n_configs n_kernel Daemon.sock Daemon.conf Daemon.kernel].
    unfold CorePattern.restore, CorePattern.sysctl_write. rewrite Hw. rewrite config_insert.
    split; [done|]. split; [by case_decide as E; [rewrite E|]|]. split; [by case_decide as E; [rewrite E|]|].
    cbn. eauto.
  - by split.
  - apply capture_keeps in Hc as (Es & Ec & Ek). split; [|exact Hg].
    unfold startable in *. cbn [node]. by rewrite Es, Ec, Ek.
Qed.

Lemma default_path_all (s : State W) : Forall default_path (launched s) → all_default s.
Proof. intros Hw. eapply Forall_impl; [exact Hw|]. by intros l [? _]. Qed.

Lemma holds_config_read {JL : JsonTextLaws J} c l :
  default_path l → holds_config c l →
  Config.read (Handler.lib_url_parse lib) (Handler.lib_scheme lib) c
  = match Config.validate (Handler.lib_url_parse lib) (Handler.lib_scheme lib) l.1 with
    | Ok _ => Some l.1 | Err _ => None end.
Proof. intros (_ & Hok) (v & Hv & Hp). by eapply Config.stored_config_read. Qed.
End life.

(** ** Properties *)

(** C27: every core the kernel hands to a handler finds the complete config of a daemon:
    on a node that no daemon had run on and whose pattern names no handler, whatever
    daemons that keep their config at the default path start, fail, stop or are killed at any point of their startup, and
    however many handlers run in between: as long as the kernel's pattern names a
    handler (of a running daemon or of a killed one), the config file holds the whole
    config some launched daemon derived from its flags and environment, never a partial
    one, and a capture runs with it, or with the defaults if that config does not pass
    the handler's validation (which the daemon does not check); and a running daemon
    whose config passes it passes its own probe. *)
Theorem cores_meet_a_config {W} `{ObjectStore W} {B : BufWriter W} {Zs : Zstd} {P : ObjectPath}
    {J : JsonText} {JL : JsonTextLaws J} {T : Snapshot.Tar} {C : RateLimit.StateCodec}
    lib umask (s0 s : State W) :
  fresh s0 → unrouted s0 → rtc (step lib umask) s0 s → Forall default_path (launched s) →
  (∀ l g exists_, running s = Some (l, g) →
     Config.validate (Handler.lib_url_parse lib) (Handler.lib_scheme lib) l.1 = Ok tt →
     exists_ (Config.event_socket_path_for (Daemon.config_path l.2))
       = bool_decide (is_Some (K8sEvents.at_sock (n_sock (node s)))) →
     CorePattern.check (Handler.lib_url_parse lib) (Handler.lib_scheme lib) exists_
       (Daemon.handler_path l.2) (Daemon.config_path l.2) (Daemon.core_pattern_path l.2)
       (n_kernel (node s)) (n_configs (node s) (Daemon.config_path l.2)) = Ok tt)
  ∧ ∀ h henv, routes (n_kernel (node s)) h → Handler.env_lib henv = lib →
      ∃ l env, l ∈ launched s ∧ Daemon.to_handler_config env l.2 = Ret l.1
        ∧ holds_config (n_configs (node s) Config.DEFAULT_CONFIG_PATH) l
        ∧ handler_config henv [] (node s)
          = match Config.validate (Handler.lib_url_parse lib) (Handler.lib_scheme lib) l.1 with
            | Ok _ => l.1 | Err _ => Config.default_config end.
Proof.
  intros [Hr He] Hun Hs Hw. pose proof (default_path_all s Hw) as Hd.
  assert (inv s) as Hi.
  { apply (rtc_inv lib umask inv s0 s (life_step_inv lib umask) Hs Hd). unfold inv. rewrite Hr. by right. }
  pose proof (λ l Hl, proj1 (Forall_forall _ _) Hw l Hl) as Hwl.
  pose proof (λ l Hl, proj1 (Forall_forall _ _) (reachable_derived _ _ _ _ Hs He) l Hl) as Hder.
  unfold inv in Hi. split.
  - intros l g exists_ E Hval Hex. rewrite E in Hi. destruct Hi as [Hl (Hsock & Hc & Hp)].
    unfold CorePattern.check. destruct (Hder l Hl) as [env Henv].
    rewrite (holds_config_read lib _ l (Hwl l Hl) Hc), Hval, Hp, CorePattern.trim_build_pattern,
      decide_False by auto.
    by rewrite (Daemon.to_handler_config_socket _ _ _ Henv), Hex, Hsock.
  - intros h henv Hroute Hlib.
    assert (configured s) as (l & Hl & Hc).
    { destruct (running s) as [[l g]|].
      - destruct Hi as [Hl (_ & Hc & _)]. exists l. split; [done|].
        by rewrite <- (proj1 (Forall_forall _ _) Hd l Hl).
      - destruct Hi as [Hc|Hn]; [done|]. by destruct (Hn h). }
    destruct (Hder l Hl) as [env Henv]. exists l, env. do 3 (split; [done|]).
    unfold handler_config. rewrite Hlib.
    change (Daemon.env_path (var_os []) _ _) with Config.DEFAULT_CONFIG_PATH.
    unfold Daemon.capture_config. rewrite (holds_config_read lib _ l (Hwl l Hl) Hc).
    by destruct (Config.validate _ _ _).
Qed.

(** C40: nothing a daemon leaves behind blocks the next one: on a node whose pattern can be
    read and written and where no directory has the names of the daemon's files, with
    daemons that keep their config at the default path, in every reachable state without a running daemon, with stale sockets, temporary files and patterns of
    whatever daemons were killed, a daemon that derives a config and whose own steps do not
    fail comes up. *)
Theorem next_daemon_starts {W} `{ObjectStore W} {B : BufWriter W} {Zs : Zstd} {P : ObjectPath}
    {J : JsonText} {T : Snapshot.Tar} {C : RateLimit.StateCodec} lib umask (s0 s : State W) env config args :
  fresh s0 → startable (node s0) → rtc (step lib umask) s0 s → Forall default_path (launched s) →
  running s = None → Daemon.to_handler_config env args = Ret config → default_path (config, args) →
  ∃ s' g, step lib umask s s' ∧ running s' = Some ((config, args), g) ∧ up (node s') (config, args).
Proof.
  intros [Hr _] Hst Hs Hw Hn Henv (Hp & Hok). pose proof (default_path_all s Hw) as Hd.
  assert (startable_inv s) as [Hsn _].
  { apply (rtc_inv lib umask startable_inv s0 s (step_startable lib umask) Hs Hd). split; [done|]. by rewrite Hr. }
  destruct (clean_start_succeeds umask (config, args) (node s) Hp Hsn Hok) as (w & g & Hrun).
  destruct s as [n r ls]. cbn [running node] in *. subst r.
  exists (mkState (after_daemon args w n) (Some ((config, args), g)) ((config, args) :: ls)), g.
  split; [eapply (starts _ _ _ (config, args)); [by exists env|exact Hrun]|]. split; [done|]. cbn [node].
  apply Daemon.start_inv in Hrun as (Hsock & Hc & Hk%CorePattern.install_inv).
  split; [done|]. cbn [after_daemon n_configs n_kernel fst snd] in *. rewrite config_insert, decide_True by done.
  split; [done|apply Hk].
Qed.

(** *** Witnesses: a crash-looping DaemonSet pod *)

Definition sample_launch : Launch := (Daemon.default_handler_config, Daemon.default_args).
Definition sample_node : State Mem.store := mkState fresh_node None [].

(** The sample daemon is up, over the sample node. *)
Definition sample_start := Daemon.start (J := token_text) 420 Daemon.no_faults Daemon.default_handler_config Daemon.default_args
                             (daemon_world Daemon.default_args fresh_node).
Definition sample_guard : CorePattern.CorePatternGuard := CorePattern.mkGuard (b! "core") (b! "0").
Definition sample_up : Node Mem.store := after_daemon Daemon.default_args (fst sample_start) fresh_node.
Definition sample_captured : Node Mem.store :=
  fst (capture (J := token_text) (T := Snapshot.MemTar.mem_tar) (C := RateLimit.decimal_codec)
    Handler.sample_env [b! "7"; b! "11"; b! "1749600000"; b! "!usr!bin!app"] []
    [Avail (InTime (b! "core"))] sample_up).
Abbreviation sample_step :=
  (step (J := token_text) (T := Snapshot.MemTar.mem_tar) (C := RateLimit.decimal_codec)
    Handler.sample_lib 420).

Lemma sample_started : sample_step sample_node (mkState sample_up (Some (sample_launch, sample_guard)) [sample_launch]).
Proof.
  apply (starts _ _ Daemon.no_faults sample_launch); [by exists []|]. unfold sample_up. fold sample_start.
  rewrite (surjective_pairing sample_start) at 1. apply (f_equal (pair _)). vm_compute. reflexivity.
Qed.

(** The daemon comes up, is killed, and a core arrives. *)
Lemma sample_life :
  rtc sample_step sample_node (mkState sample_captured None [sample_launch]).
Proof.
  eapply rtc_l; [apply sample_started|]. eapply rtc_l; [apply killed|].
  eapply rtc_once, crash; [|apply surjective_pairing]. done.
Qed.

Lemma sample_default_path : Forall default_path [sample_launch].
Proof. by repeat constructor. Qed.

Lemma cores_meet_a_config_witness :
  ∃ l env, l ∈ [sample_launch] ∧ Daemon.to_handler_config env l.2 = Ret l.1
    ∧ holds_config (J := token_text) (n_configs sample_captured Config.DEFAULT_CONFIG_PATH) l
    ∧ handler_config (J := token_text) Handler.sample_env [] sample_captured
      = match Config.validate Some Config.toy_scheme l.1 with
        | Ok _ => l.1 | Err _ => Config.default_config end.
Proof.
  destruct (cores_meet_a_config (J := token_text) (T := Snapshot.MemTar.mem_tar)
    (C := RateLimit.decimal_codec) Handler.sample_lib 420 sample_node
    (mkState sample_captured None [sample_launch])) as [_ Hc].
  - done.
  - intros h (v & [= <-] & E). revert E. apply CorePattern.default_not_ours.
  - apply sample_life.
  - apply sample_default_path.
  - apply (Hc Daemon.DEFAULT_HANDLER_PATH Handler.sample_env); [|reflexivity].
    eexists. split; vm_compute; reflexivity.
Defined.

Lemma next_daemon_starts_witness :
  ∃ s' g, sample_step (mkState sample_captured None [sample_launch]) s'
    ∧ running s' = Some (sample_launch, g) ∧ up (J := token_text) (node s') sample_launch.
Proof.
  apply (next_daemon_starts (J := token_text) (T := Snapshot.MemTar.mem_tar)
    (C := RateLimit.decimal_codec) Handler.sample_lib 420 sample_node
    (mkState sample_captured None [sample_launch]) [] Daemon.default_handler_config Daemon.default_args).
  - done.
  - split_and!; try done. by eexists.
  - apply sample_life.
  - apply sample_default_path.
  - done.
  - reflexivity.
  - by pose proof sample_default_path as [? _]%Forall_cons.
Defined.

End NodeLife.
