(* ===== verification/TestsState.v ===== *)
(** * The unit tests of the stateful components

    The rate limiter, the fallback sink, the snapshot and the config, as in
    [TestsParsers.v]. A temp directory is a state with mode 0700
    and nothing in it. The snapshot's tests at the caps of 8 MiB and of ten
    thousand descriptors are proved in [TestsCaps.v] instead of being run. *)

From S2P Require Import Prelude RustStr Redact BuildId RateLimit Backend Upload Json Snapshot Config TestsParsers.
Import Json.

(** ** [lib.rs]: the test readers *)

Module TestUtil.
Import Backend.
(** One chunk, then an error. *)
Definition FlakyReader (chunk : bytes) : pipe := [Avail (InTime chunk); Broken (InTime (b! "boom"))].
(** Neither data nor the end of file before any deadline. *)
Definition StallReader : pipe := [Closed (Late tt)].
End TestUtil.
Import TestUtil.

(** ** [ratelimit.rs] *)

Module RateLimitTests.
Import RateLimit.
Local Open Scope bool_scope.

Definition tmp_state : StateFs := mkFs (Some 448%Z) None.
Definition decisions (max : Z) (ops : list op) (fs : StateFs) : list RateDecision :=
  snd (run (C := decimal_codec) max ops fs).
Definition pod_a : bytes := b! "pod-a".

Definition allows_up_to_max_then_suppresses : bool :=
  decisions 3 [Check pod_a 1000; Check pod_a 1000; Check pod_a 1000; Check pod_a 1001] tmp_state
  =? [Allowed; Allowed; Allowed; Suppressed 3].

(** One check, and the modes of the file and of its directory after it. *)
Definition modes_after_check (fs : StateFs) : RateDecision * option Z * option Z :=
  let '(fs, d) := check_and_record (C := decimal_codec) no_faults 3 (b! "pod-perm") 1000 fs in
  (d, f_mode <$> state_file fs, dir_mode fs).

Definition check_and_record_creates_0700_dir_and_0600_state_file : bool :=
  modes_after_check (mkFs None None) =? (Allowed, Some 384%Z, Some 448%Z).

Definition check_and_record_tightens_an_existing_loose_state_file : bool :=
  modes_after_check (mkFs (Some 493%Z) (Some (mkFile (b! "{}") 420))) =? (Allowed, Some 384%Z, Some 448%Z).

Definition window_pruning_restores_budget : bool :=
  decisions 1 [Check pod_a 1000; Check pod_a 1001; Check pod_a (1000 + RATE_WINDOW_SECS + 1)] tmp_state
  =? [Allowed; Suppressed 1; Allowed].

Definition zero_means_unlimited : bool :=
  let never_touched := mkFs None None in
  let '(fs, ds) := run (C := decimal_codec) 0
    (map (λ i, Check pod_a (Z.of_nat i)) (seq 0 100) ++ [Refund pod_a 0]) never_touched in
  forallb (λ d, d =? Allowed) ds && (length ds =? 100)
  && is_none (state_file fs) && (dir_mode fs =? None).

Definition pods_are_isolated : bool :=
  decisions 1 [Check pod_a 1000; Check (b! "pod-b") 1000; Check pod_a 1001] tmp_state
  =? [Allowed; Allowed; Suppressed 1].

Definition unwritable : faults := λ s, match s with EnsureDir => Some 0 | _ => None end.
Definition fails_open_when_state_dir_is_unwritable : bool :=
  let '(fs, d1) := check_and_record (C := decimal_codec) unwritable 1 pod_a 1000 (mkFs None None) in
  let '(_, d2) := check_and_record (C := decimal_codec) unwritable 1 pod_a 1001 fs in
  (d1 =? Allowed) && (d2 =? Allowed).

Definition corrupt_state_self_heals : bool :=
  decisions 1 [Check pod_a 1000; Check pod_a 1001]
    (mkFs (Some 448%Z) (Some (mkFile (b! "{not json!") 420)))
  =? [Allowed; Suppressed 1].

Definition refund_restores_a_consumed_slot : bool :=
  decisions 1 [Check pod_a 1000; Check pod_a 1001; Refund pod_a 1000; Check pod_a 1002] tmp_state
  =? [Allowed; Suppressed 1; Allowed].

Definition refund_without_matching_record_is_harmless : bool :=
  decisions 1 [Refund (b! "pod-never-seen") 1000; Check pod_a 1000; Refund pod_a 999;
               Check pod_a 1001] tmp_state
  =? [Allowed; Suppressed 1].

(** The sixteen threads move in turn; [storm_admits_exactly] is the theorem for every
    schedule. *)
Definition concurrent_handlers_admit_exactly_max : bool :=
  let max := 3%Z in
  let ops := replicate 16 (Check (b! "pod-storm") 1000) in
  let sched := concat (replicate 80 (seq 0 16)) in
  let c := Concurrent.exec (C := decimal_codec) max ops reliable sched (Concurrent.init ops tmp_state) in
  Concurrent.all_done c && (Concurrent.count_allowed (Concurrent.outcomes c) =? max).

Example ratelimit_tests_pass :
  [allows_up_to_max_then_suppresses; check_and_record_creates_0700_dir_and_0600_state_file;
   check_and_record_tightens_an_existing_loose_state_file; window_pruning_restores_budget;
   zero_means_unlimited; pods_are_isolated; fails_open_when_state_dir_is_unwritable;
   corrupt_state_self_heals; refund_restores_a_consumed_slot;
   refund_without_matching_record_is_harmless; concurrent_handlers_admit_exactly_max]
  = replicate 11 true.
Proof. vm_compute. reflexivity. Qed.
End RateLimitTests.

(** ** [backend.rs] *)

Module BackendTests.
Import Backend.
Local Open Scope bool_scope.

Definition discarded (core_in : pipe) (deadline : option Z) : outcome (result CoreStats error) :=
  snd (drain_core mkDiscard 0%Z core_in deadline tt).
Definition when_ok (r : outcome (result CoreStats error)) (f : CoreStats → bool) : bool :=
  match r with Ret (Ok stats) => f stats | _ => false end.

Definition discard_counts_every_byte : bool :=
  let data := replicate (Z.to_nat 200000) xab in
  when_ok (discarded [Avail (InTime data)] None) (λ stats,
    (bytes_ stats =? 200000%Z) && (stored_bytes stats =? 0%Z) && (sha256 stats =? None)
    && negb (truncated stats)).

Definition discard_handles_an_empty_core : bool :=
  when_ok (discarded [] None) (λ stats,
    (bytes_ stats =? 0%Z) && (stored_bytes stats =? 0%Z) && negb (truncated stats)).

Definition discard_marks_truncated_on_a_read_error : bool :=
  when_ok (discarded (FlakyReader (replicate (Z.to_nat 50000) x5a)) None) (λ stats,
    (bytes_ stats =? 50000%Z) && truncated stats
    && (truncated_reason stats =? Some (b! "stream_error"))
    && (stored_bytes stats =? 0%Z) && (sha256 stats =? None)).

Definition discard_errors_when_the_deadline_elapses : bool :=
  match discarded StallReader (Some 1%Z) with Ret (Err _) => true | _ => false end.

Example backend_tests_pass :
  [discard_counts_every_byte; discard_handles_an_empty_core; discard_marks_truncated_on_a_read_error;
   discard_errors_when_the_deadline_elapses] = replicate 4 true.
Proof. vm_compute. reflexivity. Qed.
End BackendTests.

(** ** [snapshot.rs] *)

Module SnapshotTests.
Import Snapshot.
Local Open Scope bool_scope.

Definition root : bytes := b! "/tmp/fixture".

(** A process directory with the given files, an [exe] link to an ELF file, and a
    descriptor that links to it too. *)
Definition fixture (pid : Z) (files : list (bytes * bytes)) (build_id : bytes) : Fs :=
  let proc_pid := path_join root (to_string pid) in
  let elf_path := path_join root (b! "the-binary") in
  let elf := mkOpen (BuildIdTests.synthetic_elf_with_build_id build_id) false in
  mkFs
    (λ p, match list_find (λ f, path_join proc_pid f.1 = p) files with
          | Some (_, (_, data)) => Some (mkOpen data false)
          | None => if decide (p = path_join proc_pid (b! "exe") ∨ p = elf_path) then Some elf else None
          end)
    (λ p, if decide (p = path_join proc_pid (b! "exe")
                     ∨ p = path_join (path_join proc_pid (b! "fd")) (b! "3")) then Some elf_path else None)
    (λ p, if decide (p = path_join proc_pid (b! "fd")) then Some [Some (b! "3")] else None).

Definition by_name (snap : ProcSnapshot) (n : bytes) : option bytes :=
  data ∘ snd <$> list_find (λ f, name f = n) (files snap).

Definition captures_proc_files_redacts_environ_and_cmdline_and_reads_build_id : bool :=
  let fs := fixture 4242
    [(b! "maps", b! "00400000-0040b000 r-xp 00000000 fd:00 12 /bin/app");
     (b! "status", b! "Name:" ++ [x09] ++ b! "app" ++ [x0a] ++ b! "State:" ++ [x09] ++ b! "Z (zombie)" ++ [x0a]);
     (b! "cmdline", blob [b! "app"; b! "--flag"; b! "--db-password=hunter2"]);
     (b! "environ", blob [b! "DB_PASSWORD=hunter2"; b! "LANG=en_US.UTF-8"])]
    [xab; xcd; xef] in
  let snap := capture Redact.soft_log2 fs root 4242 Redact.Redactor_default in
  (by_name snap (b! "maps") =? Some (b! "00400000-0040b000 r-xp 00000000 fd:00 12 /bin/app"))
  && (by_name snap (b! "environ") =? Some (blob [b! "DB_PASSWORD=<redacted>"; b! "LANG=en_US.UTF-8"]))
  && (by_name snap (b! "cmdline") =? Some (blob [b! "app"; b! "--flag"; b! "--db-password=<redacted>"]))
  && from_option (starts_with (b! "3 -> ")) false (by_name snap (b! "fd"))
  && negb (is_none (by_name snap (b! "exe"))) && (build_id snap =? Some (b! "abcdef")).

(** The link is relative: its target does not open from elsewhere. *)
Definition reads_build_id_through_the_exe_symlink_not_its_target_path : bool :=
  let proc_pid := path_join root (b! "42") in
  let elf := mkOpen (BuildIdTests.synthetic_elf_with_build_id [xfe; xed; xfa]) false in
  let fs := mkFs
    (λ p, if decide (p = path_join proc_pid (b! "maps")) then Some (mkOpen (b! "x") false)
          else if decide (p = path_join proc_pid (b! "exe") ∨ p = path_join proc_pid (b! "the-binary"))
          then Some elf else None)
    (λ p, if decide (p = path_join proc_pid (b! "exe")) then Some (b! "the-binary") else None)
    (λ _, None) in
  build_id (capture Redact.soft_log2 fs root 42 Redact.Redactor_default) =? Some (b! "feedfa").

Definition skips_absent_files_without_failing : bool :=
  let snap := capture Redact.soft_log2 (fixture 7 [(b! "maps", b! "x")] [x01]) root 7
                Redact.Redactor_default in
  negb (is_none (by_name snap (b! "maps"))) && is_none (by_name snap (b! "smaps")).

Definition renders_a_readable_tar_bundle : bool :=
  let fs := fixture 9 [(b! "maps", b! "map-bytes"); (b! "environ", blob [b! "A=1"])] [x02] in
  let snap := capture Redact.soft_log2 fs root 9 Redact.Redactor_default in
  match to_tar (T := MemTar.mem_tar) snap ≫= tar_read (Tar := MemTar.mem_tar) with
  | Some entries =>
      ((λ '(_, (_, _, d)), d) <$> list_find (λ '(n, _, _), n = b! "maps") entries
       =? Some (b! "map-bytes"))
      && (length entries =? length (files snap))
  | None => false
  end.

Example snapshot_tests_pass :
  [captures_proc_files_redacts_environ_and_cmdline_and_reads_build_id;
   reads_build_id_through_the_exe_symlink_not_its_target_path; skips_absent_files_without_failing;
   renders_a_readable_tar_bundle] = replicate 4 true.
Proof. vm_compute. reflexivity. Qed.
End SnapshotTests.

(** ** [config.rs] *)

Module ConfigTests.
Import Config.
Local Open Scope bool_scope.

#[local] Instance config_eq_dec : EqDecision HandlerConfig.
Proof. solve_decision. Defined.

(** The URLs of these tests. *)
Definition test_url (s : bytes) : option bytes := if contains (b! "://") s then Some s else None.
Definition test_scheme (url : bytes) : option Upload.Scheme :=
  if starts_with (b! "s3://") url then Some Upload.AmazonS3
  else if starts_with (b! "gs://") url then Some Upload.GoogleCloudStorage
  else if starts_with (b! "az://") url then Some Upload.MicrosoftAzure
  else if starts_with (b! "memory://") url then Some Upload.Memory
  else if starts_with (b! "file://") url then Some Upload.Local else None.

Definition test_write (cfg : HandlerConfig) (fs : ConfigFs) : option ConfigFs :=
  match write (J := token_text) no_faults cfg (b! "/tmp/run/handler.json") fs with
  | (fs, Ok _) => Some fs
  | (_, Err _) => None
  end.
Definition test_read (fs : ConfigFs) : option HandlerConfig := read (J := token_text) test_url test_scheme fs.
Definition tmp_config : ConfigFs := mkFs (Some 448%Z) None None ∅.

(** The default config with one field changed. *)
Definition with_options (opts : list (bytes * bytes)) : HandlerConfig :=
  let d := default_config in
  mkConfig (cluster d) (no_redact d) (proc_root d) (store_url d) opts (crictl_path d)
    (cri_runtime_endpoint d) (max_core_bytes d) (max_cores_per_hour d) (upload_deadline_secs d)
    (crictl_timeout_secs d) (rate_state_path d) (event_socket_path d).
Definition with_paths (proc_root crictl_path rate_state_path : bytes) (event_socket_path : option bytes)
    (store_url : option bytes) : HandlerConfig :=
  let d := default_config in
  mkConfig (cluster d) (no_redact d) proc_root store_url (store_options d) crictl_path
    (cri_runtime_endpoint d) (max_core_bytes d) (max_cores_per_hour d) (upload_deadline_secs d)
    (crictl_timeout_secs d) rate_state_path event_socket_path.

Definition write_then_read_round_trips : bool :=
  let cfg := mkConfig (b! "prod") true (b! "/proc") (Some (b! "s3://crash-artifacts"))
    [(b! "AWS_ACCESS_KEY_ID", b! "minioadmin"); (b! "AWS_ENDPOINT", b! "http://minio:9000")]
    (b! "/usr/local/bin/crictl") (Some (b! "unix:///run/containerd/containerd.sock"))
    1024 5 60 15 (b! "/run/coredrop/recent.json") (Some (b! "/run/coredrop/events.sock")) in
  (test_write cfg tmp_config ≫= test_read) =? Some cfg.

Definition file_mode (fs : ConfigFs) : option Z :=
  match at_path fs with Some (File _ m) => Some m | _ => None end.
Definition is_private (fs : option ConfigFs) : bool :=
  match fs with
  | Some fs => (file_mode fs =? Some 384%Z) && (dir_mode fs =? Some 448%Z)
  | None => false
  end.

Definition write_sets_0600_file_and_0700_parent_dir : bool :=
  is_private (test_write default_config tmp_config).

Definition write_tightens_an_existing_loose_file : bool :=
  is_private (test_write default_config (mkFs (Some 493%Z) (Some (File (b! "{}") 420)) None ∅)).

Definition write_replaces_a_planted_symlink_and_a_stale_temp_file : bool :=
  let target := b! "/tmp/run/elsewhere" in
  match test_write default_config
          (mkFs (Some 448%Z) (Some (Link target)) (Some (File (b! "left by a killed daemon") 420))
             {[ target := b! "untouched" ]}) with
  | Some fs => (elsewhere fs !! target =? Some (b! "untouched"))
               && match at_path fs with Some (Link _) => false | _ => true end
               && (test_read fs =? Some default_config) && is_none (at_tmp fs)
  | None => false
  end.

(** The text of the [Debug] output. *)
Definition debug_text (c : HandlerConfig) : list bytes :=
  concat (map (λ '(k, v), k :: match v with
                               | DStr s | DOpt (Some s) => [s]
                               | DPairs l => concat (map (λ '(a, b), [a; b]) l)
                               | _ => []
                               end) (debug_fields c)).
Definition debug_hides_store_option_values : bool :=
  let debug := debug_text (with_options [(b! "AWS_SECRET_ACCESS_KEY", b! "s3cr3t-debug-canary")]) in
  existsb (contains (b! "AWS_SECRET_ACCESS_KEY")) debug
  && negb (existsb (contains (b! "s3cr3t-debug-canary")) debug).

Definition read_absent_file_is_none : bool := is_none (test_read tmp_config).

Definition read_unparseable_config_returns_none : bool :=
  is_none (test_read (mkFs (Some 448%Z) (Some (File (b! "{not json!") 420)) None ∅)).

Definition read_invalid_config_returns_none : bool :=
  let d := default_config in
  let cfg := with_paths (proc_root d) (b! "relative") (rate_state_path d) (event_socket_path d) None in
  match test_write cfg tmp_config with Some fs => is_none (test_read fs) | None => false end.

Definition sibling_paths_are_derived_from_the_config_path : bool :=
  (event_socket_path_for (b! "/run/coredrop/handler.json") =? b! "/run/coredrop/events.sock")
  && (rate_state_path_for (b! "/run/coredrop/handler.json") =? b! "/run/coredrop/recent.json")
  && (event_socket_path_for [] =? b! "/run/coredrop/events.sock")
  && (rate_state_path_for [] =? b! "/run/coredrop/recent.json").

Definition no_store_url_yields_no_object_store : bool :=
  is_none (object_store test_url test_scheme id id (λ _ k, Some k) (λ _ _ _ _, Some tt) tt (λ _, Some tt)
             default_config).

Definition accepts (cfg : HandlerConfig) : bool := is_ok (validate test_url test_scheme cfg).

Definition validate_accepts_default_config : bool := accepts default_config.

Definition validate_rejects_relative_paths : bool :=
  let d := default_config in
  for_each
    [with_paths (proc_root d) (b! "crictl") (rate_state_path d) (event_socket_path d) None;
     with_paths (b! "proc") (crictl_path d) (rate_state_path d) (event_socket_path d) None;
     with_paths (proc_root d) (crictl_path d) (b! "recent.json") (event_socket_path d) None;
     with_paths (proc_root d) (crictl_path d) (rate_state_path d) (Some (b! "events.sock")) None]
    (λ cfg, negb (accepts cfg)).

Definition validate_accepts_only_supported_store_url_schemes : bool :=
  let d := default_config in
  let at_url url := with_paths (proc_root d) (crictl_path d) (rate_state_path d) (event_socket_path d)
                      (Some url) in
  for_each [b! "s3://crash-artifacts"; b! "gs://crash-artifacts"; b! "az://crash-artifacts"]
    (λ url, accepts (at_url url))
  && for_each [b! "not a url"; b! "memory://bucket"; b! "file:///var/tmp"]
       (λ url, negb (accepts (at_url url))).

Example config_tests_pass :
  [write_then_read_round_trips; write_sets_0600_file_and_0700_parent_dir;
   write_tightens_an_existing_loose_file; write_replaces_a_planted_symlink_and_a_stale_temp_file;
   debug_hides_store_option_values; read_absent_file_is_none; read_unparseable_config_returns_none;
   read_invalid_config_returns_none; sibling_paths_are_derived_from_the_config_path;
   no_store_url_yields_no_object_store; validate_accepts_default_config;
   validate_rejects_relative_paths; validate_accepts_only_supported_store_url_schemes]
  = replicate 13 true.
Proof. vm_compute. reflexivity. Qed.
End ConfigTests.
