(* ===== verification/TestsNode.v ===== *)
(** * The unit tests of the node and of its uploads

    The sysctls, the probe, the upload pipeline, the handler's arguments, the event
    listener and the daemon's startup, as in [TestsParsers.v]. The libraries'
    parts are concrete here: an in-memory store whose writer takes a whole buffer,
    chrono's calendar, a splitter of PEM bundles, URLs. The test at the cap of ten
    thousand keys is proved in [TestsCaps.v]; that zstd makes a core smaller is
    zstd's. *)

From S2P Require Import Prelude RustStr Cgroup BuildId Backend Upload Json Events Snapshot Config CorePattern.
From S2P Require Import K8sEvents Handler Daemon TestsParsers TestsState.
Import Json.

(** ** Concrete libraries *)

Module TestLibs.

(** The civil date of a day since 1970-01-01, by eras of 400 years. *)
Definition civil_from_days (days : Z) : Z * Z * Z :=
  let z := (days + 719468)%Z in
  let era := (z / 146097)%Z in
  let doe := (z - era * 146097)%Z in
  let yoe := ((doe - doe / 1460 + doe / 36524 - doe / 146096) / 365)%Z in
  let doy := (doe - (365 * yoe + yoe / 4 - yoe / 100))%Z in
  let mp := ((5 * doy + 2) / 153)%Z in
  let m := (if decide (mp < 10) then mp + 3 else mp - 9)%Z in
  ((yoe + era * 400 + (if decide (m ≤ 2) then 1 else 0))%Z, m, (doy - (153 * mp + 2) / 5 + 1)%Z).

Definition pad (width : nat) (z : Z) : bytes :=
  let s := to_string z in replicate (width - length s) "0"%byte ++ s.

(** [DateTime::from_timestamp(secs, 0)] and its RFC 3339 text, with what follows the
    seconds. *)
Definition rfc3339 (suffix : bytes) (secs : Z) : option bytes :=
  let '(y, m, d) := civil_from_days (secs / 86400) in
  let s := (secs mod 86400)%Z in
  Some (pad 4 y ++ b! "-" ++ pad 2 m ++ b! "-" ++ pad 2 d ++ b! "T"
        ++ pad 2 (s / 3600) ++ b! ":" ++ pad 2 (s / 60 mod 60) ++ b! ":" ++ pad 2 (s mod 60) ++ suffix).

(** A writer that takes every buffer whole; its object appears at the shutdown. *)
#[export] Instance whole_writer : Upload.BufWriter Upload.Mem.store := {
  bw := Upload.Mem.sink;
  bw_new k := Upload.Mem.mkSink k [] true;
  bw_poll_write '(w, b) buf :=
    Upload.Fast (w, Upload.Mem.mkSink (Upload.Mem.sk_key b) (Upload.Mem.sk_data b ++ buf) (Upload.Mem.sk_open b))
      (Ok (length buf));
  bw_poll_shutdown '(w, b) :=
    Upload.Fast (<[Upload.Mem.sk_key b := Upload.Mem.sk_data b]> w,
                 Upload.Mem.mkSink (Upload.Mem.sk_key b) (Upload.Mem.sk_data b) false) (Ok tt);
  bw_abort '(w, b) := if Upload.Mem.sk_open b then Backend.Ret (w, Ok tt) else Backend.Panic;
  bw_key := Upload.Mem.sk_key;
  bw_written := Upload.Mem.sk_data;
  bw_open := Upload.Mem.sk_open;
}.

(** The certificates of a PEM bundle: the lines between the markers of each. *)
Fixpoint pem_certs (ls : list bytes) (cert : option bytes) : list bytes :=
  match ls with
  | [] => []
  | l :: ls =>
      if bool_decide (l = b! "-----BEGIN CERTIFICATE-----") then pem_certs ls (Some [])
      else if bool_decide (l = b! "-----END CERTIFICATE-----")
           then from_option (λ c, [c]) [] cert ++ pem_certs ls None
      else pem_certs ls ((λ c, c ++ l) <$> cert)
  end.
Definition from_pem_bundle (pem : bytes) : option (list bytes) := Some (pem_certs (lines pem) None).

(** [url::Url]: a special scheme's default port is dropped; a pushed segment is
    percent-encoded. *)
Definition strip_default_port (origin : bytes) : bytes :=
  if starts_with (b! "https://") origin then default origin (strip_suffix (b! ":443") origin)
  else if starts_with (b! "http://") origin then default origin (strip_suffix (b! ":80") origin)
  else origin.
Definition url_parse (s : bytes) : option K8sEvents.Url :=
  '(scheme, rest) ← find_sub (b! "://") s;
  match split "/"%byte rest with
  | host :: path => if decide (host = []) then None
                    else Some (K8sEvents.mkUrl (strip_default_port (scheme ++ b! "://" ++ host)) path)
  | [] => None
  end.
Definition encode_byte (c : byte) : bytes :=
  if in_range 32 126 c && bool_decide (c ∉ x22 :: b! " <>`#?{}/%\") then [c]
  else b! "%" ++ to_ascii_uppercase (BuildId.hex_byte c).
Definition url_path (u : K8sEvents.Url) : bytes :=
  concat (map (λ s, b! "/" ++ concat (map encode_byte s)) (K8sEvents.segments u)).
Definition url_str (u : K8sEvents.Url) : bytes := K8sEvents.origin u ++ url_path u.

(** The message chain of an error, as [{err:#}] shows it. *)
Definition chain_contains (s : bytes) (err : list bytes) : bool := contains s (join (b! ": ") err).
End TestLibs.
Import TestLibs.

(** ** [core_pattern.rs] *)

Module CorePatternTests.
Import CorePattern.
Local Open Scope bool_scope.

Definition sysctl (path v : bytes) : Sysctl := mkSysctl path (Some v) true.
Definition temp_kernel (pattern_ pipe : bytes) : Kernel :=
  mkKernel (sysctl (b! "/tmp/core_pattern") pattern_) (sysctl (b! "/tmp/core_pipe_limit") pipe).
Definition values (k : Kernel) : option bytes * option bytes := (value (pattern k), value (pipe_limit k)).

Definition pattern_pipes_to_the_handler : bool :=
  build_pattern (b! "/opt/coredrop/bin/coredrop") =? b! "|/opt/coredrop/bin/coredrop capture %P %s %t %E".

Definition newline : bytes := [x0a].
Definition install_sets_then_restores_both_sysctls : bool :=
  let before := temp_kernel (b! "core" ++ newline) (b! "0" ++ newline) in
  match install_at (b! "/h/coredrop") 16 before with
  | (k, Ok guard) =>
      (values k =? (Some (b! "|/h/coredrop capture %P %s %t %E"), Some (b! "16")))
      && (values (restore guard k) =? values before)
  | (_, Err _) => false
  end.

Definition install_fails_when_the_pattern_sysctl_is_unreadable : bool :=
  let before := mkKernel (mkSysctl (b! "/tmp/missing/core_pattern") None false)
                  (sysctl (b! "/tmp/core_pipe_limit") (b! "0" ++ newline)) in
  match install_at (b! "/h/coredrop") 16 before with
  | (k, Err err) => chain_contains (b! "core_pattern") err && (values k =? values before)
  | (_, Ok _) => false
  end.

Definition install_over_our_own_pattern_restores_the_kernel_default : bool :=
  match install_at (b! "/h/coredrop") 16
          (temp_kernel (build_pattern (b! "/h/coredrop") ++ newline) (b! "128" ++ newline)) with
  | (k, Ok guard) => value (pattern (restore guard k)) =? Some (b! "core")
  | (_, Err _) => false
  end.

Example core_pattern_tests_pass :
  [pattern_pipes_to_the_handler; install_sets_then_restores_both_sysctls;
   install_fails_when_the_pattern_sysctl_is_unreadable;
   install_over_our_own_pattern_restores_the_kernel_default] = replicate 4 true.
Proof. vm_compute. reflexivity. Qed.
End CorePatternTests.
Import CorePatternTests.

(** ** [health.rs] *)

Module HealthTests.
Local Open Scope bool_scope.

Definition INSTALLED : bytes := b! "|/opt/coredrop/bin/coredrop capture %P %s %t %E" ++ newline.
Definition HANDLER : bytes := b! "/opt/coredrop/bin/coredrop".

(** The written config and the sysctls; [None] when the write fails. *)
Definition health_fixture (pattern : bytes) (event_socket_path : option bytes)
    : option (Config.ConfigFs * CorePattern.Kernel) :=
  let d := Config.default_config in
  let config := ConfigTests.with_paths (Config.proc_root d) (Config.crictl_path d) (Config.rate_state_path d)
                  event_socket_path (Config.store_url d) in
  fs ← ConfigTests.test_write config ConfigTests.tmp_config;
  Some (fs, temp_kernel pattern (b! "0")).

Definition probe (bound : list bytes) (x : option (Config.ConfigFs * CorePattern.Kernel))
    : option (result unit (list bytes)) :=
  '(fs, k) ← x;
  Some (CorePattern.check (J := token_text) ConfigTests.test_url ConfigTests.test_scheme
          (λ p, bool_decide (p ∈ bound)) HANDLER (b! "/tmp/handler.json") (b! "/tmp/core_pattern") k fs).
Definition passes (r : option (result unit (list bytes))) : bool :=
  match r with Some (Ok _) => true | _ => false end.
Definition fails_with (msg : bytes) (r : option (result unit (list bytes))) : bool :=
  match r with Some (Err e) => chain_contains msg e | _ => false end.

Definition passes_when_pattern_and_config_are_intact : bool :=
  passes (probe [] (health_fixture INSTALLED None)).

Definition passes_when_the_advertised_event_socket_is_bound : bool :=
  let sock_path := b! "/tmp/events.sock" in
  passes (probe [sock_path] (health_fixture INSTALLED (Some sock_path))).

Definition fails_when_core_pattern_drifted : bool :=
  fails_with (b! "core_pattern is") (probe [] (health_fixture (b! "core" ++ newline) None)).

Definition fails_when_handler_config_is_gone : bool :=
  fails_with (b! "missing or invalid")
    (probe [] ((λ '(_, k), (ConfigTests.tmp_config, k)) <$> health_fixture INSTALLED None)).

Definition fails_when_advertised_event_socket_is_gone : bool :=
  fails_with (b! "is not bound")
    (probe [] (health_fixture INSTALLED (Some (b! "/run/coredrop/definitely-not-bound.sock")))).

Example health_tests_pass :
  [passes_when_pattern_and_config_are_intact; passes_when_the_advertised_event_socket_is_bound;
   fails_when_core_pattern_drifted; fails_when_handler_config_is_gone;
   fails_when_advertised_event_socket_is_gone] = replicate 5 true.
Proof. vm_compute. reflexivity. Qed.
End HealthTests.

(** ** [upload.rs] *)

Module UploadTests.
Import Backend Upload TestUtil.
Local Open Scope bool_scope.

(** The chart's copy of the allow list: the template that defines it. *)
Definition quote : bytes := [x22].
Definition HELPERS : bytes :=
  b! "{{- define " ++ quote ++ b! "coredrop.allowedStoreOpts" ++ quote ++ b! " -}}
AWS_ACCESS_KEY_ID
AWS_SECRET_ACCESS_KEY
AWS_SESSION_TOKEN
AWS_REGION
AWS_DEFAULT_REGION
AWS_ENDPOINT
AWS_ALLOW_HTTP
AWS_VIRTUAL_HOSTED_STYLE_REQUEST
AWS_ROLE_ARN
AWS_WEB_IDENTITY_TOKEN_FILE
GOOGLE_SERVICE_ACCOUNT
GOOGLE_SERVICE_ACCOUNT_KEY
AZURE_STORAGE_ACCOUNT_NAME
AZURE_STORAGE_ACCESS_KEY
AZURE_STORAGE_CLIENT_ID
AZURE_STORAGE_CLIENT_SECRET
AZURE_STORAGE_TENANT_ID
AZURE_CLIENT_ID
AZURE_TENANT_ID
AZURE_FEDERATED_TOKEN_FILE
AZURE_AUTHORITY_HOST
{{- end -}}
".
Definition helpers_store_opts_match_allowlist : bool :=
  match '(_, block) ← find_sub (b! "{{- define " ++ quote ++ b! "coredrop.allowedStoreOpts" ++ quote ++ b! " -}}") HELPERS;
        find_sub (b! "{{- end -}}") block with
  | Some (block, _) =>
      let chart := filter (λ l, l ≠ []) (map trim (lines block)) in
      (list_to_set chart : gset bytes) =? (list_to_set ALLOWED_STORE_OPTS : gset bytes)
  | None => false
  end.

Definition builds_object_keys : bool :=
  let keys := Keys.new (b! "prod") (b! "pod-uid-123") (b! "abc123def") 1749600000 4242 in
  (Keys.core keys =? b! "prod/pod-uid-123/abc123def/1749600000-4242-core.zst")
  && (Keys.proc_snapshot keys =? b! "prod/pod-uid-123/abc123def/1749600000-4242-procsnapshot.tar")
  && (Keys.manifest keys =? b! "prod/pod-uid-123/abc123def/1749600000-4242-manifest.json").

Definition distinct_pids_yield_distinct_keys_within_the_same_second : bool :=
  let a := Keys.core (Keys.new (b! "prod") (b! "pod-uid-123") (b! "abc123def") 1749600000 111) in
  let b := Keys.core (Keys.new (b! "prod") (b! "pod-uid-123") (b! "abc123def") 1749600000 222) in
  negb (a =? b).

Definition put_object_round_trips_a_buffered_blob : bool :=
  let key := Keys.proc_snapshot (Keys.new (b! "local") (b! "pod-a") (b! "cid-b") 7 4242) in
  let tar := b! "a-small-tar-bundle" in
  match put_object (World := Mem.store) ∅ key tar with
  | (store, Ok tt) => objects store !! object_path key =? Some tar
  | (_, Err _) => false
  end.

(** [(start..start + n)] *)
Fixpoint range (n : nat) (start : Z) : list Z :=
  match n with 0 => [] | S n => start :: range n (start + 1) end.

(** The decoded object. *)
Definition unzstd (stored : option bytes) : option bytes := stored ≫= zstd_decode.
Definition digest_hex (stored : bytes) : bytes := hex_lower (Mem.toy_digest stored).

(** A drain into an empty store: the key, the store after it and the result. *)
Definition drain_of (pod_uid container_id : bytes) (timestamp max_core_bytes : Z) (reader : pipe)
    (deadline : option Z) : option bytes * outcome (result CoreStats error) :=
  let key := Keys.core (Keys.new (b! "local") pod_uid container_id timestamp 4242) in
  let '(store, r) := standalone_drain_core (B := whole_writer) Mem.toy_digest
                       (standalone_new key max_core_bytes) 0%Z reader deadline (∅ : Mem.store) in
  (objects store !! object_path key, r).

Definition streams_zstd_with_integrity_and_round_trips : bool :=
  let core := map (λ i, byte_of_Z (i mod 7)) (range (Z.to_nat 200000) 0) in
  match drain_of (b! "pod-aaa") (b! "cid-bbb") 42 0 [Avail (InTime core)] None with
  | (Some stored, Ret (Ok stats)) =>
      negb (truncated stats) && (bytes_ stats =? Z.of_nat (length core))
      && (stored_bytes stats =? Z.of_nat (length stored))
      && (sha256 stats =? Some (digest_hex stored))
      && (unzstd (Some stored) =? Some core)
  | _ => false
  end.

(** Yields one chunk, then stalls forever. *)
Definition StallAfterOneChunk (chunk : bytes) : pipe := [Avail (InTime chunk); Closed (Late tt)].

Definition is_err {T} (r : outcome (result T error)) : bool :=
  match r with Ret (Err _) => true | _ => false end.

Definition drain_aborts_multipart_and_errors_on_deadline : bool :=
  let key := b! "abort-test/core.zst" in
  let incompressible := map (λ i, byte_of_Z (Z.shiftr (Z.land (i * 2654435761) u32_max) 24)) (range (Z.to_nat 512000) 0) in
  let '(store, r) := stream_core_through_zstd (B := whole_writer) Mem.toy_digest
                       0%Z (StallAfterOneChunk incompressible) (bw_new key) 0 (Some 1%Z) (∅ : Mem.store) in
  is_err r && is_none (objects store !! key).

Definition drain_errors_on_deadline_before_any_bytes_arrive : bool :=
  let '(stored, r) := drain_of (b! "pod-stall") (b! "cid-stall") 1 0 StallReader (Some 1%Z) in
  is_err r && is_none stored.

Definition marks_truncated_on_a_short_read_but_finalizes_the_partial : bool :=
  let chunk := replicate (Z.to_nat 50000) x5a in
  match drain_of (b! "pod-x") (b! "cid-y") 7 0 (FlakyReader chunk) None with
  | (stored, Ret (Ok stats)) =>
      truncated stats && (truncated_reason stats =? Some (b! "stream_error"))
      && (bytes_ stats =? Z.of_nat (length chunk)) && (0 <? stored_bytes stats)%Z
      && (unzstd stored =? Some chunk)
  | _ => false
  end.

Definition caps_stored_core_but_drains_and_counts_everything : bool :=
  let core := map (λ i, byte_of_Z (i mod 251)) (range (Z.to_nat 50000) 0) in
  match drain_of (b! "pod-cap") (b! "cid-cap") 9 10000 [Avail (InTime core)] None with
  | (stored, Ret (Ok stats)) =>
      (bytes_ stats =? 50000%Z) && truncated stats && (truncated_reason stats =? Some (b! "size_cap"))
      && (unzstd stored =? Some (takeZ 10000 core))
  | _ => false
  end.

(** The builders accept what they are given; options the cloud does not know never reach
    them. *)
Definition built_from (raw_url : bytes) (opts : list (bytes * bytes)) : option Scheme :=
  object_store_from_url_opts ConfigTests.test_url id id ConfigTests.test_scheme
    (λ _ k, if bool_decide (k ∈ map to_ascii_lowercase ALLOWED_STORE_OPTS) then Some k else None)
    (λ s _ _ _, Some s) Memory (λ _, Some Local) raw_url opts.
Definition object_store_from_url_opts_dispatches_by_scheme : bool :=
  let s3_opts := [(b! "AWS_ACCESS_KEY_ID", b! "ak"); (b! "AWS_SECRET_ACCESS_KEY", b! "sk");
                  (b! "AWS_REGION", b! "us-east-1"); (b! "NOT_A_REAL_KEY", b! "ignored")] in
  negb (is_none (built_from (b! "s3://some-bucket") s3_opts))
  && negb (is_none (built_from (b! "memory:///") []))
  && is_none (built_from (b! "not a url") []) && is_none (built_from (b! "bogus://x") []).

Definition store_options_from_env_forwards_workload_identity_keys : bool :=
  let wi_keys := [b! "AWS_ROLE_ARN"; b! "AWS_WEB_IDENTITY_TOKEN_FILE"; b! "AWS_DEFAULT_REGION";
                  b! "AZURE_CLIENT_ID"; b! "AZURE_TENANT_ID"; b! "AZURE_FEDERATED_TOKEN_FILE";
                  b! "AZURE_AUTHORITY_HOST"] in
  let env := (b! "PATH", b! "/usr/bin") :: map (λ key, (key, b! "test-value")) wi_keys
             ++ [(b! "NOT_AN_ALLOWED_KEY", b! "leak-me-not")] in
  match store_options_from_env env with
  | Ret opts => for_each wi_keys (λ key, opt_get opts key =? b! "test-value")
                && bool_decide (b! "NOT_AN_ALLOWED_KEY" ∉ opts.*1)
  | Panic => false
  end.

Definition plaintext_endpoint_detection : bool :=
  is_plaintext_endpoint [(b! "AWS_ENDPOINT", b! "http://minio:9000")]
  && is_plaintext_endpoint [(b! "AWS_ALLOW_HTTP", b! "true")]
  && negb (is_plaintext_endpoint [(b! "AWS_ENDPOINT", b! "https://s3.example.com")])
  && negb (is_plaintext_endpoint [(b! "AWS_ALLOW_HTTP", b! "false")])
  && negb (is_plaintext_endpoint []).

Example upload_tests_pass :
  [helpers_store_opts_match_allowlist; builds_object_keys;
   distinct_pids_yield_distinct_keys_within_the_same_second; put_object_round_trips_a_buffered_blob;
   streams_zstd_with_integrity_and_round_trips; drain_aborts_multipart_and_errors_on_deadline;
   drain_errors_on_deadline_before_any_bytes_arrive;
   marks_truncated_on_a_short_read_but_finalizes_the_partial;
   caps_stored_core_but_drains_and_counts_everything;
   object_store_from_url_opts_dispatches_by_scheme;
   store_options_from_env_forwards_workload_identity_keys; plaintext_endpoint_detection]
  = replicate 12 true.
Proof. vm_compute. reflexivity. Qed.
End UploadTests.

(** ** [handler.rs] *)

Module HandlerTests.
Import Handler.
Local Open Scope bool_scope.

#[local] Instance args_eq_dec : EqDecision CaptureArgs.
Proof. solve_decision. Defined.

Definition accepts_a_non_utf8_exe : bool :=
  let exe_ := b! "!usr!bin!app" ++ [xff; xfe] in
  match parse [b! "4242"; b! "11"; b! "1749600000"; exe_] with
  | Ok parsed => (exe parsed =? b! "!usr!bin!app" ++ replacement_char ++ replacement_char)
                 && (host_pid parsed =? 4242%Z)
  | Err _ => false
  end.

Definition rejects (args : list bytes) : bool := negb (is_ok (parse args)).

Definition rejects_a_non_utf8_number : bool := rejects [b! "42" ++ [xff]; b! "11"; b! "0"; b! "exe"].

Definition parses_the_kernel_arg_template : bool :=
  result_ok (parse [b! "4242"; b! "11"; b! "1749600000"; b! "!usr!bin!app"])
  =? Some (mkArgs 4242 11 1749600000 (b! "!usr!bin!app")).

Definition rejects_wrong_arity : bool :=
  rejects [b! "1"; b! "2"; b! "3"] && rejects [b! "1"; b! "2"; b! "3"; b! "x"; b! "extra"].

Definition rejects_non_numeric_fields : bool :=
  rejects [b! "notapid"; b! "11"; b! "0"; b! "exe"] && rejects [b! "1"; b! "sig"; b! "0"; b! "exe"].

Definition signal_names_cover_common_faults : bool :=
  (signal_name 11 =? Some (b! "SIGSEGV")) && (signal_name 6 =? Some (b! "SIGABRT"))
  && (signal_name 8 =? Some (b! "SIGFPE")) && (signal_name 4 =? Some (b! "SIGILL"))
  && (signal_name 7 =? Some (b! "SIGBUS")) && (signal_name 99 =? None).

(** The sample environment with chrono's calendar. *)
Definition calendar_env : Env :=
  let e := sample_env in
  mkEnv (env_fs e) (env_log2 e) (env_rt e) (rfc3339 (b! "+00:00")) (env_sha256 e) (env_lib e)
    (env_check_faults e) (env_refund_faults e) (env_send_fault e) (env_monotonic e).
Definition format_timestamp_produces_rfc3339 : bool :=
  (format_timestamp calendar_env 0 =? b! "1970-01-01T00:00:00+00:00")
  && (format_timestamp calendar_env 1749600000 =? b! "2025-06-11T00:00:00+00:00").

Example handler_tests_pass :
  [accepts_a_non_utf8_exe; rejects_a_non_utf8_number; parses_the_kernel_arg_template;
   rejects_wrong_arity; rejects_non_numeric_fields; signal_names_cover_common_faults;
   format_timestamp_produces_rfc3339] = replicate 7 true.
Proof. vm_compute. reflexivity. Qed.
End HandlerTests.

(** ** [k8s_events.rs] *)

Module K8sEventsTests.
Import K8sEvents.
Local Open Scope bool_scope.

Definition payload (namespace pod_uid : bytes) : Events.CaptureEventPayload :=
  Events.mkPayload (Some namespace) (Some (b! "my-pod")) (Some pod_uid) (Some (b! "def456"))
    (Some (b! "app")) 4242 (b! "server") 11 (Some (b! "SIGSEGV")) Events.Uploaded
    (Some (b! "local/abc-123/def456/1234567890-manifest.json")) 4096 (Some 1024%Z) false None 1749600000.

Definition agg_key (pod_uid : bytes) (reason : Reason) : AggKey := mkKey (b! "default") pod_uid reason.

Definition bind_in_temp_dir (pre : option sock_node) : SockFs * result unit bind_step :=
  bind_socket (λ _, false) 493 (b! "/tmp/run/events.sock") (mkSockFs (Some 448%Z) pre).

Definition reason_maps_only_reportable_outcomes : bool :=
  for_each [(Events.Uploaded, b! "CoreDumped"); (Events.SuppressedRateLimit, b! "CoreDumpSuppressed");
            (Events.NoStoreDiscard, b! "CoreDiscardedNoStore")]
    (λ '(outcome, reason),
       match from_outcome outcome with
       | Some got => (reason_str got =? reason) && (slug got =? to_ascii_lowercase reason)
       | None => false
       end)
  && (from_outcome Events.SkippedNonK8s =? None) && (from_outcome Events.Failed =? None).

(** A sequence of records, and what each returned. *)
Fixpoint record_all (ops : list (AggKey * Z * bytes)) (agg : Aggregator) : Aggregator * list (option Recorded) :=
  match ops with
  | [] => (agg, [])
  | (key, now, name) :: ops =>
      let '(agg, r) := record key now (λ _, name) agg in
      let '(agg, rs) := record_all ops agg in (agg, r :: rs)
  end.
#[local] Instance recorded_eq_dec : EqDecision Recorded.
Proof. solve_decision. Defined.

Definition aggregator_bumps_count_for_repeats_within_ttl : bool :=
  let key := agg_key (b! "abc-123") CoreDumped in
  snd (record_all [(key, 0%Z, b! "ev-1"); (key, 10%Z, b! "ev-2"); (key, 20%Z, b! "ev-3")] ∅)
  =? [Some (mkRecorded (b! "ev-1") true 1); Some (mkRecorded (b! "ev-1") false 2);
      Some (mkRecorded (b! "ev-1") false 3)].

Definition aggregator_separates_distinct_keys : bool :=
  let rs := snd (record_all [(agg_key (b! "pod-a") CoreDumped, 0%Z, b! "a");
                             (agg_key (b! "pod-b") CoreDumped, 0%Z, b! "b");
                             (agg_key (b! "pod-a") CoreDumpSuppressed, 0%Z, b! "c")] ∅) in
  for_each rs (from_option is_new false).

Definition after_ttl : Z := AGGREGATION_TTL + 1.
Definition aggregator_re_creates_after_ttl_expiry : bool :=
  let key := agg_key (b! "abc-123") CoreDumped in
  snd (record_all [(key, 0%Z, b! "ev-1"); (key, after_ttl, b! "ev-2")] ∅)
  =? [Some (mkRecorded (b! "ev-1") true 1); Some (mkRecorded (b! "ev-2") true 1)].

Definition aggregator_sweep_removes_expired_entries : bool :=
  let key := agg_key (b! "abc-123") CoreDumped in
  let agg := fst (record_all [(key, 0%Z, b! "ev-1")] ∅) in
  let swept := sweep after_ttl agg in
  (size agg =? 1) && (size swept =? 0)
  && (snd (record_all [(key, after_ttl, b! "ev-2")] swept) =? [Some (mkRecorded (b! "ev-2") true 1)]).

Definition opts_micro : Z → option bytes := rfc3339 (b! ".000000Z").
Definition rfc3339_micro_always_has_six_fractional_digits : bool :=
  rfc3339_micro opts_micro 1749600000 =? b! "2025-06-11T00:00:00.000000Z".

Definition event_name_is_dns_subdomain_safe : bool :=
  let name := event_name (b! "abc-123-def") CoreDumped 1749600000 in
  (name =? b! "coredrop-abc-123-def-coredumped-1749600000")
  && forallb (λ c, is_ascii_lowercase c || is_ascii_digit c || is_byte "-"%byte c) name.

(** [body[k1][k2]…] as a string *)
Definition at_key (body : Value) (path : list bytes) : option bytes := as_str (foldl index body path).

Definition event_body_targets_the_pod_and_carries_a_decodable_event_time : bool :=
  let payload := payload (b! "default") (b! "abc-123") in
  let target := mkTarget (b! "default") (b! "my-pod") (b! "abc-123") in
  let name := event_name (t_pod_uid target) CoreDumped (Events.timestamp payload) in
  let body := event_body opts_micro (b! "node-a") name CoreDumped target payload in
  for_each
    [([b! "apiVersion"], b! "events.k8s.io/v1"); ([b! "kind"], b! "Event");
     ([b! "metadata"; b! "name"], name); ([b! "metadata"; b! "namespace"], b! "default");
     ([b! "reportingController"], b! "coredrop"); ([b! "reportingInstance"], b! "node-a");
     ([b! "reason"], b! "CoreDumped"); ([b! "type"], b! "Warning");
     ([b! "eventTime"], b! "2025-06-11T00:00:00.000000Z");
     ([b! "regarding"; b! "kind"], b! "Pod"); ([b! "regarding"; b! "apiVersion"], b! "v1");
     ([b! "regarding"; b! "namespace"], b! "default"); ([b! "regarding"; b! "name"], b! "my-pod");
     ([b! "regarding"; b! "uid"], b! "abc-123")]
    (λ '(path, expected), at_key body path =? Some expected).

(** The payload with the fields that the next test changes. *)
Definition noted (manifest_key : option bytes) (signal : Z) (signal_name : option bytes) : bytes :=
  note (Events.mkPayload (Some (b! "default")) (Some (b! "my-pod")) (Some (b! "abc-123")) (Some (b! "def456"))
          (Some (b! "app")) 4242 (b! "server") signal signal_name Events.Uploaded manifest_key 4096
          (Some 1024%Z) false None 1749600000).
Definition note_points_at_the_artifacts_when_a_manifest_was_written : bool :=
  (note (payload (b! "default") (b! "abc-123"))
   =? b! "core dumped (signal SIGSEGV); artifacts at local/abc-123/def456/1234567890-manifest.json")
  && (noted None 11 (Some (b! "SIGSEGV")) =? b! "core dumped (signal SIGSEGV)")
  && (noted None 31 None =? b! "core dumped (signal 31)").

Definition series_patch_carries_the_running_count : bool :=
  let body := series_patch 7 (b! "2025-06-11T00:00:00.000000Z") in
  (as_u64 (index (index body (b! "series")) (b! "count")) =? Some 7%Z)
  && (at_key body [b! "series"; b! "lastObservedTime"] =? Some (b! "2025-06-11T00:00:00.000000Z")).

Definition bind_socket_replaces_a_stale_socket_file : bool :=
  is_ok (snd (bind_in_temp_dir (Some OtherFile))).

Definition bind_socket_creates_a_0700_dir_holding_a_0600_socket : bool :=
  let fs := fst (bind_in_temp_dir None) in
  (sock_dir_mode fs =? Some 448%Z) && match at_sock fs with Some (Sock m) => m =? 384%Z | _ => false end.

(** [EventClient::new_for_test] *)
Definition new_for_test (http : Http) (api_server token : bytes) : option EventClient :=
  base ← events_base url_parse api_server; Some (mkClient http base token).

(** An API server that refuses every connection; the aggregator after a payload. *)
Definition refused : call → result (Z * bytes) bytes := λ _, Err (b! "connection refused").
Definition handled (agg : Aggregator) (p : Events.CaptureEventPayload) : Aggregator :=
  fst (handle_payload opts_micro refused
         (new_for_test (mkHttp 1 []) (b! "http://127.0.0.1:1") (b! "test")) agg (b! "test-node") p 0).

Definition uid : bytes := b! "0f1e2d3c-4b5a-6978-8796-a5b4c3d2e1f0".
Definition handle_payload_rejects_invalid_namespace_or_pod_uid : bool :=
  let long_namespace := replicate (MAX_NAMESPACE_LEN + 1) "x"%byte in
  let long_uid := replicate (Cgroup.MAX_POD_UID_LEN + 1) "a"%byte in
  for_each
    [([], uid); (long_namespace, uid); (b! "kube/system", uid); (b! "default?x=1", uid);
     (b! "default%2F", uid); (b! "..", uid); (b! "Default", uid); (b! "-default", uid);
     (b! "default-", uid); (b! "default", []); (b! "default", long_uid);
     (b! "default", b! "0f1e/../2d3c"); (b! "default", b! "0f1e?x=1"); (b! "default", b! "0f1e%2F");
     (b! "default", b! ".."); (b! "default", b! "0F1E2D3C")]
    (λ '(namespace, pod_uid), size (handled ∅ (payload namespace pod_uid)) =? 0)
  && (size (handled ∅ (payload (b! "default") uid)) =? 1).

Definition handle_payload_skips_a_capture_without_pod_identity : bool :=
  let without ns name u :=
    Events.mkPayload ns name u (Some (b! "def456")) (Some (b! "app")) 4242 (b! "server") 11
      (Some (b! "SIGSEGV")) Events.Uploaded None 4096 (Some 1024%Z) false None 1749600000 in
  let agg := foldl handled ∅ [without None (Some (b! "my-pod")) (Some uid);
                              without (Some (b! "default")) None (Some uid);
                              without (Some (b! "default")) (Some (b! "my-pod")) None] in
  size agg =? 0.

Definition TEST_CA_1 : bytes := b! "-----BEGIN CERTIFICATE-----
MIIBfzCCASWgAwIBAgIUJbJWkLJJqhX+NszCpokTPUg+DE0wCgYIKoZIzj0EAwIw
FDESMBAGA1UEAwwJdGVzdC1jYS0xMCAXDTI2MTAyNTE2MTc1NloYDzIxMjYxMDAx
MTYxNzU2WjAUMRIwEAYDVQQDDAl0ZXN0LWNhLTEwWTATBgcqhkjOPQIBBggqhkjO
PQMBBwNCAAT3smZYjInK1qwoqXGKMQX5RywlkqeTC5fRpgDVwRFxhpKJd3WNE8vQ
mgrVZUTi7xyZItEi0U2QXPp9IuLiQInJo1MwUTAdBgNVHQ4EFgQUwASJEzdMF4QZ
bjQVQ8bwWlVBtSkwHwYDVR0jBBgwFoAUwASJEzdMF4QZbjQVQ8bwWlVBtSkwDwYD
VR0TAQH/BAUwAwEB/zAKBggqhkjOPQQDAgNIADBFAiAaAPKpfQx65kd2zpdXYDQM
WCb01nHlU5vOrJ0xdzMbTwIhAIoUy34vYSThgzJ2z6dLPdY6IT8+MjkzoEJH1lS9
S4WP
-----END CERTIFICATE-----
".
Definition TEST_CA_2 : bytes := b! "-----BEGIN CERTIFICATE-----
MIIBfzCCASWgAwIBAgIUMx1Z0GqBi7U/bcDVQX0KYFApxtUwCgYIKoZIzj0EAwIw
FDESMBAGA1UEAwwJdGVzdC1jYS0yMCAXDTI2MTAyNTE2MTc1NloYDzIxMjYxMDAx
MTYxNzU2WjAUMRIwEAYDVQQDDAl0ZXN0LWNhLTIwWTATBgcqhkjOPQIBBggqhkjO
PQMBBwNCAAT3mLiKb/NOxIbvlJH9J5wygOjhoxh2Ha34vqcCVUsdozyzzsNEC7sJ
lmeJR4hyKlZ4RO35MQhwrl3+Ay6x+Jy9o1MwUTAdBgNVHQ4EFgQUu5B3Fe20Rm8X
qoPmEMZWfA8pxUswHwYDVR0jBBgwFoAUu5B3Fe20Rm8XqoPmEMZWfA8pxUswDwYD
VR0TAQH/BAUwAwEB/zAKBggqhkjOPQQDAgNIADBFAiEAxvgpt/B7x2CHfvJgQxsz
Qk3ftY8cokYo8zDjg7phpOkCICYrIQ0gyWa4NboPK2ncWw/n6IqzPVKisAzgbK5v
Kf3s
-----END CERTIFICATE-----
".

Definition test_http (ca_pem : bytes) : option Http := build_http from_pem_bundle (λ _, true) ca_pem.
Definition build_http_trusts_every_cert_in_the_bundle : bool :=
  let bundle := TEST_CA_1 ++ TEST_CA_2 in
  (length <$> from_pem_bundle bundle =? Some 2) && negb (is_none (test_http bundle)).

Definition build_http_rejects_a_bundle_without_certs : bool :=
  is_none (test_http []) && is_none (test_http (b! "not a pem")).

Definition test_client (origin : bytes) : option EventClient :=
  http ← test_http TEST_CA_1; new_for_test http origin (b! "test").
Definition test_url (origin namespace : bytes) (name : option bytes) : option Url :=
  (λ client, events_url client namespace name) <$> test_client origin.

Definition events_url_builds_create_and_patch_paths : bool :=
  let origin := b! "https://10.0.0.1:443" in
  (url_str <$> test_url origin (b! "default") None
   =? Some (b! "https://10.0.0.1/apis/events.k8s.io/v1/namespaces/default/events"))
  && (url_str <$> test_url origin (b! "default") (Some (b! "my-event.abc"))
      =? Some (b! "https://10.0.0.1/apis/events.k8s.io/v1/namespaces/default/events/my-event.abc")).

Definition events_url_encodes_each_segment : bool :=
  url_path <$> test_url (b! "https://10.0.0.1:6443") (b! "a/b?c%") (Some (b! "x/y"))
  =? Some (b! "/apis/events.k8s.io/v1/namespaces/a%2Fb%3Fc%25/events/x%2Fy").

Definition events_base_keeps_ipv6_brackets : bool :=
  url_str <$> test_url (b! "https://[fd00::1]:6443") (b! "default") None
  =? Some (b! "https://[fd00::1]:6443/apis/events.k8s.io/v1/namespaces/default/events").

Example k8s_events_tests_pass :
  [reason_maps_only_reportable_outcomes; aggregator_bumps_count_for_repeats_within_ttl;
   aggregator_separates_distinct_keys; aggregator_re_creates_after_ttl_expiry;
   aggregator_sweep_removes_expired_entries; rfc3339_micro_always_has_six_fractional_digits;
   event_name_is_dns_subdomain_safe;
   event_body_targets_the_pod_and_carries_a_decodable_event_time;
   note_points_at_the_artifacts_when_a_manifest_was_written; series_patch_carries_the_running_count;
   bind_socket_replaces_a_stale_socket_file; bind_socket_creates_a_0700_dir_holding_a_0600_socket;
   handle_payload_rejects_invalid_namespace_or_pod_uid;
   handle_payload_skips_a_capture_without_pod_identity; build_http_trusts_every_cert_in_the_bundle;
   build_http_rejects_a_bundle_without_certs; events_url_builds_create_and_patch_paths;
   events_url_encodes_each_segment; events_base_keeps_ipv6_brackets] = replicate 19 true.
Proof. vm_compute. reflexivity. Qed.
End K8sEventsTests.

(** ** [main.rs] *)

Module MainTests.
Import Daemon.
Local Open Scope bool_scope.

Definition args (config_path pattern pipe : bytes) : DaemonArgs :=
  mkArgs (b! "/opt/coredrop/bin/coredrop") config_path (b! "test") false (b! "/proc") None
    (b! "/usr/local/bin/crictl") None 0 0 0 0 true 16 None pattern pipe.

Definition sysctls : CorePattern.Kernel := temp_kernel (b! "core" ++ newline) (b! "0" ++ newline).

(** The daemon in a temp directory, until it fails: its errors and the world it
    leaves. *)
Definition run_failing (fl : Faults) (config_path : bytes) (conf : Config.ConfigFs)
    (kernel : CorePattern.Kernel) : option (World * list bytes) :=
  let a := args config_path (CorePattern.s_path (CorePattern.pattern kernel))
             (CorePattern.s_path (CorePattern.pipe_limit kernel)) in
  let run := run_daemon (J := token_text) 493 fl [] a (sample_surroundings (λ _, Ok tt) [])
               (mkWorld (K8sEvents.mkSockFs None None) conf kernel) in
  match d_wait run with Backend.Ret (Returned (Err e)) => Some (d_world run, e) | _ => None end.

Definition nothing_there : Config.ConfigFs := Config.mkFs None None None ∅.
Definition sock_bound (w : World) : bool :=
  match K8sEvents.at_sock (sock w) with Some (K8sEvents.Sock _) => true | _ => false end.
Definition config_there (w : World) : bool := negb (is_none (Config.at_path (conf w))).
Definition pattern_of (w : World) : option bytes := CorePattern.value (CorePattern.pattern (kernel w)).

Definition errors_when_config_write_fails : bool :=
  match run_failing no_faults (b! "/tmp/run/handler.json")
          (Config.mkFs (Some 493%Z) (Some Config.Directory) None ∅) sysctls with
  | Some (w, err) => chain_contains (b! "handler.json") err && (pattern_of w =? Some (b! "core" ++ newline))
  | None => false
  end.

Definition errors_when_core_pattern_install_fails : bool :=
  let missing_pattern := CorePattern.mkSysctl (b! "/tmp/no-such-dir/core_pattern") None false in
  match run_failing no_faults (b! "/tmp/run/handler.json") nothing_there
          (CorePattern.mkKernel missing_pattern (CorePattern.pipe_limit sysctls)) with
  | Some (w, err) => chain_contains (b! "core_pattern") err && config_there w && sock_bound w
  | None => false
  end.

(** A path too long for [sockaddr_un] makes the bind fail. *)
Definition errors_when_event_socket_bind_fails : bool :=
  let run_dir := b! "/tmp/" ++ replicate 120 "d"%byte in
  match run_failing (mkFaults (λ s, match s with K8sEvents.BBind => true | _ => false end) Config.no_faults)
          (run_dir ++ b! "/handler.json") nothing_there sysctls with
  | Some (w, err) => chain_contains (b! "capture event socket") err && negb (config_there w)
                     && (pattern_of w =? Some (b! "core" ++ newline))
  | None => false
  end.

Example main_tests_pass :
  [errors_when_config_write_fails; errors_when_core_pattern_install_fails;
   errors_when_event_socket_bind_fails] = replicate 3 true.
Proof. vm_compute. reflexivity. Qed.
End MainTests.
