(* ===== verification/TestsCapture.v ===== *)
(** * The integration tests: whole captures

    [tests/handler.rs] and [tests/crictl.rs] on the model: [run] and [inspect] over
    a fixture process tree and an in-memory store that can reject writes. The
    script that stands in for crictl is the table of what its execution prints;
    that a timed-out child is also killed is tokio's [kill_on_drop]. *)

From S2P Require Import Prelude RustStr Cgroup Redact RateLimit Backend Upload Json Events Manifest Snapshot Config.
From S2P Require Import Crictl Handler TestsParsers TestsState TestsNode.
Import Json Backend Upload Handler TestUtil TestLibs.

Module TestsCapture.
Local Open Scope bool_scope.

(** ** Fixtures ([tests/common/mod.rs]) *)

Definition tmp : bytes := b! "/tmp/test".
Definition proc_root (root : bytes) : bytes := path_join root (b! "proc").

(** The files of a tree, by path. *)
Abbreviation tree := (list (bytes * bytes)).
Definition write_fixture_proc (root : bytes) (pid : Z) (pod_uid container_id : bytes) : tree :=
  let pid_dir := path_join (proc_root root) (to_string pid) in
  [(path_join pid_dir (b! "cgroup"),
    b! "0::/kubepods/besteffort/pod" ++ pod_uid ++ b! "/" ++ container_id ++ [x0a]);
   (path_join pid_dir (b! "status"), b! "Name:" ++ [x09] ++ b! "crash-test" ++ [x0a]);
   (path_join pid_dir (b! "environ"), b! "SECRET_KEY=hunter2" ++ [x00] ++ b! "LANG=en_US.UTF-8" ++ [x00])].
Definition tree_fs (t : tree) : Snapshot.Fs :=
  Snapshot.mkFs (λ p, '(_, f) ← list_find (λ f, f.1 = p) t; Some (Snapshot.mkOpen f.2 false))
    (λ _, None) (λ _, None).

(** [base_config] and the fields that the tests set. *)
Record Settings := mkSettings {
  t_no_redact : bool;
  t_crictl_path : bytes;
  t_max_core_bytes : Z;
  t_max_cores_per_hour : Z;
  t_upload_deadline_secs : Z;
  t_event_socket_path : option bytes;
}.
Definition defaults : Settings := mkSettings false (b! "/bin/false") 0 0 0 None.
Definition base_config (root : bytes) (s : Settings) : Config.HandlerConfig :=
  Config.mkConfig (b! "test") (t_no_redact s) (proc_root root) None [] (t_crictl_path s) None
    (t_max_core_bytes s) (t_max_cores_per_hour s) (t_upload_deadline_secs s)
    (if bool_decide (t_crictl_path s = b! "/bin/false") then 0 else 10)
    (path_join root (b! "recent.json")) (t_event_socket_path s).
Definition budget_of_one : Settings := mkSettings false (b! "/bin/false") 0 1 0 None.

(** What executing a program gives: the scripts of the tests, [/bin/false], nothing
    else. *)
Definition fake_crictl : bytes := path_join tmp (b! "crictl").
Definition fake_crictl_script (namespace pod container : bytes) : bytes :=
  text_to_vec (JsonText := token_text)
    (CrictlTests.crictl_inspect_response namespace pod container (b! "docker.io/library/nginx:1.25")
       (b! "docker.io/library/nginx@sha256:cafebabe1234") 2).
Definition programs (script : Crictl.Command → future (result Crictl.Output bytes)) : Crictl.runtime := λ cmd,
  if decide (Crictl.program cmd = fake_crictl) then script cmd
  else if decide (Crictl.program cmd = b! "/bin/false") then InTime (Ok (Crictl.mkOutput false []))
  else InTime (Err (b! "No such file or directory")).
Definition prints (out : bytes) : Crictl.Command → future (result Crictl.Output bytes) :=
  λ _, InTime (Ok (Crictl.mkOutput true out)).

(** A store that rejects writes to keys ending in [fail_suffix], when it has one; the
    core streams to it through a writer that takes whole buffers. *)
Record FailingStore := mkFailing { stored : gmap bytes bytes; fail_suffix : option bytes }.
Definition in_memory : FailingStore := mkFailing ∅ None.
Definition failing_manifest : FailingStore := mkFailing ∅ (Some (b! "-manifest.json")).
Definition failing_core : FailingStore := mkFailing ∅ (Some (b! "-core.zst")).
Definition store_rejects (w : FailingStore) (key : bytes) : bool :=
  from_option (λ suffix, ends_with suffix key) false (fail_suffix w).

#[local] Instance failing_objects : ObjectStore FailingStore := {
  objects := stored;
  put w k v := if store_rejects w k then (w, Err (b! "injected failure"))
               else (mkFailing (<[k := v]> (stored w)) (fail_suffix w), Ok tt);
}.
#[local] Instance failing_writer : BufWriter FailingStore := {
  bw := Mem.sink;
  bw_new k := Mem.mkSink k [] true;
  bw_poll_write '(w, b) buf :=
    Fast (w, Mem.mkSink (Mem.sk_key b) (Mem.sk_data b ++ buf) (Mem.sk_open b)) (Ok (length buf));
  bw_poll_shutdown '(w, b) :=
    let '(w, r) := put w (Mem.sk_key b) (Mem.sk_data b) in
    Fast (w, Mem.mkSink (Mem.sk_key b) (Mem.sk_data b) false) r;
  bw_abort '(w, b) := if Mem.sk_open b then Ret (w, Ok tt) else Panic;
  bw_key := Mem.sk_key;
  bw_written := Mem.sk_data;
  bw_open := Mem.sk_open;
}.
#[local] Instance failing_objects_laws : ObjectStoreLaws FailingStore.
Proof.
  split.
  - intros w k v w'. cbn. by destruct (store_rejects w k); intros [= <-].
  - intros w k v w' r k'. cbn. destruct (store_rejects w k); intros [= <- _] ?; [done|].
    by apply lookup_insert_ne.
Qed.
#[local] Instance failing_writer_laws : BufWriterLaws FailingStore.
Proof.
  split; try done.
  - intros w b buf w' b' n _ [= <- <- <-]. split; [lia|]. by rewrite firstn_all.
  - intros w b _. cbn. destruct (store_rejects _ _); cbn; [done|]. intros k Hk. by apply lookup_insert_ne.
  - intros w b w' b' _. cbn. destruct (store_rejects _ _); cbn; [done|]. intros [= <- _]. apply lookup_insert_eq.
  - intros w b Ho. cbn in *. by rewrite Ho.
  - intros w b w' r. cbn. destruct (Mem.sk_open b); [by intros [= <- _]|done].
Qed.

(** ** Running captures *)

Definition POD_UID : bytes := b! "ed1e9c81-9a92-4f7e-be2c-8b26b56d3b98".
Definition CONTAINER_ID : bytes := b! "abc123def456abc123def456".
Definition TS : Z := 1749600000.
Definition capture_args (pid signal timestamp : Z) : CaptureArgs :=
  mkArgs pid signal timestamp (b! "!usr!bin!crasher").

(** The keys of the core, the snapshot and the manifest. *)
Definition keys (container_id : bytes) (ts pid : Z) : bytes * bytes * bytes :=
  let k := Keys.new (b! "test") POD_UID container_id ts pid in
  (Keys.core k, Keys.proc_snapshot k, Keys.manifest k).

Definition test_env (t : tree) (script : Crictl.Command → future (result Crictl.Output bytes)) : Env :=
  mkEnv (tree_fs t) Redact.soft_log2 (programs script) (rfc3339 (b! "+00:00")) Mem.toy_digest sample_lib
    RateLimit.no_faults RateLimit.no_faults None 0.

(** A run, on what the runs before it left; [store] overrides the configured one. The
    state after it, and whether it returned [Ok]; [None] is a panic. *)
Definition no_script : Crictl.Command → future (result Crictl.Output bytes) := λ _, InTime (Err (b! "not run")).
Abbreviation state := (State FailingStore).
Definition with_store (w : FailingStore) (s : state) : state := mkState w (limiter s) (socket s) (summary s).
Definition fresh (w : FailingStore) : state := mkState w RateLimit.empty_fs [] [].
Definition run_capture (t : tree) (script : Crictl.Command → future (result Crictl.Output bytes)) (s : Settings)
    (args : CaptureArgs) (core_in : pipe) (store_override : bool) (st : state) : option (state * bool) :=
  match run (J := token_text) (T := Snapshot.MemTar.mem_tar) (C := RateLimit.decimal_codec)
          (test_env t script) args (base_config tmp s) core_in store_override st with
  | (st, Ret r) => Some (st, is_ok r)
  | (_, Panic) => None
  end.
Definition all_ok (x : option (state * bool)) : option state :=
  '(st, ok) ← x; if ok : bool then Some st else None.
Definition bytes_in (core : bytes) : pipe := [Avail (InTime core)].

Definition get_object (st : state) (key : bytes) : option bytes := objects (store_world st) !! key.
Definition is_absent (st : state) (key : bytes) : bool := is_none (get_object st key).
Definition is_present (st : state) (key : bytes) : bool := negb (is_absent st key).
Definition read_manifest (st : state) (key : bytes) : option Manifest.Manifest :=
  (get_object st key ≫= text_from_slice (JsonText := token_text)) ≫= Manifest.de_manifest.
Definition recv_events (st : state) : list (option Events.CaptureEventPayload) :=
  map (λ '(_, data), text_from_slice (JsonText := token_text) data ≫= Events.de_payload) (socket st).
Definition tar_entry (tar : option bytes) (name : bytes) : option bytes :=
  entries ← tar ≫= Snapshot.tar_read (Tar := Snapshot.MemTar.mem_tar);
  '(_, (_, _, data)) ← list_find (λ '(n, _, _), n = name) entries; Some data.

(** What holds of a value that must be there. *)
Definition some_and {A} (x : option A) (f : A → bool) : bool := from_option f false x.

(** ** [tests/handler.rs] *)

Definition run_uploads_core_snapshot_and_writes_manifest : bool :=
  let pid := 4242%Z in
  let core_payload := b! "fake core payload for testing - not a real ELF" in
  let '(core_key, snap_key, manifest_key) := keys CONTAINER_ID TS pid in
  some_and (all_ok (run_capture (write_fixture_proc tmp pid POD_UID CONTAINER_ID) no_script defaults
              (capture_args pid 11 TS) (bytes_in core_payload) true (fresh in_memory))) (λ st,
  (UploadTests.unzstd (get_object st core_key) =? Some core_payload) && is_present st snap_key
  && some_and (read_manifest st manifest_key) (λ m,
       Manifest.present (Manifest.core m) && (Manifest.m_signal m =? 11%Z)
       && (Manifest.m_signal_name m =? Some (b! "SIGSEGV")) && (Manifest.cluster m =? b! "test")
       && (Manifest.mi_pod_uid (Manifest.identity m) =? POD_UID)
       && (Manifest.mi_container_id (Manifest.identity m) =? CONTAINER_ID)
       && negb (is_none (Manifest.sha256 (Manifest.core m)))
       && (0 <? default 0 (Manifest.size_bytes (Manifest.core m)))%Z
       && (0 <? default 0 (Manifest.stored_bytes (Manifest.core m)))%Z
       && negb (Manifest.truncated (Manifest.core m)) && (Manifest.codec (Manifest.core m) =? b! "zstd")
       && (Manifest.object_key (Manifest.core m) =? Some core_key)
       && some_and (Manifest.proc_snapshot m) (λ r,
            (Manifest.ps_object_key r =? snap_key) && (0 <? Manifest.file_count r)%Z))).

Definition sock_path : bytes := path_join tmp (b! "events.sock").
Definition enriched (budget : Z) : Settings := mkSettings false fake_crictl 0 budget 0 (Some sock_path).
Definition the_script : Crictl.Command → future (result Crictl.Output bytes) :=
  prints (fake_crictl_script (b! "production") (b! "nginx-abc123") (b! "mycontainer")).

Definition run_enriches_identity_via_crictl_and_reports_the_capture : bool :=
  let pid := 4247%Z in
  let '(_, _, manifest_key) := keys CONTAINER_ID TS pid in
  some_and (all_ok (run_capture (write_fixture_proc tmp pid POD_UID CONTAINER_ID) the_script (enriched 0)
              (capture_args pid 11 TS) (bytes_in (b! "core payload for the enriched path")) true
              (fresh in_memory))) (λ st,
  some_and (read_manifest st manifest_key) (λ m,
    let id := Manifest.identity m in
    (Manifest.mi_pod_uid id =? POD_UID) && (Manifest.mi_namespace id =? Some (b! "production"))
    && (Manifest.mi_pod_name id =? Some (b! "nginx-abc123"))
    && (Manifest.mi_container_name id =? Some (b! "mycontainer"))
    && (Manifest.mi_image id =? Some (b! "docker.io/library/nginx:1.25"))
    && (Manifest.mi_image_digest id =? Some (b! "sha256:cafebabe1234"))
    && (Manifest.mi_restart_count id =? Some 2%Z)
    && match recv_events st with
       | [Some e] =>
           (Events.namespace e =? Some (b! "production")) && (Events.pod_name e =? Some (b! "nginx-abc123"))
           && (Events.pod_uid e =? Some POD_UID) && (Events.container_id e =? Some CONTAINER_ID)
           && (Events.host_pid e =? pid) && is_none (Events.error e)
           && (Events.container_name e =? Some (b! "mycontainer")) && (Events.outcome e =? Events.Uploaded)
           && (Events.signal_name e =? Some (b! "SIGSEGV")) && (Events.timestamp e =? TS)
           && (Events.manifest_key e =? Some manifest_key)
           && (Events.stored_bytes e =? Manifest.stored_bytes (Manifest.core m))
       | _ => false
       end)).

Definition run_reports_non_upload_outcomes_on_the_events_socket : bool :=
  let pid := 4248%Z in
  let capture ts core store st :=
    all_ok (run_capture (write_fixture_proc tmp pid POD_UID CONTAINER_ID) the_script (enriched 1)
              (capture_args pid 11 ts) (bytes_in core) store st) in
  let core := b! "core payload for the outcome test" in
  some_and ((capture TS core true (fresh in_memory) ≫= capture (TS + 10)%Z core true)
            ≫= capture (TS + 20)%Z (b! "core payload with nowhere to go") false) (λ st,
  map (fmap Events.outcome) (recv_events st)
  =? map Some [Events.Uploaded; Events.SuppressedRateLimit; Events.NoStoreDiscard]).

Definition run_redacts_snapshot_environ_unless_no_redact_is_set : bool :=
  let '(redacting_pid, raw_pid) := (4252%Z, 4253%Z) in
  let t := write_fixture_proc tmp redacting_pid POD_UID CONTAINER_ID
           ++ write_fixture_proc tmp raw_pid POD_UID CONTAINER_ID in
  let raw := mkSettings true (b! "/bin/false") 0 0 0 None in
  let environ pid st := let '(_, snap_key, _) := keys CONTAINER_ID TS pid in
                        tar_entry (get_object st snap_key) (b! "environ") in
  some_and (all_ok (run_capture t no_script defaults (capture_args redacting_pid 11 TS)
              (bytes_in (b! "core payload for the redaction test")) true (fresh in_memory))
            ≫= λ st, all_ok (run_capture t no_script raw (capture_args raw_pid 11 TS)
                 (bytes_in (b! "core payload for the no-redact test")) true st)) (λ st,
  some_and (environ redacting_pid st) (λ e,
    contains (b! "SECRET_KEY=<redacted>") e && negb (contains (b! "hunter2") e)
    && contains (b! "LANG=en_US.UTF-8") e)
  && some_and (environ raw_pid st) (contains (b! "SECRET_KEY=hunter2"))).

Definition run_size_cap_truncates_stored_core : bool :=
  let pid := 4243%Z in
  let core_payload := map (λ i, byte_of_Z (i mod 251)) (UploadTests.range (Z.to_nat 10000) 0) in
  let '(core_key, _, manifest_key) := keys CONTAINER_ID TS pid in
  some_and (all_ok (run_capture (write_fixture_proc tmp pid POD_UID CONTAINER_ID) no_script
              (mkSettings false (b! "/bin/false") 1000 0 0 None)
              (capture_args pid 11 TS) (bytes_in core_payload) true (fresh in_memory))) (λ st,
  (UploadTests.unzstd (get_object st core_key) =? Some (takeZ 1000 core_payload))
  && some_and (read_manifest st manifest_key) (λ m,
       Manifest.truncated (Manifest.core m)
       && (Manifest.truncated_reason (Manifest.core m) =? Some (b! "size_cap"))
       && (Manifest.size_bytes (Manifest.core m) =? Some 10000%Z))).

(** Two crashes ten seconds apart under a budget of one. *)
Definition two_crashes (container_id_2 : bytes) (pid_1 pid_2 : Z) : option state :=
  let t := write_fixture_proc tmp pid_1 POD_UID CONTAINER_ID
           ++ write_fixture_proc tmp pid_2 POD_UID container_id_2 in
  let capture pid ts st := all_ok (run_capture t no_script budget_of_one (capture_args pid 11 ts)
                                     (bytes_in (b! "core payload for rate limit test")) true st) in
  capture pid_1 TS (fresh in_memory) ≫= capture pid_2 (TS + 10)%Z.

Definition run_rate_limit_suppresses_core_keeps_manifest : bool :=
  let pid := 4244%Z in
  some_and (two_crashes CONTAINER_ID pid pid) (λ st,
  let '(core1, _, _) := keys CONTAINER_ID TS pid in
  let '(core2, snap2, manifest2_key) := keys CONTAINER_ID (TS + 10) pid in
  is_present st core1 && is_absent st core2 && is_present st snap2
  && some_and (read_manifest st manifest2_key) (λ m,
       negb (Manifest.present (Manifest.core m)) && is_none (Manifest.object_key (Manifest.core m))
       && (Manifest.skipped_reason (Manifest.core m) =? Some (b! "rate_limit")))).

Definition run_rate_limit_keys_by_pod_uid_not_container_id : bool :=
  let container_id_2 := b! "fedcba654321fedcba654321" in
  let '(pid_1, pid_2) := (4250%Z, 4251%Z) in
  some_and (two_crashes container_id_2 pid_1 pid_2) (λ st,
  let '(core1, _, _) := keys CONTAINER_ID TS pid_1 in
  let '(core2, _, manifest2_key) := keys container_id_2 (TS + 10) pid_2 in
  is_present st core1 && is_absent st core2
  && some_and (read_manifest st manifest2_key) (λ m,
       negb (Manifest.present (Manifest.core m))
       && (Manifest.skipped_reason (Manifest.core m) =? Some (b! "rate_limit")))).

Definition run_failed_upload_refunds_rate_budget : bool :=
  let pid := 4245%Z in
  let '(core_key, _, manifest_key) := keys CONTAINER_ID (TS + 10) pid in
  let capture ts st := run_capture (write_fixture_proc tmp pid POD_UID CONTAINER_ID) no_script budget_of_one
                         (capture_args pid 11 ts) (bytes_in (b! "core payload")) true st in
  match capture TS (fresh failing_core) with
  | Some (st, false) =>
      some_and (all_ok (capture (TS + 10)%Z (with_store in_memory st))) (λ st,
      is_present st core_key
      && some_and (read_manifest st manifest_key) (λ m,
           Manifest.present (Manifest.core m) && is_none (Manifest.skipped_reason (Manifest.core m))))
  | _ => false
  end.

Definition run_upload_deadline_aborts_stalled_drain : bool :=
  let pid := 4246%Z in
  let '(core1, _, _) := keys CONTAINER_ID TS pid in
  let '(core2, _, _) := keys CONTAINER_ID (TS + 10) pid in
  let capture ts core_in st :=
    run_capture (write_fixture_proc tmp pid POD_UID CONTAINER_ID) no_script
      (mkSettings false (b! "/bin/false") 0 1 5 None) (capture_args pid 11 ts) core_in true st in
  match capture TS StallReader (fresh in_memory) with
  | Some (st, false) =>
      is_absent st core1
      && some_and (all_ok (capture (TS + 10)%Z (bytes_in (b! "core payload after deadline abort")) st))
           (λ st, is_present st core2)
  | _ => false
  end.

Definition run_without_store_discards_silently : bool :=
  some_and (all_ok (run_capture [] no_script budget_of_one (capture_args 100 6 1000000)
              (bytes_in (b! "some core bytes")) false (fresh in_memory))) (λ st,
  is_none (RateLimit.state_file (limiter st))).

Definition host_process (pid : Z) : tree :=
  [(path_join (path_join (proc_root tmp) (to_string pid)) (b! "cgroup"),
    b! "0::/system.slice/sshd.service" ++ [x0a])].
Definition run_non_kubernetes_cgroup_skips_uploads : bool :=
  some_and (all_ok (run_capture (host_process 200) no_script defaults (capture_args 200 9 2000000)
              (bytes_in (b! "core bytes")) true (fresh in_memory))) (λ st,
  match map_to_list (objects (store_world st)) with [] => true | _ => false end).

Definition listening : Settings := mkSettings false (b! "/bin/false") 0 0 0 (Some sock_path).
Definition run_non_kubernetes_cgroup_reports_skipped : bool :=
  some_and (all_ok (run_capture (host_process 201) no_script listening (capture_args 201 9 2000000)
              (bytes_in (b! "core bytes")) false (fresh in_memory))) (λ st,
  match recv_events st with
  | [Some event] =>
      (Events.outcome event =? Events.SkippedNonK8s) && (Events.host_pid event =? 201%Z)
      && is_none (Events.pod_uid event) && is_none (Events.namespace event)
      && (Events.core_bytes event =? Z.of_nat (length (b! "core bytes")))
  | _ => false
  end).

Definition run_failed_drain_reports_failed_with_error : bool :=
  let pid := 4249%Z in
  match run_capture (write_fixture_proc tmp pid POD_UID CONTAINER_ID) no_script listening
          (capture_args pid 11 TS) (bytes_in (b! "core payload")) true (fresh failing_core) with
  | Some (st, false) =>
      match recv_events st with
      | [Some event] =>
          (Events.outcome event =? Events.Failed) && (Events.pod_uid event =? Some POD_UID)
          && (Events.container_id event =? Some CONTAINER_ID) && is_none (Events.namespace event)
          && some_and (Events.error event) (contains (b! "draining core stream"))
      | _ => false
      end
  | _ => false
  end.

Definition run_blob_first_core_survives_manifest_failure : bool :=
  let pid := 4242%Z in
  let '(core_key, snap_key, manifest_key) := keys CONTAINER_ID TS pid in
  some_and (all_ok (run_capture (write_fixture_proc tmp pid POD_UID CONTAINER_ID) no_script defaults
              (capture_args pid 11 TS) (bytes_in (b! "core payload for blob-first test")) true
              (fresh failing_manifest))) (λ st,
  is_present st core_key && is_present st snap_key && is_absent st manifest_key).

Example capture_tests_pass :
  [run_uploads_core_snapshot_and_writes_manifest;
   run_enriches_identity_via_crictl_and_reports_the_capture;
   run_reports_non_upload_outcomes_on_the_events_socket;
   run_redacts_snapshot_environ_unless_no_redact_is_set; run_size_cap_truncates_stored_core;
   run_rate_limit_suppresses_core_keeps_manifest; run_rate_limit_keys_by_pod_uid_not_container_id;
   run_failed_upload_refunds_rate_budget; run_upload_deadline_aborts_stalled_drain;
   run_without_store_discards_silently; run_non_kubernetes_cgroup_skips_uploads;
   run_non_kubernetes_cgroup_reports_skipped; run_failed_drain_reports_failed_with_error;
   run_blob_first_core_survives_manifest_failure] = replicate 14 true.
Proof. vm_compute. reflexivity. Qed.

(** ** [tests/crictl.rs] *)

Definition config_with_crictl (crictl_path : bytes) (endpoint : option bytes) : Config.HandlerConfig :=
  let d := Config.default_config in
  Config.mkConfig (Config.cluster d) (Config.no_redact d) (Config.proc_root d) (Config.store_url d)
    (Config.store_options d) crictl_path endpoint (Config.max_core_bytes d)
    (Config.max_cores_per_hour d) (Config.upload_deadline_secs d) 1 (Config.rate_state_path d)
    (Config.event_socket_path d).
Definition inspect_with (script : Crictl.Command → future (result Crictl.Output bytes)) (id : bytes)
    (endpoint : option bytes) : option Crictl.ContainerInfo :=
  Crictl.inspect (J := token_text) (programs script) id (config_with_crictl fake_crictl endpoint).

Definition inspect_fake_script_parses_container_info : bool :=
  some_and (inspect_with the_script (b! "abc123def456abc123") None) (λ info,
    (Crictl.namespace info =? Some (b! "production")) && (Crictl.pod_name info =? Some (b! "nginx-abc123"))
    && (Crictl.container_name info =? Some (b! "mycontainer"))
    && (Crictl.image info =? Some (b! "docker.io/library/nginx:1.25"))
    && (Crictl.image_digest info =? Some (b! "sha256:cafebabe1234"))
    && (Crictl.restart_count info =? Some 2%Z)).

(** The script echoes the variable back. *)
Definition echo_endpoint (cmd : Crictl.Command) : future (result Crictl.Output bytes) :=
  let value := '(_, kv) ← list_find (λ kv, kv.1 = b! "CONTAINER_RUNTIME_ENDPOINT") (Crictl.cmd_env cmd); Some kv.2 in
  prints (text_to_vec (JsonText := token_text)
    (Obj [(b! "status", Obj [(b! "labels",
       Obj [(b! "io.kubernetes.pod.name", Str (default [] value))])])])) cmd.
Definition inspect_passes_the_cri_endpoint_to_the_subprocess : bool :=
  let endpoint := b! "unix:///run/containerd/containerd.sock" in
  some_and (inspect_with echo_endpoint (b! "any-id") (Some endpoint)) (λ info,
    Crictl.pod_name info =? Some endpoint).

Definition inspect_nonzero_exit_returns_none : bool :=
  is_none (inspect_with (λ _, InTime (Ok (Crictl.mkOutput false []))) (b! "any-id") None).

Definition inspect_unparseable_output_returns_none : bool :=
  is_none (inspect_with (prints (b! "not json at all")) (b! "any-id") None).

Definition inspect_times_out_and_returns_none : bool :=
  is_none (inspect_with (λ _, Late (Ok (Crictl.mkOutput true []))) (b! "any-id") None).

Example crictl_process_tests_pass :
  [inspect_fake_script_parses_container_info; inspect_passes_the_cri_endpoint_to_the_subprocess;
   inspect_nonzero_exit_returns_none; inspect_unparseable_output_returns_none;
   inspect_times_out_and_returns_none] = replicate 5 true.
Proof. vm_compute. reflexivity. Qed.

End TestsCapture.
