(* ===== verification/TestsCaps.v ===== *)
(** * The unit tests at the program's caps

    The tests of [src/snapshot.rs] and [src/k8s_events.rs] that reach a cap: a
    file of 8 MiB, ten thousand descriptors, ten thousand aggregation keys. What
    each asserts is a proposition, and it is proved from the components' lemmas
    instead of evaluated. *)

From Stdlib Require Import Sorting.Sorted.
From S2P Require Import Prelude RustStr Redact BuildId Snapshot Events K8sEvents TestsParsers TestsState TestsNode.

(** ** [snapshot.rs] *)

Module SnapshotCaps.
Import Snapshot SnapshotTests.

Section caps.
Context {T : Tar}.

(** Read the [TRUNCATED] manifest entry out of a rendered tar, if present. *)
Definition truncated_manifest (tar_bytes : bytes) : option bytes :=
  entries ← tar_read tar_bytes;
  '(_, (_, _, d)) ← list_find (λ e : tar_entry, e.1.1 = b! "TRUNCATED") entries;
  Some d.

Definition find_file (n : bytes) (snap : ProcSnapshot) : option SnapshotFile :=
  snd <$> list_find (λ f, name f = n) (files snap).

Definition a_file_of_exactly_the_cap_is_not_truncated : Prop :=
  let exact := replicate (Z.to_nat MAX_FILE_BYTES) "x"%byte in
  let dir := fixture 17 [(b! "smaps", exact)] [x05] in
  let snap := capture Redact.soft_log2 dir root 17 Redact.Redactor_default in
  ∃ smaps, find_file (b! "smaps") snap = Some smaps
    ∧ Z.of_nat (length (data smaps)) = MAX_FILE_BYTES ∧ truncated smaps = false
    ∧ ∀ tar, to_tar snap = Some tar → truncated_manifest tar = None.

Definition caps_large_file_and_flags_truncation : Prop :=
  let big := replicate (Z.to_nat (MAX_FILE_BYTES + 100)) "x"%byte in
  let dir := fixture 11 [(b! "smaps", big)] [x03] in
  let snap := capture Redact.soft_log2 dir root 11 Redact.Redactor_default in
  ∃ smaps, find_file (b! "smaps") snap = Some smaps
    ∧ Z.of_nat (length (data smaps)) = MAX_FILE_BYTES ∧ truncated smaps = true
    ∧ ∀ tar, to_tar snap = Some tar → truncated_manifest tar = Some (b! "smaps").

(** More links to [/dev/null] in a directory, which lists [names] in some order. *)
Definition with_fds (fs : Fs) (fd_dir : bytes) (names : list bytes) : Fs :=
  mkFs (fs_open fs)
    (λ p, match fs_read_link fs p with
          | Some t => Some t
          | None => if decide (p ∈ path_join fd_dir <$> names) then Some (b! "/dev/null") else None
          end)
    (λ p, if decide (p = fd_dir) then Some (Some <$> names) else fs_read_dir fs p).

(** The fixture's [fd/3] and the test's own, from 100 on. *)
Definition fd_numbers : list Z := 3%Z :: ((λ i, Z.of_nat i + 100)%Z <$> seq 0 (Z.to_nat MAX_FD_ENTRIES + 1)).

Definition caps_fd_listing_and_flags_truncation : Prop :=
  ∀ listed, listed ≡ₚ fd_numbers →
  let proc_pid := path_join root (to_string 13) in
  let dir := with_fds (fixture 13 [(b! "maps", b! "x")] [x04]) (path_join proc_pid (b! "fd"))
               (to_string <$> listed) in
  let snap := capture Redact.soft_log2 dir root 13 Redact.Redactor_default in
  ∃ fd, find_file (b! "fd") snap = Some fd ∧ truncated fd = true
    ∧ Z.of_nat (length (lines (data fd))) = (MAX_FD_ENTRIES + 1)%Z
    ∧ last (lines (data fd)) = Some (b! "... showing " ++ to_string MAX_FD_ENTRIES ++ b! " of "
                                     ++ to_string (MAX_FD_ENTRIES + 2) ++ b! " fds")
    ∧ ∀ tar, to_tar snap = Some tar → truncated_manifest tar = Some (b! "fd").

(** *** Proofs *)

Lemma capture_smaps pid d id :
  pid = 17%Z ∨ pid = 11%Z →
  files (capture Redact.soft_log2 (fixture pid [(b! "smaps", d)] id) root pid Redact.Redactor_default)
  = [mkFile (b! "smaps") (takeZ MAX_FILE_BYTES d)
       (bool_decide (MAX_FILE_BYTES < Z.of_nat (length d))%Z);
     mkFile (b! "fd") (b! "3 -> /tmp/fixture/the-binary") false;
     mkFile (b! "exe") (b! "/tmp/fixture/the-binary") false].
Proof.
  intros Hpid. unfold capture. cbn [files].
  set (fs := fixture pid _ id).
  assert (read_capped fs (path_join (path_join root (to_string pid)) (b! "smaps"))
          = Some (takeZ MAX_FILE_BYTES d, bool_decide (MAX_FILE_BYTES < Z.of_nat (length d))%Z)) as Hs.
  { apply (read_capped_ok _ _ (mkOpen d false)); [|done]. by destruct Hpid as [-> | ->]. }
  assert (∀ n, n ∈ [b! "maps"; b! "status"; b! "limits"; b! "stack"; b! "environ"; b! "cmdline"] →
    read_capped fs (path_join (path_join root (to_string pid)) n) = None) as Hn.
  { intros n Hn. unfold read_capped.
    assert (fs_open fs (path_join (path_join root (to_string pid)) n) = None) as ->; [|done].
    destruct Hpid as [-> | ->]; repeat (apply elem_of_cons in Hn as [-> | Hn]; [reflexivity|]);
      by apply not_elem_of_nil in Hn. }
  unfold SIMPLE_FILES. cbn [map concat]. rewrite Hs.
  repeat (rewrite Hn by (repeat (apply elem_of_list_here || apply elem_of_list_further))).
  destruct Hpid as [-> | ->]; reflexivity.
Qed.

Context {TL : TarLaws T}.

(** What the tar of a snapshot says of its capped files. *)
Lemma truncated_manifest_of s tar :
  (∀ f, f ∈ files s → name f ≠ b! "TRUNCATED") → to_tar s = Some tar →
  truncated_manifest tar
  = if bool_decide (truncated_names s = []) then None else Some (join [x0a] (truncated_names s)).
Proof.
  intros Hne Htar. unfold truncated_manifest.
  rewrite (snapshot_tar_contents s tar Htar). cbn [mbind option_bind]. unfold snapshot_entries.
  assert (list_find (λ e : tar_entry, e.1.1 = b! "TRUNCATED")
            (map (λ f, entry_of (name f) (data f)) (files s)) = None) as Hf.
  { apply list_find_None, Forall_map, Forall_forall. intros f Hin. by apply Hne. }
  case_bool_decide.
  - by rewrite app_nil_r, Hf.
  - rewrite list_find_app_r by done. cbn. by rewrite decide_True.
Qed.

Lemma exact_cap_holds : a_file_of_exactly_the_cap_is_not_truncated.
Proof.
  unfold a_file_of_exactly_the_cap_is_not_truncated. cbv zeta.
  assert (Z.of_nat (length (replicate (Z.to_nat MAX_FILE_BYTES) "x"%byte)) = MAX_FILE_BYTES) as Hl
    by (rewrite length_replicate; unfold MAX_FILE_BYTES; lia).
  revert Hl. generalize (replicate (Z.to_nat MAX_FILE_BYTES) "x"%byte). intros d Hl.
  set (s := capture _ _ _ _ _). assert (files s = _) as Hs by (apply capture_smaps; by left).
  rewrite takeZ_all, bool_decide_false in Hs by lia.
  exists (mkFile (b! "smaps") d false). unfold find_file. rewrite Hs. split; [done|]. split; [done|]. split; [done|].
  intros tar Htar. rewrite (truncated_manifest_of s tar); [|rewrite Hs|done].
  - unfold truncated_names. by rewrite Hs.
  - intros f Hf. repeat (apply elem_of_cons in Hf as [-> | Hf]; [done|]). by apply not_elem_of_nil in Hf.
Qed.

Lemma large_file_holds : caps_large_file_and_flags_truncation.
Proof.
  unfold caps_large_file_and_flags_truncation. cbv zeta.
  assert (Z.of_nat (length (replicate (Z.to_nat (MAX_FILE_BYTES + 100)) "x"%byte)) = MAX_FILE_BYTES + 100)%Z as Hl
    by (rewrite length_replicate; unfold MAX_FILE_BYTES; lia).
  revert Hl. generalize (replicate (Z.to_nat (MAX_FILE_BYTES + 100)) "x"%byte). intros d Hl.
  set (s := capture _ _ _ _ _). assert (files s = _) as Hs by (apply capture_smaps; by right).
  rewrite bool_decide_true in Hs by lia.
  exists (mkFile (b! "smaps") (takeZ MAX_FILE_BYTES d) true). unfold find_file. rewrite Hs. split; [done|].
  split; [cbn [data]; rewrite length_takeZ by done; lia|]. split; [done|].
  intros tar Htar. rewrite (truncated_manifest_of s tar); [|rewrite Hs|done].
  - unfold truncated_names. by rewrite Hs.
  - intros f Hf. repeat (apply elem_of_cons in Hf as [-> | Hf]; [done|]). by apply not_elem_of_nil in Hf.
Qed.

(** A line of the listing holds no line break. *)
Lemma no_break_to_string z : (x0a ∉ to_string z) ∧ (x0d ∉ to_string z).
Proof. split; by (apply (forallb_not_elem is_int_byte); [apply to_string_chars|]). Qed.

Lemma no_break_app (u v : bytes) :
  (x0a ∉ u) ∧ (x0d ∉ u) → (x0a ∉ v) ∧ (x0d ∉ v) → (x0a ∉ u ++ v) ∧ (x0d ∉ u ++ v).
Proof. rewrite !not_elem_of_app. tauto. Qed.

Lemma no_break_const (u : bytes) : bool_decide (x0a ∉ u) && bool_decide (x0d ∉ u) = true → (x0a ∉ u) ∧ (x0d ∉ u).
Proof. intros [?%bool_decide_eq_true ?%bool_decide_eq_true]%andb_prop. done. Qed.

Lemma fd_line_no_break z dir names :
  let e := fd_entry (with_fds (fixture 13 [(b! "maps", b! "x")] [x04]) dir names) dir (to_string z) in
  (x0a ∉ e.2) ∧ (x0d ∉ e.2).
Proof.
  cbv zeta. unfold fd_entry. cbn [snd].
  assert (to_string_lossy (to_string z) = to_string z) as ->.
  { apply lossy_ascii. eapply forallb_weaken; [|apply to_string_chars]. intros c. by destruct c. }
  apply no_break_app; [apply no_break_to_string|]. apply no_break_app; [by apply no_break_const|].
  unfold with_fds, fixture. cbn [fs_read_link].
  repeat case_decide; by apply no_break_const.
Qed.

Lemma length_fd_numbers : Z.of_nat (length fd_numbers) = (MAX_FD_ENTRIES + 2)%Z.
Proof. unfold fd_numbers. cbn [length]. rewrite length_fmap, length_seq. unfold MAX_FD_ENTRIES. lia. Qed.

Lemma omap_all_some {A} (l : list A) : omap id (Some <$> l) = l.
Proof. induction l as [|x l IH]; [done|]. cbn. by f_equal. Qed.

(** The listing of the test's directory, in whatever order it is read. *)
Lemma fd_listing_capped dir listed :
  listed ≡ₚ fd_numbers →
  let fs := with_fds (fixture 13 [(b! "maps", b! "x")] [x04]) dir (to_string <$> listed) in
  ∃ shown, read_fd_listing fs dir = Some (join [x0a] (shown ++ [b! "... showing " ++ to_string MAX_FD_ENTRIES
                         ++ b! " of " ++ to_string (MAX_FD_ENTRIES + 2) ++ b! " fds"]), true)
    ∧ Z.of_nat (length shown) = MAX_FD_ENTRIES ∧ Forall (λ w, (x0a ∉ w) ∧ (x0d ∉ w)) shown.
Proof.
  intros Hp fs.
  assert (fs_read_dir fs dir = Some (Some <$> (to_string <$> listed))) as Hd
    by (unfold fs, with_fds; cbn [fs_read_dir]; by rewrite decide_True).
  destruct (fd_listing_of fs dir _ Hd) as (kept & Hk & _ & Hl).
  rewrite omap_all_some in Hk, Hl.
  assert (Z.of_nat (length (to_string <$> listed)) = MAX_FD_ENTRIES + 2)%Z as Hlen
    by by rewrite length_fmap, Hp, length_fd_numbers.
  rewrite Hlen in Hl. cbv zeta in Hl. rewrite bool_decide_true in Hl by lia.
  exists (kept.*2). split; [exact Hl|]. split.
  - rewrite length_fmap, Hk, length_map, length_takeZ by done. lia.
  - apply Forall_fmap. rewrite Hk. apply Forall_map, Forall_forall. intros n Hn.
    assert (n ∈ to_string <$> listed) as (z & -> & _)%list_elem_of_fmap; [|apply fd_line_no_break].
    unfold takeZ in Hn. apply list_elem_of_lookup in Hn as [i Hi]. apply lookup_take_Some in Hi as [Hi _].
    by eapply list_elem_of_lookup_2.
Qed.

Lemma capture_fds listed :
  listed ≡ₚ fd_numbers →
  let dir := path_join (path_join root (to_string 13)) (b! "fd") in
  let fs := with_fds (fixture 13 [(b! "maps", b! "x")] [x04]) dir (to_string <$> listed) in
  ∀ text, read_fd_listing fs dir = Some (text, true) →
  files (capture Redact.soft_log2 fs root 13 Redact.Redactor_default)
  = [mkFile (b! "maps") (b! "x") false; mkFile (b! "fd") text true;
     mkFile (b! "exe") (b! "/tmp/fixture/the-binary") false].
Proof.
  intros Hp dir fs text Hl. unfold capture. cbn [files].
  assert (∀ n, n ∈ [b! "smaps"; b! "status"; b! "limits"; b! "stack"; b! "environ"; b! "cmdline"] →
    read_capped fs (path_join (path_join root (to_string 13)) n) = None) as Hn.
  { intros n Hn. unfold read_capped.
    assert (fs_open fs (path_join (path_join root (to_string 13)) n) = None) as ->; [|done].
    repeat (apply elem_of_cons in Hn as [-> | Hn]; [reflexivity|]); by apply not_elem_of_nil in Hn. }
  unfold SIMPLE_FILES. cbn [map concat].
  rewrite (read_capped_small fs _ (b! "x")) by done.
  change (path_join (path_join root (to_string 13)) (b! "fd")) with dir. rewrite Hl.
  repeat (rewrite Hn by (repeat (apply elem_of_list_here || apply elem_of_list_further))).
  reflexivity.
Qed.

Lemma fd_listing_holds : caps_fd_listing_and_flags_truncation.
Proof.
  intros listed Hp. cbv zeta.
  destruct (fd_listing_capped (path_join (path_join root (to_string 13)) (b! "fd")) listed Hp)
    as (shown & Hl & Hlen & Hsh).
  set (note := b! "... showing " ++ _) in *.
  assert ((x0a ∉ note) ∧ (x0d ∉ note)) as [Hn _] by (by apply no_break_const; vm_compute).
  pose proof (capture_fds listed Hp _ Hl) as Hf. cbv zeta in Hf.
  set (s := capture _ _ _ _ _) in *.
  exists (mkFile (b! "fd") (join [x0a] (shown ++ [note])) true).
  unfold find_file. rewrite Hf. split; [done|]. cbn [truncated data]. split; [done|].
  rewrite lines_join by done. split; [rewrite length_app; cbn; lia|]. split; [by rewrite last_snoc|].
  intros tar Htar. rewrite (truncated_manifest_of s tar); [|rewrite Hf|done].
  - unfold truncated_names. by rewrite Hf.
  - intros f Hin. repeat (apply elem_of_cons in Hin as [-> | Hin]; [done|]). by apply not_elem_of_nil in Hin.
Qed.

End caps.
End SnapshotCaps.

(** ** [k8s_events.rs] *)

Module AggregatorCaps.
Import K8sEvents K8sEventsTests.

(** [pod-{i}] and [ev-{i}] *)
Definition pod (i : nat) : bytes := b! "pod-" ++ to_string (Z.of_nat i).
Definition ev (i : nat) : bytes := b! "ev-" ++ to_string (Z.of_nat i).

Definition aggregator_stops_inserting_new_keys_at_cap : Prop :=
  let fill := (λ i, (agg_key (pod i) CoreDumped, 0%Z, ev i)) <$> seq 0 MAX_AGGREGATION_KEYS in
  let '(agg, filled) := record_all fill ∅ in
  let '(agg', overflow) := record (agg_key (b! "overflow") CoreDumped) 0 (λ _, b! "overflow") agg in
  let '(_, repeat) := record (agg_key (pod 0) CoreDumped) 0 (λ _, b! "should-not-run") agg' in
  filled = (λ i, Some (mkRecorded (ev i) true 1)) <$> seq 0 MAX_AGGREGATION_KEYS
  ∧ size agg = MAX_AGGREGATION_KEYS ∧ overflow = None ∧ size agg' = MAX_AGGREGATION_KEYS
  ∧ repeat = Some (mkRecorded (ev 0) false 2).

(** *** Proofs *)

(** Entries of the same instant survive a record. *)
Definition now_entries (a : Aggregator) : Prop := ∀ k e, a !! k = Some e → created_at e = 0%Z.

Lemma prune_now a : now_entries a → prune 0 a = a.
Proof.
  intros Ha. apply map_eq. intros k. destruct (a !! k) as [e|] eqn:E.
  - apply lookup_prune. split; [done|]. by rewrite (Ha k e E).
  - destruct (prune 0 a !! k) as [e|] eqn:E'; [|done]. apply lookup_prune in E' as [E' _]. congruence.
Qed.

Lemma record_new k name a :
  now_entries a → a !! k = None → size a < MAX_AGGREGATION_KEYS →
  record k 0 (λ _, name) a = (<[k := mkEntry name 1 0]> a, Some (mkRecorded name true 1)).
Proof. intros Ha Hk Hs. unfold record. rewrite prune_now, Hk, decide_False by (done || lia). done. Qed.

(** Recording new keys at one instant fills the map up to the cap. *)
Lemma fill_spec n : ∀ m (a : Aggregator),
  now_entries a → size a = m → m + n ≤ MAX_AGGREGATION_KEYS →
  (∀ i, m ≤ i → a !! agg_key (pod i) CoreDumped = None) →
  let '(a', rs) := record_all ((λ i, (agg_key (pod i) CoreDumped, 0%Z, ev i)) <$> seq m n) a in
  rs = (λ i, Some (mkRecorded (ev i) true 1)) <$> seq m n
  ∧ now_entries a' ∧ size a' = m + n
  ∧ (∀ k e, a !! k = Some e → a' !! k = Some e)
  ∧ (∀ k, a' !! k ≠ None → a !! k ≠ None ∨ ∃ i, k = agg_key (pod i) CoreDumped)
  ∧ ∀ i, m ≤ i < m + n → a' !! agg_key (pod i) CoreDumped = Some (mkEntry (ev i) 1 0).
Proof.
  induction n as [|n IH]; intros m a Ha Hs Hn Hfree; cbn [seq fmap list_fmap record_all].
  - split_and!; try done; [lia|auto|lia].
  - rewrite record_new; [|done|by apply Hfree|lia].
    set (a1 := <[_ := _]> a).
    assert (now_entries a1) as Ha1.
    { intros k e [[<- <-]|[_ Hk]]%lookup_insert_Some; [done|by eapply Ha]. }
    assert (a !! agg_key (pod m) CoreDumped = None) as Hm by by apply Hfree.
    assert (size a1 = S m) as Hs1 by (unfold a1; rewrite map_size_insert_None; congruence).
    specialize (IH (S m) a1 Ha1 Hs1 ltac:(lia)).
    destruct (record_all _ a1) as [a' rs].
    destruct IH as (-> & Hn' & Hs' & Hkeep & Hnew & Hin).
    { intros i Hi. unfold a1. rewrite lookup_insert_ne; [apply Hfree; lia|].
      intros [= E%(inj to_string)]. lia. }
    split_and!; [done|done|lia|..].
    + intros k e Hk. apply Hkeep. unfold a1. rewrite lookup_insert_ne; [done|]. congruence.
    + intros k Hk. apply Hnew in Hk as [Hk|]; [|by right]. unfold a1 in Hk.
      destruct (decide (agg_key (pod m) CoreDumped = k)) as [<-|]; [right; by exists m|].
      rewrite lookup_insert_ne in Hk by done. by left.
    + intros i Hi. destruct (decide (i = m)) as [->|]; [|apply Hin; lia].
      apply Hkeep. unfold a1. apply lookup_insert_eq.
Qed.

Lemma aggregator_cap_holds : aggregator_stops_inserting_new_keys_at_cap.
Proof.
  unfold aggregator_stops_inserting_new_keys_at_cap.
  pose proof (fill_spec MAX_AGGREGATION_KEYS 0 ∅) as Hf.
  destruct (record_all _ ∅) as [agg filled].
  destruct Hf as (-> & Hnow & Hs & _ & Hold & Hin); [|done|done|done|].
  { intros k e Hk. by rewrite lookup_empty in Hk. }
  rewrite Nat.add_0_l in Hs, Hin.
  assert (agg !! agg_key (b! "overflow") CoreDumped = None) as Hov.
  { destruct (agg !! _) as [e|] eqn:E; [exfalso|done].
    destruct (Hold (agg_key (b! "overflow") CoreDumped)) as [Hne|[i Hi]]; [congruence|by rewrite lookup_empty in Hne|].
    injection Hi as Hi. unfold pod in Hi. discriminate Hi. }
  unfold record at 1. rewrite prune_now, Hov, decide_True by (done || lia).
  unfold record. rewrite prune_now by done.
  rewrite (Hin 0) by (split; [lia|]; unfold MAX_AGGREGATION_KEYS; lia). cbn [event_name_ count].
  done.
Qed.
End AggregatorCaps.
